(** * Cross-stack dependency resolution of the Serverless plugin

    A shallow embedding of the dependency scanner, the stack inspector,
    the environment resolver and the remote deployment orchestrator of
    [orcdk-plugin-serverless], together with the properties its
    specification states about them.

    Conventions.  JavaScript strings are modelled as [string] over 8-bit
    characters; the texts handled here (stack names, parameter paths,
    variable names) are ASCII.  [undefined] is modelled by [None].  An
    object used as a [Record<string, string>] is the association list
    of its own properties, with unique keys; the variables of
    [process.env] are a [gmap], read and written as Node does on a
    POSIX system. *)

From Stdlib Require Import Strings.String Strings.Ascii Lists.List Arith.Arith
  Bool.Bool ZArith.ZArith Lia.
From stdpp Require Import base option gmap strings.
Import ListNotations.

Local Open Scope string_scope.
Local Open Scope list_scope.

(** String concatenation computes on literal prefixes. *)
#[local] Arguments String.append !s1 s2 : simpl nomatch.

(** ** Strings *)

Module Str.

Fixpoint allb (p : ascii -> bool) (s : string) : bool :=
  match s with
  | EmptyString => true
  | String c s' => p c && allb p s'
  end.

Definition is_char (c d : ascii) : bool := Ascii.eqb c d.

(** [lacks c s]: the character [c] does not occur in [s]. *)
Definition lacks (c : ascii) (s : string) : bool :=
  allb (fun d => negb (is_char c d)) s.

Fixpoint take (n : nat) (s : string) : string :=
  match n, s with
  | S n', String c s' => String c (take n' s')
  | _, _ => EmptyString
  end.

Fixpoint drop (n : nat) (s : string) : string :=
  match n, s with
  | S n', String _ s' => drop n' s'
  | _, _ => s
  end.

Fixpoint map (f : ascii -> ascii) (s : string) : string :=
  match s with
  | EmptyString => EmptyString
  | String c s' => String (f c) (map f s')
  end.

Definition in_range (lo hi : nat) (c : ascii) : bool :=
  (lo <=? nat_of_ascii c)%nat && (nat_of_ascii c <=? hi)%nat.

Definition is_lower (c : ascii) : bool := in_range 97 122 c.
Definition is_upper (c : ascii) : bool := in_range 65 90 c.
Definition is_digit (c : ascii) : bool := in_range 48 57 c.
Definition is_alnum (c : ascii) : bool := is_lower c || is_upper c || is_digit c.

Definition upper_char (c : ascii) : ascii :=
  if is_lower c then ascii_of_nat (nat_of_ascii c - 32) else c.
Definition lower_char (c : ascii) : ascii :=
  if is_upper c then ascii_of_nat (nat_of_ascii c + 32) else c.

(** [String.prototype.toUpperCase] and [toLowerCase] on ASCII text. *)
Definition toUpperCase : string -> string := map upper_char.
Definition toLowerCase : string -> string := map lower_char.

(** [s.startsWith(p)]. *)
Fixpoint startsWith (s p : string) : bool :=
  match p, s with
  | EmptyString, _ => true
  | String c p', String d s' => is_char c d && startsWith s' p'
  | String _ _, EmptyString => false
  end.

(** [s.includes(p)]. *)
Fixpoint includes (s p : string) : bool :=
  startsWith s p ||
  match s with
  | EmptyString => false
  | String _ s' => includes s' p
  end.

(** [s.endsWith(p)]. *)
Definition endsWith (s p : string) : bool :=
  (String.length p <=? String.length s)%nat &&
  String.eqb (drop (String.length s - String.length p) s) p.

(** [s.split(sep)] for a one-character separator: the pieces between
    the occurrences of [sep], the empty ones included. *)
Fixpoint split (sep : ascii) (s : string) : list string :=
  match s with
  | EmptyString => [EmptyString]
  | String c s' =>
      if is_char sep c then EmptyString :: split sep s'
      else match split sep s' with
           | piece :: pieces => String c piece :: pieces
           | [] => [String c EmptyString]
           end
  end.

(** [parts.join(sep)]. *)
Definition join (sep : string) (parts : list string) : string :=
  String.concat sep parts.

(** [s.lastIndexOf(c)] for a character, [None] for -1. *)
Fixpoint lastIndexOf_aux (c : ascii) (i : nat) (s : string) : option nat :=
  match s with
  | EmptyString => None
  | String d s' =>
      match lastIndexOf_aux c (S i) s' with
      | Some j => Some j
      | None => if is_char c d then Some i else None
      end
  end.

Definition lastIndexOf (c : ascii) (s : string) : option nat :=
  lastIndexOf_aux c 0 s.

(** [s.replace(pat, by)] for a string pattern: the first occurrence. *)
Fixpoint replace_first (pat by_ : string) (s : string) : string :=
  if startsWith s pat then by_ +:+ drop (String.length pat) s
  else match s with
       | EmptyString => EmptyString
       | String c s' => String c (replace_first pat by_ s')
       end.

Definition is_space (c : ascii) : bool :=
  in_range 9 13 c || is_char " " c.

Fixpoint trimStart (s : string) : string :=
  match s with
  | String c s' => if is_space c then trimStart s' else s
  | EmptyString => EmptyString
  end.

Fixpoint trimEnd (s : string) : string :=
  match s with
  | EmptyString => EmptyString
  | String c s' =>
      match trimEnd s' with
      | EmptyString => if is_space c then EmptyString else String c EmptyString
      | t => String c t
      end
  end.

(** [s.trim()] on ASCII text. *)
Definition trim (s : string) : string := trimEnd (trimStart s).

(** Truthiness of a string: only the empty string is falsy. *)
Definition truthy (s : string) : bool :=
  match s with EmptyString => false | _ => true end.

End Str.

(** ** Regular expressions

    The regular expressions of the sources are transcribed into a small
    syntax and run by a backtracking matcher that follows the
    ECMAScript semantics: alternatives are tried left to right,
    quantifiers are greedy, and an iteration of a quantifier that
    consumes nothing is rejected.  [ms r st] lists every way [r] matches
    at [st], in the order backtracking explores them; the match that
    JavaScript reports is the first. *)

Module Regex.

Inductive regex : Type :=
| Eps
| Chr (c : ascii)
| Cls (p : ascii -> bool)
| Seq (a b : regex)
| Alt (a b : regex)
| Star (a : regex)
| Grp (i : nat) (a : regex)
| Bol
| Eol.

Definition Plus (a : regex) : regex := Seq a (Star a).

(** The literal text [w]. *)
Fixpoint lit (w : string) : regex :=
  match w with
  | EmptyString => Eps
  | String c EmptyString => Chr c
  | String c w' => Seq (Chr c) (lit w')
  end.

(** [[^c]] and [.] *)
Definition Not (c : ascii) : regex := Cls (fun d => negb (Str.is_char c d)).
Definition not_newline (c : ascii) : bool :=
  negb (Str.is_char "010" c) && negb (Str.is_char "013" c).
Definition Dot : regex := Cls not_newline.

(** A matcher state: the index reached, the text that remains, and
    the capture groups set so far (most recent first). *)
Record mstate : Type := MState {
  pos : nat;
  rest : string;
  caps : list (nat * string)
}.

Definition start (i : nat) (s : string) : mstate :=
  {| pos := i; rest := s; caps := [] |}.

Definition step (st : mstate) (s' : string) : mstate :=
  {| pos := S (pos st); rest := s'; caps := caps st |}.

Definition capture (i : nat) (st st' : mstate) : mstate :=
  {| pos := pos st'; rest := rest st';
     caps := (i, Str.take (pos st' - pos st) (rest st)) :: caps st' |}.

(** Greedy iteration of a matcher [body]: one more iteration first
    (it must consume something), stopping here last.  [n] bounds the
    number of iterations by the length of the remaining text. *)
Fixpoint star_of (body : mstate -> list mstate) (n : nat) (st : mstate)
    {struct n} : list mstate :=
  match n with
  | O => [st]
  | S n' =>
      flat_map (fun st' => if (pos st <? pos st')%nat then star_of body n' st' else [])
               (body st) ++ [st]
  end.

Fixpoint ms (r : regex) (st : mstate) {struct r} : list mstate :=
  match r with
  | Eps => [st]
  | Chr c =>
      match rest st with
      | String d s' => if Str.is_char c d then [step st s'] else []
      | EmptyString => []
      end
  | Cls p =>
      match rest st with
      | String d s' => if p d then [step st s'] else []
      | EmptyString => []
      end
  | Seq a b => flat_map (ms b) (ms a st)
  | Alt a b => ms a st ++ ms b st
  | Star a => star_of (ms a) (String.length (rest st)) st
  | Grp i a => List.map (capture i st) (ms a st)
  | Bol => if (pos st =? 0)%nat then [st] else []
  | Eol => match rest st with EmptyString => [st] | _ => [] end
  end.

(** Capture group [i] of a match, [None] when it did not take part. *)
Fixpoint group_in (i : nat) (l : list (nat * string)) : option string :=
  match l with
  | [] => None
  | (j, w) :: l' => if (i =? j)%nat then Some w else group_in i l'
  end.

Definition group (i : nat) (st : mstate) : option string := group_in i (caps st).

(** The first match of [r] that starts at index [i] of the text. *)
Definition match_at (r : regex) (i : nat) (s : string) : option mstate :=
  hd_error (ms r (start i s)).

(** [r.exec(s)] for a regular expression without the [g] flag: the
    leftmost index with a match and the state that match ends in. *)
Fixpoint search (r : regex) (i : nat) (s : string) : option (nat * mstate) :=
  match match_at r i s with
  | Some st => Some (i, st)
  | None =>
      match s with
      | String _ s' => search r (S i) s'
      | EmptyString => None
      end
  end.

Definition exec (r : regex) (s : string) : option mstate :=
  option_map snd (search r 0 s).

(** [r.test(s)]. *)
Definition test (r : regex) (s : string) : bool :=
  match exec r s with Some _ => true | None => false end.

(** [s.replace(r, repl)] for a regular expression with the [g] flag.
    [skip] counts the characters of the current match still to be
    passed over; after an empty match the next character is copied. *)
Fixpoint replace_go (r : regex) (repl : mstate -> string)
    (i skip : nat) (s : string) {struct s} : string :=
  match skip with
  | S k =>
      match s with
      | String _ s' => replace_go r repl (S i) k s'
      | EmptyString => EmptyString
      end
  | O =>
      match match_at r i s with
      | Some st =>
          repl st +:+
          match s with
          | EmptyString => EmptyString
          | String c s' =>
              match pos st - i with
              | O => String c (replace_go r repl (S i) 0 s')
              | S k => replace_go r repl (S i) k s'
              end
          end
      | None =>
          match s with
          | EmptyString => EmptyString
          | String c s' => String c (replace_go r repl (S i) 0 s')
          end
      end
  end.

Definition replaceAll (r : regex) (repl : mstate -> string) (s : string) : string :=
  replace_go r repl 0 0 s.

(** [s.replace(r, repl)] for a regular expression without the [g]
    flag: the first match only. *)
Definition replaceFirst (r : regex) (repl : mstate -> string) (s : string) : string :=
  match search r 0 s with
  | Some (i, st) => Str.take i s +:+ repl st +:+ Str.drop (pos st) s
  | None => s
  end.

(** The loop [while ((m = r.exec(s)) !== null)] over a regular
    expression with the [g] flag that cannot match the empty text:
    the successive matches, left to right, none overlapping. *)
Fixpoint matches_go (r : regex) (i skip : nat) (s : string) {struct s} : list mstate :=
  match skip with
  | S k =>
      match s with
      | String _ s' => matches_go r (S i) k s'
      | EmptyString => []
      end
  | O =>
      match s with
      | EmptyString => []
      | String _ s' =>
          match match_at r i s with
          | Some st => st :: matches_go r (S i) (pos st - i - 1) s'
          | None => matches_go r (S i) 0 s'
          end
      end
  end.

Definition matchAll (r : regex) (s : string) : list mstate := matches_go r 0 0 s.

End Regex.

Import Regex.
Infix "⋅" := Seq (at level 41, right associativity).

(** ** Dependency scanner: reference parsing (dependency-scanner.ts) *)

(** [/\$\{[^}]+\}/], a nested interpolation such as [${self:provider.stage}]. *)
Definition placeholder : regex := lit "${" ⋅ Plus (Not "}") ⋅ Chr "}".

(** [/\/[^/]*\$\{[^}]+\}[^/]*-stack/] *)
Definition interpolatedStackPattern : regex :=
  Chr "/" ⋅ Star (Not "/") ⋅ placeholder ⋅ Star (Not "/") ⋅ lit "-stack".

(** [/\/([^/]*\$\{[^}]+\}[^/]*-stack)/] *)
Definition interpolatedStackCapture : regex :=
  Chr "/" ⋅ Grp 1 (Star (Not "/") ⋅ placeholder ⋅ Star (Not "/") ⋅ lit "-stack").

(** The three patterns of [extractBaseStackName], in order:
    [/\$\{[^}]+\}-(.+-stack)/], [/(.+)-\$\{[^}]+\}-(stack)/] and
    [/(.+-stack)-\$\{[^}]+\}/]. *)
Definition basePattern1 : regex :=
  placeholder ⋅ Chr "-" ⋅ Grp 1 (Plus Dot ⋅ lit "-stack").
Definition basePattern2 : regex :=
  Grp 1 (Plus Dot) ⋅ Chr "-" ⋅ placeholder ⋅ Chr "-" ⋅ Grp 2 (lit "stack").
Definition basePattern3 : regex :=
  Grp 1 (Plus Dot ⋅ lit "-stack") ⋅ Chr "-" ⋅ placeholder.

Definition basePatterns : list regex := [basePattern1; basePattern2; basePattern3].

(** [/^-+|-+$/g] and [/-+/g] *)
Definition boundaryDashes : regex := Alt (Bol ⋅ Plus (Chr "-")) (Plus (Chr "-") ⋅ Eol).
Definition dashRun : regex := Plus (Chr "-").

(** [stackName.replace(/\$\{[^}]+\}/g, '-').replace(/^-+|-+$/g, '').replace(/-+/g, '-')] *)
Definition cleanName (stackName : string) : string :=
  replaceAll dashRun (fun _ => "-")
    (replaceAll boundaryDashes (fun _ => "")
       (replaceAll placeholder (fun _ => "-") stackName)).

(** [parts.indexOf('stack')] *)
Fixpoint indexOf (x : string) (parts : list string) : option nat :=
  match parts with
  | [] => None
  | p :: parts' => if String.eqb p x then Some 0%nat else option_map S (indexOf x parts')
  end.

(** The body of the loop [for (const pattern of patterns)]: the first
    pattern that matches decides the result. *)
Fixpoint firstPattern (patterns : list regex) (stackName : string) : option (option string) :=
  match patterns with
  | [] => None
  | pattern :: patterns' =>
      match exec pattern stackName with
      | Some m =>
          if match group 2 m with Some g => String.eqb g "stack" | None => false end
          then Some (Some (default "" (group 1 m) +:+ "-stack"))
          else Some (match group 1 m with
                     | Some g => if Str.truthy g then Some g else None
                     | None => None
                     end)
      | None => firstPattern patterns' stackName
      end
  end.

(** [extractBaseStackName]; [None] is [null]. *)
Definition extractBaseStackName (stackName : string) : option string :=
  match firstPattern basePatterns stackName with
  | Some result => result
  | None =>
      let cleanName := cleanName stackName in
      if Str.endsWith cleanName "-stack" then Some cleanName
      else
        let parts := Str.split "-" cleanName in
        match
          (if Str.includes cleanName "stack" && negb (Str.endsWith cleanName "stack")
           then indexOf "stack" parts else None)
        with
        | Some stackIndex => Some (Str.join "-" (firstn (stackIndex + 1) parts))
        | None => if Str.truthy cleanName then Some (cleanName +:+ "-stack") else None
        end
  end.

(** [isKnownStackName] *)
Definition knownStackPatterns : list string :=
  ["vpc"; "rds"; "cognito"; "api-gateway"; "dynamodb"; "s3"; "lambda"; "ecs"; "eks"].

Definition isKnownStackName (name : string) : bool :=
  existsb (fun p => Str.includes (Str.toLowerCase name) p) knownStackPatterns.

(** [/\*/g] *)
Definition star_char : regex := Chr "*".

(** The loop [for (const part of pathParts)] of [extractStackFromSSMPath];
    [None] when it ends without returning. *)
Fixpoint firstStackLike (pathParts : list string) : option string :=
  match pathParts with
  | [] => None
  | part :: pathParts' =>
      let cleanPart :=
        replaceAll boundaryDashes (fun _ => "") (replaceAll star_char (fun _ => "") part) in
      if Str.includes part "*" && Str.includes part "stack" && Str.truthy cleanPart
      then Some cleanPart
      else if Str.includes part "stack" || isKnownStackName part then Some part
      else firstStackLike pathParts'
  end.

(** [cleanPath.split('/').filter(p => p && p !== '*')] *)
Definition pathPartsOf (cleanPath : string) : list string :=
  List.filter (fun p => Str.truthy p && negb (String.eqb p "*")) (Str.split "/" cleanPath).

(** [extractStackFromSSMPath]; [None] is [null]. *)
Definition extractStackFromSSMPath (ssmPath : string) : option string :=
  match
    (if test interpolatedStackPattern ssmPath
     then match exec interpolatedStackCapture ssmPath with
          | Some m => match group 1 m with
                      | Some g => if Str.truthy g then Some g else None
                      | None => None
                      end
          | None => None
          end
     else None)
  with
  | Some interpolated => extractBaseStackName interpolated
  | None =>
      let cleanPath := replaceAll placeholder (fun _ => "*") ssmPath in
      let pathParts := pathPartsOf cleanPath in
      match firstStackLike pathParts with
      | Some found => Some found
      | None =>
          match pathParts with
          | first :: _ => if Str.truthy first then Some first else None
          | [] => None
          end
      end
  end.


(** ** JavaScript objects used as string-keyed records *)

Module Obj.

(** A [Record<string, V>] whose values are primitives: the own
    properties in creation order. *)
Definition t (V : Type) : Type := list (string * V).

Section Ops.
Context {V : Type}.

(** The own property [k] of [o]. *)
Fixpoint get (k : string) (o : t V) : option V :=
  match o with
  | [] => None
  | (k', v) :: o' => if String.eqb k k' then Some v else get k o'
  end.

(** The own property [k] defined as [v], as object spread does: an
    existing property keeps its place. *)
Fixpoint define (k : string) (v : V) (o : t V) : t V :=
  match o with
  | [] => [(k, v)]
  | (k', v') :: o' =>
      if String.eqb k k' then (k', v) :: o' else (k', v') :: define k v o'
  end.

(** [o[k] = v] on an object created by an object literal.  The name
    [__proto__] is the accessor [o] inherits from
    [Object.prototype]: its setter ignores a primitive, and no own
    property is created. *)
Definition set (k : string) (v : V) (o : t V) : t V :=
  if String.eqb k "__proto__" then o else define k v o.

(** Keys that are array indices (canonical decimal numerals below
    2^32 - 1) are enumerated first, in ascending order. *)
Definition digit_val (c : ascii) : option N :=
  if Str.is_digit c then Some (N_of_ascii c - 48)%N else None.

Fixpoint parse_dec (acc : N) (s : string) : option N :=
  match s with
  | EmptyString => Some acc
  | String c s' =>
      match digit_val c with
      | Some d => parse_dec (acc * 10 + d)%N s'
      | None => None
      end
  end.

Definition array_index (k : string) : option N :=
  match k with
  | EmptyString => None
  | String c s' =>
      if Str.is_char "0" c && Str.truthy s' then None
      else match parse_dec 0 k with
           | Some n => if (n <? 4294967295)%N then Some n else None
           | None => None
           end
  end.

Fixpoint insert_index (n : N) (e : string * V) (l : list (N * (string * V)))
    : list (N * (string * V)) :=
  match l with
  | [] => [(n, e)]
  | (m, e') :: l' =>
      if (n <? m)%N then (n, e) :: l else (m, e') :: insert_index n e l'
  end.

Fixpoint index_entries (o : t V) : list (N * (string * V)) :=
  match o with
  | [] => []
  | e :: o' =>
      match array_index (fst e) with
      | Some n => insert_index n e (index_entries o')
      | None => index_entries o'
      end
  end.

Definition named_entries (o : t V) : list (string * V) :=
  List.filter (fun e => match array_index (fst e) with Some _ => false | None => true end) o.

(** [Object.entries(o)] and [Object.keys(o)]. *)
Definition entries (o : t V) : list (string * V) :=
  List.map snd (index_entries o) ++ named_entries o.

Definition keys (o : t V) : list string := List.map fst (entries o).

(** [{ ...a, ...b }] *)
Definition assign (target : t V) (source : t V) : t V :=
  fold_left (fun acc e => define (fst e) (snd e) acc) (entries source) target.

Definition spread (a b : t V) : t V := assign (assign [] a) b.

(** The last entry of a list a predicate selects. *)
Fixpoint find_last (f : string * V -> bool) (l : list (string * V))
    : option (string * V) :=
  match l with
  | [] => None
  | e :: l' =>
      match find_last f l' with
      | Some e' => Some e'
      | None => if f e then Some e else None
      end
  end.

End Ops.

End Obj.


(** ** Data model (stack-inspector.ts, types.ts, AWS SDK shapes) *)

(** A thrown value.  It is an [Error], with its [name] and [message];
    or [undefined]; or [null]; or another value that is not an
    [Error]: a boolean, a number, a string, a plain object.  Of the
    last the code observes the text [String] makes of it, its
    truthiness, and its [name] and [message] properties, which are
    strings when it has them ([None] when it has not). *)
Inductive JsError : Type :=
| MkError (name message : string)
| ThrownUndefined
| ThrownNull
| ThrownValue (text : string) (truthy : bool) (name message : option string).

Definition Error (message : string) : JsError := MkError "Error" message.
Definition TypeError (message : string) : JsError := MkError "TypeError" message.

(** Reading the property [prop] of [undefined] or [null] throws. *)
Definition cannotRead (value prop : string) : JsError :=
  TypeError ("Cannot read properties of " +:+ value +:+ " (reading '" +:+ prop +:+ "')").

Record Output : Type := { OutputKey : option string; OutputValue : option string }.
Record StackParameter : Type := { ParameterKey : option string; ParameterValue : option string }.
Record Tag : Type := { Key : option string; Value : option string }.

(** The [Stack] of a [DescribeStacks] response. *)
Record Stack : Type := {
  StackName : string;
  StackStatus : option string;
  Outputs : option (list Output);
  Parameters : option (list StackParameter);
  Tags : option (list Tag)
}.

(** A parameter of a [GetParametersByPath] response. *)
Record SsmParameter : Type := { Name : option string; SsmValue : option string }.

Record StackRequirements : Type := {
  stackName : string;
  region : string;
  outputs : Obj.t string;
  parameters : Obj.t string;
  environmentVariables : Obj.t string;
  dependencies : list string;
  status : option string;
  readyForDeployment : bool;
  ssmParameters : Obj.t string
}.

Record StackInspectionResult : Type := {
  success : bool;
  requirements : option StackRequirements;
  error : option string;
  recommendations : option (list string)
}.

Record AWSProfileConfig : Type := {
  profile : option string;
  cfg_region : option string;
  accessKeyId : option string;
  secretAccessKey : option string;
  sessionToken : option string
}.

(** The configuration the AWS clients are constructed with. *)
Record ClientConfig : Type := {
  client_region : string;
  client_credentials : option (string * string * option string)
}.

Record ValidationResult : Type := {
  valid : bool;
  missing : list string;
  resolved : Obj.t string
}.

(** ** Events, the ambient process state and effects *)

(** The events published on the bus, one constructor per event type,
    carrying the payload of the [emitEvent] call. *)
Inductive Event : Type :=
| DependencyDetected (type source target : string) (outputName : option string)
| BeforeStackInspection (stackName : string) (region profile : option string)
| AfterStackInspection (stackName : string) (requirements : StackRequirements)
    (outputsCount environmentVariablesCount dependenciesCount : nat)
    (readyForDeployment : bool)
| StackInspectionFailed (stackName error : string)
| RemoteDeployStarted (service stackName : string) (environment profile : option string)
| RemoteDeployCompleted (service : string) (environment : option string)
    (success : bool) (duration : Z) (error : option string)
| BeforeEnvironmentValidation (service environment : string)
| EnvironmentValidated (service environment : string)
    (resolvedVariables : Obj.t string) (missingVariables : list string)
| EnvironmentValidationFailed (service environment : string)
    (missingVariables errors : list string)
| BeforeServiceDeploy (service stage configPath : string)
| BeforeServicePackage (service : string)
| AfterServicePackage (service packagePath : string)
| AfterServiceDeploy (service stage : string) (success : bool) (error : option string).

(** What the code reads and writes outside its own variables:
    [process.env], the events emitted so far (oldest first) and the
    values the coming calls of [Date.now()] return. *)
Record World : Type := {
  env : gmap string string;
  events : list Event;
  clock : list Z
}.

Inductive Outcome (A : Type) : Type :=
| Ok (a : A)
| Throw (e : JsError).
Arguments Ok {A} a.
Arguments Throw {A} e.

(** A computation: it returns or throws, and leaves a new world. *)
Definition M (A : Type) : Type := World -> Outcome A * World.

Global Instance M_ret : MRet M := fun A a w => (Ok a, w).
Global Instance M_bind : MBind M := fun A B f m w =>
  match m w with
  | (Ok a, w') => f a w'
  | (Throw e, w') => (Throw e, w')
  end.
Global Instance M_throw : MThrow JsError M := fun A e w => (Throw e, w).

(** [try { m } catch (error) { h error }] *)
Definition try_catch {A : Type} (m : M A) (h : JsError -> M A) : M A :=
  fun w =>
    match m w with
    | (Ok a, w') => (Ok a, w')
    | (Throw e, w') => h e w'
    end.

(** The outcome of a call to an external collaborator. *)
Definition lift {A : Type} (o : Outcome A) : M A := fun w => (o, w).

Definition emitEvent (e : Event) : M unit :=
  fun w => (Ok tt, {| env := env w; events := events w ++ [e]; clock := clock w |}).

(** The variables of [process.env] as a whole. *)
Definition process_env : M (gmap string string) :=
  fun w => (Ok (env w), w).

(** The text of a built-in function, as [String] gives it. *)
Definition nativeFunction (name : string) : string :=
  "function " +:+ name +:+ "() { [native code] }".

(** The members [process.env] inherits from [Object.prototype], each
    with the text [String] makes of it. *)
Definition objectPrototype : Obj.t string :=
  [("constructor", nativeFunction "Object");
   ("__defineGetter__", nativeFunction "__defineGetter__");
   ("__defineSetter__", nativeFunction "__defineSetter__");
   ("hasOwnProperty", nativeFunction "hasOwnProperty");
   ("__lookupGetter__", nativeFunction "__lookupGetter__");
   ("__lookupSetter__", nativeFunction "__lookupSetter__");
   ("isPrototypeOf", nativeFunction "isPrototypeOf");
   ("propertyIsEnumerable", nativeFunction "propertyIsEnumerable");
   ("toString", nativeFunction "toString");
   ("valueOf", nativeFunction "valueOf");
   ("__proto__", "[object Object]");
   ("toLocaleString", nativeFunction "toLocaleString")].

(** [process.env[k]], read as a string: the variable [k] when it is
    set; otherwise the member of that name the object inherits, if
    any; otherwise [undefined]. *)
Definition env_get (processEnv : gmap string string) (k : string) : option string :=
  match processEnv !! k with
  | Some v => Some v
  | None => Obj.get k objectPrototype
  end.

Definition getenv (k : string) : M (option string) :=
  fun w => (Ok (env_get (env w) k), w).

(** The names the system accepts for a variable: not empty, without
    [=]. *)
Definition settable (k : string) : bool := Str.truthy k && Str.lacks "=" k.

(** [process.env[k] = v]: the variable is set; the system refuses the
    other names, and Node drops the assignment. *)
Definition setenv (k v : string) : M unit :=
  fun w =>
    (Ok tt,
     if settable k
     then {| env := <[k := v]> (env w); events := events w; clock := clock w |}
     else w).

(** [Date.now()] *)
Definition Date_now : M Z :=
  fun w =>
    match clock w with
    | t :: later => (Ok t, {| env := env w; events := events w; clock := later |})
    | [] => (Ok 0%Z, w)
    end.

(** [for (const x of xs) { body x }] *)
Fixpoint for_each {A : Type} (xs : list A) (body : A -> M unit) : M unit :=
  match xs with
  | [] => mret tt
  | x :: xs' => body x ;; for_each xs' body
  end.

(** [a || b] on possibly undefined strings. *)
Definition or_else (a b : option string) : option string :=
  match a with
  | Some s => if Str.truthy s then a else b
  | None => b
  end.

Definition is_truthy (a : option string) : bool :=
  match a with Some s => Str.truthy s | None => false end.

(** [error instanceof Error ? error.message : String(error)] *)
Definition errorMessage (e : JsError) : string :=
  match e with
  | MkError _ message => message
  | ThrownUndefined => "undefined"
  | ThrownNull => "null"
  | ThrownValue text _ _ _ => text
  end.

(** The truthiness of a thrown value. *)
Definition errorTruthy (e : JsError) : bool :=
  match e with
  | MkError _ _ => true
  | ThrownUndefined | ThrownNull => false
  | ThrownValue _ truthy _ _ => truthy
  end.

(** [new Set(...)] insertion: [dependencies.add(d)]. *)
Definition set_add (d : string) (l : list string) : list string :=
  if existsb (String.eqb d) l then l else l ++ [d].

(** ** Dependency scanner: scanning a configuration file *)

(** [path.resolve] on a POSIX system: a relative path is taken from the
    working directory, then [.], [..] and empty segments are resolved
    away. *)
Fixpoint normalize_segments (segments acc : list string) : list string :=
  match segments with
  | [] => rev acc
  | seg :: segments' =>
      if String.eqb seg "" || String.eqb seg "." then normalize_segments segments' acc
      else if String.eqb seg ".." then normalize_segments segments' (tl acc)
      else normalize_segments segments' (seg :: acc)
  end.

Definition path_segments (absolute : string) : list string :=
  normalize_segments (Str.split "/" absolute) [].

Definition path_resolve (cwd p : string) : string :=
  let absolute := if Str.startsWith p "/" then p else cwd +:+ "/" +:+ p in
  "/" +:+ Str.join "/" (path_segments absolute).

(** The segments [path.normalize] keeps: empty segments and [.] are
    dropped, [..] removes the segment before it; in a relative path a
    [..] that has nothing to remove is kept. *)
Fixpoint normalizeString (allowAboveRoot : bool) (segments acc : list string)
    : list string :=
  match segments with
  | [] => rev acc
  | seg :: segments' =>
      if String.eqb seg "" || String.eqb seg "."
      then normalizeString allowAboveRoot segments' acc
      else if String.eqb seg ".."
      then
        match acc with
        | last :: acc' =>
            if String.eqb last ".."
            then normalizeString allowAboveRoot segments'
                   (if allowAboveRoot then ".." :: acc else acc)
            else normalizeString allowAboveRoot segments' acc'
        | [] => normalizeString allowAboveRoot segments' (if allowAboveRoot then [".."] else [])
        end
      else normalizeString allowAboveRoot segments' (seg :: acc)
  end.

(** [path.normalize] on a POSIX system. *)
Definition path_normalize (p : string) : string :=
  if negb (Str.truthy p) then "."
  else
    let isAbsolute := Str.startsWith p "/" in
    let trailingSeparator := Str.endsWith p "/" in
    let kept := Str.join "/" (normalizeString (negb isAbsolute) (Str.split "/" p) []) in
    if negb (Str.truthy kept)
    then if isAbsolute then "/" else if trailingSeparator then "./" else "."
    else
      let kept := if trailingSeparator then kept +:+ "/" else kept in
      if isAbsolute then "/" +:+ kept else kept.

(** [path.join(...parts)] on a POSIX system. *)
Definition path_join (parts : list string) : string :=
  match List.filter Str.truthy parts with
  | [] => "."
  | kept => path_normalize (Str.join "/" kept)
  end.

(** [/\$\{ssm:((?:[^$}]|\$\{[^}]+\})+)\}/g] and
    [/\$\{cf:((?:[^$}]|\$\{[^}]+\})+)\}/g] *)
Definition payload_char (c : ascii) : bool :=
  negb (Str.is_char "$" c) && negb (Str.is_char "}" c).

Definition payload : regex := Plus (Alt (Cls payload_char) placeholder).

Definition ssmPattern : regex := lit "${ssm:" ⋅ Grp 1 payload ⋅ Chr "}".
Definition cfPattern : regex := lit "${cf:" ⋅ Grp 1 payload ⋅ Chr "}".

(** The size ceiling of [loadConfig], in bytes. *)
Definition maxFileSizeMB : N := 10.
Definition maxFileSize : N := maxFileSizeMB * 1024 * 1024.

Section Scanner.

(** The file system, the YAML library and the working directory. *)
Variable Doc : Type.
Variable fs_stat : string -> Outcome N.
Variable fs_readFile : string -> Outcome string.
Variable yaml_load : string -> Outcome Doc.
Variable yaml_dump : Doc -> Outcome string.
Variable cwd : string.

(** [isPathSafe] *)
Definition isPathSafe (filePath : string) (projectRoot : option string) : bool :=
  let resolvedPath := path_resolve cwd filePath in
  let baseDir :=
    if is_truthy projectRoot then path_resolve cwd (default "" projectRoot) else cwd in
  Str.startsWith resolvedPath baseDir.

(** [loadConfig] *)
Definition loadConfig (configPath : string) : M Doc :=
  size ← lift (fs_stat configPath);
  if (maxFileSize <? size)%N
  then mthrow (Error ("File " +:+ configPath +:+ " exceeds maximum size limit of 10MB"))
  else
    content ← lift (fs_readFile configPath);
    lift (yaml_load content).

Definition emitDependencyEvent (type source target : string) : M unit :=
  emitEvent (DependencyDetected type source target None).

Definition emitCFDependencyEvent (source target outputName : string) : M unit :=
  emitEvent (DependencyDetected "cloudformation" source target (Some outputName)).

(** The body of the [while] loop of [scanSSMReferences], run over the
    successive matches. *)
Fixpoint scanSSM_loop (filePath : string) (found : list mstate)
    (dependencies : list string) : M (list string) :=
  match found with
  | [] => mret dependencies
  | m :: found' =>
      match
        (if is_truthy (group 1 m)
         then extractStackFromSSMPath (default "" (group 1 m)) else None)
      with
      | Some stackName =>
          if Str.truthy stackName
          then emitDependencyEvent "ssm" filePath stackName ;;
               scanSSM_loop filePath found' (set_add stackName dependencies)
          else scanSSM_loop filePath found' dependencies
      | None => scanSSM_loop filePath found' dependencies
      end
  end.

(** [scanSSMReferences] *)
Definition scanSSMReferences (content : Doc) (filePath : string) : M (list string) :=
  yamlString ← lift (yaml_dump content);
  scanSSM_loop filePath (matchAll ssmPattern yamlString) [].

(** What one [${cf:...}] reference contributes: the stack it names
    and the output name, if any. *)
Definition cfImport (cfRef : string) : option (string * string) :=
  if negb (Str.truthy cfRef) then None
  else
    match Str.lastIndexOf "." cfRef with
    | Some lastDotIndex =>
        if (0 <? lastDotIndex)%nat
        then
          let stackName := Str.take lastDotIndex cfRef in
          let outputName := Str.drop (lastDotIndex + 1) cfRef in
          if Str.truthy stackName && Str.truthy outputName
          then
            if negb (Str.includes stackName "${") then Some (stackName, outputName)
            else match extractBaseStackName stackName with
                 | Some baseName =>
                     if Str.truthy baseName then Some (baseName, outputName) else None
                 | None => None
                 end
          else None
        else None
    | None => None
    end.

Fixpoint scanCF_loop (filePath : string) (found : list mstate)
    (dependencies : list string) : M (list string) :=
  match found with
  | [] => mret dependencies
  | m :: found' =>
      match cfImport (default "" (group 1 m)) with
      | Some (stackName, outputName) =>
          emitCFDependencyEvent filePath stackName outputName ;;
          scanCF_loop filePath found' (set_add stackName dependencies)
      | None => scanCF_loop filePath found' dependencies
      end
  end.

(** [scanCFImports] *)
Definition scanCFImports (content : Doc) (filePath : string) : M (list string) :=
  yamlString ← lift (yaml_dump content);
  scanCF_loop filePath (matchAll cfPattern yamlString) [].

(** The [try] block of [scanDependencies]. *)
Definition scanDependencies_body (configPath : string) (projectRoot : option string)
    : M (list string) :=
  if negb (isPathSafe configPath projectRoot)
  then mthrow (Error ("Invalid path: " +:+ configPath +:+ " is outside project boundaries"))
  else
    content ← loadConfig configPath;
    ssmDeps ← scanSSMReferences content configPath;
    cfDeps ← scanCFImports content configPath;
    mret (fold_left (fun deps d => set_add d deps) cfDeps
            (fold_left (fun deps d => set_add d deps) ssmDeps [])).

(** [scanDependencies] *)
Definition scanDependencies (configPath : string) (projectRoot : option string)
    : M (list string) :=
  try_catch (scanDependencies_body configPath projectRoot) (fun _ => mret []).

End Scanner.

(** ** Stack inspector (stack-inspector.ts) *)

(** [/([a-z])([A-Z])/g], [/[^a-zA-Z0-9]/g], [/_{2,}/g], [/^_|_$/g] and
    [/^\/+/] *)
Definition camelBoundary : regex := Grp 1 (Cls Str.is_lower) ⋅ Grp 2 (Cls Str.is_upper).
Definition nonAlnum : regex := Cls (fun c => negb (Str.is_alnum c)).
Definition underscoreRun : regex := Chr "_" ⋅ Chr "_" ⋅ Star (Chr "_").
Definition boundaryUnderscore : regex := Alt (Bol ⋅ Chr "_") (Chr "_" ⋅ Eol).
Definition leadingSlashes : regex := Bol ⋅ Plus (Chr "/").

(** [/arn:aws:cloudformation:[^:]+:[^:]+:stack\/([^\/]+)/] *)
Definition stackArn : regex :=
  lit "arn:aws:cloudformation:" ⋅ Plus (Not ":") ⋅ Chr ":" ⋅ Plus (Not ":") ⋅
  lit ":stack/" ⋅ Grp 1 (Plus (Not "/")).

(** The replacement ['$1_$2']. *)
Definition camelReplacement (m : mstate) : string :=
  default "" (group 1 m) +:+ "_" +:+ default "" (group 2 m).

(** The name an output key gets:
    [key.replace(/([a-z])([A-Z])/g, '$1_$2').toUpperCase()] *)
Definition outputEnvVarName (key : string) : string :=
  Str.toUpperCase (replaceAll camelBoundary camelReplacement key).

(** The name a configuration-store key gets:
    [key.replace(/[^a-zA-Z0-9]/g, '_').replace(/_{2,}/g, '_')
        .replace(/^_|_$/g, '').toUpperCase()] *)
Definition ssmEnvVarName (key : string) : string :=
  Str.toUpperCase
    (replaceAll boundaryUnderscore (fun _ => "")
       (replaceAll underscoreRun (fun _ => "_")
          (replaceAll nonAlnum (fun _ => "_") key))).

(** [generateEnvVarsFromOutputs] *)
Definition generateEnvVarsFromOutputs (outputs : Obj.t string) : Obj.t string :=
  fold_left (fun envVars e => Obj.set (outputEnvVarName (fst e)) (snd e) envVars)
            (Obj.entries outputs) [].

(** [generateEnvVarsFromSSM] *)
Definition generateEnvVarsFromSSM (ssmParams : Obj.t string) : Obj.t string :=
  fold_left (fun envVars e =>
               let envVarName := ssmEnvVarName (fst e) in
               if Str.truthy envVarName then Obj.set envVarName (snd e) envVars
               else envVars)
            (Obj.entries ssmParams) [].

(** [extractOutputs] and [extractParameters] *)
Definition extractOutputs (stack : Stack) : Obj.t string :=
  fold_left (fun outputs output =>
               if is_truthy (OutputKey output) && is_truthy (OutputValue output)
               then Obj.set (default "" (OutputKey output))
                            (default "" (OutputValue output)) outputs
               else outputs)
            (default [] (Outputs stack)) [].

Definition extractParameters (stack : Stack) : Obj.t string :=
  fold_left (fun parameters param =>
               if is_truthy (ParameterKey param) && is_truthy (ParameterValue param)
               then Obj.set (default "" (ParameterKey param))
                            (default "" (ParameterValue param)) parameters
               else parameters)
            (default [] (Parameters stack)) [].

(** [[...new Set(dependencies)]] *)
Definition dedupe (l : list string) : list string :=
  fold_left (fun acc d => set_add d acc) l [].

(** [extractDependencies] *)
Definition extractDependencies (stack : Stack) : list string :=
  let fromTags :=
    flat_map (fun tag =>
                if match Key tag with Some k => String.eqb k "Dependencies" | None => false end
                   && is_truthy (Value tag)
                then List.map Str.trim (Str.split "," (default "" (Value tag)))
                else [])
             (default [] (Tags stack)) in
  let fromOutputs :=
    flat_map (fun output =>
                if is_truthy (OutputValue output)
                   && Str.includes (default "" (OutputValue output)) "arn:aws:cloudformation"
                then match exec stackArn (default "" (OutputValue output)) with
                     | Some m =>
                         if is_truthy (group 1 m)
                            && negb (String.eqb (default "" (group 1 m)) (StackName stack))
                         then [default "" (group 1 m)] else []
                     | None => []
                     end
                else [])
             (default [] (Outputs stack)) in
  dedupe (fromTags ++ fromOutputs).

(** [isStackReady] *)
Definition readyStatuses : list string := ["CREATE_COMPLETE"; "UPDATE_COMPLETE"].

Definition isStackReady (stack : Stack) : bool :=
  existsb (String.eqb (default "" (or_else (StackStatus stack) (Some "")))) readyStatuses.

(** [generateErrorRecommendations] *)
Definition generateErrorRecommendations (e : JsError) : list string :=
  if negb (errorTruthy e) then [] else
  let errorMessage := errorMessage e in
  if Str.includes errorMessage "AccessDenied" || Str.includes errorMessage "UnauthorizedOperation"
  then ["Check that your AWS credentials have CloudFormation:DescribeStacks permission";
        "Verify the correct AWS profile is being used";
        "Ensure the stack exists in the correct AWS account"]
  else if Str.includes errorMessage "ValidationError"
  then ["Verify the stack name is correct and exists";
        "Check that you are querying the correct AWS region";
        "Ensure the stack is not in a DELETE_COMPLETE state"]
  else if Str.includes errorMessage "does not exist"
  then ["Create the stack first using CDK or CloudFormation";
        "Verify you are connected to the correct AWS account";
        "Check the correct region is specified"]
  else ["Check your internet connection";
        "Verify AWS credentials are configured";
        "Try again with a different AWS profile or region"].

(** [param.Name.replace(pathPattern, '').replace(/^\/+/, '')] *)
Definition cleanParameterName (pathPattern name : string) : string :=
  replaceFirst leadingSlashes (fun _ => "") (Str.replace_first pathPattern "" name).

Section Inspector.

(** The control plane and the configuration store: what a
    [DescribeStacks] and a [GetParametersByPath] request answer, given
    the process environment and the client configuration. *)
Variable cfn_send : gmap string string -> ClientConfig -> string -> Outcome (option (list Stack)).
Variable ssm_send :
  gmap string string -> ClientConfig -> string -> Outcome (option (list SsmParameter)).

(** [initializeClients]; the result stands for the two clients. *)
Definition initializeClients (config : AWSProfileConfig) : M ClientConfig :=
  awsRegion ← getenv "AWS_REGION";
  let region :=
    default "us-east-1" (or_else (or_else (cfg_region config) awsRegion) (Some "us-east-1")) in
  if is_truthy (accessKeyId config) && is_truthy (secretAccessKey config)
  then mret {| client_region := region;
               client_credentials :=
                 Some (default "" (accessKeyId config),
                       default "" (secretAccessKey config), sessionToken config) |}
  else if is_truthy (profile config)
  then setenv "AWS_PROFILE" (default "" (profile config)) ;;
       mret {| client_region := region; client_credentials := None |}
  else mret {| client_region := region; client_credentials := None |}.

Definition send_cfn (client : ClientConfig) (stackName : string)
    : M (option (list Stack)) :=
  fun w => (cfn_send (env w) client stackName, w).

Definition send_ssm (client : ClientConfig) (path : string)
    : M (option (list SsmParameter)) :=
  fun w => (ssm_send (env w) client path, w).

(** [getStackDetails]; [None] is [null]. *)
Definition getStackDetails (client : ClientConfig) (stackName : string)
    : M (option Stack) :=
  try_catch
    (response ← send_cfn client stackName;
     mret (match response with
           | Some (stack :: _) => Some stack
           | _ => None
           end))
    (fun error =>
       match error with
       | MkError name message =>
           if String.eqb name "ValidationError" && Str.includes message "does not exist"
           then mret None
           else mthrow error
       | ThrownUndefined => mthrow (cannotRead "undefined" "name")
       | ThrownNull => mthrow (cannotRead "null" "name")
       | ThrownValue _ _ name message =>
           if match name with Some n => String.eqb n "ValidationError" | None => false end
              && match message with
                 | Some m => Str.includes m "does not exist"
                 | None => false
                 end
           then mret None
           else mthrow error
       end).

(** The parameters one response adds to [ssmParameters]. *)
Definition addSsmParameters (pathPattern : string) (params : list SsmParameter)
    (ssmParameters : Obj.t string) : Obj.t string :=
  fold_left (fun acc param =>
               if is_truthy (Name param) && is_truthy (SsmValue param)
               then
                 let cleanName := cleanParameterName pathPattern (default "" (Name param)) in
                 if Str.truthy cleanName
                 then Obj.set cleanName (default "" (SsmValue param)) acc
                 else acc
               else acc)
            params ssmParameters.

Definition ssmPathPatterns (stackName : string) : list string :=
  ["/" +:+ stackName +:+ "/";
   "/" +:+ Str.toLowerCase stackName +:+ "/";
   "/stacks/" +:+ stackName +:+ "/";
   "/cdk/" +:+ stackName +:+ "/"].

Fixpoint probePaths (client : ClientConfig) (pathPatterns : list string)
    (ssmParameters : Obj.t string) : M (Obj.t string) :=
  match pathPatterns with
  | [] => mret ssmParameters
  | pathPattern :: pathPatterns' =>
      found ← try_catch
                (response ← send_ssm client pathPattern;
                 mret (match response with
                       | Some params => addSsmParameters pathPattern params ssmParameters
                       | None => ssmParameters
                       end))
                (fun _ => mret ssmParameters);
      probePaths client pathPatterns' found
  end.

(** [extractSSMParameters] *)
Definition extractSSMParameters (client : ClientConfig) (stack : Stack)
    : M (Obj.t string) :=
  probePaths client (ssmPathPatterns (StackName stack)) [].

(** [extractRequirements] *)
Definition extractRequirements (client : ClientConfig) (stack : Stack)
    (profileConfig : AWSProfileConfig) : M StackRequirements :=
  let outputs := extractOutputs stack in
  let parameters := extractParameters stack in
  ssmParameters ← extractSSMParameters client stack;
  let environmentVariables :=
    Obj.spread (generateEnvVarsFromOutputs outputs) (generateEnvVarsFromSSM ssmParameters) in
  let dependencies := extractDependencies stack in
  let readyForDeployment := isStackReady stack in
  awsRegion ← getenv "AWS_REGION";
  mret {| stackName := StackName stack;
          region := default "us-east-1"
                      (or_else (or_else (cfg_region profileConfig) awsRegion)
                               (Some "us-east-1"));
          outputs := outputs;
          parameters := parameters;
          environmentVariables := environmentVariables;
          dependencies := dependencies;
          status := StackStatus stack;
          readyForDeployment := readyForDeployment;
          ssmParameters := ssmParameters |}.

Definition emitBeforeInspectionEvent (stackName : string) (config : AWSProfileConfig)
    : M unit :=
  emitEvent (BeforeStackInspection stackName (cfg_region config) (profile config)).

Definition emitAfterInspectionEvent (stackName : string) (requirements : StackRequirements)
    : M unit :=
  emitEvent (AfterStackInspection stackName requirements
               (length (Obj.keys (outputs requirements)))
               (length (Obj.keys (environmentVariables requirements)))
               (length (dependencies requirements))
               (readyForDeployment requirements)).

Definition emitInspectionErrorEvent (stackName error : string) : M unit :=
  emitEvent (StackInspectionFailed stackName error).

Definition stackNotFound (stackName : string) : StackInspectionResult :=
  {| success := false;
     requirements := None;
     error := Some ("Stack '" +:+ stackName +:+ "' not found or not accessible");
     recommendations :=
       Some ["Verify the stack name is correct";
             "Check that the stack exists in the specified region";
             "Ensure your AWS credentials have permission to describe the stack"] |}.

(** [inspectStack] *)
Definition inspectStack (stackName : string) (profileConfig : AWSProfileConfig)
    : M StackInspectionResult :=
  emitBeforeInspectionEvent stackName profileConfig ;;
  try_catch
    (client ← initializeClients profileConfig;
     stackData ← getStackDetails client stackName;
     match stackData with
     | None => mret (stackNotFound stackName)
     | Some stack =>
         requirements ← extractRequirements client stack profileConfig;
         emitAfterInspectionEvent stackName requirements ;;
         mret {| success := true; requirements := Some requirements;
                 error := None; recommendations := None |}
     end)
    (fun error =>
       let errorMessage := errorMessage error in
       emitInspectionErrorEvent stackName errorMessage ;;
       mret {| success := false; requirements := None;
               error := Some errorMessage;
               recommendations := Some (generateErrorRecommendations error) |}).

End Inspector.

(** ** Plugin: environment resolution and remote deployment (index.ts) *)

Record ServerlessService : Type := {
  name : string;
  path : string;
  configFile : string;
  svc_dependencies : list string
}.

Record ServerlessDeploymentOptions : Type := {
  stage : string;
  opt_region : option string;
  environment : option string;
  dryRun : bool
}.

(** The part of the plugin's configuration and state the code below
    reads: [config.enableRemoteDeployment], [config.stackInspection] and
    whether [initialize] created the stack inspector. *)
Record PluginConfig : Type := {
  enableRemoteDeployment : bool;
  defaultProfile : option string;
  defaultRegion : option string;
  hasStackInspector : bool
}.

Definition pluginName : string := "@orcdkestrator/orcdk-plugin-serverless".

(** [sources.find(v => v !== undefined)] *)
Fixpoint firstDefined (sources : list (option string)) : option string :=
  match sources with
  | [] => None
  | Some v :: _ => Some v
  | None :: sources' => firstDefined sources'
  end.

(** The name of the environment-scoped override of a variable. *)
Definition scopedName (environment varName : string) : string :=
  Str.toUpperCase environment +:+ "_" +:+ varName.

(** The sources of one variable, in the order they are consulted, each
    as the text [String] makes of it. *)
Definition sourcesOf (processEnv : gmap string string) (environment varName : string)
    (stackValue : option string) : list (option string) :=
  [env_get processEnv varName; env_get processEnv (scopedName environment varName);
   stackValue].

(** [String(sources.find(v => v !== undefined))]; [None] when [find]
    finds nothing. *)
Definition resolveValue (processEnv : gmap string string) (environment varName : string)
    (stackValue : option string) : option string :=
  firstDefined (sourcesOf processEnv environment varName stackValue).

(** The loop of [validateEnvironmentVariables] over the entries of
    [stackRequirements.environmentVariables]; a value of [None] is a
    property whose value is [undefined]. *)
Fixpoint resolveEntries (processEnv : gmap string string) (environment : string)
    (entries : list (string * option string))
    (resolved : Obj.t string) (missing : list string) : Obj.t string * list string :=
  match entries with
  | [] => (resolved, missing)
  | (varName, stackValue) :: entries' =>
      match resolveValue processEnv environment varName stackValue with
      | Some resolvedValue =>
          resolveEntries processEnv environment entries'
            (Obj.set varName resolvedValue resolved) missing
      | None =>
          resolveEntries processEnv environment entries' resolved (missing ++ [varName])
      end
  end.

(** The argument [stackRequirements], of type [any]: [undefined],
    [null], or a value with its [environmentVariables] property ([None]
    when the property is absent or falsy). *)
Inductive RequirementsArg : Type :=
| ArgUndefined
| ArgNull
| ArgObject (environmentVariables : option (Obj.t (option string))).

(** [stackRequirements.environmentVariables || {}] *)
Definition declaredOf (stackRequirements : RequirementsArg) : M (Obj.t (option string)) :=
  match stackRequirements with
  | ArgUndefined => mthrow (cannotRead "undefined" "environmentVariables")
  | ArgNull => mthrow (cannotRead "null" "environmentVariables")
  | ArgObject environmentVariables => mret (default [] environmentVariables)
  end.

(** [validateEnvironmentVariables] *)
Definition validateEnvironmentVariables (serviceName environment : string)
    (stackRequirements : RequirementsArg) : M ValidationResult :=
  emitEvent (BeforeEnvironmentValidation serviceName environment) ;;
  try_catch
    (declared ← declaredOf stackRequirements;
     processEnv ← process_env;
     let '(resolved, missing) :=
       resolveEntries processEnv environment (Obj.entries declared) [] [] in
     let valid := (length missing =? 0)%nat in
     (if valid
      then emitEvent (EnvironmentValidated serviceName environment resolved missing)
      else emitEvent (EnvironmentValidationFailed serviceName environment missing
                        (List.map (fun v => "Missing required environment variable: " +:+ v)
                                  missing))) ;;
     mret {| valid := valid; missing := missing; resolved := resolved |})
    (fun error =>
       emitEvent (EnvironmentValidationFailed serviceName environment []
                    [errorMessage error]) ;;
       mthrow error).

(** The view [validateEnvironmentVariables] gets of inspected
    requirements: every derived variable has a value. *)
Definition declaredVariables (requirements : StackRequirements) : RequirementsArg :=
  ArgObject
    (Some (List.map (fun e => (fst e, Some (snd e))) (environmentVariables requirements))).

(** The line feed of the template literals. *)
Definition newline : string := String "010" EmptyString.

(** [Math.round((end - start) / 1000)] *)
Definition roundSeconds (startTime endTime : Z) : Z :=
  ((endTime - startTime + 500) / 1000)%Z.

Section Plugin.

Variable cfn_send : gmap string string -> ClientConfig -> string -> Outcome (option (list Stack)).
Variable ssm_send :
  gmap string string -> ClientConfig -> string -> Outcome (option (list SsmParameter)).

(** The delegated local deployment's collaborators: the file system,
    the Serverless CLI wrapper and the hot-reload watcher ([None]
    when hot reloading is off). *)
Variable fs_existsSync : string -> bool.
Variable cli_hasServerlessCLI : Outcome bool.
Variable cli_package : string -> string -> option string -> Outcome unit.
Variable cli_deploy : string -> string -> option string -> Outcome unit.
Variable hotReload_startWatching : option (ServerlessService -> Outcome unit).

Variable config : PluginConfig.

(** [shouldEnableHotReload] *)
Definition shouldEnableHotReload (options : ServerlessDeploymentOptions) : bool :=
  String.eqb (stage options) "local" || String.eqb (stage options) "dev".

(** [deployServiceLocal]; the [outputs] of the closing event are left
    out of the payload. *)
Definition deployServiceLocal (service : ServerlessService)
    (options : ServerlessDeploymentOptions) : M unit :=
  emitEvent (BeforeServiceDeploy (name service) (stage options) (configFile service)) ;;
  try_catch
    (if negb (Str.truthy (configFile service)) || negb (fs_existsSync (configFile service))
     then mthrow (Error ("Serverless configuration file not found: " +:+
                         (if Str.truthy (configFile service)
                          then configFile service else "serverless.yml")))
     else
       available ← lift cli_hasServerlessCLI;
       if negb available
       then mthrow (Error
         "Serverless Framework CLI not found. Please install it: npm install -g serverless")
       else
         emitEvent (BeforeServicePackage (name service)) ;;
         lift (cli_package (path service) (stage options) (opt_region options)) ;;
         emitEvent (AfterServicePackage (name service)
                      (path_join [path service; ".serverless"])) ;;
         (if negb (dryRun options)
          then lift (cli_deploy (path service) (stage options) (opt_region options))
          else mret tt) ;;
         emitEvent (AfterServiceDeploy (name service) (stage options) true None) ;;
         match hotReload_startWatching with
         | Some startWatching =>
             if shouldEnableHotReload options then lift (startWatching service) else mret tt
         | None => mret tt
         end)
    (fun error =>
       emitEvent (AfterServiceDeploy (name service) (stage options) false
                    (Some (errorMessage error))) ;;
       mthrow error).

(** The plugin's [inspectStack] *)
Definition plugin_inspectStack (stackName : string) (profile region : option string)
    : M StackInspectionResult :=
  if negb (hasStackInspector config)
  then mthrow (Error
    "Stack inspection is not enabled. Set enableRemoteDeployment: true in plugin config.")
  else
    inspectStack cfn_send ssm_send stackName
      {| profile := or_else profile (defaultProfile config);
         cfg_region := or_else region (defaultRegion config);
         accessKeyId := None; secretAccessKey := None; sessionToken := None |}.

(** The message of the error raised when variables are missing. *)
Definition missingVariablesMessage (requirements : StackRequirements)
    (validation : ValidationResult) : string :=
  "Missing required environment variables: " +:+ Str.join ", " (missing validation) +:+
  newline +:+
  "Available from stack: " +:+
  Str.join ", " (Obj.keys (environmentVariables requirements)) +:+ newline +:+
  "Recommendations:" +:+ newline +:+
  Str.join newline (List.map (fun v => "  - Set " +:+ v +:+ "=" +:+
                            default "<value>"
                              (or_else (Obj.get v (environmentVariables requirements))
                                       (Some "<value>")))
                   (missing validation)).

(** One turn of the loop over [service.dependencies]: inspect, gate on
    readiness, resolve the variables and inject them. *)
Definition checkDependency (service : ServerlessService)
    (options : ServerlessDeploymentOptions) (stackName : string) : M unit :=
  inspectionResult ← plugin_inspectStack stackName (defaultProfile config) (defaultRegion config);
  if negb (success inspectionResult)
  then mthrow (Error ("Stack inspection failed for " +:+ stackName +:+ ": " +:+
                      default "undefined" (error inspectionResult)))
  else
    match requirements inspectionResult with
    | None =>
        mthrow (Error ("Stack " +:+ stackName +:+
                       " is not ready for deployment. Status: undefined"))
    | Some reqs =>
        if negb (readyForDeployment reqs)
        then mthrow (Error ("Stack " +:+ stackName +:+
                            " is not ready for deployment. Status: " +:+
                            default "undefined" (status reqs)))
        else
          validation ← validateEnvironmentVariables (name service)
                         (default "default" (or_else (environment options) (Some "default")))
                         (declaredVariables reqs);
          if negb (valid validation)
          then mthrow (Error (missingVariablesMessage reqs validation))
          else
            for_each (Obj.entries (resolved validation))
                     (fun e => setenv (fst e) (snd e))
    end.

(** [deployServiceRemote] *)
Definition deployServiceRemote (service : ServerlessService)
    (options : ServerlessDeploymentOptions) : M unit :=
  emitEvent (RemoteDeployStarted (name service)
               (default (name service)
                  (or_else (Some (Str.join "," (svc_dependencies service)))
                           (Some (name service))))
               (environment options) (defaultProfile config)) ;;
  startTime ← Date_now;
  try_catch
    (for_each (svc_dependencies service) (checkDependency service options) ;;
     deployServiceLocal service options ;;
     endTime ← Date_now;
     emitEvent (RemoteDeployCompleted (name service) (environment options) true
                  (roundSeconds startTime endTime) None))
    (fun error =>
       endTime ← Date_now;
       emitEvent (RemoteDeployCompleted (name service) (environment options) false
                    (roundSeconds startTime endTime) (Some (errorMessage error))) ;;
       mthrow error).

(** [deployService] *)
Definition deployService (service : ServerlessService)
    (options : ServerlessDeploymentOptions) : M unit :=
  if enableRemoteDeployment config && is_truthy (environment options)
  then deployServiceRemote service options
  else deployServiceLocal service options.

End Plugin.

(** ** The variable names, as the specification words them *)

Module NameSpec.
Import Str.

(** "Insert a separator between a lowercase-then-uppercase
    transition, then upper-case the whole string." *)
Fixpoint insertBoundaries (s : string) : string :=
  match s with
  | EmptyString => EmptyString
  | String a s' =>
      match s' with
      | String b _ =>
          if is_lower a && is_upper b
          then String a (String "_" (insertBoundaries s'))
          else String a (insertBoundaries s')
      | EmptyString => String a EmptyString
      end
  end.

Definition outputName (key : string) : string := toUpperCase (insertBoundaries key).

(** "Replace all non-alphanumeric runs with a single separator, trim
    boundary separators, and upper-case." *)
Fixpoint collapseRuns (s : string) : string :=
  match s with
  | EmptyString => EmptyString
  | String c s' =>
      if is_alnum c then String c (collapseRuns s')
      else match s' with
           | String d _ =>
               if is_alnum d then String "_" (collapseRuns s') else collapseRuns s'
           | EmptyString => String "_" EmptyString
           end
  end.

Fixpoint stripLeading (s : string) : string :=
  match s with
  | String c s' => if is_char "_" c then stripLeading s' else s
  | EmptyString => EmptyString
  end.

Fixpoint stripTrailing (s : string) : string :=
  match s with
  | EmptyString => EmptyString
  | String c s' =>
      match stripTrailing s' with
      | EmptyString => if is_char "_" c then EmptyString else String c EmptyString
      | t => String c t
      end
  end.

Definition trimSeparators (s : string) : string := stripTrailing (stripLeading s).

Definition storeName (key : string) : string :=
  toUpperCase (trimSeparators (collapseRuns key)).

End NameSpec.

(** Intermediate forms used to relate the three replacements of
    [ssmEnvVarName] to [NameSpec.storeName]. *)
Module NameAux.
Import Str.

(** What [/[^a-zA-Z0-9]/g -> '_'] does to one character. *)
Definition underscoreOther (c : ascii) : ascii := if is_alnum c then c else "_"%char.

(** The number of leading occurrences of [c]. *)
Fixpoint runLength (c : ascii) (s : string) : nat :=
  match s with
  | String d s' => if is_char c d then S (runLength c s') else 0
  | EmptyString => 0
  end.

(** Every run of underscores replaced by one underscore. *)
Fixpoint collapseUnderscores (s : string) : string :=
  match s with
  | EmptyString => EmptyString
  | String c s' =>
      if is_char "_" c
      then match s' with
           | String d _ =>
               if is_char "_" d then collapseUnderscores s'
               else String "_" (collapseUnderscores s')
           | EmptyString => String "_" EmptyString
           end
      else String c (collapseUnderscores s')
  end.

(** A final underscore removed. *)
Fixpoint dropLastUnderscore (s : string) : string :=
  match s with
  | EmptyString => EmptyString
  | String c s' =>
      match s' with
      | EmptyString => if is_char "_" c then EmptyString else String c EmptyString
      | _ => String c (dropLastUnderscore s')
      end
  end.

(** A first and a final underscore removed. *)
Definition dropBoundaryUnderscores (s : string) : string :=
  match s with
  | EmptyString => EmptyString
  | String c s' =>
      if is_char "_" c then dropLastUnderscore s' else String c (dropLastUnderscore s')
  end.

(** No two underscores in a row. *)
Fixpoint noDouble (s : string) : bool :=
  match s with
  | EmptyString => true
  | String c s' =>
      match s' with
      | String d _ => negb (is_char "_" c && is_char "_" d) && noDouble s'
      | EmptyString => true
      end
  end.

End NameAux.

(** ** Notions the properties are stated with *)

(** *** Words and matches *)

Module RegexSpec.

(** The words a regular expression can consume, anchors and capture
    groups put aside. *)
Inductive star_lang (L : string -> Prop) : string -> Prop :=
| star_nil : star_lang L ""
| star_more (w1 w2 : string) : L w1 -> star_lang L w2 -> star_lang L (w1 +:+ w2).

Fixpoint lang (r : regex) (w : string) : Prop :=
  match r with
  | Eps => w = ""
  | Chr c => w = String c ""
  | Cls p => exists c, w = String c "" /\ p c = true
  | Seq a b => exists w1 w2, w = w1 +:+ w2 /\ lang a w1 /\ lang b w2
  | Alt a b => lang a w \/ lang b w
  | Star a => star_lang (lang a) w
  | Grp _ a => lang a w
  | Bol => w = ""
  | Eol => w = ""
  end.

(** [consumed st w st']: going from [st] to [st'] consumes [w]. *)
Definition consumed (st : mstate) (w : string) (st' : mstate) : Prop :=
  rest st = w +:+ rest st' /\ pos st' = pos st + String.length w.

(** Capture groups. *)
Fixpoint has_group (i : nat) (r : regex) : bool :=
  match r with
  | Seq a b | Alt a b => has_group i a || has_group i b
  | Star a => has_group i a
  | Grp j a => (i =? j)%nat || has_group i a
  | _ => false
  end.

(** What the matcher can do: from any state with text [v] remaining,
    [r] has a match that leaves [v']. *)
Definition can (r : regex) (v v' : string) : Prop :=
  forall st, rest st = v -> exists st', In st' (ms r st) /\ rest st' = v'.

End RegexSpec.

(** *** Paths *)

(** A text [tail] that is empty or starts a new path segment. *)
Definition segment_end (tail : string) : Prop :=
  tail = "" \/ exists t, tail = String "/" t.

(** "The resolved path must be a descendant of the project root": the
    segments of the root open the segments of the path. *)
Fixpoint is_prefix_of (xs ys : list string) : bool :=
  match xs, ys with
  | [], _ => true
  | x :: xs', y :: ys' => String.eqb x y && is_prefix_of xs' ys'
  | _ :: _, [] => false
  end.

Definition isDescendant (baseDir resolvedPath : string) : bool :=
  is_prefix_of (path_segments baseDir) (path_segments resolvedPath).

(** *** Inspection *)

(** The test [getStackDetails] makes on what a request threw: a
    validation error that says the stack does not exist.  The test
    itself throws on [undefined] and [null]. *)
Definition isNotFound (e : JsError) : Outcome bool :=
  match e with
  | MkError name message =>
      Ok (String.eqb name "ValidationError" && Str.includes message "does not exist")
  | ThrownUndefined => Throw (cannotRead "undefined" "name")
  | ThrownNull => Throw (cannotRead "null" "name")
  | ThrownValue _ _ name message =>
      Ok (match name with Some n => String.eqb n "ValidationError" | None => false end
          && match message with Some m => Str.includes m "does not exist" | None => false end)
  end.

(** What [getStackDetails] makes of a [DescribeStacks] response. *)
Definition stackOf (response : Outcome (option (list Stack))) : Outcome (option Stack) :=
  match response with
  | Ok (Some (stack :: _)) => Ok (Some stack)
  | Ok _ => Ok None
  | Throw e =>
      match isNotFound e with
      | Ok true => Ok None
      | Ok false => Throw e
      | Throw e' => Throw e'
      end
  end.

(** *** Records built from lists *)

(** [lastBinding key value items k v]: among the [items] that have
    both a key and a value, neither empty, the last one whose key is
    [k] has the value [v]. *)
Definition lastBinding {A : Type} (key value : A -> option string) (items : list A)
    (k v : string) : Prop :=
  exists before item after,
    items = before ++ item :: after /\
    key item = Some k /\ value item = Some v /\ k <> "" /\ v <> "" /\
    forall later, In later after -> key later = Some k -> is_truthy (value later) = false.

(** The record a loop builds that assigns, item by item, the value of
    each item that has a key and a value under its key. *)
Definition recordOf {A : Type} (key value : A -> option string) (items : list A)
    (init : Obj.t string) : Obj.t string :=
  fold_left (fun acc item =>
               if is_truthy (key item) && is_truthy (value item)
               then Obj.set (default "" (key item)) (default "" (value item)) acc
               else acc)
            items init.

(** *** The configuration store *)

(** The parameters the store returns for the four prefixes of a stack,
    in the order of the requests, each with the prefix it was asked
    under.  A request that fails, or returns no list, gives nothing. *)
Definition storeAnswers
    (ssm_send : gmap string string -> ClientConfig -> string ->
                Outcome (option (list SsmParameter)))
    (processEnv : gmap string string) (client : ClientConfig) (stackName : string)
    : list (string * SsmParameter) :=
  flat_map (fun pathPattern =>
              match ssm_send processEnv client pathPattern with
              | Ok (Some params) => List.map (pair pathPattern) params
              | _ => []
              end)
           (ssmPathPatterns stackName).

(** The name a returned parameter is recorded under, its prefix and
    the slashes that follow removed, and its value. *)
Definition recordedName (answer : string * SsmParameter) : option string :=
  match Name (snd answer) with
  | Some n => if Str.truthy n then Some (cleanParameterName (fst answer) n) else None
  | None => None
  end.

Definition recordedValue (answer : string * SsmParameter) : option string :=
  SsmValue (snd answer).

(** *** Events *)

(** Events of the orchestrator itself and of the delegated local
    deployment. *)
Definition isStart (e : Event) : bool :=
  match e with RemoteDeployStarted _ _ _ _ => true | _ => false end.

Definition isCompletion (e : Event) : bool :=
  match e with RemoteDeployCompleted _ _ _ _ _ => true | _ => false end.

Definition isLocalDeploy (e : Event) : bool :=
  match e with
  | BeforeServiceDeploy _ _ _ | BeforeServicePackage _
  | AfterServicePackage _ _ | AfterServiceDeploy _ _ _ _ => true
  | _ => false
  end.

(** *** The derived variables, as the specification words them

    Every output key and every configuration-store key gives a
    variable, named as [NameSpec] says; the store wins a collision. *)
Definition specifiedVariable (outputs ssmParams : Obj.t string) (name : string)
    : option string :=
  match Obj.find_last (fun e => String.eqb (NameSpec.storeName (fst e)) name)
                      (Obj.entries ssmParams) with
  | Some e => Some (snd e)
  | None =>
      option_map snd
        (Obj.find_last (fun e => String.eqb (NameSpec.outputName (fst e)) name)
                       (Obj.entries outputs))
  end.

(** The same, a store key whose name comes out empty giving no
    variable. *)
Definition derivedVariable (outputs ssmParams : Obj.t string) (name : string)
    : option string :=
  match Obj.find_last (fun e => Str.truthy (NameSpec.storeName (fst e)) &&
                                String.eqb (NameSpec.storeName (fst e)) name)
                      (Obj.entries ssmParams) with
  | Some e => Some (snd e)
  | None =>
      option_map snd
        (Obj.find_last (fun e => String.eqb (NameSpec.outputName (fst e)) name)
                       (Obj.entries outputs))
  end.

(** *** Sample inputs *)

Definition emptyWorld : World := {| env := ∅; events := []; clock := [] |}.

Definition noProfile : AWSProfileConfig :=
  {| profile := None; cfg_region := None; accessKeyId := None;
     secretAccessKey := None; sessionToken := None |}.

(** ** Sample inputs *)

Definition sampleStack (stackStatus : string) : Stack :=
  {| StackName := "vpc-stack"; StackStatus := Some stackStatus;
     Outputs := Some [{| OutputKey := Some "VpcId"; OutputValue := Some "vpc-123" |}];
     Parameters := None; Tags := None |}.

Definition sampleService : ServerlessService :=
  {| name := "orders"; path := "services/orders";
     configFile := "services/orders/serverless.yml";
     svc_dependencies := ["vpc-stack"; "missing-stack"] |}.

Definition sampleOptions : ServerlessDeploymentOptions :=
  {| stage := "prod"; opt_region := None; environment := Some "prod"; dryRun := false |}.

Definition sampleConfig : PluginConfig :=
  {| enableRemoteDeployment := true; defaultProfile := None; defaultRegion := None;
     hasStackInspector := true |}.

(** A control plane that knows [vpc-stack] only. *)
Definition sampleControlPlane (_ : gmap string string) (_ : ClientConfig) (stackName : string)
    : Outcome (option (list Stack)) :=
  if String.eqb stackName "vpc-stack" then Ok (Some [sampleStack "UPDATE_COMPLETE"])
  else Ok (Some []).


(** A parameter store that holds [/vpc-stack/_] only. *)
Definition sampleStore (_ : gmap string string) (_ : ClientConfig) (path : string)
    : Outcome (option (list SsmParameter)) :=
  if String.eqb path "/vpc-stack/"
  then Ok (Some [{| Name := Some "/vpc-stack/_"; SsmValue := Some "v" |}])
  else Ok None.

(** ** Footprints of computations *)

(** [steps R m]: every run of [m] takes a world to one related to it by
    [R], whether [m] returns or throws. *)
Definition steps (R : World -> World -> Prop) {A : Type} (m : M A) : Prop :=
  forall w, R w (snd (m w)).

(** The events of the second world are those of the first followed by
    events of the kind [P]. *)
Definition appends (P : Event -> bool) (w w' : World) : Prop :=
  exists emitted, events w' = events w ++ emitted /\ forallb P emitted = true.

(** The process environment is the same. *)
Definition sameEnv (w w' : World) : Prop := env w' = env w.

(** Every variable that is set keeps its value, [AWS_PROFILE] apart. *)
Definition keepsEnv (w w' : World) : Prop :=
  forall k v, k <> "AWS_PROFILE" -> env w !! k = Some v -> env w' !! k = Some v.

(** Kinds of events. *)
Definition isDependencyDetected (e : Event) : bool :=
  match e with DependencyDetected _ _ _ _ => true | _ => false end.

Definition isInspection (e : Event) : bool :=
  match e with
  | BeforeStackInspection _ _ _ | AfterStackInspection _ _ _ _ _ _
  | StackInspectionFailed _ _ => true
  | _ => false
  end.

Definition isValidation (e : Event) : bool :=
  match e with
  | BeforeEnvironmentValidation _ _ | EnvironmentValidated _ _ _ _
  | EnvironmentValidationFailed _ _ _ _ => true
  | _ => false
  end.

Definition isRemote (e : Event) : bool := isStart e || isCompletion e.

(** The target of a dependency event. *)
Definition targetOf (e : Event) : option string :=
  match e with DependencyDetected _ _ target _ => Some target | _ => None end.

(** The steps of [deployServiceRemote] between its two notifications:
    the loop over the dependencies, then the local deployment. *)
Definition guardedSteps
    (cfn_send : gmap string string -> ClientConfig -> string -> Outcome (option (list Stack)))
    (ssm_send : gmap string string -> ClientConfig -> string ->
                Outcome (option (list SsmParameter)))
    (fs_existsSync : string -> bool) (cli_hasServerlessCLI : Outcome bool)
    (cli_package cli_deploy : string -> string -> option string -> Outcome unit)
    (hotReload_startWatching : option (ServerlessService -> Outcome unit))
    (config : PluginConfig) (service : ServerlessService)
    (options : ServerlessDeploymentOptions) : M unit :=
  for_each (svc_dependencies service)
           (checkDependency cfn_send ssm_send config service options) ;;
  deployServiceLocal fs_existsSync cli_hasServerlessCLI cli_package cli_deploy
    hotReload_startWatching service options.

(** A world in which the shell already sets [VPC_ID]. *)
Definition shellWorld : World :=
  {| env := {["VPC_ID" := "from-shell"]}; events := []; clock := [] |}.

(** A service that declares no dependency. *)
Definition standaloneService : ServerlessService :=
  {| name := "orders"; path := "services/orders";
     configFile := "services/orders/serverless.yml";
     svc_dependencies := [] |}.

Definition dryRunOptions : ServerlessDeploymentOptions :=
  {| stage := "prod"; opt_region := None; environment := None; dryRun := true |}.

Definition devOptions : ServerlessDeploymentOptions :=
  {| stage := "dev"; opt_region := None; environment := None; dryRun := false |}.

(** A segment [path.resolve] keeps: not empty, not [.] and not [..]. *)
Definition keptSegment (segment : string) : bool :=
  negb (String.eqb segment "" || String.eqb segment ".") && negb (String.eqb segment "..").

(** A plugin configuration whose stack inspector was not created. *)
Definition offConfig : PluginConfig :=
  {| enableRemoteDeployment := false; defaultProfile := None; defaultRegion := None;
     hasStackInspector := false |}.

(** ** Pattern detector (pattern-detector.ts) *)

(** The two events the detector publishes, with their payloads. *)
Inductive DetectionEvent : Type :=
| BeforePatternDetection (projectRoot : string)
| AfterPatternDetection (services : list ServerlessService) (servicesFound : nat)
    (serviceNames : list string).

Section Detector.

(** The collaborators of the detector: [fast-glob] (patterns, working
  directory and ignore list), the file system, the YAML library, the
  read of [config.service] (which throws on a document that is
  [null] or [undefined]) and the path functions of Node. *)
Variable Doc : Type.
Variable glob : list string -> string -> list string -> Outcome (list string).
Variable fs_stat : string -> Outcome N.
Variable fs_readFile : string -> Outcome string.
Variable yaml_load : string -> Outcome Doc.
Variable config_service : Doc -> Outcome (option string).
Variable path_dirname : string -> string.
Variable path_basename : string -> string.
Variable cwd : string.

(** The project root the detector was constructed with. *)
Variable projectRoot : string.

(** [isPathSafe] of the detector *)
Definition detector_isPathSafe (filePath : string) : bool :=
let resolvedPath := path_resolve cwd filePath in
let baseDir := path_resolve cwd projectRoot in
Str.startsWith resolvedPath baseDir.

(** [loadYaml] *)
Definition loadYaml (file : string) : Outcome Doc :=
if negb (detector_isPathSafe file)
then Throw (Error ("Invalid path: " +:+ file +:+ " is outside project boundaries"))
else
  match fs_stat file with
  | Throw e => Throw e
  | Ok size =>
      if (maxFileSize <? size)%N
      then Throw (Error ("File " +:+ file +:+ " exceeds maximum size limit of 10MB"))
      else match fs_readFile file with
           | Throw e => Throw e
           | Ok content => yaml_load content
           end
  end.

(** [parseService]; [None] is [null]. *)
Definition parseService (file : string) : option ServerlessService :=
match loadYaml file with
| Ok config =>
    match config_service config with
    | Ok service =>
        Some {| name := default (path_basename (path_dirname file))
                          (or_else service (Some (path_basename (path_dirname file))));
                path := path_dirname file;
                configFile := file;
                svc_dependencies := [] |}
    | Throw _ => None
    end
| Throw _ => None
end.

(** [parseServices]: the services of the files that could be parsed,
  in the order of the files. *)
Definition parseServices (files : list string) : list ServerlessService :=
omap parseService files.

(** [findServerlessConfigs] *)
Definition findServerlessConfigs : Outcome (list string) :=
glob ["serverless.yml"; "serverless.yaml"; "**/serverless.yml"; "**/serverless.yaml"]
     projectRoot
     ["**/node_modules/**"; "**/dist/**"; "**/build/**"; "**/.serverless/**"].

(** [scan], on the events published so far; the pattern is given by
  its services. *)
Definition detector_scan (published : list DetectionEvent)
  : Outcome (list ServerlessService) * list DetectionEvent :=
let published := published ++ [BeforePatternDetection projectRoot] in
match findServerlessConfigs with
| Throw e => (Throw e, published)
| Ok configFiles =>
    let services := parseServices configFiles in
    (Ok services,
     published ++ [AfterPatternDetection services (length services)
                     (List.map name services)])
end.

End Detector.

(** ** Hot reload (hot-reload.ts): the registry of watchers *)

Section HotReload.

(** A watcher of [chokidar], creating one and closing one, and the
  file-system and path functions [getWatchPaths] uses. *)
Variable Watcher : Type.
Variable chokidar_watch : list string -> Outcome Watcher.
Variable watcher_close : Watcher -> Outcome unit.
Variable fs_existsSync : string -> bool.
Variable path_join : string -> string -> string.

(** [getWatchPaths] *)
Definition getWatchPaths (service : ServerlessService) : list string :=
List.filter fs_existsSync
  [path_join (path service) "src"; path_join (path service) "lib";
   path_join (path service) "handlers"; path_join (path service) "functions"].

(** [stopWatchingService], on the map [this.watchers] *)
Definition stopWatchingService (serviceName : string) (watchers : gmap string Watcher)
  : Outcome unit * gmap string Watcher :=
match watchers !! serviceName with
| Some watcher =>
    match watcher_close watcher with
    | Ok _ => (Ok tt, delete serviceName watchers)
    | Throw e => (Throw e, watchers)
    end
| None => (Ok tt, watchers)
end.

(** [startWatching]; the handlers registered on the new watcher do not
  touch the map while it runs. *)
Definition startWatching (service : ServerlessService) (watchers : gmap string Watcher)
  : Outcome unit * gmap string Watcher :=
let attempt :=
  match stopWatchingService (name service) watchers with
  | (Ok _, watchers) =>
      match chokidar_watch (getWatchPaths service) with
      | Ok watcher => (Ok tt, <[name service := watcher]> watchers)
      | Throw e => (Throw e, watchers)
      end
  | (Throw e, watchers) => (Throw e, watchers)
  end in
match attempt with
| (Ok _, watchers) => (Ok tt, watchers)
| (Throw error, watchers) =>
    match stopWatchingService (name service) watchers with
    | (Ok _, watchers) => (Throw error, watchers)
    | (Throw e, watchers) => (Throw e, watchers)
    end
end.

End HotReload.

(** A stack whose outputs hold the ARN of another stack and its own. *)
Definition linkedStack : Stack :=
  {| StackName := "api-stack"; StackStatus := Some "CREATE_COMPLETE";
     Outputs :=
       Some [{| OutputKey := Some "NetworkArn";
                OutputValue :=
                  Some "arn:aws:cloudformation:us-east-1:123456789012:stack/network-stack/1a2b" |};
             {| OutputKey := Some "OwnArn";
                OutputValue :=
                  Some "arn:aws:cloudformation:us-east-1:123456789012:stack/api-stack/3c4d" |}];
     Parameters := None; Tags := None |}.

(** A search that finds one configuration file inside the project and
    one outside. *)
Definition sampleGlob (_ : list string) (_ : string) (_ : list string)
    : Outcome (list string) :=
  Ok ["/proj/api/serverless.yml"; "/elsewhere/serverless.yml"].

(** * Properties *)

(** ** Facts about strings *)

Module StrFacts.
Import Str.

Lemma app_nil_r (s : string) : s +:+ "" = s.
Proof. induction s as [|c s IH]; simpl; [reflexivity | now rewrite IH]. Qed.

Lemma app_assoc (a b c : string) : (a +:+ b) +:+ c = a +:+ (b +:+ c).
Proof. induction a as [|x a IH]; simpl; [reflexivity | now rewrite IH]. Qed.

Lemma length_app (a b : string) :
  String.length (a +:+ b) = String.length a + String.length b.
Proof. induction a as [|x a IH]; simpl; [reflexivity | now rewrite IH]. Qed.

Lemma take_app (u v : string) : take (String.length u) (u +:+ v) = u.
Proof. induction u as [|x u IH]; simpl; [now destruct v | now rewrite IH]. Qed.

Lemma drop_app (u v : string) : drop (String.length u) (u +:+ v) = v.
Proof. induction u as [|x u IH]; simpl; [now destruct v | exact IH]. Qed.

Lemma allb_app (p : ascii -> bool) (u v : string) :
  allb p (u +:+ v) = allb p u && allb p v.
Proof.
  induction u as [|x u IH]; simpl; [reflexivity |].
  rewrite IH. now rewrite andb_assoc.
Qed.

Lemma lacks_app (c : ascii) (u v : string) :
  lacks c (u +:+ v) = lacks c u && lacks c v.
Proof. apply allb_app. Qed.

Lemma is_char_eq (c d : ascii) : is_char c d = true <-> c = d.
Proof. apply Ascii.eqb_eq. Qed.

Lemma is_char_refl (c : ascii) : is_char c c = true.
Proof. apply Ascii.eqb_refl. Qed.

Lemma app_inv_head (u v w : string) : u +:+ v = u +:+ w -> v = w.
Proof. induction u as [|x u IH]; simpl; [auto | intros H; injection H; auto]. Qed.

(** Two ways to cut one text: one of the first parts extends the other. *)
Lemma app_eq_app (a b c d : string) :
  a +:+ b = c +:+ d ->
  exists m, (a = c +:+ m /\ d = m +:+ b) \/ (c = a +:+ m /\ b = m +:+ d).
Proof.
  revert c. induction a as [|x a IH]; intros c H; simpl in H.
  - exists c. right. split; [reflexivity | exact H].
  - destruct c as [|y c]; simpl in H.
    + exists (String x a). left. split; [reflexivity | now rewrite <- H].
    + injection H as -> H. destruct (IH _ H) as [m [[-> ->] | [-> ->]]].
      * exists m. left. split; reflexivity.
      * exists m. right. split; reflexivity.
Qed.

(** A text is cut at the first occurrence of a character in one way only. *)
Lemma first_occurrence (c : ascii) (a b a' b' : string) :
  lacks c a = true -> lacks c a' = true ->
  a +:+ String c b = a' +:+ String c b' -> a = a' /\ b = b'.
Proof.
  revert a'. induction a as [|x a IH]; intros a' Ha Ha' H.
  - destruct a' as [|y a']; simpl in H.
    + injection H as ->. split; reflexivity.
    + injection H as <- _. simpl in Ha'. unfold lacks in Ha'. simpl in Ha'.
      rewrite is_char_refl in Ha'. discriminate.
  - destruct a' as [|y a']; simpl in H.
    + injection H as -> _. unfold lacks in Ha. simpl in Ha.
      rewrite is_char_refl in Ha. discriminate.
    + injection H as -> H. unfold lacks in *. simpl in Ha, Ha'.
      apply andb_true_iff in Ha as [_ Ha]. apply andb_true_iff in Ha' as [_ Ha'].
      destruct (IH a' Ha Ha' H) as [-> ->]. split; reflexivity.
Qed.

Lemma truthy_app_r (u v : string) : truthy v = true -> truthy (u +:+ v) = true.
Proof. destruct u; simpl; [auto | reflexivity]. Qed.

Lemma truthy_length (s : string) : truthy s = true <-> 0 < String.length s.
Proof. destruct s; simpl; split; intros; try lia; try discriminate; reflexivity. Qed.

End StrFacts.

(** ** Facts about the matcher *)

Module RegexFacts.
Import Str StrFacts RegexSpec.

Lemma consumed_nil (st : mstate) : consumed st "" st.
Proof. split; simpl; [reflexivity | lia]. Qed.

Lemma consumed_trans st w1 y w2 st' :
  consumed st w1 y -> consumed y w2 st' -> consumed st (w1 +:+ w2) st'.
Proof.
  intros [H1 H2] [H3 H4]. split.
  - rewrite H1, H3. now rewrite app_assoc.
  - rewrite H4, H2, length_app. lia.
Qed.

Lemma star_of_sound (body : mstate -> list mstate) (L : string -> Prop) :
  (forall st st', In st' (body st) -> exists w, L w /\ consumed st w st') ->
  forall n st st', In st' (star_of body n st) ->
    exists w, star_lang L w /\ consumed st w st'.
Proof.
  intros Hbody. induction n as [|n IH]; intros st st' Hin; simpl in Hin.
  - destruct Hin as [<- | []]. exists "". split; [constructor | apply consumed_nil].
  - apply in_app_iff in Hin as [Hin | [<- | []]].
    + apply in_flat_map in Hin as [y [Hy Hin]].
      destruct (pos st <? pos y)%nat; [| destruct Hin].
      destruct (Hbody _ _ Hy) as [w1 [Hw1 Hc1]].
      destruct (IH _ _ Hin) as [w2 [Hw2 Hc2]].
      exists (w1 +:+ w2). split; [now constructor | eapply consumed_trans; eauto].
    + exists "". split; [constructor | apply consumed_nil].
Qed.

(** Every match consumes a word of the language. *)
Lemma ms_sound (r : regex) :
  forall st st', In st' (ms r st) -> exists w, lang r w /\ consumed st w st'.
Proof.
  induction r as [|c|p|a IHa b IHb|a IHa b IHb|a IHa|i a IHa| |]; intros st st' Hin;
    simpl in Hin.
  - destruct Hin as [<- | []]. exists "". split; [reflexivity | apply consumed_nil].
  - destruct (rest st) as [|d s'] eqn:Hrest; [destruct Hin |].
    destruct (is_char c d) eqn:Hc; [| destruct Hin].
    destruct Hin as [<- | []]. apply is_char_eq in Hc as <-.
    exists (String c ""). split; [reflexivity |].
    split; simpl; [exact Hrest | lia].
  - destruct (rest st) as [|d s'] eqn:Hrest; [destruct Hin |].
    destruct (p d) eqn:Hp; [| destruct Hin].
    destruct Hin as [<- | []].
    exists (String d ""). split; [exists d; auto |].
    split; simpl; [exact Hrest | lia].
  - apply in_flat_map in Hin as [y [Hy Hin]].
    destruct (IHa _ _ Hy) as [w1 [Hw1 Hc1]].
    destruct (IHb _ _ Hin) as [w2 [Hw2 Hc2]].
    exists (w1 +:+ w2). split; [exists w1, w2; auto | eapply consumed_trans; eauto].
  - apply in_app_iff in Hin as [Hin | Hin].
    + destruct (IHa _ _ Hin) as [w [Hw Hc]]. exists w. split; [left |]; auto.
    + destruct (IHb _ _ Hin) as [w [Hw Hc]]. exists w. split; [right |]; auto.
  - eapply star_of_sound; eauto.
  - apply in_map_iff in Hin as [y [<- Hy]].
    destruct (IHa _ _ Hy) as [w [Hw Hc]]. exists w. split; [exact Hw | exact Hc].
  - destruct (pos st =? 0)%nat; [| destruct Hin].
    destruct Hin as [<- | []]. exists "". split; [reflexivity | apply consumed_nil].
  - destruct (rest st); [| destruct Hin].
    destruct Hin as [<- | []]. exists "". split; [reflexivity | apply consumed_nil].
Qed.


Lemma star_of_group (body : mstate -> list mstate) (i : nat) :
  (forall st st', In st' (body st) -> group i st' = group i st) ->
  forall n st st', In st' (star_of body n st) -> group i st' = group i st.
Proof.
  intros Hbody. induction n as [|n IH]; intros st st' Hin; simpl in Hin.
  - destruct Hin as [<- | []]. reflexivity.
  - apply in_app_iff in Hin as [Hin | [<- | []]]; [| reflexivity].
    apply in_flat_map in Hin as [y [Hy Hin]].
    destruct (pos st <? pos y)%nat; [| destruct Hin].
    rewrite (IH _ _ Hin). now apply Hbody.
Qed.

(** A regular expression leaves the groups it does not contain alone. *)
Lemma ms_group_other (i : nat) (r : regex) :
  has_group i r = false ->
  forall st st', In st' (ms r st) -> group i st' = group i st.
Proof.
  induction r as [|c|p|a IHa b IHb|a IHa b IHb|a IHa|j a IHa| |]; intros Hg st st' Hin;
    simpl in Hin, Hg.
  - destruct Hin as [<- | []]. reflexivity.
  - destruct (rest st) as [|d s']; [destruct Hin |].
    destruct (is_char c d); [| destruct Hin]. destruct Hin as [<- | []]. reflexivity.
  - destruct (rest st) as [|d s']; [destruct Hin |].
    destruct (p d); [| destruct Hin]. destruct Hin as [<- | []]. reflexivity.
  - apply orb_false_iff in Hg as [Ha Hb].
    apply in_flat_map in Hin as [y [Hy Hin]].
    rewrite (IHb Hb _ _ Hin). now apply IHa.
  - apply orb_false_iff in Hg as [Ha Hb].
    apply in_app_iff in Hin as [Hin | Hin]; [now apply IHa | now apply IHb].
  - eapply star_of_group; eauto.
  - apply orb_false_iff in Hg as [Hij Ha].
    apply in_map_iff in Hin as [y [<- Hy]].
    unfold group, capture. simpl. rewrite Hij. now apply IHa.
  - destruct (pos st =? 0)%nat; [| destruct Hin]. destruct Hin as [<- | []]. reflexivity.
  - destruct (rest st); [| destruct Hin]. destruct Hin as [<- | []]. reflexivity.
Qed.

Lemma in_ms_seq (a b : regex) (st x : mstate) :
  In x (ms (a ⋅ b) st) -> exists y, In y (ms a st) /\ In x (ms b y).
Proof. simpl. intros H. apply in_flat_map in H. exact H. Qed.

(** A group captures the word its body consumed. *)
Lemma ms_grp (i : nat) (a : regex) (st m : mstate) :
  In m (ms (Grp i a) st) ->
  exists w, lang a w /\ consumed st w m /\ group i m = Some w.
Proof.
  simpl. intros Hin. apply in_map_iff in Hin as [y [<- Hy]].
  destruct (ms_sound a _ _ Hy) as [w [Hw [Hr Hp]]].
  exists w. split; [exact Hw |]. split; [split; assumption |].
  unfold group, capture. simpl. rewrite Nat.eqb_refl.
  rewrite Hp, Hr. replace (pos st + String.length w - pos st) with (String.length w) by lia.
  now rewrite take_app.
Qed.

(** Shapes of the words of the common pieces. *)
Lemma lang_lit (w v : string) : lang (lit w) v <-> v = w.
Proof.
  revert v. induction w as [|c w IH]; intros v; simpl; [reflexivity |].
  destruct w as [|d w]; [reflexivity |].
  change (lang (Chr c ⋅ lit (String d w)) v <-> v = String c (String d w)).
  simpl lang at 1. split.
  - intros [w1 [w2 [-> [-> H2]]]]. apply IH in H2 as ->. reflexivity.
  - intros ->. exists (String c ""), (String d w). split; [reflexivity |].
    split; [reflexivity | now apply IH].
Qed.

Lemma lang_star_cls (p : ascii -> bool) (w : string) :
  lang (Star (Cls p)) w -> allb p w = true.
Proof.
  simpl. induction 1 as [|w1 w2 [c [-> Hc]] _ IH]; [reflexivity |].
  simpl. now rewrite Hc, IH.
Qed.

Lemma lang_plus_cls (p : ascii -> bool) (w : string) :
  lang (Plus (Cls p)) w -> allb p w = true /\ truthy w = true.
Proof.
  intros [w1 [w2 [-> [[c [-> Hc]] H2]]]]. apply lang_star_cls in H2.
  simpl. now rewrite Hc, H2.
Qed.

Lemma can_eps (v : string) : can Eps v v.
Proof. intros st H. exists st. simpl. auto. Qed.

Lemma can_chr (c : ascii) (v : string) : can (Chr c) (String c v) v.
Proof.
  intros st H. exists (step st v). simpl. rewrite H, is_char_refl. simpl. auto.
Qed.

Lemma can_cls (p : ascii -> bool) (c : ascii) (v : string) :
  p c = true -> can (Cls p) (String c v) v.
Proof.
  intros Hp st H. exists (step st v). simpl. rewrite H, Hp. simpl. auto.
Qed.

Lemma can_seq (a b : regex) (v v1 v2 : string) :
  can a v v1 -> can b v1 v2 -> can (a ⋅ b) v v2.
Proof.
  intros Ha Hb st H. destruct (Ha st H) as [y [Hy Hr]].
  destruct (Hb y Hr) as [x [Hx Hr']]. exists x. split; [| exact Hr'].
  simpl. apply in_flat_map. eauto.
Qed.

Lemma can_alt_l (a b : regex) (v v' : string) : can a v v' -> can (Alt a b) v v'.
Proof.
  intros Ha st H. destruct (Ha st H) as [y [Hy Hr]]. exists y. split; [| exact Hr].
  simpl. apply in_app_iff. auto.
Qed.

Lemma can_alt_r (a b : regex) (v v' : string) : can b v v' -> can (Alt a b) v v'.
Proof.
  intros Hb st H. destruct (Hb st H) as [y [Hy Hr]]. exists y. split; [| exact Hr].
  simpl. apply in_app_iff. auto.
Qed.

Lemma can_grp (i : nat) (a : regex) (v v' : string) : can a v v' -> can (Grp i a) v v'.
Proof.
  intros Ha st H. destruct (Ha st H) as [y [Hy Hr]]. exists (capture i st y).
  split; [| exact Hr]. simpl. apply in_map_iff. eauto.
Qed.

Lemma can_lit (w v : string) : can (lit w) (w +:+ v) v.
Proof.
  induction w as [|c w IH]; [apply can_eps |].
  destruct w as [|d w]; [apply can_chr |].
  change (lit (String c (String d w))) with (Chr c ⋅ lit (String d w)).
  eapply can_seq; [apply can_chr | exact IH].
Qed.

Lemma can_star_cls (p : ascii -> bool) (u v : string) :
  allb p u = true -> can (Star (Cls p)) (u +:+ v) v.
Proof.
  induction u as [|c u IH]; intros Hu st H.
  - exists st. split; [| exact H]. simpl. destruct (String.length (rest st)); simpl.
    + auto.
    + apply in_app_iff. right. simpl. auto.
  - simpl in Hu. apply andb_true_iff in Hu as [Hc Hu].
    destruct (IH Hu (step st (u +:+ v)) eq_refl) as [x [Hx Hr]].
    exists x. split; [| exact Hr].
    simpl. simpl in H. rewrite H. simpl. rewrite H, Hc. simpl.
    apply in_app_iff. left. apply in_app_iff. left.
    replace (pos st <? S (pos st))%nat with true by (symmetry; apply Nat.ltb_lt; lia).
    exact Hx.
Qed.

(** Iterating any expression that can take one character of a class. *)
Lemma can_star_chars (a : regex) (p : ascii -> bool) :
  (forall c v, p c = true -> can a (String c v) v) ->
  forall u v, allb p u = true -> can (Star a) (u +:+ v) v.
Proof.
  intros Hstep. induction u as [|c u IH]; intros v Hu st H.
  - exists st. split; [| exact H]. simpl. destruct (String.length (rest st)); simpl.
    + auto.
    + apply in_app_iff. right. simpl. auto.
  - simpl in Hu. apply andb_true_iff in Hu as [Hc Hu]. simpl in H.
    destruct (Hstep c (u +:+ v) Hc st H) as [y [Hy Hr]].
    destruct (IH v Hu y Hr) as [x [Hx Hr']].
    exists x. split; [| exact Hr'].
    destruct (ms_sound a _ _ Hy) as [w [_ [Hw Hp]]].
    assert (Hlen : String.length w = 1).
    { apply (f_equal String.length) in Hw. rewrite H, length_app, Hr in Hw.
      simpl in Hw. lia. }
    change (ms (Star a) st) with (star_of (ms a) (String.length (rest st)) st).
    rewrite H. cbn [String.length star_of].
    apply in_app_iff. left. apply in_flat_map. exists y. split; [exact Hy |].
    replace (pos st <? pos y)%nat with true by (symmetry; apply Nat.ltb_lt; lia).
    rewrite <- Hr. exact Hx.
Qed.

Lemma can_plus_cls (p : ascii -> bool) (c : ascii) (u v : string) :
  p c = true -> allb p u = true -> can (Plus (Cls p)) (String c (u +:+ v)) v.
Proof.
  intros Hc Hu. eapply can_seq; [now apply can_cls | now apply can_star_cls].
Qed.

(** Searching. *)
Lemma can_match_at (r : regex) (i : nat) (s v : string) :
  can r s v -> exists m, match_at r i s = Some m /\ In m (ms r (start i s)).
Proof.
  intros H. destruct (H (start i s) eq_refl) as [x [Hx _]].
  unfold match_at. destruct (ms r (start i s)) as [|m l]; [destruct Hx |].
  exists m. simpl. auto.
Qed.

Lemma match_at_in (r : regex) (i : nat) (s : string) (m : mstate) :
  match_at r i s = Some m -> In m (ms r (start i s)).
Proof.
  unfold match_at. destruct (ms r (start i s)); simpl; intros H; [discriminate |].
  injection H as ->. auto.
Qed.

Lemma match_at_none (r : regex) (i : nat) (s : string) :
  (forall w v, lang r w -> s = w +:+ v -> False) -> match_at r i s = None.
Proof.
  intros H. destruct (match_at r i s) as [m|] eqn:Hm; [| reflexivity].
  apply match_at_in in Hm. destruct (ms_sound r _ _ Hm) as [w [Hw [Hr _]]].
  exfalso. eapply H; eauto.
Qed.

Lemma search_here (r : regex) (i : nat) (s : string) (m : mstate) :
  match_at r i s = Some m -> search r i s = Some (i, m).
Proof. intros H. destruct s; simpl; now rewrite H. Qed.

Lemma search_sound (r : regex) (s : string) :
  forall i j m, search r i s = Some (j, m) ->
    exists u s', s = u +:+ s' /\ j = i + String.length u /\ match_at r j s' = Some m.
Proof.
  induction s as [|c s IH]; intros i j m H; simpl in H.
  - destruct (match_at r i "") as [x|] eqn:Hx; [| discriminate].
    injection H as <- <-. exists "", "". split; [reflexivity |]. split; [simpl; lia | exact Hx].
  - destruct (match_at r i (String c s)) as [x|] eqn:Hx.
    + injection H as <- <-. exists "", (String c s).
      split; [reflexivity |]. split; [simpl; lia | exact Hx].
    + destruct (IH _ _ _ H) as [u [s' [-> [-> Hm]]]].
      exists (String c u), s'. split; [reflexivity |]. split; [simpl; lia | exact Hm].
Qed.

Lemma matches_go_cons (r : regex) (i : nat) (c : ascii) (s : string) :
  matches_go r i 0 (String c s) =
  match match_at r i (String c s) with
  | Some st => st :: matches_go r (S i) (pos st - i - 1) s
  | None => matches_go r (S i) 0 s
  end.
Proof. reflexivity. Qed.

(** A match that runs to the end of the text is the last one. *)
Lemma matches_go_skip_all (r : regex) (s : string) :
  forall i k, String.length s <= k -> matches_go r i k s = [].
Proof.
  induction s as [|c s IH]; intros i k Hk.
  - destruct k; reflexivity.
  - destruct k as [|k]; simpl in Hk; [lia |]. simpl. apply IH. lia.
Qed.

(** The characters of a match that ends inside the text are passed
    over, and the search goes on after them. *)
Lemma matches_go_skip (r : regex) (u v : string) :
  forall i,
    matches_go r i (String.length u) (u +:+ v) = matches_go r (i + String.length u) 0 v.
Proof.
  induction u as [|c u IH]; intros i; simpl.
  - now rewrite Nat.add_0_r.
  - rewrite IH. f_equal. lia.
Qed.

(** No match starts inside a prefix: the search begins after it. *)
Section Prefix.
Variable r : regex.
Variable s : string.

Lemma search_prefix (pre : string) :
  (forall a c b, pre = a +:+ String c b ->
                 forall j, match_at r j (String c b +:+ s) = None) ->
  forall i, search r i (pre +:+ s) = search r (i + String.length pre) s.
Proof.
  induction pre as [|c pre IH]; intros Hnone i.
  - simpl. now rewrite Nat.add_0_r.
  - change (String c pre +:+ s) with (String c (pre +:+ s)). cbn [search].
    rewrite (Hnone "" c pre eq_refl i : match_at r i (String c (pre +:+ s)) = None).
    rewrite IH.
    + f_equal. simpl. lia.
    + intros a d b Hpre j. apply (Hnone (String c a) d b). now rewrite Hpre.
Qed.

Lemma matches_go_prefix (pre : string) :
  (forall a c b, pre = a +:+ String c b ->
                 forall j, match_at r j (String c b +:+ s) = None) ->
  forall i, matches_go r i 0 (pre +:+ s) = matches_go r (i + String.length pre) 0 s.
Proof.
  induction pre as [|c pre IH]; intros Hnone i.
  - simpl. now rewrite Nat.add_0_r.
  - change (String c pre +:+ s) with (String c (pre +:+ s)). rewrite matches_go_cons.
    rewrite (Hnone "" c pre eq_refl i : match_at r i (String c (pre +:+ s)) = None).
    rewrite IH.
    + f_equal. simpl. lia.
    + intros a d b Hpre j. apply (Hnone (String c a) d b). now rewrite Hpre.
Qed.

(** A match somewhere is found by the search. *)
Lemma search_some (pre : string) (v : string) :
  can r s v -> forall i, exists j m, search r i (pre +:+ s) = Some (j, m).
Proof.
  intros Hcan. induction pre as [|c pre IH]; intros i.
  - destruct (can_match_at r i s v Hcan) as [m [Hm _]].
    exists i, m. simpl. now apply search_here.
  - change (String c pre +:+ s) with (String c (pre +:+ s)). cbn [search].
    destruct (match_at r i (String c (pre +:+ s))) as [m|]; [eauto | apply IH].
Qed.
End Prefix.

(** No match anywhere: a property of the text that its tails keep
    and that rules a match out. *)
Section NoMatch.
Variable r : regex.
Variable P : string -> Prop.
Hypothesis P_tail : forall c s, P (String c s) -> P s.
Hypothesis P_none : forall i s, P s -> match_at r i s = None.

Lemma search_none (s : string) : forall i, P s -> search r i s = None.
Proof.
  induction s as [|c s IH]; intros i H; simpl; rewrite (P_none _ _ H); [reflexivity |].
  apply IH. eapply P_tail; eauto.
Qed.

Lemma replace_go_none (repl : mstate -> string) (s : string) :
  forall i, P s -> replace_go r repl i 0 s = s.
Proof.
  induction s as [|c s IH]; intros i H; simpl; rewrite (P_none _ _ H); [reflexivity |].
  rewrite IH; [reflexivity |]. eapply P_tail; eauto.
Qed.

Lemma matches_go_nowhere (s : string) : forall i, P s -> matches_go r i 0 s = [].
Proof.
  induction s as [|c s IH]; intros i H; [reflexivity |].
  rewrite matches_go_cons, (P_none _ _ H). apply IH. eapply P_tail; eauto.
Qed.
End NoMatch.

End RegexFacts.

(** ** The reference parser *)

Module ParserFacts.
Import Str StrFacts RegexSpec RegexFacts.

Lemma lacks_cons (c d : ascii) (s : string) :
  lacks c (String d s) = negb (is_char c d) && lacks c s.
Proof. reflexivity. Qed.

Lemma split_first (c : ascii) (s : string) :
  lacks c s = false -> exists a b, s = a +:+ String c b /\ lacks c a = true.
Proof.
  induction s as [|d s IH]; intros H; [discriminate |].
  rewrite lacks_cons in H. destruct (is_char c d) eqn:Hd.
  - apply is_char_eq in Hd as <-. exists "", s. split; reflexivity.
  - simpl in H. destruct (IH H) as [a [b [-> Ha]]].
    exists (String d a), b. split; [reflexivity |].
    rewrite lacks_cons, Hd, Ha. reflexivity.
Qed.

(** A piece without [/] that starts where [pre] starts, [pre] being
    followed by the end of the segment, lies within [pre]. *)
Lemma within_segment (x y pre tail : string) :
  lacks "/" x = true -> segment_end tail ->
  x +:+ y = pre +:+ tail -> exists m, pre = x +:+ m /\ y = m +:+ tail.
Proof.
  intros Hx Ht H. destruct (app_eq_app _ _ _ _ H) as [m [[-> ->] | [-> ->]]].
  - rewrite lacks_app in Hx. apply andb_true_iff in Hx as [_ Hm].
    destruct m as [|c m].
    + exists "". rewrite !app_nil_r. split; reflexivity.
    + exfalso. destruct Ht as [Ht | [t Ht]]; [discriminate |].
      injection Ht as -> _. rewrite lacks_cons in Hm. discriminate.
  - exists m. split; reflexivity.
Qed.

Lemma lang_placeholder (w : string) :
  lang placeholder w ->
  exists mid, w = "${" +:+ mid +:+ "}" /\ lacks "}" mid = true /\ truthy mid = true.
Proof.
  intros [w1 [w2 [-> [H1 [w3 [w4 [-> [H3 H4]]]]]]]].
  apply (lang_lit "${") in H1 as ->. apply lang_plus_cls in H3 as [H3 H3'].
  simpl in H4. subst w4. exists w3. split; [reflexivity |]. split; assumption.
Qed.

Lemma lang_interpolated (w : string) :
  lang (Star (Not "/") ⋅ placeholder ⋅ Star (Not "/") ⋅ lit "-stack") w ->
  exists u1 mid u2,
    w = u1 +:+ "${" +:+ mid +:+ "}" +:+ u2 +:+ "-stack" /\
    lacks "/" u1 = true /\ lacks "}" mid = true /\ truthy mid = true /\
    lacks "/" u2 = true.
Proof.
  intros [u1 [w2 [-> [H1 [wp [w3 [-> [Hp [u2 [w4 [-> [H2 H4]]]]]]]]]]]].
  apply lang_star_cls in H1. apply lang_star_cls in H2.
  apply lang_placeholder in Hp as [mid [-> [Hm Hm']]].
  apply (lang_lit "-stack") in H4 as ->.
  exists u1, mid, u2. split; [| auto].
  simpl. now rewrite app_assoc.
Qed.

(** *** Paths without a nested placeholder *)

Lemma placeholder_none (i : nat) (s : string) :
  lacks "$" s = true -> match_at placeholder i s = None.
Proof.
  intros Hs. apply match_at_none. intros w v Hw ->.
  apply lang_placeholder in Hw as [mid [-> _]]. simpl in Hs. discriminate.
Qed.

Lemma interpolated_none (i : nat) (s : string) :
  lacks "$" s = true -> match_at interpolatedStackPattern i s = None.
Proof.
  intros Hs. apply match_at_none. intros w v [w1 [w2 [-> [H1 H2]]]] ->.
  apply lang_interpolated in H2 as [u1 [mid [u2 [-> _]]]].
  simpl in H1. subst w1. simpl in Hs.
  rewrite !app_assoc, lacks_cons, lacks_app in Hs.
  apply andb_true_iff in Hs as [_ Hs]. apply andb_true_iff in Hs as [_ Hs].
  simpl in Hs. discriminate.
Qed.

Lemma lacks_tail (c d : ascii) (s : string) : lacks c (String d s) = true -> lacks c s = true.
Proof. rewrite lacks_cons. intros H. now apply andb_true_iff in H as [_ H]. Qed.

Lemma plain_path_untouched (s : string) :
  lacks "$" s = true -> replaceAll placeholder (fun _ => "*") s = s.
Proof.
  intros Hs. unfold replaceAll.
  apply (replace_go_none placeholder (fun s => lacks "$" s = true)); auto.
  - intros c t. apply lacks_tail.
  - intros i t. apply placeholder_none.
Qed.

Lemma plain_path_not_interpolated (s : string) :
  lacks "$" s = true -> test interpolatedStackPattern s = false.
Proof.
  intros Hs. unfold test, exec.
  rewrite (search_none interpolatedStackPattern (fun s => lacks "$" s = true)); auto.
  - intros c t. apply lacks_tail.
  - intros i t. apply interpolated_none.
Qed.

Lemma vpc_stack_path (key : string) :
  lacks "$" key = true ->
  extractStackFromSSMPath ("/vpc-stack/" +:+ key) = Some "vpc-stack".
Proof.
  intros Hk.
  assert (Hs : lacks "$" ("/vpc-stack/" +:+ key) = true) by (simpl; exact Hk).
  unfold extractStackFromSSMPath.
  rewrite (plain_path_not_interpolated _ Hs), (plain_path_untouched _ Hs).
  unfold pathPartsOf. simpl. reflexivity.
Qed.


(** *** A stage placeholder before [-api-gateway-stack] *)

(** Walk a piece [y] of unknown length along a known text. *)
Ltac norm_app := repeat (progress (simpl; rewrite ?app_assoc)).
Ltac norm_app_in H := repeat (progress (simpl in H; rewrite ?app_assoc in H)).

Ltac walk y H :=
  repeat (destruct y as [|? y]; simpl in H;
          [ try discriminate H | injection H as ? H; subst ]).

Lemma gateway_suffix (u2 v tail : string) :
  lacks "/" u2 = true -> segment_end tail ->
  u2 +:+ "-stack" +:+ v = "-api-gateway-stack" +:+ tail ->
  u2 = "-api-gateway" /\ v = tail.
Proof.
  intros Hu Ht H.
  destruct (within_segment _ _ _ _ Hu Ht H) as [m [Hpre Hy]].
  walk u2 Hpre; try subst m; simpl in Hy; try discriminate Hy.
  - injection Hy as ->. split; reflexivity.
  - exfalso. destruct u2; simpl in Hpre; [subst m | discriminate Hpre].
    simpl in Hy. destruct Ht as [-> | [t ->]]; discriminate Hy.
Qed.

Lemma gateway_no_placeholder (b y tail : string) :
  lacks "/" b = true -> segment_end tail ->
  b +:+ String "$" y = "-api-gateway-stack" +:+ tail -> False.
Proof.
  intros Hb Ht H.
  destruct (within_segment _ _ _ _ Hb Ht H) as [m [Hpre Hy]].
  walk b Hpre; try subst m; simpl in Hy; try discriminate Hy.
  destruct b; simpl in Hpre; [subst m | discriminate Hpre].
  simpl in Hy. destruct Ht as [-> | [t ->]]; discriminate Hy.
Qed.

(** Every way to read [interpolatedStackCapture]'s group off a
    segment [lead${inner}-api-gateway-stack] gives that text. *)
Lemma gateway_cut (lead inner tail u1 mid u2 v : string) :
  lacks "}" lead = true -> lacks "}" inner = true -> segment_end tail ->
  lacks "/" u1 = true -> lacks "}" mid = true -> lacks "/" u2 = true ->
  (u1 +:+ "${" +:+ mid +:+ "}" +:+ u2 +:+ "-stack") +:+ v
    = lead +:+ "${" +:+ inner +:+ "}-api-gateway-stack" +:+ tail ->
  u1 +:+ "${" +:+ mid +:+ "}" +:+ u2 +:+ "-stack"
    = lead +:+ "${" +:+ inner +:+ "}-api-gateway-stack".
Proof.
  intros H0 Hi Ht H1 Hm H2 H.
  assert (Hopen : lacks "}" (lead +:+ "${" +:+ inner) = true)
    by (rewrite lacks_app, H0; simpl; exact Hi).
  destruct (lacks "}" u1) eqn:Hu1.
  - assert (Hcut : (u1 +:+ "${" +:+ mid) +:+ String "}" (u2 +:+ "-stack" +:+ v)
                   = (lead +:+ "${" +:+ inner) +:+
                     String "}" ("-api-gateway-stack" +:+ tail)).
    { norm_app_in H. norm_app. exact H. }
    apply first_occurrence in Hcut as [Hhead Htail].
    + apply gateway_suffix in Htail as [-> ->]; auto.
      transitivity ((u1 +:+ "${" +:+ mid) +:+ "}-api-gateway-stack").
      * norm_app. reflexivity.
      * rewrite Hhead. norm_app. reflexivity.
    + rewrite lacks_app, Hu1. simpl. exact Hm.
    + exact Hopen.
  - exfalso. destruct (split_first _ _ Hu1) as [a [b [-> Ha]]].
    rewrite lacks_app in H1. apply andb_true_iff in H1 as [_ Hb].
    apply lacks_tail in Hb.
    assert (Hcut : a +:+ String "}"
                           (b +:+ String "$" ("{" +:+ mid +:+ "}" +:+ u2 +:+ "-stack" +:+ v))
                   = (lead +:+ "${" +:+ inner) +:+
                     String "}" ("-api-gateway-stack" +:+ tail)).
    { norm_app_in H. norm_app. exact H. }
    apply first_occurrence in Hcut as [_ Htail]; auto.
    exact (gateway_no_placeholder _ _ _ Hb Ht Htail).
Qed.

Lemma truthy_cons (s : string) : truthy s = true -> exists c s', s = String c s'.
Proof. destruct s as [|c s']; [discriminate | eauto]. Qed.

Lemma can_star_not (c : ascii) (u v : string) :
  lacks c u = true -> can (Star (Not c)) (u +:+ v) v.
Proof. apply can_star_cls. Qed.

Lemma can_placeholder (inner v : string) :
  truthy inner = true -> lacks "}" inner = true ->
  can placeholder ("${" +:+ inner +:+ "}" +:+ v) v.
Proof.
  intros Ht Hl. destruct (truthy_cons _ Ht) as [c [inner' ->]].
  rewrite lacks_cons in Hl. apply andb_true_iff in Hl as [Hc Hl].
  unfold placeholder.
  eapply can_seq; [apply (can_lit "${") |].
  eapply can_seq; [| apply can_chr].
  simpl. apply can_plus_cls; assumption.
Qed.

(** A text that does not open with [$] opens no placeholder. *)
Lemma placeholder_start (c : ascii) (t w v : string) :
  is_char "$" c = false -> lang placeholder w -> String c t = w +:+ v -> False.
Proof.
  intros Hc Hw H. apply lang_placeholder in Hw as [mid [-> _]].
  simpl in H. injection H as -> _. discriminate Hc.
Qed.

Section Gateway.
Variables pre lead inner tail : string.
Hypothesis pre_plain : lacks "$" pre = true.
Hypothesis lead_plain : lacks "$" lead = true.
Hypothesis lead_segment : lacks "/" lead = true.
Hypothesis lead_closed : lacks "}" lead = true.
Hypothesis inner_truthy : truthy inner = true.
Hypothesis inner_closed : lacks "}" inner = true.
Hypothesis tail_end : segment_end tail.

Let reference : string := "${" +:+ inner +:+ "}-api-gateway-stack".
Let segment : string := lead +:+ reference.
Let ssmPath : string := pre +:+ "/" +:+ segment +:+ tail.

Lemma can_interpolated :
  can (Star (Not "/") ⋅ placeholder ⋅ Star (Not "/") ⋅ lit "-stack") (segment +:+ tail) tail.
Proof.
  unfold segment. rewrite app_assoc.
  eapply can_seq; [apply (can_star_not "/" lead); exact lead_segment |].
  eapply can_seq.
  { unfold reference. simpl.
    change (String "$" (String "{" ((inner +:+ "}-api-gateway-stack") +:+ tail)))
      with ("${" +:+ (inner +:+ "}-api-gateway-stack") +:+ tail).
    rewrite app_assoc.
    apply (can_placeholder inner ("-api-gateway-stack" +:+ tail)); assumption. }
  eapply can_seq;
    [apply (can_star_not "/" "-api-gateway" ("-stack" +:+ tail)); reflexivity |].
  apply (can_lit "-stack").
Qed.

Lemma gateway_test : test interpolatedStackPattern ssmPath = true.
Proof.
  assert (Hcan : can interpolatedStackPattern ("/" +:+ segment +:+ tail) tail).
  { eapply can_seq; [apply can_chr | apply can_interpolated]. }
  destruct (search_some interpolatedStackPattern _ pre tail Hcan 0) as [j [m Hm]].
  unfold test, exec, ssmPath. now rewrite Hm.
Qed.

(** No match of the capture starts before the segment. *)
Lemma gateway_not_before (a b : string) (c : ascii) (j : nat) :
  pre = a +:+ String c b ->
  match_at interpolatedStackCapture j (String c b +:+ "/" +:+ segment +:+ tail) = None.
Proof.
  intros Hpre. apply match_at_none. intros w v [w1 [w2 [-> [H1 H2]]]] H.
  simpl in H1. subst w1. simpl in H. injection H as -> H.
  apply lang_interpolated in H2 as [u1 [mid [u2 [-> [Hu1 _]]]]].
  assert (Hb : lacks "$" b = true).
  { rewrite Hpre, lacks_app, lacks_cons in pre_plain.
    apply andb_true_iff in pre_plain as [_ Hb].
    now apply andb_true_iff in Hb as [_ Hb]. }
  assert (Hend : segment_end ("/" +:+ segment +:+ tail)) by (right; eexists; reflexivity).
  assert (Heq : u1 +:+ ("${" +:+ mid +:+ "}" +:+ u2 +:+ "-stack" +:+ v)
                = b +:+ "/" +:+ segment +:+ tail).
  { change (b +:+ "/" +:+ segment +:+ tail) with (b +:+ String "/" (segment +:+ tail)).
    rewrite H. norm_app. reflexivity. }
  destruct (within_segment _ _ _ _ Hu1 Hend Heq) as [m [Hbm Hm]].
  destruct m as [|d m]; simpl in Hm; [discriminate Hm |].
  injection Hm as <- _. rewrite Hbm, lacks_app, lacks_cons in Hb.
  apply andb_true_iff in Hb as [_ Hb]. discriminate Hb.
Qed.

Lemma gateway_capture :
  exists m, exec interpolatedStackCapture ssmPath = Some m /\ group 1 m = Some segment.
Proof.
  assert (Hcan : can interpolatedStackCapture ("/" +:+ segment +:+ tail) tail).
  { eapply can_seq; [apply can_chr | apply can_grp, can_interpolated]. }
  destruct (can_match_at _ (0 + String.length pre) _ _ Hcan) as [m [Hm Hin]].
  exists m. split.
  { unfold exec, ssmPath.
    rewrite (search_prefix interpolatedStackCapture ("/" +:+ segment +:+ tail) pre)
      by (intros a c b Hpre j; now apply (gateway_not_before a b c j)).
    now rewrite (search_here _ _ _ _ Hm). }
  apply in_ms_seq in Hin as [y [Hy Hin]].
  apply ms_sound in Hy as [w0 [Hw0 [Hy _]]]. simpl in Hw0. subst w0.
  simpl in Hy. injection Hy as Hy.
  apply ms_grp in Hin as [w [Hw [[Hr _] ->]]]. rewrite <- Hy in Hr.
  apply lang_interpolated in Hw as [u1 [mid [u2 [-> [H1 [Hm' [_ H2]]]]]]].
  f_equal. apply (gateway_cut lead inner tail u1 mid u2 (rest m)); auto.
  rewrite <- Hr. unfold segment, reference. norm_app. reflexivity.
Qed.

(** No match of the first base pattern starts inside the plain
    text before the placeholder. *)
Lemma base_not_before (a b : string) (c : ascii) (j : nat) :
  lead = a +:+ String c b ->
  match_at basePattern1 j (String c b +:+ reference) = None.
Proof.
  intros Hmid. apply match_at_none. intros w v [w1 [w2 [-> [H1 _]]]] H.
  assert (Hc : is_char "$" c = false).
  { rewrite Hmid, lacks_app, lacks_cons in lead_plain.
    apply andb_true_iff in lead_plain as [_ Hc].
    apply andb_true_iff in Hc as [Hc _]. now destruct (is_char "$" c). }
  rewrite app_assoc in H. exact (placeholder_start c _ w1 _ Hc H1 H).
Qed.

Lemma gateway_base : extractBaseStackName segment = Some "api-gateway-stack".
Proof.
  assert (Hcan : can basePattern1 reference "").
  { unfold basePattern1, reference.
    eapply can_seq; [apply (can_placeholder inner "-api-gateway-stack"); assumption |].
    eapply can_seq; [apply can_chr |].
    apply can_grp. eapply can_seq; [| apply (can_lit "-stack" "")].
    apply (can_plus_cls not_newline "a" "pi-gateway" "-stack"); reflexivity. }
  destruct (can_match_at _ (0 + String.length lead) _ _ Hcan) as [m [Hm Hin]].
  assert (H2 : group 2 m = None).
  { apply (ms_group_other 2 basePattern1 eq_refl _ _ Hin). }
  assert (H1 : group 1 m = Some "api-gateway-stack").
  { apply in_ms_seq in Hin as [y [Hy Hin]].
    apply in_ms_seq in Hin as [z [Hz Hin]].
    apply ms_sound in Hy as [wp [Hwp [Hy _]]].
    apply ms_sound in Hz as [wd [Hwd [Hz _]]].
    apply ms_grp in Hin as [w [Hw [[Hr _] ->]]].
    apply lang_placeholder in Hwp as [mid [-> [Hmid _]]].
    simpl in Hwd. subst wd. simpl in Hy.
    destruct Hw as [d [w2 [-> [Hd Hw2]]]].
    apply (lang_lit "-stack") in Hw2 as ->.
    apply lang_plus_cls in Hd as [_ Hd].
    rewrite Hz, Hr in Hy. unfold reference in Hy. simpl in Hy.
    injection Hy as Hy.
    assert (Hcut : inner +:+ String "}" "-api-gateway-stack"
                   = mid +:+ String "}" (String "-" ((d +:+ "-stack") +:+ rest m))).
    { rewrite Hy. rewrite !app_assoc. reflexivity. }
    apply first_occurrence in Hcut as [_ Hcut]; auto.
    injection Hcut as Hcut. rewrite app_assoc in Hcut. symmetry in Hcut.
    f_equal. walk d Hcut; try discriminate Hd.
    - destruct (rest m); [reflexivity | discriminate Hcut].
    - destruct d; discriminate Hcut. }
  unfold extractBaseStackName, basePatterns, firstPattern, exec, segment.
  rewrite (search_prefix basePattern1 reference lead)
    by (intros a c b Hmid j; now apply (base_not_before a b c j)).
  rewrite (search_here _ _ _ _ Hm). simpl. rewrite H2, H1. reflexivity.
Qed.

Lemma gateway_path : extractStackFromSSMPath ssmPath = Some "api-gateway-stack".
Proof.
  unfold extractStackFromSSMPath. rewrite gateway_test.
  destruct gateway_capture as [m [-> ->]].
  replace (truthy segment) with true
    by (symmetry; unfold segment; now apply truthy_app_r).
  apply gateway_base.
Qed.
End Gateway.


(** *** A text that is one plain parameter-path reference *)

Lemma lang_payload_plain (w : string) :
  star_lang (lang (Alt (Cls payload_char) placeholder)) w ->
  lacks "$" w = true -> lacks "}" w = true.
Proof.
  induction 1 as [|w1 w2 H1 _ IH]; intros Hd; [reflexivity |].
  rewrite lacks_app in Hd. apply andb_true_iff in Hd as [Hd1 Hd2].
  rewrite lacks_app, (IH Hd2), andb_true_r.
  destruct H1 as [[c [-> Hc]] | Hp].
  - unfold payload_char in Hc. apply andb_true_iff in Hc as [_ Hc].
    rewrite lacks_cons, Hc. reflexivity.
  - apply lang_placeholder in Hp as [mid [-> _]]. simpl in Hd1. discriminate.
Qed.

Lemma can_payload (c : ascii) (u v : string) :
  payload_char c = true -> allb payload_char u = true ->
  can payload (String c (u +:+ v)) v.
Proof.
  intros Hc Hu. unfold payload, Plus.
  eapply can_seq; [apply can_alt_l, can_cls, Hc |].
  apply (can_star_chars _ payload_char); [| exact Hu].
  intros d t Hd. now apply can_alt_l, can_cls.
Qed.

Lemma payload_chars (s : string) :
  lacks "$" s = true -> lacks "}" s = true -> allb payload_char s = true.
Proof.
  induction s as [|c s IH]; intros Hd Hb; [reflexivity |].
  rewrite lacks_cons in Hd, Hb.
  apply andb_true_iff in Hd as [Hd Hd']. apply andb_true_iff in Hb as [Hb Hb'].
  simpl. unfold payload_char at 1. now rewrite Hd, Hb, IH.
Qed.

(** A text that does not open with [$] opens no reference. *)
Lemma reference_start (c : ascii) (t : string) (j : nat) :
  is_char "$" c = false -> match_at ssmPattern j (String c t) = None.
Proof.
  intros Hc. apply match_at_none. intros w v [w1 [w2 [-> [H1 _]]]] H.
  apply (lang_lit "${ssm:") in H1 as ->. simpl in H. injection H as -> _.
  discriminate Hc.
Qed.

Lemma reference_nowhere (s : string) :
  lacks "$" s = true -> forall i, matches_go ssmPattern i 0 s = [].
Proof.
  intros Hs i. apply (matches_go_nowhere ssmPattern (fun t => lacks "$" t = true)).
  - intros c t. apply lacks_tail.
  - intros j t Ht. destruct t as [|c t].
    + apply match_at_none. intros w v [w1 [w2 [-> [H1 _]]]] H.
      apply (lang_lit "${ssm:") in H1 as ->. discriminate H.
    + apply reference_start. rewrite lacks_cons in Ht.
      apply andb_true_iff in Ht as [Ht _]. now destruct (is_char "$" c).
  - exact Hs.
Qed.

(** The matches of [ssmPattern] in a text that holds the reference
    [${ssm:/vpc-stack/key}] and no other [$]: one, whose payload is
    the whole path. *)
Lemma single_reference (before key after : string) :
  lacks "$" before = true -> lacks "$" key = true -> lacks "}" key = true ->
  lacks "$" after = true ->
  exists m,
    matchAll ssmPattern (before +:+ "${ssm:/vpc-stack/" +:+ key +:+ "}" +:+ after) = [m] /\
    group 1 m = Some ("/vpc-stack/" +:+ key).
Proof.
  intros Hbefore Hd Hb Hafter.
  set (i0 := 0 + String.length before).
  assert (Hcan : can ssmPattern ("${ssm:/vpc-stack/" +:+ key +:+ "}" +:+ after) after).
  { unfold ssmPattern. eapply can_seq; [apply (can_lit "${ssm:") |].
    eapply can_seq; [| apply can_chr].
    apply can_grp.
    apply (can_payload "/" ("vpc-stack/" +:+ key) ("}" +:+ after)); [reflexivity |].
    simpl. now apply payload_chars. }
  destruct (can_match_at _ i0 _ _ Hcan) as [m [Hm Hin]].
  apply in_ms_seq in Hin as [y [Hy Hin]]. apply in_ms_seq in Hin as [z [Hz Hin]].
  apply ms_sound in Hy as [w0 [Hw0 [Hy Hpy]]]. apply (lang_lit "${ssm:") in Hw0 as ->.
  apply ms_grp in Hz as [w [Hw [[Hz Hpz] Hg]]].
  assert (Hgm : group 1 m = Some w).
  { rewrite <- Hg. apply (ms_group_other 1 (Chr "}") eq_refl _ _ Hin). }
  apply ms_sound in Hin as [w1 [Hw1 [Hr Hpm]]]. simpl in Hw1. subst w1.
  simpl in Hy. injection Hy as Hy. rewrite Hz, Hr in Hy.
  assert (Hcut : ("/vpc-stack/" +:+ key) +:+ String "}" after
                 = w +:+ String "}" (rest m)).
  { simpl. rewrite Hy. reflexivity. }
  assert (Hw' : lacks "}" w = true).
  { destruct Hw as [w2 [w3 [-> [H2 H3]]]].
    apply (lang_payload_plain (w2 +:+ w3)).
    - apply star_more; [exact H2 | exact H3].
    - assert (Hall : lacks "$" (("/vpc-stack/" +:+ key) +:+ String "}" after) = true).
      { rewrite !lacks_app, Hd. simpl. exact Hafter. }
      rewrite Hcut, lacks_app in Hall. now apply andb_true_iff in Hall as [Hall _]. }
  apply first_occurrence in Hcut as [<- Hrest];
    [| rewrite lacks_app, Hb; reflexivity | exact Hw'].
  exists m. split; [| exact Hgm].
  unfold matchAll.
  rewrite (matches_go_prefix ssmPattern _ before).
  2: { intros a c b Hpre j. apply reference_start.
       rewrite Hpre, lacks_app, lacks_cons in Hbefore.
       apply andb_true_iff in Hbefore as [_ Hc]. apply andb_true_iff in Hc as [Hc _].
       now destruct (is_char "$" c). }
  fold i0.
  change ("${ssm:/vpc-stack/" +:+ key +:+ "}" +:+ after)
    with (String "$" ("{ssm:/vpc-stack/" +:+ key +:+ "}" +:+ after)) in Hm |- *.
  rewrite matches_go_cons, Hm. f_equal.
  assert (Hskip : pos m - i0 - 1 = String.length ("{ssm:/vpc-stack/" +:+ key +:+ "}")).
  { rewrite Hpm, Hpz, Hpy. cbn [pos start String.length].
    rewrite !length_app. cbn [String.length]. lia. }
  rewrite Hskip.
  replace ("{ssm:/vpc-stack/" +:+ key +:+ "}" +:+ after)
    with (("{ssm:/vpc-stack/" +:+ key +:+ "}") +:+ after)
    by (norm_app; reflexivity).
  rewrite matches_go_skip. now apply reference_nowhere.
Qed.

End ParserFacts.

(** ** Objects *)

Module ObjFacts.

Section Facts.
Context {V : Type}.
Implicit Types (o : Obj.t V) (k : string) (v : V).

Lemma get_define_eq k v o : Obj.get k (Obj.define k v o) = Some v.
Proof.
  induction o as [|[k' v'] o IH]; simpl.
  - now rewrite String.eqb_refl.
  - destruct (String.eqb k k') eqn:E; simpl; rewrite E; [reflexivity | exact IH].
Qed.

Lemma get_define_ne k k' v o : k <> k' -> Obj.get k (Obj.define k' v o) = Obj.get k o.
Proof.
  intros Hne. induction o as [|[k'' v''] o IH]; simpl.
  - apply String.eqb_neq in Hne. now rewrite Hne.
  - destruct (String.eqb k' k'') eqn:E; simpl.
    + apply String.eqb_eq in E as <-. apply String.eqb_neq in Hne. now rewrite Hne.
    + destruct (String.eqb k k''); [reflexivity | exact IH].
Qed.

Lemma get_define k k' v o :
  Obj.get k (Obj.define k' v o) = if String.eqb k k' then Some v else Obj.get k o.
Proof.
  destruct (String.eqb k k') eqn:E.
  - apply String.eqb_eq in E as ->. apply get_define_eq.
  - apply String.eqb_neq in E. now apply get_define_ne.
Qed.

Lemma keys_define k v o :
  forall k', In k' (List.map fst (Obj.define k v o)) <-> k' = k \/ In k' (List.map fst o).
Proof.
  induction o as [|[k1 v1] o IH]; intros k'; simpl.
  - intuition congruence.
  - destruct (String.eqb k k1) eqn:E; simpl.
    + apply String.eqb_eq in E as <-. intuition congruence.
    + rewrite IH. intuition congruence.
Qed.

(** Definitions keep the keys of an object distinct. *)
Lemma NoDup_define k v o :
  List.NoDup (List.map fst o) -> List.NoDup (List.map fst (Obj.define k v o)).
Proof.
  induction o as [|[k1 v1] o IH]; simpl; intros Hnd.
  - constructor; [intros [] | constructor].
  - destruct (String.eqb k k1) eqn:E; simpl; [exact Hnd |].
    inversion Hnd as [|? ? Hnotin Hnd']; subst. constructor; [| now apply IH].
    rewrite keys_define. intros [-> | Hin]; [| contradiction].
    rewrite String.eqb_refl in E. discriminate.
Qed.

(** An assignment defines the property, the name [__proto__] apart. *)
Lemma set_define k v o : k <> "__proto__" -> Obj.set k v o = Obj.define k v o.
Proof. intros Hk. unfold Obj.set. apply String.eqb_neq in Hk. now rewrite Hk. Qed.

Lemma set_proto v o : Obj.set "__proto__" v o = o.
Proof. reflexivity. Qed.

Lemma get_set_eq k v o : k <> "__proto__" -> Obj.get k (Obj.set k v o) = Some v.
Proof. intros Hk. rewrite set_define by exact Hk. apply get_define_eq. Qed.

Lemma get_set_ne k k' v o : k <> k' -> Obj.get k (Obj.set k' v o) = Obj.get k o.
Proof.
  intros Hne. unfold Obj.set. destruct (String.eqb k' "__proto__"); [reflexivity |].
  now apply get_define_ne.
Qed.

Lemma get_set k k' v o :
  Obj.get k (Obj.set k' v o) =
  if String.eqb k k' && negb (String.eqb k "__proto__") then Some v else Obj.get k o.
Proof.
  destruct (String.eqb k k') eqn:E; cbn [andb].
  - apply String.eqb_eq in E as <-. destruct (String.eqb k "__proto__") eqn:Ep; cbn [negb].
    + apply String.eqb_eq in Ep as ->. reflexivity.
    + apply String.eqb_neq in Ep. now apply get_set_eq.
  - apply String.eqb_neq in E. now apply get_set_ne.
Qed.

(** Assignments keep the keys of an object distinct, and never
    create the key [__proto__]. *)
Lemma NoDup_set k v o :
  List.NoDup (List.map fst o) -> List.NoDup (List.map fst (Obj.set k v o)).
Proof.
  intros Hnd. unfold Obj.set. destruct (String.eqb k "__proto__"); [exact Hnd |].
  now apply NoDup_define.
Qed.

Lemma keys_set k v o :
  forall k', In k' (List.map fst (Obj.set k v o)) <->
             (k' = k /\ k <> "__proto__") \/ In k' (List.map fst o).
Proof.
  intros k'. unfold Obj.set. destruct (String.eqb k "__proto__") eqn:Ep.
  - apply String.eqb_eq in Ep. tauto.
  - apply String.eqb_neq in Ep. rewrite keys_define. tauto.
Qed.

Lemma get_In k v o : Obj.get k o = Some v -> In (k, v) o.
Proof.
  induction o as [|[k1 v1] o IH]; simpl; [discriminate |].
  destruct (String.eqb k k1) eqn:E.
  - apply String.eqb_eq in E as ->. intros [= ->]. auto.
  - auto.
Qed.

Lemma In_get k v o : List.NoDup (List.map fst o) -> In (k, v) o -> Obj.get k o = Some v.
Proof.
  induction o as [|[k1 v1] o IH]; simpl; intros Hnd Hin; [destruct Hin |].
  inversion Hnd as [|? ? Hnotin Hnd']; subst.
  destruct Hin as [[= -> ->] | Hin].
  - now rewrite String.eqb_refl.
  - destruct (String.eqb k k1) eqn:E; [| auto].
    apply String.eqb_eq in E as ->. exfalso. apply Hnotin.
    apply in_map_iff. exists (k1, v). auto.
Qed.

Lemma get_None k o : Obj.get k o = None <-> ~ In k (List.map fst o).
Proof.
  induction o as [|[k1 v1] o IH]; simpl; [tauto |].
  destruct (String.eqb k k1) eqn:E.
  - apply String.eqb_eq in E as ->. split; [discriminate | tauto].
  - apply String.eqb_neq in E. rewrite IH. split; [intros H [H' | H']; auto | tauto].
Qed.

(** [Object.entries] reorders the properties; it neither adds nor
    drops one. *)
Lemma In_insert_index n (e : string * V) l x :
  In x (Obj.insert_index n e l) <-> x = (n, e) \/ In x l.
Proof.
  induction l as [|[m e'] l IH]; simpl; [intuition congruence |].
  destruct (n <? m)%N; simpl; [intuition congruence |].
  rewrite IH. intuition congruence.
Qed.

Lemma In_index_entries o n (e : string * V) :
  In (n, e) (Obj.index_entries o) <-> In e o /\ Obj.array_index (fst e) = Some n.
Proof.
  induction o as [|e1 o IH]; simpl; [tauto |].
  destruct (Obj.array_index (fst e1)) as [n1|] eqn:E.
  - rewrite In_insert_index, IH. split.
    + intros [[= -> ->] | [H1 H2]]; auto.
    + intros [[-> | H1] H2]; [left; congruence | auto].
  - rewrite IH. split; [tauto |]. intros [[-> | H1] H2]; [congruence | auto].
Qed.

Lemma In_entries o (e : string * V) : In e (Obj.entries o) <-> In e o.
Proof.
  unfold Obj.entries, Obj.named_entries.
  rewrite in_app_iff, in_map_iff, filter_In. split.
  - intros [[[n e'] [<- H]] | [H _]]; [| exact H].
    now apply In_index_entries in H.
  - intros H. destruct (Obj.array_index (fst e)) as [n|] eqn:E.
    + left. exists (n, e). split; [reflexivity |]. now apply In_index_entries.
    + right. split; [exact H | reflexivity].
Qed.

Lemma find_last_In (f : string * V -> bool) (l : list (string * V)) e :
  Obj.find_last f l = Some e -> In e l /\ f e = true.
Proof.
  induction l as [|e1 l IH]; simpl; [discriminate |].
  destruct (Obj.find_last f l) as [e'|].
  - intros [= ->]. destruct (IH eq_refl). auto.
  - destruct (f e1) eqn:E; [| discriminate]. intros [= ->]. auto.
Qed.

Lemma find_last_None (f : string * V -> bool) (l : list (string * V)) :
  Obj.find_last f l = None -> forall e, In e l -> f e = false.
Proof.
  induction l as [|e1 l IH]; simpl; [intros _ e [] |].
  destruct (Obj.find_last f l) as [e'|]; [discriminate |].
  destruct (f e1) eqn:E; [discriminate |].
  intros _ e [<- | Hin]; auto.
Qed.

End Facts.

(** The search depends on the values of the predicate only. *)
Lemma find_last_ext {V : Type} (f g : string * V -> bool) (l : list (string * V)) :
  (forall e, f e = g e) -> Obj.find_last f l = Obj.find_last g l.
Proof.
  intros Hfg. induction l as [|e l IH]; simpl; [reflexivity |]. now rewrite IH, Hfg.
Qed.

End ObjFacts.

(** ** The environment resolver *)

Module ResolverFacts.
Import ObjFacts.

(** A variable that is set is what [process.env] reads. *)
Lemma env_get_own (processEnv : gmap string string) (k v : string) :
  processEnv !! k = Some v -> env_get processEnv k = Some v.
Proof. intros H. unfold env_get. now rewrite H. Qed.

(** A name that [Object.prototype] does not define reads the
    variable. *)
Lemma env_get_plain (processEnv : gmap string string) (k : string) :
  Obj.get k objectPrototype = None -> env_get processEnv k = processEnv !! k.
Proof. intros H. unfold env_get. rewrite H. now destruct (processEnv !! k). Qed.

(** Every member of [Object.prototype] has a lower-case letter in its
    name. *)
Lemma inherited_lower (k : string) :
  Str.allb (fun c => negb (Str.is_lower c)) k = true -> Obj.get k objectPrototype = None.
Proof.
  intros Hk. unfold objectPrototype. cbn [Obj.get].
  repeat match goal with
    | |- context [String.eqb k ?n] =>
        destruct (String.eqb k n) eqn:?E;
        [apply String.eqb_eq in E; rewrite E in Hk; discriminate Hk | clear E]
    end.
  reflexivity.
Qed.

Section Resolve.
Variable processEnv : gmap string string.
Variable environment : string.

Local Abbreviation value := (resolveValue processEnv environment).

Lemma resolveEntries_cons k sv entries resolved missing :
  resolveEntries processEnv environment ((k, sv) :: entries) resolved missing =
  match value k sv with
  | Some x => resolveEntries processEnv environment entries (Obj.set k x resolved) missing
  | None => resolveEntries processEnv environment entries resolved (missing ++ [k])
  end.
Proof. reflexivity. Qed.

Lemma value_eq (varName : string) (stackValue : option string) :
  value varName stackValue =
  match env_get processEnv varName with
  | Some ambient => Some ambient
  | None =>
      match env_get processEnv (scopedName environment varName) with
      | Some scoped => Some scoped
      | None => stackValue
      end
  end.
Proof.
  unfold resolveValue, sourcesOf. simpl.
  destruct (env_get processEnv varName); [reflexivity |].
  destruct (env_get processEnv (scopedName environment varName)); [reflexivity |].
  destruct stackValue; reflexivity.
Qed.

(** An ambient variable wins. *)
Lemma value_own (varName ambient : string) (stackValue : option string) :
  processEnv !! varName = Some ambient -> value varName stackValue = Some ambient.
Proof. intros H. rewrite value_eq. now rewrite (env_get_own _ _ _ H). Qed.

(** The sources of a name that is no member of [Object.prototype],
    and whose scoped name is none either, are variables. *)
Lemma value_plain (varName : string) (stackValue : option string) :
  Obj.get varName objectPrototype = None ->
  Obj.get (scopedName environment varName) objectPrototype = None ->
  value varName stackValue =
  match processEnv !! varName with
  | Some ambient => Some ambient
  | None =>
      match processEnv !! scopedName environment varName with
      | Some scoped => Some scoped
      | None => stackValue
      end
  end.
Proof.
  intros H1 H2. now rewrite value_eq, (env_get_plain _ _ H1), (env_get_plain _ _ H2).
Qed.

Lemma resolveEntries_missing (entries : list (string * option string)) :
  forall resolved missing varName,
    In varName (snd (resolveEntries processEnv environment entries resolved missing)) <->
    In varName missing \/
    exists stackValue, In (varName, stackValue) entries /\ value varName stackValue = None.
Proof.
  induction entries as [|[k sv] entries IH]; intros resolved missing varName.
  - simpl. split; [auto | intros [H | [? [[] _]]]; exact H].
  - rewrite resolveEntries_cons.
    destruct (value k sv) as [x|] eqn:E; rewrite IH.
    + split.
      * intros [H | [sv' [H1 H2]]]; [auto | right; exists sv'; simpl; auto].
      * intros [H | [sv' [[[= -> ->] | H1] H2]]];
          [auto | congruence | right; exists sv'; auto].
    + rewrite in_app_iff. simpl. split.
      * intros [[H | [<- | []]] | [sv' [H1 H2]]];
          [auto | right; exists sv; auto | right; exists sv'; auto].
      * intros [H | [sv' [[[= -> ->] | H1] H2]]];
          [auto | auto | right; exists sv'; auto].
Qed.

Lemma resolveEntries_resolved (entries : list (string * option string)) :
  forall resolved missing varName found,
    (forall stackValue, In (varName, stackValue) entries ->
                        value varName stackValue = found) ->
    varName <> "__proto__" ->
    Obj.get varName (fst (resolveEntries processEnv environment entries resolved missing)) =
    if existsb (fun e => String.eqb varName (fst e)) entries
    then match found with Some x => Some x | None => Obj.get varName resolved end
    else Obj.get varName resolved.
Proof.
  induction entries as [|[k sv] entries IH];
    intros resolved missing varName found Hall Hname; [reflexivity |].
  rewrite resolveEntries_cons. cbn [existsb fst].
  assert (Hrest : forall stackValue, In (varName, stackValue) entries ->
                                     value varName stackValue = found)
    by (intros; apply Hall; simpl; auto).
  destruct (String.eqb varName k) eqn:Ek; cbn [orb].
  - apply String.eqb_eq in Ek as <-.
    rewrite (Hall sv) by (simpl; auto).
    destruct found as [x|]; rewrite (IH _ _ _ _ Hrest Hname).
    + rewrite get_set_eq by exact Hname. now destruct (existsb _ entries).
    + now destruct (existsb _ entries).
  - apply String.eqb_neq in Ek.
    destruct (value k sv) as [y|]; rewrite (IH _ _ _ _ Hrest Hname).
    + rewrite get_set_ne by exact Ek. reflexivity.
    + reflexivity.
Qed.

(** No assignment creates the property [__proto__]. *)
Lemma resolveEntries_proto (entries : list (string * option string)) :
  forall resolved missing,
    Obj.get "__proto__"
      (fst (resolveEntries processEnv environment entries resolved missing)) =
    Obj.get "__proto__" resolved.
Proof.
  induction entries as [|[k sv] entries IH]; intros resolved missing; [reflexivity |].
  rewrite resolveEntries_cons. destruct (value k sv) as [x|]; rewrite IH; [| reflexivity].
  rewrite get_set. destruct (String.eqb "__proto__" k); reflexivity.
Qed.

Lemma existsb_key (entries : list (string * option string)) varName stackValue :
  In (varName, stackValue) entries ->
  existsb (fun e => String.eqb varName (fst e)) entries = true.
Proof.
  intros H. apply existsb_exists. exists (varName, stackValue).
  split; [exact H | apply String.eqb_refl].
Qed.

End Resolve.

(** What [validateEnvironmentVariables] returns and emits. *)
Lemma validate_run (serviceName environment : string)
    (environmentVariables : option (Obj.t (option string))) (w : World) :
  let entries := Obj.entries (default [] environmentVariables) in
  let result := resolveEntries (env w) environment entries [] [] in
  let res := {| valid := (length (snd result) =? 0)%nat;
                missing := snd result; resolved := fst result |} in
  validateEnvironmentVariables serviceName environment (ArgObject environmentVariables) w =
  (Ok res,
   {| env := env w;
      events := (events w ++ [BeforeEnvironmentValidation serviceName environment]) ++
                [if valid res
                 then EnvironmentValidated serviceName environment (resolved res) (missing res)
                 else EnvironmentValidationFailed serviceName environment (missing res)
                        (List.map (fun v => "Missing required environment variable: " +:+ v)
                                  (missing res))];
      clock := clock w |}).
Proof.
  unfold validateEnvironmentVariables, declaredOf, try_catch, mbind, M_bind, emitEvent,
    process_env, mret, M_ret.
  simpl.
  destruct (resolveEntries (env w) environment
              (Obj.entries (default [] environmentVariables)) [] []) as [r m] eqn:E.
  simpl. destruct (length m =? 0)%nat; reflexivity.
Qed.

(** Without requirements the property read throws, and the failure
    is published before it is passed on. *)
Lemma validate_throws (serviceName environment : string)
    (stackRequirements : RequirementsArg) (value : string) (w : World) :
  (stackRequirements = ArgUndefined /\ value = "undefined") \/
  (stackRequirements = ArgNull /\ value = "null") ->
  validateEnvironmentVariables serviceName environment stackRequirements w =
  (Throw (cannotRead value "environmentVariables"),
   {| env := env w;
      events := events w ++
        [BeforeEnvironmentValidation serviceName environment;
         EnvironmentValidationFailed serviceName environment []
           [errorMessage (cannotRead value "environmentVariables")]];
      clock := clock w |}).
Proof.
  intros [[-> ->] | [-> ->]];
    unfold validateEnvironmentVariables, declaredOf, try_catch, mbind, M_bind, emitEvent,
      mthrow, M_throw; cbn [fst snd env events clock];
    now rewrite <- List.app_assoc.
Qed.

Lemma unique_value (vars : Obj.t (option string)) varName stackValue stackValue' :
  List.NoDup (List.map fst vars) ->
  In (varName, stackValue) vars -> In (varName, stackValue') (Obj.entries vars) ->
  stackValue' = stackValue.
Proof.
  intros Hnd H1 H2. apply (proj1 (In_entries _ _)) in H2.
  apply (In_get _ _ _ Hnd) in H1. apply (In_get _ _ _ Hnd) in H2. congruence.
Qed.

End ResolverFacts.

(** ** The stack inspector *)

Module InspectorFacts.

Lemma isStackReady_iff (stack : Stack) :
  isStackReady stack = true <->
  StackStatus stack = Some "CREATE_COMPLETE" \/ StackStatus stack = Some "UPDATE_COMPLETE".
Proof.
  unfold isStackReady, readyStatuses.
  destruct (StackStatus stack) as [s|]; simpl.
  - assert (Hs : default "" (if Str.truthy s then Some s else Some "") = s)
      by (destruct s; reflexivity).
    rewrite Hs, !orb_true_iff, !String.eqb_eq. split.
    + intros [-> | [-> | H]]; [auto | auto | discriminate].
    + intros [[= ->] | [= ->]]; auto.
  - split; [discriminate | intros [H | H]; discriminate].
Qed.

Section Run.
Variable cfn_send :
  gmap string string -> ClientConfig -> string -> Outcome (option (list Stack)).
Variable ssm_send :
  gmap string string -> ClientConfig -> string -> Outcome (option (list SsmParameter)).

Lemma initializeClients_run (config : AWSProfileConfig) (w : World) :
  exists client w1,
    initializeClients config w = (Ok client, w1) /\
    events w1 = events w /\ clock w1 = clock w.
Proof.
  unfold initializeClients, mbind, M_bind, getenv, setenv, mret, M_ret. simpl.
  destruct (is_truthy (accessKeyId config) && is_truthy (secretAccessKey config)).
  - eexists _, _. split; [reflexivity | auto].
  - destruct (is_truthy (profile config)).
    + eexists _, _. split; [reflexivity | auto].
    + eexists _, _. split; [reflexivity | auto].
Qed.

(** Probing the configuration store never fails and touches nothing. *)
Lemma probePaths_run (client : ClientConfig) (pathPatterns : list string) :
  forall ssmParameters w,
    exists found, probePaths ssm_send client pathPatterns ssmParameters w = (Ok found, w).
Proof.
  induction pathPatterns as [|p ps IH]; intros acc w; simpl.
  - exists acc. reflexivity.
  - unfold mbind, M_bind, try_catch, send_ssm, mret, M_ret.
    destruct (ssm_send (env w) client p) as [[params|]|e]; apply IH.
Qed.

(** What [extractRequirements] returns. *)
Lemma extractRequirements_run (client : ClientConfig) (stack : Stack)
    (profileConfig : AWSProfileConfig) (w : World) :
  exists reqs,
    extractRequirements ssm_send client stack profileConfig w = (Ok reqs, w) /\
    stackName reqs = StackName stack /\
    outputs reqs = extractOutputs stack /\
    status reqs = StackStatus stack /\
    readyForDeployment reqs = isStackReady stack /\
    environmentVariables reqs =
      Obj.spread (generateEnvVarsFromOutputs (outputs reqs))
                 (generateEnvVarsFromSSM (ssmParameters reqs)).
Proof.
  unfold extractRequirements, extractSSMParameters, mbind, M_bind.
  destruct (probePaths_run client (ssmPathPatterns (StackName stack)) [] w) as [found ->].
  unfold getenv, mret, M_ret. eexists. split; [reflexivity |]. simpl. auto 6.
Qed.

Lemma getStackDetails_run (client : ClientConfig) (stackName : string) (w : World) :
  getStackDetails cfn_send client stackName w =
  (stackOf (cfn_send (env w) client stackName), w).
Proof.
  unfold getStackDetails, try_catch, mbind, M_bind, send_cfn, mret, M_ret, mthrow, M_throw,
    stackOf, isNotFound.
  destruct (cfn_send (env w) client stackName) as [[[|stack l]|]|e]; try reflexivity.
  destruct e as [name message| | |text truthy name message]; try reflexivity;
    destruct (_ && _); reflexivity.
Qed.

(** The three ways an inspection ends, with the events of each. *)
Lemma inspectStack_run (stackName : string) (profileConfig : AWSProfileConfig) (w : World) :
  let before := BeforeStackInspection stackName (cfg_region profileConfig)
                  (profile profileConfig) in
  exists client w1 res w',
    initializeClients profileConfig
      {| env := env w; events := events w ++ [before]; clock := clock w |} = (Ok client, w1) /\
    inspectStack cfn_send ssm_send stackName profileConfig w = (Ok res, w') /\
    env w' = env w1 /\ clock w' = clock w /\
    match stackOf (cfn_send (env w1) client stackName) with
    | Ok (Some stack) =>
        exists reqs,
          res = {| success := true; requirements := Some reqs;
                   error := None; recommendations := None |} /\
          status reqs = StackStatus stack /\
          readyForDeployment reqs = isStackReady stack /\
          environmentVariables reqs =
            Obj.spread (generateEnvVarsFromOutputs (outputs reqs))
                       (generateEnvVarsFromSSM (ssmParameters reqs)) /\
          events w' = events w ++
            [before;
             AfterStackInspection stackName reqs
               (length (Obj.keys (outputs reqs)))
               (length (Obj.keys (environmentVariables reqs)))
               (length (dependencies reqs)) (readyForDeployment reqs)]
    | Ok None =>
        res = stackNotFound stackName /\ events w' = events w ++ [before]
    | Throw e =>
        res = {| success := false; requirements := None;
                 error := Some (errorMessage e);
                 recommendations := Some (generateErrorRecommendations e) |} /\
        events w' = events w ++ [before; StackInspectionFailed stackName (errorMessage e)]
    end.
Proof.
  intros before.
  destruct (initializeClients_run profileConfig
              {| env := env w; events := events w ++ [before]; clock := clock w |})
    as [client [w1 [Hinit [Hev Hck]]]].
  simpl in Hev, Hck. exists client, w1.
  assert (Hrun : inspectStack cfn_send ssm_send stackName profileConfig w =
            try_catch
              (stackData ← getStackDetails cfn_send client stackName;
               match stackData with
               | None => mret (stackNotFound stackName)
               | Some stack =>
                   requirements ← extractRequirements ssm_send client stack profileConfig;
                   emitAfterInspectionEvent stackName requirements ;;
                   mret {| success := true; requirements := Some requirements;
                           error := None; recommendations := None |}
               end)
              (fun error =>
                 emitInspectionErrorEvent stackName (errorMessage error) ;;
                 mret {| success := false; requirements := None;
                         error := Some (errorMessage error);
                         recommendations := Some (generateErrorRecommendations error) |})
              w1).
  { unfold inspectStack, emitBeforeInspectionEvent, emitEvent, try_catch.
    unfold mbind at 1. unfold M_bind at 1. fold before.
    unfold mbind at 1. unfold M_bind at 1. rewrite Hinit. reflexivity. }
  rewrite Hrun. clear Hrun. unfold try_catch.
  unfold mbind at 1. unfold M_bind at 1. rewrite getStackDetails_run.
  destruct (stackOf (cfn_send (env w1) client stackName)) as [[stack|]|e].
  - destruct (extractRequirements_run client stack profileConfig w1)
      as [reqs [Hreq [_ [_ [Hst [Hrd Henv]]]]]].
    unfold mbind, M_bind. rewrite Hreq.
    unfold emitAfterInspectionEvent, emitEvent, mret, M_ret.
    eexists _, _. split; [exact Hinit |]. split; [reflexivity |]. simpl.
    split; [reflexivity |]. split; [exact Hck |].
    exists reqs. repeat (split; [first [reflexivity | assumption] |]).
    rewrite Hev, <- app_assoc. reflexivity.
  - unfold mret, M_ret.
    eexists _, _. split; [exact Hinit |]. split; [reflexivity |].
    split; [reflexivity |]. split; [exact Hck |]. split; [reflexivity | exact Hev].
  - unfold emitInspectionErrorEvent, emitEvent, mbind, M_bind, mret, M_ret.
    eexists _, _. split; [exact Hinit |]. split; [reflexivity |]. simpl.
    split; [reflexivity |]. split; [exact Hck |]. split; [reflexivity |].
    rewrite Hev, <- app_assoc. reflexivity.
Qed.

End Run.

End InspectorFacts.

(** ** The dependency scanner *)

Module ScannerFacts.

Section Scan.
Variable Doc : Type.
Variable fs_stat : string -> Outcome N.
Variable fs_readFile : string -> Outcome string.
Variable yaml_load : string -> Outcome Doc.
Variable yaml_dump : Doc -> Outcome string.
Variable cwd : string.

Local Abbreviation scan := (scanDependencies Doc fs_stat fs_readFile yaml_load yaml_dump cwd).
Local Abbreviation scan_body :=
  (scanDependencies_body Doc fs_stat fs_readFile yaml_load yaml_dump cwd).

(** The [catch] of [scanDependencies] turns every failure of its
    body into the empty list. *)
Lemma scan_catches (configPath : string) (projectRoot : option string) (w : World) :
  scan configPath projectRoot w =
  match scan_body configPath projectRoot w with
  | (Ok deps, w') => (Ok deps, w')
  | (Throw _, w') => (Ok [], w')
  end.
Proof.
  unfold scanDependencies, try_catch.
  destruct (scan_body configPath projectRoot w) as [[deps|e] w']; reflexivity.
Qed.

Lemma body_unsafe (configPath : string) (projectRoot : option string) (w : World) :
  isPathSafe cwd configPath projectRoot = false ->
  exists e, scan_body configPath projectRoot w = (Throw e, w).
Proof. intros H. unfold scanDependencies_body. rewrite H. simpl. eexists. reflexivity. Qed.

(** [loadConfig] fails when the file cannot be inspected, is too
    large, cannot be read or cannot be parsed. *)
Lemma loadConfig_run (configPath : string) (w : World) :
  loadConfig Doc fs_stat fs_readFile yaml_load configPath w =
  (match fs_stat configPath with
   | Throw e => Throw e
   | Ok size =>
       if (maxFileSize <? size)%N
       then Throw (Error ("File " +:+ configPath +:+ " exceeds maximum size limit of 10MB"))
       else match fs_readFile configPath with
            | Throw e => Throw e
            | Ok content => yaml_load content
            end
   end, w).
Proof.
  unfold loadConfig, mbind, M_bind, lift, mthrow, M_throw.
  destruct (fs_stat configPath) as [size|e]; [| reflexivity].
  destruct (maxFileSize <? size)%N; [reflexivity |].
  destruct (fs_readFile configPath) as [content|e]; reflexivity.
Qed.

Lemma body_load_fails (configPath : string) (projectRoot : option string) (w : World) e :
  fst (loadConfig Doc fs_stat fs_readFile yaml_load configPath w) = Throw e ->
  exists e', scan_body configPath projectRoot w = (Throw e', w).
Proof.
  intros H. unfold scanDependencies_body.
  destruct (isPathSafe cwd configPath projectRoot); simpl; [| eexists; reflexivity].
  unfold mbind at 1. unfold M_bind at 1.
  rewrite loadConfig_run in *. cbn [fst] in H. rewrite H. eexists. reflexivity.
Qed.

Lemma body_dump_fails (configPath : string) (projectRoot : option string) (w : World)
    content e :
  fst (loadConfig Doc fs_stat fs_readFile yaml_load configPath w) = Ok content ->
  yaml_dump content = Throw e ->
  exists e', scan_body configPath projectRoot w = (Throw e', w).
Proof.
  intros H Hd. unfold scanDependencies_body.
  destruct (isPathSafe cwd configPath projectRoot); simpl; [| eexists; reflexivity].
  unfold mbind at 1. unfold M_bind at 1.
  rewrite loadConfig_run in *. cbn [fst] in H. rewrite H.
  unfold scanSSMReferences, mbind, M_bind, lift. rewrite Hd. eexists. reflexivity.
Qed.

(** A document whose text is one plain reference to [/vpc-stack/...]. *)
Lemma scan_single_reference (content : Doc) (filePath before key after : string)
    (w : World) :
  Str.lacks "$" before = true -> Str.lacks "$" key = true -> Str.lacks "}" key = true ->
  Str.lacks "$" after = true ->
  yaml_dump content = Ok (before +:+ "${ssm:/vpc-stack/" +:+ key +:+ "}" +:+ after) ->
  scanSSMReferences Doc yaml_dump content filePath w =
  (Ok ["vpc-stack"],
   {| env := env w;
      events := events w ++ [DependencyDetected "ssm" filePath "vpc-stack" None];
      clock := clock w |}).
Proof.
  intros Hbefore Hd Hb Hafter Hdump.
  unfold scanSSMReferences, mbind, M_bind, lift. rewrite Hdump.
  destruct (ParserFacts.single_reference before key after Hbefore Hd Hb Hafter)
    as [m [-> Hg]].
  cbn [scanSSM_loop]. rewrite Hg. cbn [is_truthy default]. unfold id.
  replace (Str.truthy ("/vpc-stack/" +:+ key)) with true by reflexivity.
  rewrite (ParserFacts.vpc_stack_path key Hd). reflexivity.
Qed.

End Scan.

End ScannerFacts.

(** ** The remote deployment orchestrator *)

Module OrchestratorFacts.
Import ObjFacts ResolverFacts InspectorFacts.

(** A variable with a stack value always resolves. *)
Lemma resolve_defined processEnv environment (entries : list (string * option string)) :
  (forall e, In e entries -> exists x, snd e = Some x) ->
  forall resolved missing,
    snd (resolveEntries processEnv environment entries resolved missing) = missing.
Proof.
  induction entries as [|[k sv] entries IH]; intros Hall resolved missing; [reflexivity |].
  rewrite resolveEntries_cons.
  destruct (Hall (k, sv)) as [x Hx]; [simpl; auto |]. simpl in Hx. subst sv.
  assert (Hv : exists y, resolveValue processEnv environment k (Some x) = Some y).
  { rewrite value_eq.
    destruct (env_get processEnv k); [eauto |].
    destruct (env_get processEnv (scopedName environment k)); eauto. }
  destruct Hv as [y ->]. apply IH. intros e He. apply Hall. simpl. auto.
Qed.

Lemma declared_defined (vars : Obj.t string) :
  forall e, In e (Obj.entries (List.map (fun e => (fst e, Some (snd e))) vars)) ->
            exists x, snd e = Some x.
Proof.
  intros e He. apply (proj1 (In_entries _ _)) in He.
  apply in_map_iff in He as [[k v] [<- _]]. simpl. eauto.
Qed.

Lemma inject_run (vars : list (string * string)) :
  forall w, exists w',
    for_each vars (fun e => setenv (fst e) (snd e)) w = (Ok tt, w') /\
    events w' = events w /\ clock w' = clock w.
Proof.
  induction vars as [|[k v] vars IH]; intros w; simpl.
  - exists w. auto.
  - unfold mbind, M_bind, setenv.
    destruct (IH (if settable k
                  then {| env := <[k := v]> (env w); events := events w; clock := clock w |}
                  else w))
      as [w' [H1 [H2 H3]]].
    exists w'. split; [exact H1 |]. rewrite H2, H3. now destruct (settable k).
Qed.

Lemma Date_now_run (w : World) :
  exists t w', Date_now w = (Ok t, w') /\ events w' = events w /\ env w' = env w.
Proof.
  unfold Date_now. destruct (clock w) as [|t later]; eexists _, _; split; try reflexivity; auto.
Qed.

Section Run.
Variable cfn_send :
  gmap string string -> ClientConfig -> string -> Outcome (option (list Stack)).
Variable ssm_send :
  gmap string string -> ClientConfig -> string -> Outcome (option (list SsmParameter)).
Variable config : PluginConfig.
Hypothesis inspector_enabled : hasStackInspector config = true.

Variable service : ServerlessService.
Variable options : ServerlessDeploymentOptions.

Local Abbreviation check := (checkDependency cfn_send ssm_send config service options).

(** A dependency the control plane reports ready clears the three
    gates; only inspection and validation events are emitted. *)
Lemma check_ready (stackName : string) (w : World) :
  (forall e c, exists stack,
      stackOf (cfn_send e c stackName) = Ok (Some stack) /\ isStackReady stack = true) ->
  exists w' emitted,
    check stackName w = (Ok tt, w') /\
    events w' = events w ++ emitted /\ clock w' = clock w /\
    Forall (fun e => isStart e = false /\ isCompletion e = false /\ isLocalDeploy e = false)
           emitted.
Proof.
  intros Hready. unfold checkDependency, plugin_inspectStack. rewrite inspector_enabled.
  cbn [negb]. unfold mbind at 1. unfold M_bind at 1.
  match goal with |- context [inspectStack _ _ _ ?cfg w] =>
    destruct (inspectStack_run cfn_send ssm_send stackName cfg w)
      as [client [w1 [res [w2 [_ [Hrun [_ [Hck Hcase]]]]]]]]
  end.
  rewrite Hrun. destruct (Hready (env w1) client) as [stack [Hst Hrd]].
  rewrite Hst in Hcase. destruct Hcase as [reqs [-> [_ [Hready' [_ Hev]]]]].
  cbn [success requirements negb]. rewrite Hready', Hrd. cbn [negb].
  unfold mbind at 1. unfold M_bind at 1. unfold declaredVariables. rewrite validate_run.
  cbn zeta. cbn [default]. unfold id.
  rewrite (resolve_defined _ _ _ (declared_defined (environmentVariables reqs))).
  cbn [valid missing resolved length Nat.eqb negb].
  match goal with |- context [for_each ?vars _ ?w0] =>
    destruct (inject_run vars w0) as [w' [Hinj [Hev' Hck']]]
  end.
  exists w'. eexists. split; [exact Hinj |]. rewrite Hev', Hck'. cbn [events clock].
  split; [| split; [exact Hck |]].
  - rewrite Hev, <- !app_assoc. reflexivity.
  - repeat constructor.
Qed.

(** A dependency that is not found fails the request with the
    inspector's error; only the before-inspection event is emitted. *)
Lemma check_not_found (stackName : string) (w : World) :
  (forall e c, stackOf (cfn_send e c stackName) = Ok None) ->
  exists w' emitted,
    check stackName w =
      (Throw (Error ("Stack inspection failed for " +:+ stackName +:+ ": " +:+
                     "Stack '" +:+ stackName +:+ "' not found or not accessible")), w') /\
    events w' = events w ++ emitted /\ clock w' = clock w /\
    Forall (fun e => isStart e = false /\ isCompletion e = false /\ isLocalDeploy e = false)
           emitted.
Proof.
  intros Hnf. unfold checkDependency, plugin_inspectStack. rewrite inspector_enabled.
  cbn [negb]. unfold mbind at 1. unfold M_bind at 1.
  match goal with |- context [inspectStack _ _ _ ?cfg w] =>
    destruct (inspectStack_run cfn_send ssm_send stackName cfg w)
      as [client [w1 [res [w2 [_ [Hrun [_ [Hck Hcase]]]]]]]]
  end.
  rewrite Hrun. rewrite (Hnf (env w1) client) in Hcase. destruct Hcase as [-> Hev].
  cbn [success stackNotFound negb error default]. unfold mthrow, M_throw.
  exists w2. eexists. split; [reflexivity |]. split; [exact Hev |]. split; [exact Hck |].
  repeat constructor.
Qed.

Variable fs_existsSync : string -> bool.
Variable cli_hasServerlessCLI : Outcome bool.
Variable cli_package : string -> string -> option string -> Outcome unit.
Variable cli_deploy : string -> string -> option string -> Outcome unit.
Variable hotReload_startWatching : option (ServerlessService -> Outcome unit).

Local Abbreviation deployRemote :=
  (deployServiceRemote cfn_send ssm_send fs_existsSync cli_hasServerlessCLI cli_package
     cli_deploy hotReload_startWatching config service options).

(** The request with a ready first dependency and a missing second. *)
Lemma remote_second_not_found (d1 d2 : string) (w : World) :
  svc_dependencies service = [d1; d2] ->
  (forall e c, exists stack,
      stackOf (cfn_send e c d1) = Ok (Some stack) /\ isStackReady stack = true) ->
  (forall e c, stackOf (cfn_send e c d2) = Ok None) ->
  let failure :=
    Error ("Stack inspection failed for " +:+ d2 +:+ ": " +:+
           "Stack '" +:+ d2 +:+ "' not found or not accessible") in
  exists w' between duration,
    deployRemote w = (Throw failure, w') /\
    events w' =
      events w ++
      [RemoteDeployStarted (name service)
         (default (name service)
            (or_else (Some (Str.join "," (svc_dependencies service)))
                     (Some (name service))))
         (environment options) (defaultProfile config)] ++
      between ++
      [RemoteDeployCompleted (name service) (environment options) false duration
         (Some (errorMessage failure))] /\
    Forall (fun e => isStart e = false /\ isCompletion e = false /\ isLocalDeploy e = false)
           between.
Proof.
  intros Hdeps Hready Hnf failure.
  unfold deployServiceRemote. rewrite Hdeps.
  unfold mbind at 1. unfold M_bind at 1. unfold emitEvent at 1.
  unfold mbind at 1. unfold M_bind at 1.
  match goal with |- context [Date_now ?w0] =>
    destruct (Date_now_run w0) as [t0 [wb [-> [Hevb _]]]]
  end.
  cbn [events] in Hevb. unfold try_catch.
  cbn [for_each].
  unfold mbind at 1. unfold M_bind at 1.
  unfold mbind at 1. unfold M_bind at 1.
  destruct (check_ready d1 wb Hready) as [wc [em1 [-> [Hevc [_ Hk1]]]]].
  unfold mbind at 1. unfold M_bind at 1.
  destruct (check_not_found d2 wc Hnf) as [wd [em2 [-> [Hevd [_ Hk2]]]]].
  unfold mbind at 1. unfold M_bind at 1.
  destruct (Date_now_run wd) as [t1 [we [-> [Heve _]]]].
  unfold emitEvent, mbind, M_bind, mthrow, M_throw.
  eexists _, (em1 ++ em2), _. split; [reflexivity |]. split.
  - cbn [events]. rewrite Heve, Hevd, Hevc, Hevb, <- !app_assoc. reflexivity.
  - apply Forall_app. split; assumption.
Qed.

End Run.

End OrchestratorFacts.

(** ** The base-name reducer *)

Module ReducerFacts.
Import Str StrFacts RegexSpec RegexFacts ParserFacts.

Lemma exec_in (r : regex) (s : string) (m : mstate) :
  exec r s = Some m -> exists j s', In m (ms r (start j s')).
Proof.
  unfold exec. destruct (search r 0 s) as [[j m']|] eqn:E; [| discriminate].
  simpl. intros [= ->]. apply search_sound in E as [u [s' [_ [_ Hm]]]].
  exists j, s'. now apply match_at_in.
Qed.

Lemma lang_stack_suffix (w : string) :
  lang (Plus Dot ⋅ lit "-stack") w -> truthy w = true.
Proof.
  intros [d [w2 [-> [Hd Hw2]]]]. apply (lang_lit "-stack") in Hw2 as ->.
  now apply truthy_app_r.
Qed.

Lemma pattern1_groups (m : mstate) j s' :
  In m (ms basePattern1 (start j s')) ->
  group 2 m = None /\ exists g, group 1 m = Some g /\ truthy g = true.
Proof.
  intros Hin. split.
  - apply (ms_group_other 2 basePattern1 eq_refl _ _ Hin).
  - apply in_ms_seq in Hin as [y [_ Hin]]. apply in_ms_seq in Hin as [z [_ Hin]].
    apply ms_grp in Hin as [w [Hw [_ ->]]]. exists w. split; [reflexivity |].
    now apply lang_stack_suffix.
Qed.

Lemma pattern2_groups (m : mstate) j s' :
  In m (ms basePattern2 (start j s')) -> group 2 m = Some "stack".
Proof.
  intros Hin.
  apply in_ms_seq in Hin as [y1 [_ Hin]]. apply in_ms_seq in Hin as [y2 [_ Hin]].
  apply in_ms_seq in Hin as [y3 [_ Hin]]. apply in_ms_seq in Hin as [y4 [_ Hin]].
  apply ms_grp in Hin as [w [Hw [_ ->]]]. apply (lang_lit "stack") in Hw as ->. reflexivity.
Qed.

Lemma pattern3_groups (m : mstate) j s' :
  In m (ms basePattern3 (start j s')) ->
  group 2 m = None /\ exists g, group 1 m = Some g /\ truthy g = true.
Proof.
  intros Hin. split.
  - apply (ms_group_other 2 basePattern3 eq_refl _ _ Hin).
  - apply in_ms_seq in Hin as [y [Hy Hin]].
    rewrite (ms_group_other 1 (Chr "-" ⋅ placeholder) eq_refl _ _ Hin).
    apply ms_grp in Hy as [w [Hw [_ ->]]]. exists w. split; [reflexivity |].
    now apply lang_stack_suffix.
Qed.

(** A pattern that matches always yields a name. *)
Lemma firstPattern_some (s : string) (result : option string) :
  firstPattern basePatterns s = Some result -> exists g, result = Some g.
Proof.
  unfold basePatterns, firstPattern.
  destruct (exec basePattern1 s) as [m|] eqn:E1.
  { apply exec_in in E1 as [j [s' Hin]].
    apply pattern1_groups in Hin as [-> [g [-> Hg]]]. rewrite Hg. intros [= <-]. eauto. }
  destruct (exec basePattern2 s) as [m|] eqn:E2.
  { apply exec_in in E2 as [j [s' Hin]].
    apply pattern2_groups in Hin as ->. simpl. intros [= <-]. eauto. }
  destruct (exec basePattern3 s) as [m|] eqn:E3; [| discriminate].
  apply exec_in in E3 as [j [s' Hin]].
  apply pattern3_groups in Hin as [-> [g [-> Hg]]]. rewrite Hg. intros [= <-]. eauto.
Qed.

Lemma firstPattern_none (s : string) :
  firstPattern basePatterns s = None <-> Forall (fun p => exec p s = None) basePatterns.
Proof.
  unfold basePatterns, firstPattern. split.
  - intros H.
    destruct (exec basePattern1 s) as [m|] eqn:E1;
      [exfalso; revert H; destruct (match group 2 m with Some g => _ | None => _ end);
       discriminate |].
    destruct (exec basePattern2 s) as [m|] eqn:E2;
      [exfalso; revert H; destruct (match group 2 m with Some g => _ | None => _ end);
       discriminate |].
    destruct (exec basePattern3 s) as [m|] eqn:E3;
      [exfalso; revert H; destruct (match group 2 m with Some g => _ | None => _ end);
       discriminate |].
    repeat constructor; assumption.
  - intros H. inversion H as [|? ? E1 H']; subst. inversion H' as [|? ? E2 H'']; subst.
    inversion H'' as [|? ? E3 _]; subst. rewrite E1, E2, E3. reflexivity.
Qed.

(** Without a matching pattern the reducer's answer depends on the
    cleaned name alone, and is [null] only when that is empty. *)
Lemma fallback_null (s : string) :
  firstPattern basePatterns s = None ->
  (extractBaseStackName s = None <-> cleanName s = "").
Proof.
  intros Hnone. unfold extractBaseStackName. rewrite Hnone. cbv zeta.
  destruct (cleanName s) as [|c t] eqn:Ec.
  - split; reflexivity.
  - split; [| discriminate].
    destruct (endsWith (String c t) "-stack"); [discriminate |].
    match goal with
    | |- context [match ?x with Some _ => _ | None => _ end] => destruct x
    end; discriminate.
Qed.

Lemma base_name_null (s : string) :
  extractBaseStackName s = None <->
  Forall (fun p => exec p s = None) basePatterns /\ cleanName s = "".
Proof.
  rewrite <- firstPattern_none.
  destruct (firstPattern basePatterns s) as [result|] eqn:E.
  - apply firstPattern_some in E as Hg. destruct Hg as [g ->].
    unfold extractBaseStackName. rewrite E. split; [discriminate | intros [H _]; discriminate].
  - rewrite (fallback_null s E). split; [auto | intros [_ H]; exact H].
Qed.

End ReducerFacts.

(** ** Derived environment variables: the merge *)

Module MergeFacts.
Import ObjFacts.

(** An upper-cased text is never the name [__proto__]. *)
Lemma upper_char_not_p (c : ascii) : Str.upper_char c <> "p"%char.
Proof. destruct c as [[] [] [] [] [] [] [] []]; vm_compute; discriminate. Qed.

Lemma toUpperCase_not_proto (s : string) : Str.toUpperCase s <> "__proto__".
Proof.
  destruct s as [|c1 [|c2 [|c3 s]]]; try discriminate.
  unfold Str.toUpperCase. cbn [Str.map]. intros H. injection H as _ _ H _.
  exact (upper_char_not_p c3 H).
Qed.

(** Reading a name off an object built by successive definitions:
    the last definition of that name decides. *)
Lemma get_fold_define (f : string * string -> string) (keep : string -> bool)
    (entries : list (string * string)) (name : string) :
  forall init,
    Obj.get name
      (fold_left (fun acc e => if keep (f e) then Obj.define (f e) (snd e) acc else acc)
                 entries init) =
    match Obj.find_last (fun e => keep (f e) && String.eqb (f e) name) entries with
    | Some e => Some (snd e)
    | None => Obj.get name init
    end.
Proof.
  induction entries as [|e entries IH]; intros init; simpl; [reflexivity |].
  rewrite IH. destruct (Obj.find_last _ entries); [reflexivity |].
  destruct (keep (f e)); simpl; [| reflexivity].
  rewrite get_define, String.eqb_sym. now destruct (String.eqb (f e) name).
Qed.

(** The same for assignments: under any name but [__proto__], which
    no assignment creates. *)
Lemma get_fold_set (f : string * string -> string) (keep : string -> bool)
    (entries : list (string * string)) (name : string) :
  forall init,
    Obj.get name
      (fold_left (fun acc e => if keep (f e) then Obj.set (f e) (snd e) acc else acc)
                 entries init) =
    if String.eqb name "__proto__" then Obj.get name init
    else match Obj.find_last (fun e => keep (f e) && String.eqb (f e) name) entries with
         | Some e => Some (snd e)
         | None => Obj.get name init
         end.
Proof.
  induction entries as [|e entries IH]; intros init; simpl.
  - now destruct (String.eqb name "__proto__").
  - rewrite IH. destruct (String.eqb name "__proto__") eqn:Ep.
    + destruct (keep (f e)); [| reflexivity]. rewrite get_set, Ep, andb_false_r. reflexivity.
    + destruct (Obj.find_last _ entries); [reflexivity |].
      destruct (keep (f e)); simpl; [| reflexivity].
      rewrite get_set, Ep, andb_true_r, String.eqb_sym.
      now destruct (String.eqb (f e) name).
Qed.

Lemma NoDup_fold_set (f : string * string -> string) (keep : string -> bool)
    (entries : list (string * string)) :
  forall init, List.NoDup (List.map fst init) ->
    List.NoDup (List.map fst
      (fold_left (fun acc e => if keep (f e) then Obj.set (f e) (snd e) acc else acc)
                 entries init)).
Proof.
  induction entries as [|e entries IH]; intros init Hnd; simpl; [exact Hnd |].
  apply IH. destruct (keep (f e)); [now apply NoDup_set | exact Hnd].
Qed.

Lemma NoDup_fold_define (f : string * string -> string) (keep : string -> bool)
    (entries : list (string * string)) :
  forall init, List.NoDup (List.map fst init) ->
    List.NoDup (List.map fst
      (fold_left (fun acc e => if keep (f e) then Obj.define (f e) (snd e) acc else acc)
                 entries init)).
Proof.
  induction entries as [|e entries IH]; intros init Hnd; simpl; [exact Hnd |].
  apply IH. destruct (keep (f e)); [now apply NoDup_define | exact Hnd].
Qed.

Lemma NoDup_outputs (outputs : Obj.t string) :
  List.NoDup (List.map fst (generateEnvVarsFromOutputs outputs)).
Proof.
  exact (NoDup_fold_set (fun e => outputEnvVarName (fst e)) (fun _ => true)
           (Obj.entries outputs) [] (List.NoDup_nil _)).
Qed.

Lemma NoDup_store (ssmParams : Obj.t string) :
  List.NoDup (List.map fst (generateEnvVarsFromSSM ssmParams)).
Proof.
  exact (NoDup_fold_set (fun e => ssmEnvVarName (fst e)) Str.truthy
           (Obj.entries ssmParams) [] (List.NoDup_nil _)).
Qed.

(** The variables derived from the outputs and from the store. *)
Lemma get_outputs (outputs : Obj.t string) (name : string) :
  Obj.get name (generateEnvVarsFromOutputs outputs) =
  option_map snd
    (Obj.find_last (fun e => String.eqb (outputEnvVarName (fst e)) name) (Obj.entries outputs)).
Proof.
  pose proof (get_fold_set (fun e => outputEnvVarName (fst e)) (fun _ => true)
                (Obj.entries outputs) name []) as H.
  simpl in H. unfold generateEnvVarsFromOutputs. rewrite H. clear H.
  destruct (String.eqb name "__proto__") eqn:Ep; [| now destruct (Obj.find_last _ _)].
  apply String.eqb_eq in Ep as ->.
  destruct (Obj.find_last _ _) as [e|] eqn:E; [| reflexivity].
  apply find_last_In in E as [_ E]. apply String.eqb_eq in E.
  now apply toUpperCase_not_proto in E.
Qed.

Lemma get_store (ssmParams : Obj.t string) (name : string) :
  Obj.get name (generateEnvVarsFromSSM ssmParams) =
  option_map snd
    (Obj.find_last (fun e => Str.truthy (ssmEnvVarName (fst e)) &&
                         String.eqb (ssmEnvVarName (fst e)) name)
               (Obj.entries ssmParams)).
Proof.
  pose proof (get_fold_set (fun e => ssmEnvVarName (fst e)) Str.truthy
                (Obj.entries ssmParams) name []) as H.
  simpl in H. unfold generateEnvVarsFromSSM. rewrite H. clear H.
  destruct (String.eqb name "__proto__") eqn:Ep; [| now destruct (Obj.find_last _ _)].
  apply String.eqb_eq in Ep as ->.
  destruct (Obj.find_last _ _) as [e|] eqn:E; [| reflexivity].
  apply find_last_In in E as [_ E]. apply andb_true_iff in E as [_ E].
  apply String.eqb_eq in E. now apply toUpperCase_not_proto in E.
Qed.

Lemma get_assign (target source : Obj.t string) (name : string) :
  List.NoDup (List.map fst source) ->
  Obj.get name (Obj.assign target source) =
  match Obj.get name source with
  | Some v => Some v
  | None => Obj.get name target
  end.
Proof.
  intros Hnd. unfold Obj.assign.
  pose proof (get_fold_define fst (fun _ => true) (Obj.entries source) name target) as H.
  simpl in H. rewrite H. clear H. destruct (Obj.find_last _ (Obj.entries source)) as [[k v]|] eqn:E.
  - apply find_last_In in E as [Hin Hk]. simpl in Hk. apply String.eqb_eq in Hk as ->.
    apply (proj1 (In_entries _ _)) in Hin. now rewrite (In_get _ _ _ Hnd Hin).
  - assert (Hnone : Obj.get name source = None).
    { apply get_None. intros Hin. apply in_map_iff in Hin as [[k v] [Hk Hin]].
      simpl in Hk. subst k. apply (proj2 (In_entries _ _)) in Hin.
      pose proof (find_last_None _ _ E _ Hin) as Hf. simpl in Hf.
      rewrite String.eqb_refl in Hf. discriminate. }
    now rewrite Hnone.
Qed.

(** [{ ...a, ...b }]: [b] decides wherever it has the name. *)
Lemma get_spread (a b : Obj.t string) (name : string) :
  List.NoDup (List.map fst a) -> List.NoDup (List.map fst b) ->
  Obj.get name (Obj.spread a b) =
  match Obj.get name b with
  | Some v => Some v
  | None => Obj.get name a
  end.
Proof.
  intros Ha Hb. unfold Obj.spread. rewrite (get_assign _ b name Hb).
  rewrite (get_assign [] a name Ha). simpl. now destruct (Obj.get name a).
Qed.

End MergeFacts.

(** ** Derived environment variables: the names *)

Module NameFacts.
Import Str StrFacts RegexSpec RegexFacts NameSpec NameAux.

#[local] Arguments is_char : simpl never.

Lemma replace_go_cons r repl i c s :
  replace_go r repl i 0 (String c s) =
  match match_at r i (String c s) with
  | Some st =>
      repl st +:+
      match pos st - i with
      | O => String c (replace_go r repl (S i) 0 s)
      | S k => replace_go r repl (S i) k s
      end
  | None => String c (replace_go r repl (S i) 0 s)
  end.
Proof. reflexivity. Qed.

Lemma replace_go_skip r repl i k c s :
  replace_go r repl i (S k) (String c s) = replace_go r repl (S i) k s.
Proof. reflexivity. Qed.

Lemma sub_1 (i : nat) : S i - i = 1.
Proof. lia. Qed.

Lemma sub_2 (i : nat) : S (S i) - i = 2.
Proof. lia. Qed.

Lemma upper_not_lower (c : ascii) : is_upper c = true -> is_lower c = false.
Proof.
  unfold is_upper, is_lower, in_range. intros H.
  apply andb_true_iff in H as [_ H]. apply Nat.leb_le in H.
  apply andb_false_iff. left. apply Nat.leb_gt. lia.
Qed.

(** *** Output keys *)

Lemma camel_at (i : nat) (a b : ascii) (s : string) :
  match_at camelBoundary i (String a (String b s)) =
  if is_lower a && is_upper b
  then Some {| pos := S (S i); rest := s;
               caps := [(2, String b ""); (1, String a "")] |}
  else None.
Proof.
  unfold match_at, camelBoundary. simpl.
  destruct (is_lower a); simpl; [| reflexivity].
  destruct (is_upper b); simpl; [| reflexivity].
  unfold capture, step, start. simpl. rewrite !sub_1. reflexivity.
Qed.

Lemma camel_at_upper (i : nat) (b : ascii) (s : string) :
  is_upper b = true -> match_at camelBoundary i (String b s) = None.
Proof.
  intros Hb. apply upper_not_lower in Hb. destruct s as [|c s].
  - unfold match_at, camelBoundary. simpl. now rewrite Hb.
  - rewrite camel_at, Hb. reflexivity.
Qed.

Lemma insertBoundaries_cons (a b : ascii) (s : string) :
  insertBoundaries (String a (String b s)) =
  if is_lower a && is_upper b
  then String a (String "_" (insertBoundaries (String b s)))
  else String a (insertBoundaries (String b s)).
Proof. reflexivity. Qed.

Lemma camel_replace (s : string) :
  forall i, replace_go camelBoundary camelReplacement i 0 s = insertBoundaries s.
Proof.
  induction s as [|a s IH]; intros i; [reflexivity |].
  destruct s as [|b s].
  - unfold replace_go, match_at, camelBoundary. simpl.
    destruct (is_lower a); reflexivity.
  - rewrite replace_go_cons, camel_at, insertBoundaries_cons.
    destruct (is_lower a && is_upper b) eqn:E.
    + apply andb_true_iff in E as [_ Hb].
      cbn [pos]. rewrite sub_2, replace_go_skip.
      specialize (IH (S i)). rewrite replace_go_cons, (camel_at_upper _ _ _ Hb) in IH.
      rewrite <- IH. reflexivity.
    + now rewrite IH.
Qed.

Lemma outputEnvVarName_spec (key : string) : outputEnvVarName key = outputName key.
Proof.
  unfold outputEnvVarName, outputName, replaceAll.
  now rewrite camel_replace.
Qed.


(** *** Configuration-store keys: the three replacements *)

Lemma nonAlnum_replace (s : string) :
  forall i, replace_go nonAlnum (fun _ => "_") i 0 s = Str.map underscoreOther s.
Proof.
  induction s as [|c s IH]; intros i; [reflexivity |].
  rewrite replace_go_cons. unfold match_at, nonAlnum, underscoreOther. simpl.
  destruct (is_alnum c); simpl.
  - now rewrite IH.
  - rewrite sub_1, IH. reflexivity.
Qed.

Lemma ms_star_unfold (a : regex) (st : mstate) :
  ms (Star a) st = star_of (ms a) (String.length (rest st)) st.
Proof. reflexivity. Qed.

Lemma ms_seq_unfold (a b : regex) (st : mstate) :
  ms (a ⋅ b) st = flat_map (ms b) (ms a st).
Proof. reflexivity. Qed.

Lemma star_of_S (body : mstate -> list mstate) (n : nat) (st : mstate) :
  star_of body (S n) st =
  flat_map (fun st' => if (pos st <? pos st')%nat then star_of body n st' else [])
           (body st) ++ [st].
Proof. reflexivity. Qed.

Lemma ms_chr_cons (c d : ascii) (s : string) (st : mstate) :
  rest st = String d s -> ms (Chr c) st = if is_char c d then [step st s] else [].
Proof. intros H. simpl. now rewrite H. Qed.

(** The greedy [_*] takes the whole run of underscores first. *)
Lemma star_chr_head (c : ascii) (s : string) :
  forall st, rest st = s ->
    exists st', hd_error (ms (Star (Chr c)) st) = Some st' /\
                pos st' = pos st + runLength c s.
Proof.
  induction s as [|d s IH]; intros st Hs; rewrite ms_star_unfold, Hs.
  - exists st. split; [reflexivity | simpl; lia].
  - cbn [String.length]. rewrite star_of_S, (ms_chr_cons _ _ _ _ Hs).
    cbn [runLength]. destruct (is_char c d).
    + cbn [flat_map step pos].
      replace (pos st <? S (pos st))%nat with true by (symmetry; apply Nat.ltb_lt; lia).
      destruct (IH (step st s) eq_refl) as [st' [Hhd Hpos]].
      exists st'. split; [| simpl in Hpos; lia].
      change (star_of (ms (Chr c)) (String.length s) (step st s))
        with (ms (Star (Chr c)) (step st s)).
      destruct (ms (Star (Chr c)) (step st s)); [discriminate | exact Hhd].
    + exists st. split; [reflexivity | lia].
Qed.

Lemma underscoreRun_at (i : nat) (s : string) :
  exists st, match_at underscoreRun i (String "_" (String "_" s)) = Some st /\
             pos st = S (S i) + runLength "_" s.
Proof.
  unfold match_at, underscoreRun.
  destruct (star_chr_head "_" s (step (step (start i (String "_" (String "_" s)))
                                      (String "_" s)) s) eq_refl) as [st [Hhd Hpos]].
  exists st. split; [| exact Hpos].
  rewrite ms_seq_unfold,
    (ms_chr_cons "_" "_" (String "_" s) (start i (String "_" (String "_" s))) eq_refl),
    is_char_refl.
  cbn [flat_map].
  rewrite ms_seq_unfold,
    (ms_chr_cons "_" "_" s (step (start i (String "_" (String "_" s))) (String "_" s))
       eq_refl),
    is_char_refl.
  cbn [flat_map].
  destruct (ms (Star (Chr "_")) _); [discriminate | exact Hhd].
Qed.

Lemma ms_chr_nil (c : ascii) (st : mstate) : rest st = "" -> ms (Chr c) st = [].
Proof. intros H. simpl. now rewrite H. Qed.

Lemma underscoreRun_none (i : nat) (s : string) :
  match s with
  | String c (String d _) => is_char "_" c && is_char "_" d = false
  | _ => True
  end ->
  match_at underscoreRun i s = None.
Proof.
  intros H. unfold match_at, underscoreRun. rewrite ms_seq_unfold.
  destruct s as [|c [|d s]].
  - reflexivity.
  - rewrite (ms_chr_cons "_" c "" (start i (String c "")) eq_refl).
    destruct (is_char "_" c); [| reflexivity].
    cbn [flat_map].
    rewrite ms_seq_unfold, (ms_chr_nil "_" (step (start i (String c "")) "") eq_refl).
    reflexivity.
  - rewrite (ms_chr_cons "_" c (String d s) (start i (String c (String d s))) eq_refl).
    destruct (is_char "_" c) eqn:Ec; [| reflexivity].
    cbn [flat_map]. rewrite ms_seq_unfold.
    rewrite (ms_chr_cons "_" d s (step (start i (String c (String d s))) (String d s))
               eq_refl).
    cbn [andb] in H. rewrite H. reflexivity.
Qed.

Lemma runLength_le (c : ascii) (s : string) : runLength c s <= String.length s.
Proof. induction s as [|d s IH]; simpl; [lia |]. destruct (is_char c d); lia. Qed.

Lemma length_drop_le (k : nat) (s : string) : String.length (drop k s) <= String.length s.
Proof.
  revert s. induction k as [|k IH]; intros [|c s]; simpl; try lia.
  specialize (IH s). lia.
Qed.

Lemma replace_go_skip_n r repl (k : nat) :
  forall s i, k <= String.length s ->
    replace_go r repl i k s = replace_go r repl (i + k) 0 (drop k s).
Proof.
  induction k as [|k IH]; intros s i Hk.
  - rewrite Nat.add_0_r. now destruct s.
  - destruct s as [|c s]; simpl in Hk; [lia |].
    rewrite replace_go_skip, IH by lia. simpl drop.
    now replace (S i + k) with (i + S k) by lia.
Qed.

Lemma collapse_run (s : string) :
  collapseUnderscores (String "_" s) =
  String "_" (collapseUnderscores (drop (runLength "_" s) s)).
Proof.
  induction s as [|d s IH]; [reflexivity |].
  change (collapseUnderscores (String "_" (String d s)))
    with (if is_char "_" d then collapseUnderscores (String d s)
          else String "_" (collapseUnderscores (String d s))).
  simpl runLength. destruct (is_char "_" d) eqn:E.
  - apply is_char_eq in E as <-. exact IH.
  - reflexivity.
Qed.

Lemma underscoreRun_replace (n : nat) :
  forall s i, String.length s <= n ->
    replace_go underscoreRun (fun _ => "_") i 0 s = collapseUnderscores s.
Proof.
  induction n as [|n IH]; intros s i Hn.
  - destruct s; [reflexivity | simpl in Hn; lia].
  - destruct s as [|c s]; [reflexivity |]. simpl in Hn.
    rewrite replace_go_cons.
    destruct (is_char "_" c) eqn:Ec.
    + apply is_char_eq in Ec as <-. destruct s as [|d s].
      * reflexivity.
      * destruct (is_char "_" d) eqn:Ed.
        -- apply is_char_eq in Ed as <-.
           destruct (underscoreRun_at i s) as [st [-> Hpos]].
           rewrite Hpos.
           replace (S (S i) + runLength "_" s - i) with (S (S (runLength "_" s))) by lia.
           rewrite replace_go_skip, replace_go_skip_n by apply runLength_le.
           rewrite IH.
           ++ rewrite (collapse_run (String "_" s)). simpl runLength. simpl drop.
              reflexivity.
           ++ pose proof (length_drop_le (runLength "_" s) s). simpl in Hn. lia.
        -- rewrite underscoreRun_none by (simpl; exact Ed).
           rewrite IH by lia. simpl. now rewrite Ed.
    + rewrite underscoreRun_none.
      * rewrite IH by lia. simpl. now rewrite Ec.
      * destruct s; [exact I | now rewrite Ec].
Qed.

Lemma ms_alt_unfold (a b : regex) (st : mstate) : ms (Alt a b) st = ms a st ++ ms b st.
Proof. reflexivity. Qed.

Lemma boundary_at_later (j : nat) (s : string) :
  match_at boundaryUnderscore (S j) s =
  match s with
  | String c EmptyString =>
      if is_char "_" c then Some (step (start (S j) s) "") else None
  | _ => None
  end.
Proof.
  unfold match_at, boundaryUnderscore. rewrite ms_alt_unfold, !ms_seq_unfold.
  change (ms Bol (start (S j) s)) with (@nil mstate). cbn [flat_map app].
  destruct s as [|c [|d s]].
  - reflexivity.
  - rewrite (ms_chr_cons "_" c "" (start (S j) (String c "")) eq_refl).
    destruct (is_char "_" c); reflexivity.
  - rewrite (ms_chr_cons "_" c (String d s) (start (S j) (String c (String d s))) eq_refl).
    destruct (is_char "_" c); reflexivity.
Qed.

Lemma boundary_replace_later (s : string) :
  forall j, replace_go boundaryUnderscore (fun _ => "") (S j) 0 s = dropLastUnderscore s.
Proof.
  induction s as [|c s IH]; intros j; [reflexivity |].
  rewrite replace_go_cons, boundary_at_later. destruct s as [|d s].
  - cbn [dropLastUnderscore]. destruct (is_char "_" c); [| reflexivity].
    cbn [pos step]. rewrite sub_1. reflexivity.
  - rewrite IH. reflexivity.
Qed.

Lemma boundary_replace (s : string) :
  replaceAll boundaryUnderscore (fun _ => "") s = dropBoundaryUnderscores s.
Proof.
  unfold replaceAll. destruct s as [|c s]; [reflexivity |].
  rewrite replace_go_cons. unfold match_at, boundaryUnderscore.
  rewrite ms_alt_unfold, !ms_seq_unfold.
  change (ms Bol (start 0 (String c s))) with [start 0 (String c s)].
  cbn [flat_map]. rewrite (ms_chr_cons "_" c s (start 0 (String c s)) eq_refl).
  unfold dropBoundaryUnderscores.
  destruct (is_char "_" c).
  - cbn [app hd_error pos step start Nat.sub]. now rewrite boundary_replace_later.
  - cbn [app flat_map hd_error]. now rewrite boundary_replace_later.
Qed.

(** The name the code computes, without the matcher. *)
Lemma ssmEnvVarName_eq (key : string) :
  ssmEnvVarName key =
  toUpperCase (dropBoundaryUnderscores (collapseUnderscores (Str.map underscoreOther key))).
Proof.
  unfold ssmEnvVarName. rewrite boundary_replace. unfold replaceAll.
  rewrite nonAlnum_replace.
  now rewrite (underscoreRun_replace _ _ 0 (Nat.le_refl _)).
Qed.


(** *** Configuration-store keys: the words of the specification *)

Lemma alnum_not_underscore (c : ascii) : is_alnum c = true -> is_char "_" c = false.
Proof.
  intros H. destruct (is_char "_" c) eqn:E; [| reflexivity].
  apply is_char_eq in E as <-. discriminate H.
Qed.

Lemma underscoreOther_is (c : ascii) :
  is_char "_" (underscoreOther c) = negb (is_alnum c).
Proof.
  unfold underscoreOther. destruct (is_alnum c) eqn:E; [| reflexivity].
  now rewrite alnum_not_underscore.
Qed.

Lemma collapseUnderscores_cons (c : ascii) (s : string) :
  collapseUnderscores (String c s) =
  if is_char "_" c
  then match s with
       | String d _ =>
           if is_char "_" d then collapseUnderscores s
           else String "_" (collapseUnderscores s)
       | EmptyString => String "_" EmptyString
       end
  else String c (collapseUnderscores s).
Proof. reflexivity. Qed.

Lemma collapseRuns_cons (c : ascii) (s : string) :
  collapseRuns (String c s) =
  if is_alnum c then String c (collapseRuns s)
  else match s with
       | String d _ => if is_alnum d then String "_" (collapseRuns s) else collapseRuns s
       | EmptyString => String "_" EmptyString
       end.
Proof. reflexivity. Qed.

(** Collapsing the runs of other characters is mapping them to
    underscores and collapsing the runs of underscores. *)
Lemma collapseRuns_map (key : string) :
  collapseRuns key = collapseUnderscores (Str.map underscoreOther key).
Proof.
  induction key as [|c s IH]; [reflexivity |].
  rewrite collapseRuns_cons. cbn [Str.map].
  rewrite collapseUnderscores_cons, underscoreOther_is, <- IH.
  destruct (is_alnum c) eqn:Ec; cbn [negb].
  - unfold underscoreOther. now rewrite Ec.
  - destruct s as [|d s]; [reflexivity |].
    cbn [Str.map]. rewrite underscoreOther_is. now destruct (is_alnum d).
Qed.

Lemma noDouble_cons (c d : ascii) (s : string) :
  noDouble (String c (String d s)) =
  negb (is_char "_" c && is_char "_" d) && noDouble (String d s).
Proof. reflexivity. Qed.

Lemma collapse_head (s : string) :
  forall c, exists d t,
    collapseUnderscores (String c s) = String d t /\ is_char "_" d = is_char "_" c.
Proof.
  induction s as [|e s IH]; intros c; rewrite collapseUnderscores_cons;
    destruct (is_char "_" c) eqn:Ec.
  - exists "_"%char, "". auto.
  - exists c, "". auto.
  - destruct (is_char "_" e) eqn:Ee.
    + destruct (IH e) as [d [t [-> Hd]]]. exists d, t. split; [reflexivity | congruence].
    + eexists _, _. split; reflexivity.
  - eexists _, _. split; [reflexivity | exact Ec].
Qed.

Lemma collapse_noDouble (s : string) : noDouble (collapseUnderscores s) = true.
Proof.
  induction s as [|c s IH]; [reflexivity |].
  rewrite collapseUnderscores_cons. destruct (is_char "_" c) eqn:Ec.
  - destruct s as [|d s]; [reflexivity |].
    destruct (is_char "_" d) eqn:Ed; [exact IH |].
    destruct (collapse_head s d) as [e [t [He Hd]]]. rewrite He in *.
    rewrite noDouble_cons, IH, Hd, Ed. reflexivity.
  - destruct s as [|d s]; [reflexivity |].
    destruct (collapse_head s d) as [e [t [He Hd]]]. rewrite He in *.
    rewrite noDouble_cons, IH, Ec. reflexivity.
Qed.

Lemma noDouble_tail (c : ascii) (s : string) : noDouble (String c s) = true -> noDouble s = true.
Proof.
  destruct s as [|d s]; [reflexivity |]. rewrite noDouble_cons.
  intros H. now apply andb_true_iff in H as [_ H].
Qed.

Lemma stripTrailing_cons (c : ascii) (s : string) :
  stripTrailing (String c s) =
  match stripTrailing s with
  | EmptyString => if is_char "_" c then EmptyString else String c EmptyString
  | t => String c t
  end.
Proof. reflexivity. Qed.

Lemma stripTrailing_empty (c : ascii) (s : string) :
  stripTrailing (String c s) = "" -> is_char "_" c = true.
Proof.
  rewrite stripTrailing_cons. destruct (stripTrailing s); [| discriminate].
  destruct (is_char "_" c); [reflexivity | discriminate].
Qed.

Lemma dropLast_strip (s : string) :
  noDouble s = true -> dropLastUnderscore s = stripTrailing s.
Proof.
  induction s as [|c s IH]; intros Hnd; [reflexivity |].
  rewrite stripTrailing_cons. destruct s as [|d s]; [reflexivity |].
  change (dropLastUnderscore (String c (String d s)))
    with (String c (dropLastUnderscore (String d s))).
  rewrite IH by (eapply noDouble_tail; eauto).
  destruct (stripTrailing (String d s)) eqn:Et; [| reflexivity].
  apply stripTrailing_empty in Et. rewrite noDouble_cons, Et in Hnd.
  destruct (is_char "_" c); [discriminate | reflexivity].
Qed.

Lemma dropBoundary_trim (s : string) :
  noDouble s = true -> dropBoundaryUnderscores s = trimSeparators s.
Proof.
  intros Hnd. unfold trimSeparators. destruct s as [|c s]; [reflexivity |].
  unfold dropBoundaryUnderscores. cbn [stripLeading].
  destruct (is_char "_" c) eqn:Ec.
  - rewrite dropLast_strip by (eapply noDouble_tail; eauto).
    destruct s as [|d s]; [reflexivity |].
    rewrite noDouble_cons, Ec in Hnd. cbn [stripLeading].
    destruct (is_char "_" d); [discriminate | reflexivity].
  - rewrite <- dropLast_strip by exact Hnd.
    destruct s as [|d s]; cbn [dropLastUnderscore]; [now rewrite Ec | reflexivity].
Qed.

(** The code computes the name the specification describes. *)
Lemma ssmEnvVarName_spec (key : string) : ssmEnvVarName key = storeName key.
Proof.
  rewrite ssmEnvVarName_eq. unfold storeName.
  rewrite collapseRuns_map, dropBoundary_trim; [reflexivity | apply collapse_noDouble].
Qed.

End NameFacts.

(** ** Footprints *)

Module FootprintFacts.

Section Steps.
Variable R : World -> World -> Prop.
Hypothesis R_refl : forall w, R w w.
Hypothesis R_trans : forall w1 w2 w3, R w1 w2 -> R w2 w3 -> R w1 w3.

Lemma steps_ret {A : Type} (a : A) : steps R (mret a : M A).
Proof. intros w. apply R_refl. Qed.

Lemma steps_throw {A : Type} (e : JsError) : steps R (mthrow e : M A).
Proof. intros w. apply R_refl. Qed.

Lemma steps_lift {A : Type} (o : Outcome A) : steps R (lift o).
Proof. intros w. apply R_refl. Qed.

Lemma steps_getenv (k : string) : steps R (getenv k).
Proof. intros w. apply R_refl. Qed.

Lemma steps_process_env : steps R process_env.
Proof. intros w. apply R_refl. Qed.

Lemma steps_bind {A B : Type} (m : M A) (k : A -> M B) :
  steps R m -> (forall a, steps R (k a)) -> steps R (m ≫= k).
Proof.
  intros Hm Hk w. unfold mbind, M_bind. specialize (Hm w).
  destruct (m w) as [[a|e] w1]; simpl in *; [| exact Hm].
  exact (R_trans _ _ _ Hm (Hk a w1)).
Qed.

Lemma steps_try_catch {A : Type} (m : M A) (h : JsError -> M A) :
  steps R m -> (forall e, steps R (h e)) -> steps R (try_catch m h).
Proof.
  intros Hm Hh w. unfold try_catch. specialize (Hm w).
  destruct (m w) as [[a|e] w1]; simpl in *; [exact Hm |].
  exact (R_trans _ _ _ Hm (Hh e w1)).
Qed.

Lemma steps_for_each {A : Type} (xs : list A) (body : A -> M unit) :
  (forall x, In x xs -> steps R (body x)) -> steps R (for_each xs body).
Proof.
  induction xs as [|x xs IH]; intros Hbody; simpl; [apply steps_ret |].
  apply steps_bind; [apply Hbody; simpl; auto |].
  intros _. apply IH. intros y Hy. apply Hbody. simpl. auto.
Qed.
End Steps.

(** *** Appending events *)

Lemma appends_refl (P : Event -> bool) (w : World) : appends P w w.
Proof. exists []. split; [now rewrite List.app_nil_r | reflexivity]. Qed.

Lemma appends_trans (P : Event -> bool) (w1 w2 w3 : World) :
  appends P w1 w2 -> appends P w2 w3 -> appends P w1 w3.
Proof.
  intros [l1 [H1 P1]] [l2 [H2 P2]]. exists (l1 ++ l2). split.
  - now rewrite H2, H1, List.app_assoc.
  - now rewrite forallb_app, P1, P2.
Qed.

Lemma appends_weaken (P Q : Event -> bool) (w w' : World) :
  (forall e, P e = true -> Q e = true) -> appends P w w' -> appends Q w w'.
Proof.
  intros HPQ [l [H HP]]. exists l. split; [exact H |].
  apply forallb_forall. intros e He. apply HPQ.
  now apply (proj1 (forallb_forall P l) HP).
Qed.

Lemma steps_weaken (P Q : Event -> bool) {A : Type} (m : M A) :
  (forall e, P e = true -> Q e = true) -> steps (appends P) m -> steps (appends Q) m.
Proof. intros HPQ Hm w. exact (appends_weaken P Q _ _ HPQ (Hm w)). Qed.

Lemma appends_emit (P : Event -> bool) (e : Event) :
  P e = true -> steps (appends P) (emitEvent e).
Proof. intros He w. exists [e]. simpl. now rewrite He. Qed.

Lemma appends_setenv (P : Event -> bool) (k v : string) : steps (appends P) (setenv k v).
Proof.
  intros w. exists []. unfold setenv. cbn [snd].
  destruct (settable k); cbn [events forallb]; now rewrite List.app_nil_r.
Qed.

Lemma appends_Date_now (P : Event -> bool) : steps (appends P) Date_now.
Proof.
  intros w. unfold Date_now. destruct (clock w); simpl; [apply appends_refl |].
  exists []. simpl. now rewrite List.app_nil_r.
Qed.

(** *** The process environment *)

Lemma sameEnv_refl (w : World) : sameEnv w w.
Proof. reflexivity. Qed.

Lemma sameEnv_trans (w1 w2 w3 : World) : sameEnv w1 w2 -> sameEnv w2 w3 -> sameEnv w1 w3.
Proof. unfold sameEnv. congruence. Qed.

Lemma sameEnv_emit (e : Event) : steps sameEnv (emitEvent e).
Proof. intros w. reflexivity. Qed.

Lemma sameEnv_Date_now : steps sameEnv Date_now.
Proof. intros w. unfold Date_now. now destruct (clock w). Qed.

Lemma keepsEnv_refl (w : World) : keepsEnv w w.
Proof. intros k v _ H. exact H. Qed.

Lemma keepsEnv_trans (w1 w2 w3 : World) : keepsEnv w1 w2 -> keepsEnv w2 w3 -> keepsEnv w1 w3.
Proof. intros H1 H2 k v Hk H. apply H2; [exact Hk |]. now apply H1. Qed.

Lemma sameEnv_keepsEnv {A : Type} (m : M A) : steps sameEnv m -> steps keepsEnv m.
Proof. intros Hm w k v _ H. rewrite (Hm w). exact H. Qed.

End FootprintFacts.

(** ** What the operations touch *)

Module EffectFacts.
Import FootprintFacts.

Create HintDb footprint.
#[local] Hint Resolve appends_refl appends_trans sameEnv_refl sameEnv_trans
  keepsEnv_refl keepsEnv_trans : footprint.

(** Structural steps of a footprint proof. *)
Ltac footprint_step :=
  match goal with
  | |- steps _ (mret _) => apply steps_ret; auto with footprint
  | |- steps _ (mthrow _) => apply steps_throw; auto with footprint
  | |- steps _ (lift _) => apply steps_lift; auto with footprint
  | |- steps _ (getenv _) => apply steps_getenv; auto with footprint
  | |- steps _ process_env => apply steps_process_env; auto with footprint
  | |- steps _ (_ ≫= _) => apply steps_bind; [eauto with footprint | | intros]
  | |- steps _ (try_catch _ _) => apply steps_try_catch; [eauto with footprint | | intros]
  | |- steps (appends _) (emitEvent _) => apply appends_emit; reflexivity
  | |- steps (appends _) (setenv _ _) => apply appends_setenv
  | |- steps (appends _) Date_now => apply appends_Date_now
  | |- steps sameEnv (emitEvent _) => apply sameEnv_emit
  | |- steps sameEnv Date_now => apply sameEnv_Date_now
  | |- steps keepsEnv (emitEvent _) => apply sameEnv_keepsEnv, sameEnv_emit
  | |- steps keepsEnv Date_now => apply sameEnv_keepsEnv, sameEnv_Date_now
  | |- steps _ (if ?b then _ else _) => destruct b
  | |- steps _ (match ?x with Some _ => _ | None => _ end) => destruct x
  | |- steps _ (match ?x with
                | MkError _ _ => _ | ThrownUndefined => _ | ThrownNull => _
                | ThrownValue _ _ _ _ => _
                end) => destruct x
  | |- steps _ (match ?x with
                | ArgUndefined => _ | ArgNull => _ | ArgObject _ => _
                end) => destruct x
  | |- steps _ (let '(_, _) := ?x in _) => destruct x
  end.
Ltac footprint := repeat footprint_step.

Section Inspector.
Variable cfn_send :
  gmap string string -> ClientConfig -> string -> Outcome (option (list Stack)).
Variable ssm_send :
  gmap string string -> ClientConfig -> string -> Outcome (option (list SsmParameter)).
Variable P : Event -> bool.

Lemma send_cfn_appends client stackName : steps (appends P) (send_cfn cfn_send client stackName).
Proof. intros w. apply appends_refl. Qed.

Lemma send_ssm_appends client path : steps (appends P) (send_ssm ssm_send client path).
Proof. intros w. apply appends_refl. Qed.

Lemma send_cfn_sameEnv client stackName : steps sameEnv (send_cfn cfn_send client stackName).
Proof. intros w. reflexivity. Qed.

Lemma send_ssm_sameEnv client path : steps sameEnv (send_ssm ssm_send client path).
Proof. intros w. reflexivity. Qed.

Lemma initializeClients_appends config : steps (appends P) (initializeClients config).
Proof. unfold initializeClients. footprint. Qed.

Lemma getStackDetails_appends client stackName :
  steps (appends P) (getStackDetails cfn_send client stackName).
Proof. unfold getStackDetails. footprint; apply send_cfn_appends. Qed.

Lemma getStackDetails_sameEnv client stackName :
  steps sameEnv (getStackDetails cfn_send client stackName).
Proof. unfold getStackDetails. footprint; apply send_cfn_sameEnv. Qed.

Lemma probePaths_appends client paths :
  forall found, steps (appends P) (probePaths ssm_send client paths found).
Proof.
  induction paths as [|p paths IH]; intros found; cbn [probePaths]; footprint;
    try apply send_ssm_appends; apply IH.
Qed.

Lemma probePaths_sameEnv client paths :
  forall found, steps sameEnv (probePaths ssm_send client paths found).
Proof.
  induction paths as [|p paths IH]; intros found; cbn [probePaths]; footprint;
    try apply send_ssm_sameEnv; apply IH.
Qed.

Lemma extractRequirements_appends client stack profileConfig :
  steps (appends P) (extractRequirements ssm_send client stack profileConfig).
Proof.
  unfold extractRequirements, extractSSMParameters. footprint. apply probePaths_appends.
Qed.

Lemma extractRequirements_sameEnv client stack profileConfig :
  steps sameEnv (extractRequirements ssm_send client stack profileConfig).
Proof.
  unfold extractRequirements, extractSSMParameters. footprint. apply probePaths_sameEnv.
Qed.
End Inspector.

Section Inspection.
Variable cfn_send :
  gmap string string -> ClientConfig -> string -> Outcome (option (list Stack)).
Variable ssm_send :
  gmap string string -> ClientConfig -> string -> Outcome (option (list SsmParameter)).

Lemma keepsEnv_setenv_profile (v : string) : steps keepsEnv (setenv "AWS_PROFILE" v).
Proof.
  intros w k x Hk H. unfold setenv. cbn [snd].
  change (settable "AWS_PROFILE") with true. cbn [env].
  rewrite lookup_insert_ne by congruence. exact H.
Qed.

Lemma initializeClients_keepsEnv config : steps keepsEnv (initializeClients config).
Proof. unfold initializeClients. footprint. apply keepsEnv_setenv_profile. Qed.

Lemma inspectStack_appends stackName profileConfig :
  steps (appends isInspection) (inspectStack cfn_send ssm_send stackName profileConfig).
Proof.
  unfold inspectStack, emitBeforeInspectionEvent, emitAfterInspectionEvent,
    emitInspectionErrorEvent.
  footprint.
  - apply initializeClients_appends.
  - apply getStackDetails_appends.
  - apply extractRequirements_appends.
Qed.

Lemma inspectStack_keepsEnv stackName profileConfig :
  steps keepsEnv (inspectStack cfn_send ssm_send stackName profileConfig).
Proof.
  unfold inspectStack, emitBeforeInspectionEvent, emitAfterInspectionEvent,
    emitInspectionErrorEvent.
  footprint.
  - apply initializeClients_keepsEnv.
  - apply sameEnv_keepsEnv, getStackDetails_sameEnv.
  - apply sameEnv_keepsEnv, extractRequirements_sameEnv.
Qed.
End Inspection.

(** *** Validation and injection *)

Lemma validate_appends serviceName environment stackRequirements :
  steps (appends isValidation)
        (validateEnvironmentVariables serviceName environment stackRequirements).
Proof. unfold validateEnvironmentVariables, declaredOf. footprint. Qed.

Lemma validate_sameEnv serviceName environment stackRequirements :
  steps sameEnv (validateEnvironmentVariables serviceName environment stackRequirements).
Proof. unfold validateEnvironmentVariables, declaredOf. footprint. Qed.

(** A resolved variable that is set in the environment resolves to
    the value it has there. *)
Lemma resolved_ambient processEnv environment (entries : list (string * option string)) :
  forall resolved missing,
    (forall k v x, Obj.get k resolved = Some v -> processEnv !! k = Some x -> v = x) ->
    forall k v x,
      Obj.get k (fst (resolveEntries processEnv environment entries resolved missing))
        = Some v ->
      processEnv !! k = Some x -> v = x.
Proof.
  induction entries as [|[k0 sv] entries IH]; intros resolved missing Hres k v x;
    [apply Hres |].
  rewrite ResolverFacts.resolveEntries_cons.
  destruct (resolveValue processEnv environment k0 sv) as [y|] eqn:E;
    [| apply IH; exact Hres].
  apply IH. intros k' v' x' Hget Henv.
  rewrite ObjFacts.get_set in Hget.
  destruct (String.eqb k' k0 && negb (String.eqb k' "__proto__")) eqn:Ek.
  - apply andb_true_iff in Ek as [Ek _]. apply String.eqb_eq in Ek as ->.
    rewrite (ResolverFacts.value_own _ _ _ _ sv Henv) in E. congruence.
  - eapply Hres; eassumption.
Qed.

(** Injecting values that agree with an environment keeps what that
    environment sets. *)
Lemma inject_keeps (env0 : gmap string string) (vars : list (string * string)) :
  (forall k v x, In (k, v) vars -> env0 !! k = Some x -> v = x) ->
  forall w,
    (forall k x, env0 !! k = Some x -> env w !! k = Some x) ->
    forall k x, env0 !! k = Some x ->
      env (snd (for_each vars (fun e => setenv (fst e) (snd e)) w)) !! k = Some x.
Proof.
  induction vars as [|[k0 v0] vars IH]; intros Hvars w Hw k x Hk; [now apply Hw |].
  cbn [for_each]. unfold mbind, M_bind. cbn [setenv fst snd].
  apply IH; [intros; eapply Hvars; [right |]; eassumption | | exact Hk].
  intros k' x' Hk'. destruct (settable k0); [| now apply Hw].
  cbn [env]. destruct (decide (k0 = k')) as [<- | Hne].
  - rewrite lookup_insert_eq. f_equal. eapply Hvars; [left; reflexivity | exact Hk'].
  - rewrite lookup_insert_ne by exact Hne. now apply Hw.
Qed.

Lemma inject_appends (P : Event -> bool) (vars : list (string * string)) :
  steps (appends P) (for_each vars (fun e => setenv (fst e) (snd e))).
Proof.
  apply steps_for_each; [apply appends_refl | apply appends_trans |].
  intros e _. apply appends_setenv.
Qed.


Lemma resolveEntries_NoDup processEnv environment (entries : list (string * option string)) :
  forall resolved missing,
    List.NoDup (List.map fst resolved) ->
    List.NoDup (List.map fst
      (fst (resolveEntries processEnv environment entries resolved missing))).
Proof.
  induction entries as [|[k sv] entries IH]; intros resolved missing Hnd; [exact Hnd |].
  rewrite ResolverFacts.resolveEntries_cons.
  destruct (resolveValue processEnv environment k sv); apply IH;
    [now apply ObjFacts.NoDup_set | exact Hnd].
Qed.

(** *** The plugin *)

Section Plugin.
Variable cfn_send :
  gmap string string -> ClientConfig -> string -> Outcome (option (list Stack)).
Variable ssm_send :
  gmap string string -> ClientConfig -> string -> Outcome (option (list SsmParameter)).
Variable fs_existsSync : string -> bool.
Variable cli_hasServerlessCLI : Outcome bool.
Variable cli_package : string -> string -> option string -> Outcome unit.
Variable cli_deploy : string -> string -> option string -> Outcome unit.
Variable hotReload_startWatching : option (ServerlessService -> Outcome unit).
Variable config : PluginConfig.
Variable service : ServerlessService.
Variable options : ServerlessDeploymentOptions.

Local Abbreviation deployLocal :=
  (deployServiceLocal fs_existsSync cli_hasServerlessCLI cli_package cli_deploy
     hotReload_startWatching service options).
Local Abbreviation check := (checkDependency cfn_send ssm_send config service options).

Lemma deployLocal_appends : steps (appends isLocalDeploy) deployLocal.
Proof. unfold deployServiceLocal. footprint. Qed.

Lemma deployLocal_sameEnv : steps sameEnv deployLocal.
Proof. unfold deployServiceLocal. footprint. Qed.

Lemma plugin_inspectStack_appends stackName profile region :
  steps (appends isInspection)
        (plugin_inspectStack cfn_send ssm_send config stackName profile region).
Proof. unfold plugin_inspectStack. footprint. apply inspectStack_appends. Qed.

Lemma plugin_inspectStack_keepsEnv stackName profile region :
  steps keepsEnv (plugin_inspectStack cfn_send ssm_send config stackName profile region).
Proof. unfold plugin_inspectStack. footprint. apply inspectStack_keepsEnv. Qed.

Lemma check_appends stackName :
  steps (appends (fun e => isInspection e || isValidation e)) (check stackName).
Proof.
  unfold checkDependency. footprint.
  - apply (steps_weaken isInspection); [intros e -> ; reflexivity |].
    apply plugin_inspectStack_appends.
  - apply (steps_weaken isValidation); [intros e -> ; apply orb_true_r |].
    apply validate_appends.
  - apply inject_appends.
Qed.

Lemma check_keepsEnv stackName : steps keepsEnv (check stackName).
Proof.
  intros w. unfold checkDependency. unfold mbind at 1. unfold M_bind at 1.
  pose proof (plugin_inspectStack_keepsEnv stackName (defaultProfile config)
                (defaultRegion config) w) as H1.
  destruct (plugin_inspectStack _ _ _ _ _ _ w) as [[res|e] w1]; cbn [snd] in *;
    [| exact H1].
  destruct (negb (success res)); [exact H1 |].
  destruct (requirements res) as [reqs|]; [| exact H1].
  destruct (negb (readyForDeployment reqs)); [exact H1 |].
  unfold mbind at 1. unfold M_bind at 1. unfold declaredVariables.
  rewrite ResolverFacts.validate_run. cbv zeta.
  cbn [valid missing resolved].
  match goal with |- context [resolveEntries ?pe ?en ?es [] []] =>
    set (result := resolveEntries pe en es [] [])
  end.
  destruct (negb (length (snd result) =? 0)%nat); [exact H1 |].
  intros k x Hk Hw. apply (inject_keeps (env w1)).
  - intros k' v' x' Hin Henv. apply (proj1 (ObjFacts.In_entries _ _)) in Hin.
    apply ObjFacts.In_get in Hin;
      [| apply resolveEntries_NoDup; constructor].
    eapply (resolved_ambient (env w1)); [| exact Hin | exact Henv].
    intros ? ? ? Hget. discriminate Hget.
  - intros k' x' H. exact H.
  - now apply H1.
Qed.
End Plugin.

End EffectFacts.

(** ** Local and remote deployment *)

Module DeployFacts.
Import FootprintFacts EffectFacts.

Lemma forallb_weaken {A : Type} (P Q : A -> bool) (l : list A) :
  (forall a, P a = true -> Q a = true) -> forallb P l = true -> forallb Q l = true.
Proof.
  intros HPQ H. apply forallb_forall. intros a Ha. apply HPQ.
  now apply (proj1 (forallb_forall P l) H).
Qed.

Section Run.
Variable cfn_send :
  gmap string string -> ClientConfig -> string -> Outcome (option (list Stack)).
Variable ssm_send :
  gmap string string -> ClientConfig -> string -> Outcome (option (list SsmParameter)).
Variable fs_existsSync : string -> bool.
Variable cli_hasServerlessCLI : Outcome bool.
Variable cli_package : string -> string -> option string -> Outcome unit.
Variable cli_deploy : string -> string -> option string -> Outcome unit.
Variable hotReload_startWatching : option (ServerlessService -> Outcome unit).
Variable config : PluginConfig.
Variable service : ServerlessService.
Variable options : ServerlessDeploymentOptions.

Local Abbreviation deployLocal :=
  (deployServiceLocal fs_existsSync cli_hasServerlessCLI cli_package cli_deploy
     hotReload_startWatching service options).
Local Abbreviation check := (checkDependency cfn_send ssm_send config service options).
Local Abbreviation deployRemote :=
  (deployServiceRemote cfn_send ssm_send fs_existsSync cli_hasServerlessCLI cli_package
     cli_deploy hotReload_startWatching config service options).

Local Abbreviation guarded :=
  (guardedSteps cfn_send ssm_send fs_existsSync cli_hasServerlessCLI cli_package
     cli_deploy hotReload_startWatching config service options).

Lemma guarded_appends :
  steps (appends (fun e => isInspection e || isValidation e || isLocalDeploy e)) guarded.
Proof.
  unfold guardedSteps. apply steps_bind; [apply appends_trans | |].
  - apply steps_for_each; [apply appends_refl | apply appends_trans |].
    intros d _. eapply steps_weaken; [| apply check_appends].
    intros e He. cbn beta in He. now rewrite He.
  - intros _. eapply steps_weaken; [| apply deployLocal_appends].
    intros e ->. apply orb_true_r.
Qed.

Lemma guarded_keepsEnv : steps keepsEnv guarded.
Proof.
  unfold guardedSteps. apply steps_bind; [apply keepsEnv_trans | |].
  - apply steps_for_each; [apply keepsEnv_refl | apply keepsEnv_trans |].
    intros d _. apply check_keepsEnv.
  - intros _. apply sameEnv_keepsEnv, deployLocal_sameEnv.
Qed.

(** A remote deployment: the start notification, the guarded steps,
    the completion notification. *)
Lemma deployRemote_run (w : World) :
  let started :=
    RemoteDeployStarted (name service)
      (default (name service)
         (or_else (Some (Str.join "," (svc_dependencies service)))
                  (Some (name service))))
      (environment options) (defaultProfile config) in
  exists t0 w1 t1 w2 w',
    Date_now {| env := env w; events := events w ++ [started]; clock := clock w |}
      = (Ok t0, w1) /\
    Date_now (snd (guarded w1)) = (Ok t1, w2) /\
    deployRemote w = (fst (guarded w1), w') /\
    env w' = env w2 /\
    events w' = events w2 ++
      [RemoteDeployCompleted (name service) (environment options)
         (match fst (guarded w1) with Ok _ => true | Throw _ => false end)
         (roundSeconds t0 t1)
         (match fst (guarded w1) with
          | Ok _ => None
          | Throw e => Some (errorMessage e)
          end)].
Proof.
  intros started. unfold deployServiceRemote.
  unfold mbind at 1. unfold M_bind at 1. unfold emitEvent at 1. fold started.
  unfold mbind at 1. unfold M_bind at 1.
  match goal with |- context [Date_now ?w0] =>
    destruct (OrchestratorFacts.Date_now_run w0) as [t0 [w1 [Hnow _]]]
  end.
  exists t0, w1. rewrite Hnow. unfold try_catch.
  assert (Hbody : forall k : M unit,
             (for_each (svc_dependencies service) check ;; deployLocal ;; k) w1 =
             match guarded w1 with
             | (Ok _, w2) => k w2
             | (Throw e, w2) => (Throw e, w2)
             end).
  { intros k. unfold guardedSteps, mbind, M_bind.
    destruct (for_each _ _ w1) as [[[]|e] wa]; [| reflexivity].
    destruct (deployServiceLocal _ _ _ _ _ _ _ wa) as [[[]|e] wb]; reflexivity. }
  rewrite Hbody. destruct (guarded w1) as [[[]|e] w2] eqn:Eg; cbn [fst snd].
  - unfold mbind, M_bind.
    destruct (OrchestratorFacts.Date_now_run w2) as [t1 [w3 [Hnow' _]]].
    rewrite Hnow'. exists t1, w3. eexists. split; [reflexivity |].
    split; [reflexivity |]. unfold emitEvent. split; [reflexivity |]. auto.
  - unfold mbind, M_bind.
    destruct (OrchestratorFacts.Date_now_run w2) as [t1 [w3 [Hnow' _]]].
    rewrite Hnow'. exists t1, w3. eexists. split; [reflexivity |].
    split; [reflexivity |]. unfold emitEvent, mthrow, M_throw.
    split; [reflexivity |]. auto.
Qed.

(** The local deployment reads nothing of the world: its outcome is
    the same from every world. *)
Lemma deployLocal_outcome (w w0 : World) : fst (deployLocal w) = fst (deployLocal w0).
Proof.
  unfold deployServiceLocal, try_catch, mbind, M_bind, emitEvent, lift, mthrow, M_throw,
    mret, M_ret.
  destruct (negb (Str.truthy (configFile service)) ||
            negb (fs_existsSync (configFile service))); [reflexivity |].
  destruct cli_hasServerlessCLI as [[|]|e]; cbn [negb]; try reflexivity.
  destruct (cli_package _ _ _) as [[]|e]; [| reflexivity].
  destruct (negb (dryRun options)).
  - destruct (cli_deploy _ _ _) as [[]|e]; [| reflexivity].
    destruct hotReload_startWatching as [start|]; [| reflexivity].
    destruct (shouldEnableHotReload options); [| reflexivity].
    now destruct (start service) as [[]|e].
  - destruct hotReload_startWatching as [start|]; [| reflexivity].
    destruct (shouldEnableHotReload options); [| reflexivity].
    now destruct (start service) as [[]|e].
Qed.

(** A dependency that is found in a state other than the two ready
    ones stops the request. *)
Lemma check_not_ready (stackName : string) (status : option string) (w : World) :
  hasStackInspector config = true ->
  (forall e c, exists stack,
      stackOf (cfn_send e c stackName) = Ok (Some stack) /\
      isStackReady stack = false /\ StackStatus stack = status) ->
  exists w',
    check stackName w =
      (Throw (Error ("Stack " +:+ stackName +:+ " is not ready for deployment. Status: "
                     +:+ default "undefined" status)), w').
Proof.
  intros Hinspector Hfound. unfold checkDependency, plugin_inspectStack.
  rewrite Hinspector. cbn [negb]. unfold mbind at 1. unfold M_bind at 1.
  match goal with |- context [inspectStack _ _ _ ?cfg w] =>
    destruct (InspectorFacts.inspectStack_run cfn_send ssm_send stackName cfg w)
      as [client [w1 [res [w2 [_ [Hrun [_ [_ Hcase]]]]]]]]
  end.
  rewrite Hrun. destruct (Hfound (env w1) client) as [stack [Hst [Hrd Hstatus]]].
  rewrite Hst in Hcase. destruct Hcase as [reqs [-> [Hs [Hready _]]]].
  cbn [success requirements negb]. rewrite Hready, Hrd, Hs, Hstatus. cbn [negb].
  eexists. reflexivity.
Qed.

Lemma check_disabled (stackName : string) (w : World) :
  hasStackInspector config = false ->
  check stackName w =
    (Throw (Error
       "Stack inspection is not enabled. Set enableRemoteDeployment: true in plugin config."),
     w).
Proof.
  intros Hoff. unfold checkDependency, plugin_inspectStack. rewrite Hoff. reflexivity.
Qed.
End Run.

End DeployFacts.

(** ** Injection of the resolved variables *)

Module InjectFacts.
Import ObjFacts.

(** The environment after the loop [process.env[varName] = value]:
    the last assignment under a name the system accepts decides. *)
Lemma inject_lookup (vars : list (string * string)) (k : string) :
  forall w,
    env (snd (for_each vars (fun e => setenv (fst e) (snd e)) w)) !! k =
    match Obj.find_last (fun e => settable (fst e) && String.eqb (fst e) k) vars with
    | Some e => Some (snd e)
    | None => env w !! k
    end.
Proof.
  induction vars as [|[k0 v0] vars IH]; intros w; [reflexivity |].
  cbn [for_each Obj.find_last]. unfold mbind, M_bind. cbn [setenv fst snd].
  rewrite IH. destruct (Obj.find_last _ vars); [reflexivity |].
  destruct (settable k0); cbn [andb]; [| reflexivity]. cbn [env].
  destruct (String.eqb k0 k) eqn:E.
  - apply String.eqb_eq in E as ->. now rewrite lookup_insert_eq.
  - apply String.eqb_neq in E. now rewrite lookup_insert_ne.
Qed.

(** Reading the entries of an object by key. *)
Lemma find_last_entries {V : Type} (o : Obj.t V) (k : string) :
  List.NoDup (List.map fst o) ->
  option_map snd (Obj.find_last (fun e => String.eqb (fst e) k) (Obj.entries o)) =
  Obj.get k o.
Proof.
  intros Hnd.
  destruct (Obj.find_last _ (Obj.entries o)) as [[k' v]|] eqn:E; cbn [option_map snd].
  - apply find_last_In in E as [Hin Hk]. cbn [fst] in Hk.
    apply String.eqb_eq in Hk as ->. apply (proj1 (In_entries _ _)) in Hin.
    symmetry. now apply In_get.
  - symmetry. apply get_None. intros Hin. apply in_map_iff in Hin as [[k' v] [Hk Hin]].
    cbn [fst] in Hk. subst k'. apply (proj2 (In_entries _ _)) in Hin.
    pose proof (find_last_None _ _ E _ Hin) as Hf. cbn [fst] in Hf.
    rewrite String.eqb_refl in Hf. discriminate.
Qed.

Lemma NoDup_assign (target source : Obj.t string) :
  List.NoDup (List.map fst target) ->
  List.NoDup (List.map fst (Obj.assign target source)).
Proof.
  intros Hnd.
  exact (MergeFacts.NoDup_fold_define fst (fun _ => true) (Obj.entries source) target Hnd).
Qed.

Lemma NoDup_spread (a b : Obj.t string) : List.NoDup (List.map fst (Obj.spread a b)).
Proof. unfold Obj.spread. apply NoDup_assign, NoDup_assign. constructor. Qed.

(** The declared variables of inspected requirements, read by key. *)
Lemma declared_entries (vars : Obj.t string) (k : string) (sv : option string) :
  In (k, sv) (Obj.entries (List.map (fun e => (fst e, Some (snd e))) vars)) ->
  exists v, sv = Some v /\ In (k, v) vars.
Proof.
  intros Hin. apply (proj1 (In_entries _ _)) in Hin.
  apply in_map_iff in Hin as [[k' v] [[= -> <-] Hin]]. eauto.
Qed.


(** The variables of inspected requirements have distinct names. *)
Lemma inspected_NoDup
    (cfn_send : gmap string string -> ClientConfig -> string ->
                Outcome (option (list Stack)))
    (ssm_send : gmap string string -> ClientConfig -> string ->
                Outcome (option (list SsmParameter)))
    (stackName : string) (profileConfig : AWSProfileConfig) (w w' : World)
    (res : StackInspectionResult) (reqs : StackRequirements) :
  inspectStack cfn_send ssm_send stackName profileConfig w = (Ok res, w') ->
  requirements res = Some reqs ->
  List.NoDup (List.map fst (environmentVariables reqs)).
Proof.
  intros Hrun Hreqs.
  destruct (InspectorFacts.inspectStack_run cfn_send ssm_send stackName profileConfig w)
    as [client [w1 [res0 [w0 [_ [Hrun0 [_ [_ Hcase]]]]]]]].
  rewrite Hrun in Hrun0. injection Hrun0 as <- <-.
  destruct (stackOf _) as [[stack|]|e].
  - destruct Hcase as [reqs0 [-> [_ [_ [Hvars _]]]]]. cbn [requirements] in Hreqs.
    injection Hreqs as ->. rewrite Hvars. apply NoDup_spread.
  - destruct Hcase as [-> _]. discriminate.
  - destruct Hcase as [-> _]. discriminate.
Qed.

(** What validation resolves a variable of inspected requirements to. *)
Lemma resolved_declared (processEnv : gmap string string) (environment : string)
    (vars : Obj.t string) (k v : string) :
  List.NoDup (List.map fst vars) ->
  Obj.get k vars = Some v ->
  k <> "__proto__" ->
  Obj.get k (fst (resolveEntries processEnv environment
                    (Obj.entries (List.map (fun e => (fst e, Some (snd e))) vars)) [] []))
  = resolveValue processEnv environment k (Some v).
Proof.
  intros Hnd Hget Hname.
  rewrite (ResolverFacts.resolveEntries_resolved processEnv environment _ [] [] k
             (resolveValue processEnv environment k (Some v))).
  - rewrite (ResolverFacts.existsb_key _ k (Some v)).
    + now destruct (resolveValue processEnv environment k (Some v)).
    + apply In_entries, in_map_iff. exists (k, v). split; [reflexivity |].
      now apply get_In.
  - intros sv Hin. apply declared_entries in Hin as [v' [-> Hin]].
    apply (In_get _ _ _ Hnd) in Hin. congruence.
  - exact Hname.
Qed.

End InjectFacts.

(** ** The stack inspector, in detail *)

Module InspectionFacts.
Import InspectorFacts.

(** Three recommendations, and none for a falsy thrown value. *)
Lemma recommendations_length (e : JsError) :
  length (generateErrorRecommendations e) = if errorTruthy e then 3 else 0.
Proof.
  unfold generateErrorRecommendations. destruct (errorTruthy e); [| reflexivity].
  cbn [negb].
  destruct (_ || _); [reflexivity |]. destruct (Str.includes _ "ValidationError");
    [reflexivity |]. now destruct (Str.includes _ "does not exist").
Qed.

(** [AWS_REGION] is no member of [Object.prototype]. *)
Lemma getenv_region (w : World) : getenv "AWS_REGION" w = (Ok (env w !! "AWS_REGION"), w).
Proof.
  unfold getenv. now rewrite (ResolverFacts.env_get_plain (env w) "AWS_REGION" eq_refl).
Qed.

(** What [initializeClients] does to the process environment. *)
Lemma initializeClients_env (config : AWSProfileConfig) (w : World) :
  env (snd (initializeClients config w)) =
  if is_truthy (accessKeyId config) && is_truthy (secretAccessKey config) then env w
  else match profile config with
       | Some p => if Str.truthy p then <["AWS_PROFILE" := p]> (env w) else env w
       | None => env w
       end.
Proof.
  unfold initializeClients, mbind, M_bind, getenv, setenv, mret, M_ret. cbn [fst snd].
  change (settable "AWS_PROFILE") with true. cbv iota.
  destruct (is_truthy (accessKeyId config) && is_truthy (secretAccessKey config));
    [reflexivity |].
  destruct (profile config) as [p|]; cbn [is_truthy default]; [| reflexivity].
  now destruct (Str.truthy p).
Qed.

Lemma initializeClients_region (config : AWSProfileConfig) (w : World) :
  env (snd (initializeClients config w)) !! "AWS_REGION" = env w !! "AWS_REGION".
Proof.
  rewrite initializeClients_env.
  destruct (_ && _); [reflexivity |]. destruct (profile config) as [p|]; [| reflexivity].
  destruct (Str.truthy p); [| reflexivity]. now rewrite lookup_insert_ne.
Qed.

(** The clients and the environment [initializeClients] leaves depend
    on the process environment alone. *)
Lemma initializeClients_world (config : AWSProfileConfig) (w : World)
    (published : list Event) (times : list Z) :
  initializeClients config {| env := env w; events := published; clock := times |} =
  (fst (initializeClients config w),
   {| env := env (snd (initializeClients config w)); events := published; clock := times |}).
Proof.
  unfold initializeClients, mbind, M_bind, getenv, setenv, mret, M_ret. cbn [fst snd env].
  change (settable "AWS_PROFILE") with true. cbv iota.
  destruct (is_truthy (accessKeyId config) && is_truthy (secretAccessKey config));
    [reflexivity |].
  now destruct (is_truthy (profile config)).
Qed.

Section Run.
Variable cfn_send :
  gmap string string -> ClientConfig -> string -> Outcome (option (list Stack)).
Variable ssm_send :
  gmap string string -> ClientConfig -> string -> Outcome (option (list SsmParameter)).

(** The requirements [extractRequirements] builds, field by field. *)
Lemma extractRequirements_eq (client : ClientConfig) (stack : Stack)
    (profileConfig : AWSProfileConfig) (w : World) :
  exists found,
    probePaths ssm_send client (ssmPathPatterns (StackName stack)) [] w = (Ok found, w) /\
    extractRequirements ssm_send client stack profileConfig w =
    (Ok {| stackName := StackName stack;
           region := default "us-east-1"
                       (or_else (or_else (cfg_region profileConfig)
                                         (env w !! "AWS_REGION"))
                                (Some "us-east-1"));
           outputs := extractOutputs stack;
           parameters := extractParameters stack;
           environmentVariables :=
             Obj.spread (generateEnvVarsFromOutputs (extractOutputs stack))
                        (generateEnvVarsFromSSM found);
           dependencies := extractDependencies stack;
           status := StackStatus stack;
           readyForDeployment := isStackReady stack;
           ssmParameters := found |}, w).
Proof.
  destruct (probePaths_run ssm_send client (ssmPathPatterns (StackName stack)) [] w)
    as [found Hfound].
  exists found. split; [exact Hfound |].
  unfold extractRequirements, extractSSMParameters, mbind, M_bind. rewrite Hfound.
  rewrite getenv_region. reflexivity.
Qed.

(** An inspection that finds the stack returns its requirements. *)
Lemma inspectStack_found (stackName : string) (profileConfig : AWSProfileConfig)
    (w w' : World) (res : StackInspectionResult) (reqs : StackRequirements) :
  inspectStack cfn_send ssm_send stackName profileConfig w = (Ok res, w') ->
  requirements res = Some reqs ->
  exists client w1 stack found,
    env w1 = env (snd (initializeClients profileConfig w)) /\
    stackOf (cfn_send (env w1) client stackName) = Ok (Some stack) /\
    probePaths ssm_send client (ssmPathPatterns (StackName stack)) [] w1
      = (Ok found, w1) /\
    reqs = {| stackName := StackName stack;
              region := default "us-east-1"
                          (or_else (or_else (cfg_region profileConfig)
                                            (env w1 !! "AWS_REGION"))
                                   (Some "us-east-1"));
              outputs := extractOutputs stack;
              parameters := extractParameters stack;
              environmentVariables :=
                Obj.spread (generateEnvVarsFromOutputs (extractOutputs stack))
                           (generateEnvVarsFromSSM found);
              dependencies := extractDependencies stack;
              status := StackStatus stack;
              readyForDeployment := isStackReady stack;
              ssmParameters := found |}.
Proof.
  intros Hrun Hreqs. unfold inspectStack, emitBeforeInspectionEvent in Hrun.
  unfold mbind at 1 in Hrun. unfold M_bind at 1 in Hrun. unfold emitEvent at 1 in Hrun.
  unfold try_catch in Hrun. unfold mbind at 1 in Hrun. unfold M_bind at 1 in Hrun.
  match type of Hrun with context [initializeClients _ ?w0] =>
    destruct (initializeClients_run profileConfig w0) as [client [w1 [Hinit _]]];
    pose proof (initializeClients_env profileConfig w0) as Henv
  end.
  rewrite Hinit in Hrun, Henv. cbn [snd env] in Henv.
  rewrite <- (initializeClients_env profileConfig w) in Henv.
  unfold mbind at 1 in Hrun. unfold M_bind at 1 in Hrun.
  rewrite getStackDetails_run in Hrun.
  destruct (stackOf (cfn_send (env w1) client stackName)) as [[stack|]|e] eqn:Estack.
  - destruct (extractRequirements_eq client stack profileConfig w1)
      as [found [Hfound Hreq]].
    unfold mbind at 1 in Hrun. unfold M_bind at 1 in Hrun. rewrite Hreq in Hrun.
    unfold emitAfterInspectionEvent, emitEvent, mbind, M_bind, mret, M_ret in Hrun.
    injection Hrun as <- _. cbn [requirements] in Hreqs. injection Hreqs as <-.
    exists client, w1, stack, found. auto.
  - unfold mret, M_ret in Hrun. injection Hrun as <- _. discriminate.
  - unfold emitInspectionErrorEvent, emitEvent, mbind, M_bind, mret, M_ret in Hrun.
    injection Hrun as <- _. discriminate.
Qed.

(** Probing the store records its answers, prefix by prefix. *)
Lemma addSsmParameters_record (pathPattern : string) (params : list SsmParameter)
    (found : Obj.t string) :
  addSsmParameters pathPattern params found =
  recordOf recordedName recordedValue (List.map (pair pathPattern) params) found.
Proof.
  unfold addSsmParameters, recordOf. revert found.
  induction params as [|param params IH]; intros found; [reflexivity |].
  cbn [List.map fold_left]. rewrite <- IH. f_equal.
  unfold recordedName, recordedValue. cbn [fst snd].
  destruct (Name param) as [n|]; cbn [is_truthy default]; [| reflexivity]. unfold id.
  destruct (Str.truthy n); cbn [andb is_truthy]; [| reflexivity].
  destruct (SsmValue param) as [v|]; cbn [is_truthy default andb];
    [| now rewrite andb_false_r].
  unfold id. destruct (Str.truthy v); [| now rewrite andb_false_r].
  rewrite andb_true_r. reflexivity.
Qed.

Lemma recordOf_app {A : Type} (key value : A -> option string) (l1 l2 : list A)
    (init : Obj.t string) :
  recordOf key value (l1 ++ l2) init = recordOf key value l2 (recordOf key value l1 init).
Proof. unfold recordOf. apply fold_left_app. Qed.

Lemma probePaths_record (client : ClientConfig) (pathPatterns : list string) :
  forall found w,
    probePaths ssm_send client pathPatterns found w =
    (Ok (recordOf recordedName recordedValue
           (flat_map (fun pathPattern =>
                        match ssm_send (env w) client pathPattern with
                        | Ok (Some params) => List.map (pair pathPattern) params
                        | _ => []
                        end) pathPatterns)
           found), w).
Proof.
  induction pathPatterns as [|p ps IH]; intros found w; [reflexivity |].
  cbn [probePaths flat_map]. unfold mbind at 1. unfold M_bind at 1.
  unfold try_catch, mbind, M_bind, send_ssm, mret, M_ret.
  rewrite recordOf_app.
  destruct (ssm_send (env w) client p) as [[params|]|e]; rewrite IH;
    [now rewrite addSsmParameters_record | reflexivity | reflexivity].
Qed.

(** An inspection, by what the control plane answers to its
    request. *)
Lemma inspectStack_at (stackName : string) (profileConfig : AWSProfileConfig)
    (w w1 : World) (client : ClientConfig) :
  initializeClients profileConfig w = (Ok client, w1) ->
  exists res w',
    inspectStack cfn_send ssm_send stackName profileConfig w = (Ok res, w') /\
    match stackOf (cfn_send (env w1) client stackName) with
    | Ok (Some stack) =>
        let found := recordOf recordedName recordedValue
                       (storeAnswers ssm_send (env w1) client (StackName stack)) [] in
        res = {| success := true;
                 requirements :=
                   Some {| stackName := StackName stack;
                           region := default "us-east-1"
                                       (or_else (or_else (cfg_region profileConfig)
                                                         (env w1 !! "AWS_REGION"))
                                                (Some "us-east-1"));
                           outputs := extractOutputs stack;
                           parameters := extractParameters stack;
                           environmentVariables :=
                             Obj.spread (generateEnvVarsFromOutputs (extractOutputs stack))
                                        (generateEnvVarsFromSSM found);
                           dependencies := extractDependencies stack;
                           status := StackStatus stack;
                           readyForDeployment := isStackReady stack;
                           ssmParameters := found |};
                 error := None; recommendations := None |}
    | Ok None => res = stackNotFound stackName
    | Throw e =>
        res = {| success := false; requirements := None;
                 error := Some (errorMessage e);
                 recommendations := Some (generateErrorRecommendations e) |}
    end.
Proof.
  intros Hinit. unfold inspectStack, emitBeforeInspectionEvent.
  unfold mbind at 1. unfold M_bind at 1. unfold emitEvent at 1.
  unfold try_catch. unfold mbind at 1. unfold M_bind at 1.
  rewrite initializeClients_world, Hinit. cbn [fst snd].
  unfold mbind at 1. unfold M_bind at 1. rewrite getStackDetails_run. cbn [env].
  destruct (stackOf (cfn_send (env w1) client stackName)) as [[stack|]|e].
  - unfold mbind at 1. unfold M_bind at 1.
    unfold extractRequirements, extractSSMParameters.
    unfold mbind at 1. unfold M_bind at 1. rewrite probePaths_record.
    unfold mbind at 1. unfold M_bind at 1. rewrite getenv_region.
    unfold emitAfterInspectionEvent, emitEvent, mbind, M_bind, mret, M_ret.
    eexists _, _. split; reflexivity.
  - unfold mret, M_ret. eexists _, _. split; reflexivity.
  - unfold emitInspectionErrorEvent, emitEvent, mbind, M_bind, mret, M_ret.
    eexists _, _. split; reflexivity.
Qed.

(** Probing a store that answers nothing finds nothing. *)
Lemma probePaths_nothing (client : ClientConfig) (pathPatterns : list string) :
  (forall e c p, ssm_send e c p = Ok None \/ exists err, ssm_send e c p = Throw err) ->
  forall found w,
    probePaths ssm_send client pathPatterns found w = (Ok found, w).
Proof.
  intros Hsilent. induction pathPatterns as [|p ps IH]; intros found w; [reflexivity |].
  cbn [probePaths]. unfold mbind at 1. unfold M_bind at 1.
  unfold try_catch, mbind, M_bind, send_ssm, mret, M_ret.
  destruct (Hsilent (env w) client p) as [-> | [err ->]]; apply IH.
Qed.
End Run.

End InspectionFacts.

(** ** Records and lists the inspector builds *)

Module RecordFacts.
Import ObjFacts.

Lemma find_append {A : Type} (f : A -> bool) (l1 l2 : list A) :
  find f (l1 ++ l2) = match find f l1 with Some x => Some x | None => find f l2 end.
Proof.
  induction l1 as [|x l1 IH]; [reflexivity |]. cbn [app find]. now destruct (f x).
Qed.

Section Usable.
Variable A : Type.
Variables key value : A -> option string.

(** The step of the loops of [extractOutputs] and [extractParameters]. *)
Local Abbreviation step :=
  (fun (acc : Obj.t string) (x : A) =>
     if is_truthy (key x) && is_truthy (value x)
     then Obj.set (default "" (key x)) (default "" (value x)) acc
     else acc).

(** An item the loop records under [k]. *)
Local Abbreviation records k :=
  (fun x : A => is_truthy (key x) && is_truthy (value x) &&
                String.eqb (default "" (key x)) k).

Lemma truthy_default (o : option string) :
  is_truthy o = true -> o = Some (default "" o) /\ default "" o <> "".
Proof.
  destruct o as [s|]; [| discriminate]. cbn. destruct s; [discriminate |].
  intros _. split; [reflexivity | discriminate].
Qed.

Lemma get_fold_step (items : list A) (k : string) :
  forall init,
    Obj.get k (fold_left step items init) =
    if String.eqb k "__proto__" then Obj.get k init
    else match find (records k) (rev items) with
         | Some x => Some (default "" (value x))
         | None => Obj.get k init
         end.
Proof.
  induction items as [|x items IH]; intros init.
  - cbn. now destruct (String.eqb k "__proto__").
  - cbn [fold_left rev]. rewrite IH, find_append.
    destruct (String.eqb k "__proto__") eqn:Ep.
    + destruct (is_truthy (key x) && is_truthy (value x)); [| reflexivity].
      now rewrite get_set, Ep, andb_false_r.
    + destruct (find (records k) (rev items)); [reflexivity |]. cbn [find].
      destruct (is_truthy (key x) && is_truthy (value x)); cbn [andb]; [| reflexivity].
      rewrite get_set, Ep, andb_true_r, String.eqb_sym.
      now destruct (String.eqb (default "" (key x)) k).
Qed.

(** The last item that satisfies a test, with what follows it. *)
Lemma find_rev_split (f : A -> bool) (items : list A) (x : A) :
  find f (rev items) = Some x <->
  exists before after,
    items = before ++ x :: after /\ f x = true /\ forallb (fun y => negb (f y)) after = true.
Proof.
  induction items as [|y items IH] using rev_ind.
  - split; [discriminate | intros [[|? ?] [? [H _]]]; discriminate H].
  - rewrite rev_app_distr. cbn [rev app find]. destruct (f y) eqn:Ey.
    + split.
      * intros [= ->]. exists items, []. auto.
      * intros [before [after [Heq [Hx Hafter]]]].
        destruct after as [|z after] using rev_ind.
        { apply app_inj_tail in Heq as [_ ->]. reflexivity. }
        clear IHafter. rewrite app_comm_cons, List.app_assoc in Heq.
        apply app_inj_tail in Heq as [_ ->].
        rewrite forallb_app in Hafter. cbn in Hafter. rewrite Ey in Hafter.
        rewrite andb_false_r in Hafter. discriminate.
    + rewrite IH. split.
      * intros [before [after [-> [Hx Hafter]]]]. exists before, (after ++ [y]).
        rewrite <- List.app_assoc. split; [reflexivity |]. split; [exact Hx |].
        rewrite forallb_app, Hafter. cbn. now rewrite Ey.
      * intros [before [after [Heq [Hx Hafter]]]].
        destruct after as [|z after] using rev_ind.
        { apply app_inj_tail in Heq as [_ ->]. congruence. }
        clear IHafter. rewrite app_comm_cons, List.app_assoc in Heq.
        apply app_inj_tail in Heq as [-> ->].
        rewrite forallb_app in Hafter. apply andb_true_iff in Hafter as [Hafter _].
        exists before, after. auto.
Qed.

(** What the loop leaves under a key: the value of the last item
    with that key among those that have a key and a value; nothing
    under the key [__proto__]. *)
Lemma recorded_iff (items : list A) (k v : string) :
  Obj.get k (fold_left step items []) = Some v <->
  k <> "__proto__" /\
  exists before x after,
    items = before ++ x :: after /\
    key x = Some k /\ value x = Some v /\ k <> "" /\ v <> "" /\
    forall y, In y after -> key y = Some k -> is_truthy (value y) = false.
Proof.
  rewrite get_fold_step. cbn [Obj.get].
  destruct (String.eqb k "__proto__") eqn:Ep.
  { apply String.eqb_eq in Ep. split; [discriminate | tauto]. }
  apply String.eqb_neq in Ep. split.
  - destruct (find (records k) (rev items)) as [x|] eqn:E; [| discriminate].
    intros [= <-]. split; [exact Ep |].
    apply find_rev_split in E as [before [after [-> [Hx Hafter]]]].
    apply andb_true_iff in Hx as [Hx Hk]. apply andb_true_iff in Hx as [Hkey Hvalue].
    apply String.eqb_eq in Hk.
    destruct (truthy_default _ Hkey) as [Hkey' Hkey''].
    destruct (truthy_default _ Hvalue) as [Hvalue' Hvalue''].
    exists before, x, after. rewrite Hk in *. repeat split; try assumption.
    intros y Hy Hyk.
    pose proof (proj1 (forallb_forall _ _) Hafter y Hy) as Hf. cbn beta in Hf.
    rewrite Hyk in Hf. cbn [is_truthy default] in Hf. unfold id in Hf.
    rewrite String.eqb_refl, andb_true_r in Hf.
    assert (Ht : Str.truthy k = true) by (destruct k; [congruence | reflexivity]).
    rewrite Ht in Hf. cbn [andb] in Hf. now destruct (is_truthy (value y)).
  - intros [_ [before [x [after [-> [Hkey [Hvalue [Hk [Hv Hafter]]]]]]]]].
    assert (Ht : Str.truthy k = true) by (destruct k; [congruence | reflexivity]).
    assert (Htv : Str.truthy v = true) by (destruct v; [congruence | reflexivity]).
    assert (E : find (records k) (rev (before ++ x :: after)) = Some x).
    { apply find_rev_split. exists before, after. split; [reflexivity |]. split.
      - rewrite Hkey, Hvalue. cbn [is_truthy default]. unfold id.
        now rewrite Ht, Htv, String.eqb_refl.
      - apply forallb_forall. intros y Hy. cbn beta.
        destruct (key y) as [k'|] eqn:Ek; [| reflexivity]. cbn [is_truthy default].
        unfold id. destruct (String.eqb k' k) eqn:Ekk.
        + apply String.eqb_eq in Ekk as ->. rewrite (Hafter y Hy Ek).
          now rewrite andb_false_r.
        + now rewrite andb_false_r. }
    rewrite E, Hvalue. reflexivity.
Qed.
End Usable.

(** *** Lists without repetition *)

Lemma set_add_In (d x : string) (l : list string) : In x (set_add d l) <-> x = d \/ In x l.
Proof.
  unfold set_add. destruct (existsb (String.eqb d) l) eqn:E.
  - split; [auto |]. intros [-> | H]; [| exact H].
    apply existsb_exists in E as [y [Hy Heq]]. now apply String.eqb_eq in Heq as ->.
  - rewrite in_app_iff. cbn. intuition.
Qed.

Lemma set_add_NoDup (d : string) (l : list string) :
  List.NoDup l -> List.NoDup (set_add d l).
Proof.
  intros Hnd. unfold set_add. destruct (existsb (String.eqb d) l) eqn:E; [exact Hnd |].
  assert (Hnotin : ~ In d l).
  { intros Hin.
    assert (existsb (String.eqb d) l = true)
      by (apply existsb_exists; exists d; split; [exact Hin | apply String.eqb_refl]).
    congruence. }
  clear E. induction Hnd as [|x l Hx Hnd IH]; cbn [app].
  - constructor; [intros [] | constructor].
  - constructor.
    + rewrite in_app_iff. intros [H | [<- | []]]; [now apply Hx |].
      apply Hnotin. now left.
    + apply IH. intros H. apply Hnotin. now right.
Qed.

Lemma fold_set_add_NoDup (l : list string) :
  forall acc, List.NoDup acc -> List.NoDup (fold_left (fun a d => set_add d a) l acc).
Proof.
  induction l as [|d l IH]; intros acc Hnd; [exact Hnd |].
  apply IH, set_add_NoDup, Hnd.
Qed.

Lemma fold_set_add_In (l : list string) (x : string) :
  forall acc, In x (fold_left (fun a d => set_add d a) l acc) <-> In x l \/ In x acc.
Proof.
  induction l as [|d l IH]; intros acc; cbn [fold_left].
  - cbn. intuition.
  - rewrite IH, set_add_In. cbn. intuition.
Qed.

Lemma dedupe_NoDup (l : list string) : List.NoDup (dedupe l).
Proof. apply fold_set_add_NoDup. constructor. Qed.

Lemma dedupe_In (l : list string) (x : string) : In x (dedupe l) <-> In x l.
Proof. unfold dedupe. rewrite fold_set_add_In. cbn. intuition. Qed.

End RecordFacts.

(** ** The shape of the derived names *)

Module NameShapeFacts.
Import Str NameSpec NameAux.

#[local] Arguments is_char : simpl never.

(** *** Upper-casing one character *)

Lemma upper_char_alnum (c : ascii) :
  is_alnum c = true -> is_upper (upper_char c) || is_digit (upper_char c) = true.
Proof. destruct c as [[] [] [] [] [] [] [] []]; intros H; try discriminate H; reflexivity. Qed.

Lemma upper_char_underscore (c : ascii) : is_char "_" (upper_char c) = is_char "_" c.
Proof. destruct c as [[] [] [] [] [] [] [] []]; reflexivity. Qed.

Lemma upper_char_not_lower (c : ascii) : is_lower (upper_char c) = false.
Proof. destruct c as [[] [] [] [] [] [] [] []]; reflexivity. Qed.

Lemma upper_char_fixed (c : ascii) : is_lower c = false -> upper_char c = c.
Proof. unfold upper_char. now intros ->. Qed.

Lemma upper_char_upper (c : ascii) : is_upper (upper_char c) = is_lower c || is_upper c.
Proof. destruct c as [[] [] [] [] [] [] [] []]; reflexivity. Qed.

Lemma lower_upper_char (c : ascii) : lower_char (upper_char c) = lower_char c.
Proof. destruct c as [[] [] [] [] [] [] [] []]; reflexivity. Qed.

Lemma lower_lower_char (c : ascii) : lower_char (lower_char c) = lower_char c.
Proof. destruct c as [[] [] [] [] [] [] [] []]; reflexivity. Qed.

Lemma toLowerCase_toUpperCase (s : string) : toLowerCase (toUpperCase s) = toLowerCase s.
Proof.
  unfold toLowerCase, toUpperCase. induction s as [|c s IH]; [reflexivity |].
  cbn [map]. now rewrite lower_upper_char, IH.
Qed.

Lemma toLowerCase_toLowerCase (s : string) : toLowerCase (toLowerCase s) = toLowerCase s.
Proof.
  unfold toLowerCase. induction s as [|c s IH]; [reflexivity |].
  cbn [map]. now rewrite lower_lower_char, IH.
Qed.

(** *** Predicates on all characters *)

Lemma allb_map (p q : ascii -> bool) (f : ascii -> ascii) (s : string) :
  (forall c, p c = true -> q (f c) = true) -> allb p s = true -> allb q (map f s) = true.
Proof.
  intros Hpq. induction s as [|c s IH]; [reflexivity |]. cbn [allb map].
  intros H. apply andb_true_iff in H as [Hc Hs]. now rewrite (Hpq c Hc), IH.
Qed.

Lemma allb_stripLeading (p : ascii -> bool) (s : string) :
  allb p s = true -> allb p (stripLeading s) = true.
Proof.
  induction s as [|c s IH]; [reflexivity |]. cbn [stripLeading]. intros H.
  destruct (is_char "_" c); [| exact H].
  apply IH. cbn [allb] in H. now apply andb_true_iff in H as [_ H].
Qed.

Lemma allb_stripTrailing (p : ascii -> bool) (s : string) :
  allb p s = true -> allb p (stripTrailing s) = true.
Proof.
  induction s as [|c s IH]; [reflexivity |]. cbn [allb]. intros H.
  apply andb_true_iff in H as [Hc Hs]. specialize (IH Hs).
  rewrite NameFacts.stripTrailing_cons. destruct (stripTrailing s) as [|d t].
  - destruct (is_char "_" c); [reflexivity |]. cbn [allb]. now rewrite Hc.
  - cbn [allb] in IH |- *. now rewrite Hc, IH.
Qed.

Lemma allb_collapseRuns (s : string) :
  allb (fun c => is_alnum c || is_char "_" c) (collapseRuns s) = true.
Proof.
  induction s as [|c s IH]; [reflexivity |]. cbn [collapseRuns].
  destruct (is_alnum c) eqn:Ec.
  - cbn [allb]. now rewrite Ec, IH.
  - destruct s as [|d s]; [reflexivity |]. destruct (is_alnum d); [| exact IH].
    cbn [allb]. rewrite IH. rewrite StrFacts.is_char_refl. now rewrite orb_true_r.
Qed.

(** *** First and last characters *)

Lemma startsWith_nil (s : string) : startsWith s "" = true.
Proof. now destruct s. Qed.

Lemma startsWith_underscore (s : string) :
  startsWith s "_" = match s with String c _ => is_char "_" c | EmptyString => false end.
Proof.
  destruct s as [|c s]; [reflexivity |]. cbn [startsWith].
  destruct s; apply andb_true_r.
Qed.

Lemma endsWith_underscore (c : ascii) (s : string) :
  endsWith (String c s) "_" =
  match s with EmptyString => is_char "_" c | _ => endsWith s "_" end.
Proof.
  unfold endsWith. destruct s as [|d s].
  - cbn. unfold is_char. destruct (Ascii.eqb c "_") eqn:E.
    + apply Ascii.eqb_eq in E as ->. reflexivity.
    + rewrite Ascii.eqb_sym. rewrite E. reflexivity.
  - cbn [String.length]. replace (S (S (String.length s)) - 1) with (S (String.length s))
      by lia.
    replace (S (String.length s) - 1) with (String.length s) by lia.
    reflexivity.
Qed.

Lemma stripLeading_start (s : string) : startsWith (stripLeading s) "_" = false.
Proof.
  induction s as [|c s IH]; [reflexivity |]. cbn [stripLeading].
  destruct (is_char "_" c) eqn:E; [exact IH |]. rewrite startsWith_underscore. exact E.
Qed.

Lemma stripTrailing_start (s : string) :
  startsWith s "_" = false -> startsWith (stripTrailing s) "_" = false.
Proof.
  destruct s as [|c s]; [reflexivity |]. rewrite !startsWith_underscore.
  rewrite NameFacts.stripTrailing_cons. intros Hc.
  destruct (stripTrailing s); [now rewrite Hc | exact Hc].
Qed.

Lemma stripTrailing_end (s : string) : endsWith (stripTrailing s) "_" = false.
Proof.
  induction s as [|c s IH]; [reflexivity |]. rewrite NameFacts.stripTrailing_cons.
  destruct (stripTrailing s) as [|d t] eqn:E.
  - destruct (is_char "_" c) eqn:Ec; [reflexivity |]. rewrite endsWith_underscore.
    exact Ec.
  - rewrite endsWith_underscore. exact IH.
Qed.

Lemma map_start (s : string) :
  startsWith (map upper_char s) "_" = startsWith s "_".
Proof.
  rewrite !startsWith_underscore. destruct s as [|c s]; [reflexivity |].
  apply upper_char_underscore.
Qed.

Lemma map_end (s : string) : endsWith (map upper_char s) "_" = endsWith s "_".
Proof.
  induction s as [|c s IH]; [reflexivity |]. cbn [map]. rewrite !endsWith_underscore.
  destruct s as [|d s]; [apply upper_char_underscore | exact IH].
Qed.

(** *** Repeated separators *)

Lemma includes_double (s : string) : includes s "__" = negb (noDouble s).
Proof.
  induction s as [|c s IH]; [reflexivity |]. cbn [includes]. rewrite IH.
  destruct s as [|d s]; cbn [startsWith noDouble].
  - now rewrite andb_false_r.
  - rewrite startsWith_nil, andb_true_r.
    destruct (is_char "_" c && is_char "_" d); reflexivity.
Qed.

Lemma noDouble_stripLeading (s : string) :
  noDouble s = true -> noDouble (stripLeading s) = true.
Proof.
  induction s as [|c s IH]; [reflexivity |]. cbn [stripLeading]. intros H.
  destruct (is_char "_" c); [| exact H]. apply IH. eapply NameFacts.noDouble_tail, H.
Qed.

Lemma noDouble_stripTrailing (s : string) :
  noDouble s = true -> noDouble (stripTrailing s) = true.
Proof.
  induction s as [|c s IH]; [reflexivity |]. intros H.
  pose proof (IH (NameFacts.noDouble_tail _ _ H)) as IH'.
  rewrite NameFacts.stripTrailing_cons.
  destruct (stripTrailing s) as [|d t] eqn:E.
  - now destruct (is_char "_" c).
  - rewrite NameFacts.noDouble_cons, IH', andb_true_r.
    destruct s as [|d' s']; [discriminate E |].
    rewrite NameFacts.noDouble_cons in H. apply andb_true_iff in H as [H _].
    rewrite NameFacts.stripTrailing_cons in E.
    destruct (stripTrailing s'); [destruct (is_char "_" d') eqn:Ed; [discriminate |] |];
      injection E as <- _; rewrite ?Ed; exact H.
Qed.

Lemma noDouble_map (s : string) : noDouble (map upper_char s) = noDouble s.
Proof.
  induction s as [|c s IH]; [reflexivity |]. destruct s as [|d s]; [reflexivity |].
  cbn [map] in *. rewrite !NameFacts.noDouble_cons, IH, !upper_char_underscore.
  reflexivity.
Qed.

(** *** Names of output keys *)

Lemma map_fixed (s : string) :
  allb (fun c => negb (is_lower c)) s = true -> map upper_char s = s.
Proof.
  induction s as [|c s IH]; [reflexivity |]. cbn [allb map]. intros H.
  apply andb_true_iff in H as [Hc Hs]. rewrite IH by exact Hs.
  rewrite upper_char_fixed; [reflexivity |]. now destruct (is_lower c).
Qed.

Lemma insertBoundaries_fixed (s : string) :
  allb (fun c => negb (is_lower c)) s = true -> insertBoundaries s = s.
Proof.
  induction s as [|c s IH]; [reflexivity |]. cbn [allb]. intros H.
  apply andb_true_iff in H as [Hc Hs]. destruct s as [|d s]; [reflexivity |].
  rewrite NameFacts.insertBoundaries_cons, (IH Hs).
  destruct (is_lower c); [discriminate Hc | reflexivity].
Qed.

Lemma map_no_lower (s : string) :
  allb (fun c => negb (is_lower c)) (map upper_char s) = true.
Proof.
  induction s as [|c s IH]; [reflexivity |]. cbn [allb map].
  now rewrite upper_char_not_lower, IH.
Qed.

End NameShapeFacts.

(** ** Paths *)

Module PathFacts.
Import Str StrFacts.

#[local] Arguments is_char : simpl never.

(** *** Splitting and joining *)

Lemma split_cons (sep c : ascii) (s : string) :
  split sep (String c s) =
  if is_char sep c then EmptyString :: split sep s
  else match split sep s with
       | piece :: pieces => String c piece :: pieces
       | [] => [String c EmptyString]
       end.
Proof. reflexivity. Qed.

Lemma split_not_nil (sep : ascii) (s : string) : split sep s <> [].
Proof.
  induction s as [|c s IH]; [discriminate |]. rewrite split_cons.
  destruct (is_char sep c); [discriminate |]. now destruct (split sep s).
Qed.

Lemma split_lacks (sep c : ascii) (s : string) :
  lacks c s = true -> forall piece, In piece (split sep s) -> lacks c piece = true.
Proof.
  induction s as [|d s IH]; intros Hs piece Hin.
  - destruct Hin as [<- | []]. reflexivity.
  - rewrite ParserFacts.lacks_cons in Hs. apply andb_true_iff in Hs as [Hd Hs].
    rewrite split_cons in Hin. destruct (is_char sep d).
    + destruct Hin as [<- | Hin]; [reflexivity | now apply IH].
    + destruct (split sep s) as [|p ps] eqn:E.
      * destruct Hin as [<- | []]. rewrite ParserFacts.lacks_cons, Hd. reflexivity.
      * destruct Hin as [<- | Hin].
        -- rewrite ParserFacts.lacks_cons, Hd. apply (IH Hs). now left.
        -- apply (IH Hs). now right.
Qed.

Lemma split_pieces (sep : ascii) (s : string) :
  forall piece, In piece (split sep s) -> lacks sep piece = true.
Proof.
  induction s as [|d s IH]; intros piece Hin.
  - destruct Hin as [<- | []]. reflexivity.
  - rewrite split_cons in Hin. destruct (is_char sep d) eqn:Ed.
    + destruct Hin as [<- | Hin]; [reflexivity | now apply IH].
    + destruct (split sep s) as [|p ps] eqn:E.
      * destruct Hin as [<- | []]. rewrite ParserFacts.lacks_cons, Ed. reflexivity.
      * destruct Hin as [<- | Hin].
        -- rewrite ParserFacts.lacks_cons, Ed. apply IH. now left.
        -- apply IH. now right.
Qed.

Lemma split_plain (sep : ascii) (s : string) : lacks sep s = true -> split sep s = [s].
Proof.
  induction s as [|c s IH]; [reflexivity |]. rewrite ParserFacts.lacks_cons. intros H.
  apply andb_true_iff in H as [Hc Hs]. rewrite split_cons.
  apply negb_true_iff in Hc. now rewrite Hc, (IH Hs).
Qed.

Lemma split_app (sep : ascii) (a b : string) :
  lacks sep a = true ->
  split sep (a +:+ String sep b) = a :: split sep b.
Proof.
  induction a as [|c a IH]; intros Ha.
  - cbn [String.append]. rewrite split_cons. now rewrite is_char_refl.
  - rewrite ParserFacts.lacks_cons in Ha. apply andb_true_iff in Ha as [Hc Ha].
    cbn [String.append]. rewrite split_cons. apply negb_true_iff in Hc.
    now rewrite Hc, (IH Ha).
Qed.

(** Joining pieces that hold no separator and splitting again. *)
Lemma split_join (sep : ascii) (pieces : list string) :
  pieces <> [] ->
  (forall piece, In piece pieces -> lacks sep piece = true) ->
  split sep (join (String sep EmptyString) pieces) = pieces.
Proof.
  unfold join. induction pieces as [|p ps IH]; intros Hne Hall; [congruence |].
  destruct ps as [|q ps].
  - cbn [String.concat]. apply split_plain, Hall. now left.
  - change (String.concat (String sep "") (p :: q :: ps))
      with (p +:+ String sep (String.concat (String sep "") (q :: ps))).
    rewrite split_app by (apply Hall; now left).
    f_equal. apply IH; [discriminate |]. intros x Hx. apply Hall. now right.
Qed.

(** *** Normalised segments *)

Local Abbreviation kept := keptSegment.

Lemma normalize_kept (segments : list string) :
  forall acc,
    forallb kept acc = true ->
    forallb kept (normalize_segments segments acc) = true.
Proof.
  induction segments as [|seg segments IH]; intros acc Hacc; cbn [normalize_segments].
  - apply forallb_forall. intros x Hx. apply in_rev in Hx.
    now apply (proj1 (forallb_forall _ _) Hacc).
  - destruct (String.eqb seg "" || String.eqb seg ".") eqn:E1; [now apply IH |].
    destruct (String.eqb seg "..") eqn:E2.
    + apply IH. destruct acc as [|a acc]; [reflexivity |]. cbn in Hacc |- *.
      now apply andb_true_iff in Hacc as [_ H].
    + apply IH. cbn [forallb]. unfold keptSegment at 1. now rewrite E1, E2.
Qed.

Lemma normalize_In (segments : list string) :
  forall acc x,
    In x (normalize_segments segments acc) -> In x segments \/ In x acc.
Proof.
  induction segments as [|seg segments IH]; intros acc x; cbn [normalize_segments].
  - rewrite <- in_rev. auto.
  - destruct (String.eqb seg "" || String.eqb seg ".").
    { intros H. apply IH in H as [H | H]; [left; now right | now right]. }
    destruct (String.eqb seg "..").
    { intros H. apply IH in H as [H | H]; [left; now right |].
      right. destruct acc; [destruct H | now right]. }
    intros H. apply IH in H as [H | [<- | H]]; [left; now right | left; now left | now right].
Qed.

Lemma normalize_fixed (segments : list string) :
  forallb kept segments = true ->
  forall acc, normalize_segments segments acc = rev acc ++ segments.
Proof.
  induction segments as [|seg segments IH]; intros Hall acc; cbn [normalize_segments].
  - now rewrite List.app_nil_r.
  - cbn [forallb] in Hall. apply andb_true_iff in Hall as [Hseg Hall].
    unfold keptSegment in Hseg. apply andb_true_iff in Hseg as [H1 H2].
    apply negb_true_iff in H1, H2. rewrite H1, H2, (IH Hall). cbn [rev].
    now rewrite <- List.app_assoc.
Qed.

(** The segments of a resolved path are those it was built from. *)
Lemma path_segments_resolved (segments : list string) :
  forallb kept segments = true ->
  (forall x, In x segments -> lacks "/" x = true) ->
  path_segments ("/" +:+ join "/" segments) = segments.
Proof.
  intros Hkept Hplain. unfold path_segments. cbn [String.append].
  rewrite split_cons, is_char_refl. cbn [normalize_segments String.eqb orb].
  destruct segments as [|seg segments]; [reflexivity |].
  rewrite split_join; [| discriminate | exact Hplain].
  now rewrite normalize_fixed.
Qed.

Lemma path_segments_kept (p : string) :
  forallb kept (path_segments p) = true /\
  forall x, In x (path_segments p) -> lacks "/" x = true.
Proof.
  unfold path_segments. split; [now apply normalize_kept |].
  intros x Hx. apply normalize_In in Hx as [Hx | []]. now apply (split_pieces "/" p).
Qed.

(** [path.resolve] is idempotent on segments. *)
Lemma path_resolve_segments (cwd p : string) :
  path_segments (path_resolve cwd p) =
  path_segments (if startsWith p "/" then p else cwd +:+ "/" +:+ p).
Proof.
  unfold path_resolve.
  destruct (path_segments_kept (if startsWith p "/" then p else cwd +:+ "/" +:+ p))
    as [Hkept Hplain].
  now apply path_segments_resolved.
Qed.

(** *** Prefixes *)

Lemma startsWith_app (a b : string) : startsWith (a +:+ b) a = true.
Proof.
  induction a as [|c a IH]; [now destruct b |]. cbn [String.append startsWith].
  now rewrite is_char_refl, IH.
Qed.

Lemma join_prefix (xs ys : list string) :
  is_prefix_of xs ys = true ->
  exists rest, join "/" ys = join "/" xs +:+ rest.
Proof.
  revert ys. induction xs as [|x xs IH]; intros ys H.
  - exists (join "/" ys). reflexivity.
  - destruct ys as [|y ys]; [discriminate |]. cbn [is_prefix_of] in H.
    apply andb_true_iff in H as [Hxy H]. apply String.eqb_eq in Hxy as ->.
    destruct (IH ys H) as [rest Hrest]. unfold join in *.
    destruct xs as [|x' xs]; destruct ys as [|y' ys].
    + exists "". cbn. now rewrite app_nil_r.
    + exists ("/" +:+ String.concat "/" (y' :: ys)). reflexivity.
    + discriminate.
    + change (String.concat "/" (y :: y' :: ys))
        with (y +:+ "/" +:+ String.concat "/" (y' :: ys)).
      change (String.concat "/" (y :: x' :: xs))
        with (y +:+ "/" +:+ String.concat "/" (x' :: xs)).
      rewrite Hrest. exists rest. now rewrite !app_assoc.
Qed.

End PathFacts.

(** ** References to stack outputs *)

Module ImportFacts.
Import Str StrFacts.

#[local] Arguments is_char : simpl never.

Lemma lastIndexOf_aux_none (c : ascii) (s : string) :
  lacks c s = true -> forall i, lastIndexOf_aux c i s = None.
Proof.
  induction s as [|d s IH]; intros Hs i; [reflexivity |].
  rewrite ParserFacts.lacks_cons in Hs. apply andb_true_iff in Hs as [Hd Hs].
  cbn [lastIndexOf_aux]. rewrite (IH Hs). apply negb_true_iff in Hd. now rewrite Hd.
Qed.

Lemma lastIndexOf_aux_app (c : ascii) (a b : string) :
  lacks c b = true ->
  forall i, lastIndexOf_aux c i (a +:+ String c b) = Some (i + String.length a).
Proof.
  intros Hb. induction a as [|d a IH]; intros i; cbn [String.append lastIndexOf_aux].
  - rewrite (lastIndexOf_aux_none c b Hb), is_char_refl. cbn. f_equal. lia.
  - rewrite IH. cbn. f_equal. lia.
Qed.

End ImportFacts.

(** ** The scan loops *)

Module ScanFacts.

(** The loop over the parameter-path references: the names it adds
    and the events it publishes, one per name found. *)
Lemma scanSSM_loop_run (filePath : string) (found : list mstate) :
  forall dependencies w,
    exists targets,
      scanSSM_loop filePath found dependencies w =
      (Ok (fold_left (fun acc d => set_add d acc) targets dependencies),
       {| env := env w;
          events := events w ++
            List.map (fun t => DependencyDetected "ssm" filePath t None) targets;
          clock := clock w |}).
Proof.
  induction found as [|m found IH]; intros dependencies w; cbn [scanSSM_loop].
  - exists []. cbn. rewrite List.app_nil_r. now destruct w.
  - destruct (if is_truthy (group 1 m) then _ else None) as [stackName|].
    + destruct (Str.truthy stackName).
      * unfold mbind, M_bind, emitDependencyEvent, emitEvent.
        match goal with |- context [scanSSM_loop _ _ ?d ?w0] =>
          destruct (IH d w0) as [targets ->]
        end.
        exists (stackName :: targets). cbn [fold_left List.map env events clock].
        now rewrite <- List.app_assoc.
      * apply IH.
    + apply IH.
Qed.

(** The loop over the output references. *)
Lemma scanCF_loop_run (filePath : string) (found : list mstate) :
  forall dependencies w,
    exists imports : list (string * string),
      scanCF_loop filePath found dependencies w =
      (Ok (fold_left (fun acc d => set_add d acc) (List.map fst imports) dependencies),
       {| env := env w;
          events := events w ++
            List.map (fun i => DependencyDetected "cloudformation" filePath (fst i)
                                 (Some (snd i))) imports;
          clock := clock w |}).
Proof.
  induction found as [|m found IH]; intros dependencies w; cbn [scanCF_loop].
  - exists []. cbn. rewrite List.app_nil_r. now destruct w.
  - destruct (cfImport _) as [[stackName outputName]|].
    + unfold mbind, M_bind, emitCFDependencyEvent, emitEvent.
      match goal with |- context [scanCF_loop _ _ ?d ?w0] =>
        destruct (IH d w0) as [imports ->]
      end.
      exists ((stackName, outputName) :: imports).
      cbn [fold_left List.map env events clock fst snd].
      now rewrite <- List.app_assoc.
    + apply IH.
Qed.


Section Scan.
Variable Doc : Type.
Variable fs_stat : string -> Outcome N.
Variable fs_readFile : string -> Outcome string.
Variable yaml_load : string -> Outcome Doc.
Variable yaml_dump : Doc -> Outcome string.
Variable cwd : string.

(** The body of [scanDependencies] either fails before it publishes
    anything, or runs both loops. *)
Lemma body_cases (configPath : string) (projectRoot : option string) (w : World) :
  exists outcome w',
    scanDependencies_body Doc fs_stat fs_readFile yaml_load yaml_dump cwd configPath
      projectRoot w = (outcome, w') /\
    ((exists e, outcome = Throw e /\ w' = w) \/
     (exists (targets : list string) (imports : list (string * string)),
         outcome =
           Ok (fold_left (fun acc d => set_add d acc)
                 (fold_left (fun acc d => set_add d acc) (List.map fst imports) [])
                 (fold_left (fun acc d => set_add d acc)
                    (fold_left (fun acc d => set_add d acc) targets []) [])) /\
         w' = {| env := env w;
                 events := events w ++
                   List.map (fun t => DependencyDetected "ssm" configPath t None)
                            targets ++
                   List.map (fun i => DependencyDetected "cloudformation" configPath
                                        (fst i) (Some (snd i))) imports;
                 clock := clock w |})).
Proof.
  unfold scanDependencies_body.
  destruct (negb (isPathSafe cwd configPath projectRoot));
    [eexists _, _; split; [reflexivity |]; left; eauto |].
  unfold mbind at 1. unfold M_bind at 1. rewrite ScannerFacts.loadConfig_run.
  destruct (match fs_stat configPath with Ok _ => _ | Throw _ => _ end)
    as [content|e]; [| eexists _, _; split; [reflexivity |]; left; eauto].
  unfold scanSSMReferences, scanCFImports.
  unfold mbind at 1. unfold M_bind at 1. unfold mbind at 1. unfold M_bind at 1.
  unfold lift at 1.
  destruct (yaml_dump content) as [text|e] eqn:Edump;
    [| eexists _, _; split; [reflexivity |]; left; eauto].
  destruct (scanSSM_loop_run configPath (matchAll ssmPattern text) [] w)
    as [targets ->].
  unfold mbind at 1. unfold M_bind at 1. unfold mbind at 1. unfold M_bind at 1.
  unfold lift at 1.
  match goal with |- context [scanCF_loop _ _ [] ?w0] =>
    destruct (scanCF_loop_run configPath (matchAll cfPattern text) [] w0)
      as [imports ->]
  end.
  eexists _, _. split; [reflexivity |]. right. exists targets, imports.
  cbn [env events clock]. now rewrite <- List.app_assoc.
Qed.
End Scan.

End ScanFacts.

(** ** Names the parser returns *)

Module ResultFacts.
Import Str StrFacts.

Lemma firstPattern_nonempty (patterns : list regex) (s g : string) :
  firstPattern patterns s = Some (Some g) -> g <> "".
Proof.
  induction patterns as [|p patterns IH]; [discriminate |]. cbn [firstPattern].
  destruct (exec p s) as [m|]; [| exact IH].
  destruct (match group 2 m with Some g2 => String.eqb g2 "stack" | None => false end).
  - intros [= <-]. now destruct (default "" (group 1 m)).
  - destruct (group 1 m) as [g1|]; [| discriminate].
    destruct g1; [discriminate |]. intros [= <-]. discriminate.
Qed.

Lemma concat_empty (sep : string) (parts : list string) :
  String.concat sep parts = "" -> forall x, In x parts -> x = "".
Proof.
  induction parts as [|p parts IH]; intros H x Hx; [destruct Hx |].
  destruct parts as [|q parts].
  - destruct Hx as [<- | []]. exact H.
  - change (String.concat sep (p :: q :: parts))
      with (p +:+ sep +:+ String.concat sep (q :: parts)) in H.
    destruct p; [| discriminate H]. cbn [String.append] in H.
    destruct Hx as [<- | Hx]; [reflexivity |].
    destruct sep; [| discriminate H]. cbn [String.append] in H. now apply IH.
Qed.

Lemma indexOf_In (x : string) (parts : list string) (i : nat) :
  indexOf x parts = Some i -> In x (firstn (i + 1) parts).
Proof.
  revert i. induction parts as [|p parts IH]; intros i; [discriminate |].
  cbn [indexOf]. destruct (String.eqb p x) eqn:E.
  - intros [= <-]. apply String.eqb_eq in E as ->. now left.
  - destruct (indexOf x parts) as [j|]; [| discriminate]. intros [= <-].
    right. now apply IH.
Qed.

Lemma endsWith_nonempty (s p : string) : endsWith s p = true -> p <> "" -> s <> "".
Proof.
  intros H Hp ->. unfold endsWith in H. destruct p; [congruence | discriminate H].
Qed.

Lemma includes_nonempty (s p : string) : includes s p = true -> p <> "" -> s <> "".
Proof. intros H Hp ->. destruct p; [congruence | discriminate H]. Qed.

Lemma base_nonempty (s g : string) : extractBaseStackName s = Some g -> g <> "".
Proof.
  unfold extractBaseStackName.
  destruct (firstPattern basePatterns s) as [result|] eqn:E.
  - intros ->. now apply firstPattern_nonempty in E.
  - destruct (endsWith (cleanName s) "-stack") eqn:Eend.
    + intros [= <-]. now apply (endsWith_nonempty _ _ Eend).
    + destruct (includes (cleanName s) "stack" && negb (endsWith (cleanName s) "stack")).
      * destruct (indexOf "stack" (split "-" (cleanName s))) as [i|] eqn:Ei.
        -- intros [= <-] Hempty. apply indexOf_In in Ei.
           apply (concat_empty _ _ Hempty) in Ei. discriminate Ei.
        -- destruct (truthy (cleanName s)); [| discriminate].
           intros [= <-]. now destruct (cleanName s).
      * destruct (truthy (cleanName s)); [| discriminate].
        intros [= <-]. now destruct (cleanName s).
Qed.

Lemma known_nonempty (part : string) : isKnownStackName part = true -> part <> "".
Proof. intros H ->. discriminate H. Qed.

Lemma firstStackLike_nonempty (pathParts : list string) (g : string) :
  firstStackLike pathParts = Some g -> g <> "".
Proof.
  induction pathParts as [|part pathParts IH]; [discriminate |]. cbn [firstStackLike].
  destruct (includes part "*" && includes part "stack" && truthy _) eqn:E1.
  - intros [= <-]. apply andb_true_iff in E1 as [_ E1].
    now destruct (replaceAll boundaryDashes _ _).
  - destruct (includes part "stack" || isKnownStackName part) eqn:E2; [| exact IH].
    intros [= <-]. apply orb_true_iff in E2 as [E2 | E2].
    + now apply (includes_nonempty _ _ E2).
    + now apply known_nonempty.
Qed.

Lemma stack_nonempty (ssmPath g : string) : extractStackFromSSMPath ssmPath = Some g -> g <> "".
Proof.
  unfold extractStackFromSSMPath.
  destruct (if test interpolatedStackPattern ssmPath then _ else None) as [inner|].
  - apply base_nonempty.
  - destruct (firstStackLike _) as [found|] eqn:E.
    + intros [= <-]. now apply firstStackLike_nonempty in E.
    + destruct (pathPartsOf _) as [|first rest]; [discriminate |].
      destruct first; [discriminate |]. intros [= <-]. discriminate.
Qed.


(** *** Paths without placeholder or asterisk *)

Lemma includes_char (c : ascii) (s : string) :
  lacks c s = true -> includes s (String c "") = false.
Proof.
  induction s as [|d s IH]; [reflexivity |]. rewrite ParserFacts.lacks_cons.
  intros H. apply andb_true_iff in H as [Hd Hs]. cbn [includes startsWith].
  apply negb_true_iff in Hd. now rewrite Hd, (IH Hs).
Qed.

Lemma firstStackLike_plain (pathParts : list string) :
  (forall part, In part pathParts -> lacks "*" part = true) ->
  firstStackLike pathParts =
  find (fun part => includes part "stack" || isKnownStackName part) pathParts.
Proof.
  induction pathParts as [|part pathParts IH]; intros Hall; [reflexivity |].
  cbn [firstStackLike find]. rewrite (includes_char "*" part) by (apply Hall; now left).
  cbn [andb]. destruct (includes part "stack" || isKnownStackName part); [reflexivity |].
  apply IH. intros p Hp. apply Hall. now right.
Qed.

Lemma pathPartsOf_plain (cleanPath : string) :
  lacks "*" cleanPath = true ->
  pathPartsOf cleanPath = List.filter truthy (split "/" cleanPath).
Proof.
  intros Hplain. unfold pathPartsOf. apply filter_ext_in. intros part Hpart.
  apply (PathFacts.split_lacks "/" "*" cleanPath Hplain) in Hpart.
  destruct (String.eqb part "*") eqn:E; [| now rewrite andb_true_r].
  apply String.eqb_eq in E as ->. discriminate Hpart.
Qed.

End ResultFacts.

(** ** Texts without a reference *)

Module AbsenceFacts.
Import Str StrFacts RegexSpec RegexFacts.

Section NoMatch.
Variable r : regex.
Variable P : string -> Prop.
Hypothesis P_tail : forall c s, P (String c s) -> P s.
Hypothesis P_none : forall i s, P s -> match_at r i s = None.

Lemma matches_go_none (s : string) : forall i, P s -> matches_go r i 0 s = [].
Proof.
  induction s as [|c s IH]; intros i H; [reflexivity |].
  rewrite matches_go_cons, (P_none _ _ H). apply IH. eapply P_tail; eauto.
Qed.
End NoMatch.

Lemma includes_tail (c : ascii) (s p : string) :
  includes (String c s) p = false -> includes s p = false.
Proof. cbn [includes]. intros H. now apply orb_false_iff in H as [_ H]. Qed.

Lemma includes_start (s p : string) : includes s p = false -> startsWith s p = false.
Proof.
  destruct s; cbn [includes]; intros H; now apply orb_false_iff in H as [H _].
Qed.

(** A pattern that opens with a literal finds nothing in a text
    that does not contain the literal. *)
Lemma literal_absent (prefix : string) (rest : regex) (s : string) :
  includes s prefix = false -> matchAll (lit prefix ⋅ rest) s = [].
Proof.
  intros H. unfold matchAll.
  apply (matches_go_none (lit prefix ⋅ rest) (fun t => includes t prefix = false)).
  - intros c t. apply includes_tail.
  - intros i t Ht. apply match_at_none. intros w v [w1 [w2 [-> [Hw1 _]]]] ->.
    apply lang_lit in Hw1 as ->. apply includes_start in Ht.
    rewrite app_assoc, PathFacts.startsWith_app in Ht. discriminate.
  - exact H.
Qed.

End AbsenceFacts.

(** ** The names of the injected variables *)

Module InjectedFacts.
Import ObjFacts.

(** The environment after the loop [process.env[varName] = value],
    read at one name: a name the system refuses keeps its value, any
    other gets the last value assigned under it. *)
Lemma inject_settable (vars : list (string * string)) (k : string) :
  forall w,
    env (snd (for_each vars (fun e => setenv (fst e) (snd e)) w)) !! k =
    if settable k
    then match Obj.find_last (fun e => String.eqb (fst e) k) vars with
         | Some e => Some (snd e)
         | None => env w !! k
         end
    else env w !! k.
Proof.
  intros w. rewrite InjectFacts.inject_lookup.
  destruct (settable k) eqn:Hk.
  - rewrite (find_last_ext _ (fun e => String.eqb (fst e) k)); [reflexivity |].
    intros e. destruct (String.eqb (fst e) k) eqn:E; [| apply andb_false_r].
    apply String.eqb_eq in E. now rewrite E, Hk.
  - rewrite (find_last_ext _ (fun _ => false)).
    + assert (Hnone : Obj.find_last (fun _ : string * string => false) vars = None)
        by (induction vars as [|e vars IH]; [| cbn [Obj.find_last]; rewrite IH];
            reflexivity).
      now rewrite Hnone.
    + intros e. destruct (String.eqb (fst e) k) eqn:E; [| apply andb_false_r].
      apply String.eqb_eq in E. now rewrite E, Hk.
Qed.

(** The variables of inspected requirements have upper-cased names. *)
Lemma inspected_upper
    (cfn_send : gmap string string -> ClientConfig -> string ->
                Outcome (option (list Stack)))
    (ssm_send : gmap string string -> ClientConfig -> string ->
                Outcome (option (list SsmParameter)))
    (stackName : string) (profileConfig : AWSProfileConfig) (w w' : World)
    (res : StackInspectionResult) (reqs : StackRequirements) (k v : string) :
  inspectStack cfn_send ssm_send stackName profileConfig w = (Ok res, w') ->
  requirements res = Some reqs ->
  Obj.get k (environmentVariables reqs) = Some v ->
  Str.allb (fun c => negb (Str.is_lower c)) k = true.
Proof.
  intros Hrun Hreqs Hget.
  destruct (InspectorFacts.inspectStack_run cfn_send ssm_send stackName profileConfig w)
    as [client [w1 [res0 [w0 [_ [Hrun0 [_ [_ Hcase]]]]]]]].
  rewrite Hrun in Hrun0. injection Hrun0 as <- <-.
  destruct (stackOf _) as [[stack|]|e].
  - destruct Hcase as [reqs0 [-> [_ [_ [Hvars _]]]]]. cbn [requirements] in Hreqs.
    injection Hreqs as ->. rewrite Hvars in Hget.
    rewrite (MergeFacts.get_spread _ _ k (MergeFacts.NoDup_outputs _)
               (MergeFacts.NoDup_store _)) in Hget.
    rewrite MergeFacts.get_store, MergeFacts.get_outputs in Hget.
    destruct (Obj.find_last _ (Obj.entries (ssmParameters reqs))) as [e|] eqn:Es.
    + apply find_last_In in Es as [_ Es]. apply andb_true_iff in Es as [_ Es].
      apply String.eqb_eq in Es as <-. apply NameShapeFacts.map_no_lower.
    + cbn [option_map] in Hget.
      destruct (Obj.find_last _ (Obj.entries (outputs reqs))) as [e|] eqn:Eo;
        [| discriminate].
      apply find_last_In in Eo as [_ Eo].
      apply String.eqb_eq in Eo as <-. apply NameShapeFacts.map_no_lower.
  - destruct Hcase as [-> _]. discriminate.
  - destruct Hcase as [-> _]. discriminate.
Qed.

(** An upper-cased name and its environment-scoped name are no
    members of [Object.prototype], and not [__proto__]. *)
Lemma upper_plain (label k : string) :
  Str.allb (fun c => negb (Str.is_lower c)) k = true ->
  k <> "__proto__" /\
  Obj.get k objectPrototype = None /\
  Obj.get (scopedName label k) objectPrototype = None.
Proof.
  intros Hk. split; [| split].
  - intros ->. discriminate Hk.
  - now apply ResolverFacts.inherited_lower.
  - apply ResolverFacts.inherited_lower. unfold scopedName.
    rewrite !StrFacts.allb_app, Hk. unfold Str.toUpperCase.
    now rewrite NameShapeFacts.map_no_lower.
Qed.

End InjectedFacts.

(** ** A placeholder that opens the path *)

Module LeadingFacts.
Import Str StrFacts RegexSpec RegexFacts ParserFacts.

Section Leading.
Variables inner tail : string.
Hypothesis inner_truthy : truthy inner = true.
Hypothesis inner_closed : lacks "}" inner = true.
Hypothesis inner_plain : lacks "$" inner = true.
Hypothesis tail_plain : lacks "$" tail = true.
Hypothesis tail_end : segment_end tail.

Let ssmPath : string := "${" +:+ inner +:+ "}-api-gateway-stack" +:+ tail.

Lemma leading_rest_plain :
  lacks "$" ("{" +:+ inner +:+ "}-api-gateway-stack" +:+ tail) = true.
Proof.
  rewrite lacks_app. change (lacks "$" "{") with true. cbn [andb].
  rewrite lacks_app, inner_plain. cbn [andb].
  rewrite lacks_app, tail_plain. reflexivity.
Qed.

(** No [/] stands before the placeholder: the interpolated pattern
    finds nothing. *)
Lemma leading_not_interpolated : test interpolatedStackPattern ssmPath = false.
Proof.
  unfold test, exec, ssmPath.
  change ("${" +:+ inner +:+ "}-api-gateway-stack" +:+ tail)
    with (String "$" ("{" +:+ inner +:+ "}-api-gateway-stack" +:+ tail)).
  cbn [search].
  rewrite (match_at_none interpolatedStackPattern 0).
  - rewrite (search_none interpolatedStackPattern (fun s => lacks "$" s = true));
      [reflexivity | | | exact leading_rest_plain].
    + intros c t. apply lacks_tail.
    + intros i t. apply interpolated_none.
  - intros w v [w1 [w2 [-> [H1 _]]]] H. simpl in H1. subst w1. discriminate H.
Qed.

(** The placeholder is what the pattern matches at the start. *)
Lemma leading_match :
  exists m, match_at placeholder 0 ssmPath = Some m /\
            pos m = String.length ("${" +:+ inner +:+ "}").
Proof.
  assert (Hcan : can placeholder ssmPath ("-api-gateway-stack" +:+ tail)).
  { unfold ssmPath.
    change ("${" +:+ inner +:+ "}-api-gateway-stack" +:+ tail)
      with ("${" +:+ inner +:+ "}" +:+ "-api-gateway-stack" +:+ tail).
    now apply can_placeholder. }
  destruct (can_match_at _ 0 _ _ Hcan) as [m [Hm Hin]].
  exists m. split; [exact Hm |].
  apply ms_sound in Hin as [w [Hw [Hrest Hpos]]]. cbn [start pos rest] in Hrest, Hpos.
  apply lang_placeholder in Hw as [mid [-> [Hmid _]]].
  rewrite Hpos. cbn [Nat.add]. f_equal.
  assert (Hcut : mid +:+ String "}" (rest m)
                 = inner +:+ String "}" ("-api-gateway-stack" +:+ tail)).
  { unfold ssmPath in Hrest. simpl in Hrest. injection Hrest as Hrest.
    rewrite app_assoc in Hrest. simpl in Hrest. symmetry. exact Hrest. }
  apply first_occurrence in Hcut as [-> _]; auto.
Qed.

(** Replacing the placeholders leaves an asterisk at the start. *)
Lemma leading_clean :
  replaceAll placeholder (fun _ => "*") ssmPath = "*-api-gateway-stack" +:+ tail.
Proof.
  destruct leading_match as [m [Hm Hpos]].
  assert (Hpath : ssmPath =
            String "$" (("{" +:+ inner +:+ "}") +:+ "-api-gateway-stack" +:+ tail)).
  { unfold ssmPath. cbn [String.append]. do 2 f_equal. now rewrite app_assoc. }
  unfold replaceAll. rewrite Hpath in *.
  rewrite NameFacts.replace_go_cons, Hm, Hpos.
  change (String.length ("${" +:+ inner +:+ "}") - 0)
    with (S (String.length ("{" +:+ inner +:+ "}"))).
  cbv iota.
  rewrite NameFacts.replace_go_skip_n
    by (rewrite (length_app ("{" +:+ inner +:+ "}")); apply Nat.le_add_r).
  rewrite drop_app.
  rewrite (replace_go_none placeholder (fun s => lacks "$" s = true)).
  - reflexivity.
  - intros c t. apply lacks_tail.
  - intros i t. apply placeholder_none.
  - rewrite lacks_app, tail_plain. reflexivity.
Qed.

(** The first part of the cleaned path is the cleaned segment. *)
Lemma leading_parts :
  exists parts, pathPartsOf ("*-api-gateway-stack" +:+ tail) = "*-api-gateway-stack" :: parts.
Proof.
  unfold pathPartsOf. destruct tail_end as [-> | [t ->]].
  - eexists. vm_compute. reflexivity.
  - rewrite (PathFacts.split_app "/" "*-api-gateway-stack" t eq_refl).
    eexists. cbn [List.filter]. reflexivity.
Qed.

Lemma leading_path : extractStackFromSSMPath ssmPath = Some "api-gateway-stack".
Proof.
  unfold extractStackFromSSMPath.
  rewrite leading_not_interpolated, leading_clean. cbv zeta.
  destruct leading_parts as [parts ->]. reflexivity.
Qed.

End Leading.

End LeadingFacts.

(** ** The expectations of the test suite, evaluated *)

Module Examples.

(** A scan of a document whose text is [text], in a project at
    [/proj], with a small file. *)
Local Abbreviation scanText text :=
  (fst (scanDependencies string (fun _ => Ok 1024%N) (fun _ => Ok text) Ok Ok
          "/proj" "serverless.yml" None emptyWorld)).

Example scan_deduplicates :
  scanText ("custom:" +:+ newline +:+
            "  vpcId1: ${ssm:/vpc-stack/vpc-id}" +:+ newline +:+
            "  vpcId2: ${ssm:/vpc-stack/subnet-1}" +:+ newline +:+
            "  id: ${cf:vpc-stack.VpcId}")
  = Ok ["vpc-stack"].
Proof. vm_compute. reflexivity. Qed.

Example scan_complex_interpolation :
  scanText ("  p1: ${ssm:/${self:custom.stage}/${self:custom.region}/vpc-stack/subnet-id}"
            +:+ newline +:+
            "  p2: ${ssm:/shared/cognito-stack/user-pool-id}" +:+ newline +:+
            "  p3: ${ssm:/${self:custom.stage}-api-gateway-stack/rest-api-id}")
  = Ok ["vpc-stack"; "cognito-stack"; "api-gateway-stack"].
Proof. vm_compute. reflexivity. Qed.

Example scan_malformed :
  scanText ("  broken1: ${ssm:}" +:+ newline +:+ "  broken2: ${ssm:/}" +:+ newline +:+
            "  broken3: ${cf:}" +:+ newline +:+ "  broken4: ${cf:stack}")
  = Ok [].
Proof. vm_compute. reflexivity. Qed.

Example scan_cf_interpolation :
  scanText ("  apiUrl: ${cf:${self:provider.stage}-api-stack.RestApiUrl}" +:+ newline +:+
            "  tableArn: ${cf:dynamodb-${self:provider.stage}-stack.TableArn}")
  = Ok ["api-stack"; "dynamodb-stack"].
Proof. vm_compute. reflexivity. Qed.

Example scan_other_references :
  scanText ("  stage: ${opt:stage}" +:+ newline +:+ "  region: ${env:AWS_REGION}") = Ok [].
Proof. vm_compute. reflexivity. Qed.

Example ssm_stage :
  extractStackFromSSMPath "/${self:provider.stage}/rds-stack/endpoint" = Some "rds-stack".
Proof. vm_compute. reflexivity. Qed.

Example base_prefix_placeholder :
  extractBaseStackName "${self:provider.stage}-api-stack" = Some "api-stack".
Proof. vm_compute. reflexivity. Qed.

Example base_inner_placeholder :
  extractBaseStackName "dynamodb-${self:provider.stage}-stack" = Some "dynamodb-stack".
Proof. vm_compute. reflexivity. Qed.

Example base_suffix_placeholder :
  extractBaseStackName "api-stack-${stage}" = Some "api-stack".
Proof. vm_compute. reflexivity. Qed.

Example base_truncated : extractBaseStackName "a-stack-b-${x}-c" = Some "a-stack".
Proof. vm_compute. reflexivity. Qed.

Example names_of_outputs :
  List.map outputEnvVarName ["apiUrl"; "RestApiURLValue"; "aBcD"]
  = ["API_URL"; "REST_API_URLVALUE"; "A_BC_D"].
Proof. vm_compute. reflexivity. Qed.

Example names_of_store_keys :
  List.map ssmEnvVarName ["db/host-name"; "_"; "__a..b__"; "a___"]
  = ["DB_HOST_NAME"; EmptyString; "A_B"; "A"].
Proof. vm_compute. reflexivity. Qed.

Example entries_order :
  Obj.keys [("b", 1%nat); ("10", 2%nat); ("a", 3%nat); ("2", 4%nat); ("01", 5%nat)]
  = ["2"; "10"; "b"; "a"; "01"].
Proof. vm_compute. reflexivity. Qed.

End Examples.

(** * The properties of the specification *)

Import Str StrFacts ObjFacts.

(** ** Readiness *)

(** C1. For every inspected stack, [readyForDeployment] is true if and
    only if the status of the stack the control plane describes is
    [CREATE_COMPLETE] or [UPDATE_COMPLETE]; every other status, and a
    stack without a status, gives false.  The requirements carry that
    status, and the flag is a function of it alone: nothing the caller
    passes enters the equivalence. *)
Theorem readiness_from_status
    (cfn_send : gmap string string -> ClientConfig -> string -> Outcome (option (list Stack)))
    (ssm_send : gmap string string -> ClientConfig -> string ->
                Outcome (option (list SsmParameter)))
    (stackName : string) (profileConfig : AWSProfileConfig) (w w1 : World)
    (client : ClientConfig) (stack : Stack) :
  initializeClients profileConfig w = (Ok client, w1) ->
  stackOf (cfn_send (env w1) client stackName) = Ok (Some stack) ->
  exists res w' reqs,
    inspectStack cfn_send ssm_send stackName profileConfig w = (Ok res, w') /\
    requirements res = Some reqs /\
    status reqs = StackStatus stack /\
    (readyForDeployment reqs = true <->
     StackStatus stack = Some "CREATE_COMPLETE" \/ StackStatus stack = Some "UPDATE_COMPLETE").
Proof.
  intros Hinit Hstack.
  destruct (InspectionFacts.inspectStack_at cfn_send ssm_send stackName profileConfig w w1
              client Hinit) as [res [w' [Hrun Hcase]]].
  rewrite Hstack in Hcase. cbv zeta in Hcase. subst res.
  eexists _, w', _. split; [exact Hrun |]. cbn [requirements status readyForDeployment].
  split; [reflexivity |]. split; [reflexivity |]. apply InspectorFacts.isStackReady_iff.
Qed.

Lemma readiness_from_status_witness :
  (exists res w' reqs,
      inspectStack (fun _ _ _ => Ok (Some [sampleStack "UPDATE_COMPLETE"]))
        (fun _ _ _ => Ok None) "vpc-stack" noProfile emptyWorld = (Ok res, w') /\
      requirements res = Some reqs /\
      status reqs = Some "UPDATE_COMPLETE" /\ readyForDeployment reqs = true) /\
  (exists res w' reqs,
      inspectStack (fun _ _ _ => Ok (Some [sampleStack "ROLLBACK_COMPLETE"]))
        (fun _ _ _ => Ok None) "vpc-stack" noProfile emptyWorld = (Ok res, w') /\
      requirements res = Some reqs /\
      status reqs = Some "ROLLBACK_COMPLETE" /\ readyForDeployment reqs = false).
Proof.
  split.
  - destruct (readiness_from_status
                (fun _ _ _ => Ok (Some [sampleStack "UPDATE_COMPLETE"]))
                (fun _ _ _ => Ok None) "vpc-stack" noProfile emptyWorld emptyWorld
                {| client_region := "us-east-1"; client_credentials := None |}
                (sampleStack "UPDATE_COMPLETE") eq_refl eq_refl)
      as [res [w' [reqs [Hrun [Hreqs [Hstatus Hready]]]]]].
    exists res, w', reqs. split; [exact Hrun |]. split; [exact Hreqs |].
    split; [exact Hstatus |]. apply Hready. right. reflexivity.
  - destruct (readiness_from_status
                (fun _ _ _ => Ok (Some [sampleStack "ROLLBACK_COMPLETE"]))
                (fun _ _ _ => Ok None) "vpc-stack" noProfile emptyWorld emptyWorld
                {| client_region := "us-east-1"; client_credentials := None |}
                (sampleStack "ROLLBACK_COMPLETE") eq_refl eq_refl)
      as [res [w' [reqs [Hrun [Hreqs [Hstatus Hready]]]]]].
    exists res, w', reqs. split; [exact Hrun |]. split; [exact Hreqs |].
    split; [exact Hstatus |].
    destruct (readyForDeployment reqs); [| reflexivity].
    destruct (proj1 Hready eq_refl) as [H | H]; discriminate H.
Defined.

(** ** Environment resolution *)





(** ** The dependency scanner *)

(** C3. [scanDependencies] never raises: on every input it returns a
    list, and whenever its body fails (an unsafe path, a file that
    cannot be inspected, an oversized file, a read error, a document
    that cannot be parsed or dumped, or any other throw) the list is
    empty. *)
Theorem scanDependencies_never_raises
    (Doc : Type) (fs_stat : string -> Outcome N) (fs_readFile : string -> Outcome string)
    (yaml_load : string -> Outcome Doc) (yaml_dump : Doc -> Outcome string)
    (cwd configPath : string) (projectRoot : option string) (w : World) :
  exists deps w',
    scanDependencies Doc fs_stat fs_readFile yaml_load yaml_dump cwd configPath projectRoot w
      = (Ok deps, w') /\
    ((exists e w'',
         scanDependencies_body Doc fs_stat fs_readFile yaml_load yaml_dump cwd
           configPath projectRoot w = (Throw e, w'')) -> deps = []) /\
    (isPathSafe cwd configPath projectRoot = false -> deps = []) /\
    ((exists e, fs_stat configPath = Throw e) -> deps = []) /\
    ((exists size, fs_stat configPath = Ok size /\ (maxFileSize < size)%N) -> deps = []) /\
    ((exists e, fs_readFile configPath = Throw e) -> deps = []) /\
    ((exists content e,
         fs_readFile configPath = Ok content /\ yaml_load content = Throw e) -> deps = []) /\
    ((exists content doc e,
         fs_readFile configPath = Ok content /\ yaml_load content = Ok doc /\
         yaml_dump doc = Throw e) -> deps = []).
Proof.
  pose proof (ScannerFacts.scan_catches Doc fs_stat fs_readFile yaml_load yaml_dump cwd
                configPath projectRoot w) as Hscan.
  pose proof (ScannerFacts.loadConfig_run Doc fs_stat fs_readFile yaml_load configPath w)
    as Hload.
  assert (Hbody : forall deps w',
             scanDependencies Doc fs_stat fs_readFile yaml_load yaml_dump cwd configPath
               projectRoot w = (Ok deps, w') ->
             (exists e w'',
                 scanDependencies_body Doc fs_stat fs_readFile yaml_load yaml_dump cwd
                   configPath projectRoot w = (Throw e, w'')) -> deps = []).
  { intros deps w' Hrun [e [w'' Hthrow]]. rewrite Hscan, Hthrow in Hrun. congruence. }
  assert (Hfail : forall e,
             match fs_stat configPath with
             | Throw e => Throw e
             | Ok size =>
                 if (maxFileSize <? size)%N
                 then Throw (Error ("File " +:+ configPath +:+
                                    " exceeds maximum size limit of 10MB"))
                 else match fs_readFile configPath with
                      | Throw e => Throw e
                      | Ok content => yaml_load content
                      end
             end = Throw e ->
             exists e' w'',
               scanDependencies_body Doc fs_stat fs_readFile yaml_load yaml_dump cwd
                 configPath projectRoot w = (Throw e', w'')).
  { intros e He.
    destruct (ScannerFacts.body_load_fails Doc fs_stat fs_readFile yaml_load yaml_dump cwd
                configPath projectRoot w e) as [e' He']; [| eauto].
    rewrite Hload. exact He. }
  destruct (scanDependencies_body Doc fs_stat fs_readFile yaml_load yaml_dump cwd
              configPath projectRoot w) as [[deps|e0] w'] eqn:Ebody.
  - exists deps, w'. split; [exact Hscan |].
    split; [intros [e [w'' H]]; discriminate |].
    split.
    { intros H. destruct (ScannerFacts.body_unsafe Doc fs_stat fs_readFile yaml_load
                            yaml_dump cwd configPath projectRoot w H) as [e He].
      congruence. }
    split.
    { intros [e He]. rewrite He in Hfail. destruct (Hfail _ eq_refl) as [? [? ?]].
      discriminate. }
    split.
    { intros [size [Hs Hbig]]. rewrite Hs in Hfail. apply N.ltb_lt in Hbig.
      rewrite Hbig in Hfail. destruct (Hfail _ eq_refl) as [? [? ?]]. discriminate. }
    split.
    { intros [e He]. rewrite He in Hfail.
      destruct (fs_stat configPath) as [size|e1];
        [destruct (maxFileSize <? size)%N |];
        destruct (Hfail _ eq_refl) as [? [? ?]]; discriminate. }
    split.
    { intros [content [e [Hr Hy]]]. rewrite Hr, Hy in Hfail.
      destruct (fs_stat configPath) as [size|e1];
        [destruct (maxFileSize <? size)%N |];
        destruct (Hfail _ eq_refl) as [? [? ?]]; discriminate. }
    intros [content [doc [e [Hr [Hy Hd]]]]].
    destruct (fst (loadConfig Doc fs_stat fs_readFile yaml_load configPath w))
      as [doc'|e1] eqn:El.
    + assert (doc' = doc) as ->.
      { rewrite Hload in El. cbn [fst] in El. rewrite Hr, Hy in El.
        destruct (fs_stat configPath) as [size|e1]; [| discriminate].
        destruct (maxFileSize <? size)%N; congruence. }
      destruct (ScannerFacts.body_dump_fails Doc fs_stat fs_readFile yaml_load yaml_dump cwd
                  configPath projectRoot w doc e El Hd) as [e' He'].
      congruence.
    + rewrite Hload in El. cbn [fst] in El.
      destruct (Hfail _ El) as [? [? ?]]. discriminate.
  - exists [], w'. split; [exact Hscan |]. repeat split; reflexivity.
Qed.

(** C6, the size ceiling: a file of more than ten mebibytes is rejected
    before it is read, and the scan returns nothing. *)
Lemma oversized_file_rejected
    (Doc : Type) (fs_stat : string -> Outcome N) (fs_readFile : string -> Outcome string)
    (yaml_load : string -> Outcome Doc) (yaml_dump : Doc -> Outcome string)
    (cwd configPath : string) (projectRoot : option string) (w : World) (size : N) :
  fs_stat configPath = Ok size -> (10 * 1024 * 1024 < size)%N ->
  loadConfig Doc fs_stat fs_readFile yaml_load configPath w =
    (Throw (Error ("File " +:+ configPath +:+ " exceeds maximum size limit of 10MB")), w) /\
  fst (scanDependencies Doc fs_stat fs_readFile yaml_load yaml_dump cwd configPath
         projectRoot w) = Ok [].
Proof.
  intros Hs Hbig.
  assert (Hload : loadConfig Doc fs_stat fs_readFile yaml_load configPath w =
            (Throw (Error ("File " +:+ configPath +:+ " exceeds maximum size limit of 10MB")),
             w)).
  { rewrite ScannerFacts.loadConfig_run, Hs.
    replace (maxFileSize <? size)%N with true by (symmetry; now apply N.ltb_lt).
    reflexivity. }
  split; [exact Hload |].
  rewrite ScannerFacts.scan_catches.
  destruct (ScannerFacts.body_load_fails Doc fs_stat fs_readFile yaml_load yaml_dump cwd
              configPath projectRoot w _ (f_equal fst Hload)) as [e He].
  rewrite He. reflexivity.
Qed.

(** C6. The containment check compares texts, not path segments: a
    path in a sibling directory whose name extends the name of the
    project root is not a descendant of the root, yet it passes
    [isPathSafe], and the scan reads the file and returns what it
    finds there. *)
Theorem scan_accepts_sibling_of_root :
  let cwd := "/srv/app" in
  let configPath := "/srv/app-secrets/serverless.yml" in
  let projectRoot := Some "/srv/app" in
  isDescendant (path_resolve cwd "/srv/app") (path_resolve cwd configPath) = false /\
  isPathSafe cwd configPath projectRoot = true /\
  fst (scanDependencies string (fun _ => Ok 64%N)
         (fun _ => Ok "vpcId: ${ssm:/vpc-stack/vpc-id}") Ok Ok
         cwd configPath projectRoot emptyWorld) = Ok ["vpc-stack"].
Proof. vm_compute. repeat split; reflexivity. Qed.

(** ** The stack inspector *)

(** C4. A stack that is not found makes [inspectStack] return
    [{success: false, error, recommendations}] without throwing, but
    the call emits the before-inspection event only: neither the
    after-inspection nor the inspection-failed event follows. *)
Theorem inspection_not_found_emits_no_outcome_event :
  inspectStack (fun _ _ _ => Ok (Some [])) (fun _ _ _ => Ok None)
    "missing-stack" noProfile emptyWorld =
  (Ok {| success := false;
         requirements := None;
         error := Some "Stack 'missing-stack' not found or not accessible";
         recommendations :=
           Some ["Verify the stack name is correct";
                 "Check that the stack exists in the specified region";
                 "Ensure your AWS credentials have permission to describe the stack"] |},
   {| env := ∅;
      events := [BeforeStackInspection "missing-stack" None None];
      clock := [] |}).
Proof. vm_compute. reflexivity. Qed.

(** The same on every input, next to the two paths that do close the
    inspection with an event. *)
Lemma inspection_events
    (cfn_send : gmap string string -> ClientConfig -> string -> Outcome (option (list Stack)))
    (ssm_send : gmap string string -> ClientConfig -> string ->
                Outcome (option (list SsmParameter)))
    (stackName : string) (profileConfig : AWSProfileConfig) (w : World) :
  exists res w' client w1,
    inspectStack cfn_send ssm_send stackName profileConfig w = (Ok res, w') /\
    let before :=
      BeforeStackInspection stackName (cfg_region profileConfig) (profile profileConfig) in
    match stackOf (cfn_send (env w1) client stackName) with
    | Ok (Some _) =>
        exists reqs,
          events w' = events w ++
            [before;
             AfterStackInspection stackName reqs
               (length (Obj.keys (outputs reqs)))
               (length (Obj.keys (environmentVariables reqs)))
               (length (dependencies reqs)) (readyForDeployment reqs)]
    | Ok None => res = stackNotFound stackName /\ events w' = events w ++ [before]
    | Throw e =>
        events w' = events w ++ [before; StackInspectionFailed stackName (errorMessage e)]
    end.
Proof.
  destruct (InspectorFacts.inspectStack_run cfn_send ssm_send stackName profileConfig w)
    as [client [w1 [res [w' [_ [Hrun [_ [_ Hcase]]]]]]]].
  exists res, w', client, w1. split; [exact Hrun |]. cbv zeta.
  destruct (stackOf _) as [[stack|]|e].
  - destruct Hcase as [reqs [_ [_ [_ [_ Hev]]]]]. eauto.
  - exact Hcase.
  - destruct Hcase as [_ Hev]. exact Hev.
Qed.

(** ** The remote deployment orchestrator *)

(** C5. A request with two declared dependencies, the first reported
    ready by the control plane (its derived variables then all resolve,
    each carrying its stack value) and the second not found, fails: the
    error of the failed inspection is re-raised; exactly one start and
    one completion event are emitted, the completion with
    [success: false] and last; and no event of the delegated local
    deployment occurs, which is never entered. *)
Theorem remote_deploy_fails_on_missing_dependency
    (cfn_send : gmap string string -> ClientConfig -> string -> Outcome (option (list Stack)))
    (ssm_send : gmap string string -> ClientConfig -> string ->
                Outcome (option (list SsmParameter)))
    (fs_existsSync : string -> bool) (cli_hasServerlessCLI : Outcome bool)
    (cli_package cli_deploy : string -> string -> option string -> Outcome unit)
    (hotReload_startWatching : option (ServerlessService -> Outcome unit))
    (config : PluginConfig) (service : ServerlessService)
    (options : ServerlessDeploymentOptions) (first second : string) (w : World) :
  hasStackInspector config = true ->
  svc_dependencies service = [first; second] ->
  (forall e c, exists stack,
      stackOf (cfn_send e c first) = Ok (Some stack) /\ isStackReady stack = true) ->
  (forall e c, stackOf (cfn_send e c second) = Ok None) ->
  let failure :=
    Error ("Stack inspection failed for " +:+ second +:+ ": " +:+
           "Stack '" +:+ second +:+ "' not found or not accessible") in
  exists w' emitted duration,
    deployServiceRemote cfn_send ssm_send fs_existsSync cli_hasServerlessCLI cli_package
      cli_deploy hotReload_startWatching config service options w = (Throw failure, w') /\
    events w' = events w ++ emitted /\
    length (List.filter isStart emitted) = 1 /\
    length (List.filter isCompletion emitted) = 1 /\
    List.filter isLocalDeploy emitted = [] /\
    last emitted =
      Some (RemoteDeployCompleted (name service) (environment options) false duration
              (Some (errorMessage failure))).
Proof.
  intros Hinspector Hdeps Hready Hmissing failure.
  destruct (OrchestratorFacts.remote_second_not_found cfn_send ssm_send config Hinspector
              service options fs_existsSync cli_hasServerlessCLI cli_package cli_deploy
              hotReload_startWatching first second w Hdeps Hready Hmissing)
    as [w' [between [duration [Hrun [Hev Hkinds]]]]].
  exists w'. eexists. exists duration. split; [exact Hrun |]. split; [exact Hev |].
  assert (Hnone : forall (f : Event -> bool) (l : list Event),
             Forall (fun e => f e = false) l -> List.filter f l = []).
  { intros f l Hf. induction Hf as [|e l He Hl IH]; simpl; [reflexivity |].
    rewrite He. exact IH. }
  rewrite !List.filter_app. cbn [List.filter isStart isCompletion isLocalDeploy].
  rewrite !Hnone.
  - repeat split; try reflexivity.
    rewrite List.app_assoc. apply last_snoc.
  - eapply Forall_impl; [exact Hkinds |]. intros e [_ [_ H]]. exact H.
  - eapply Forall_impl; [exact Hkinds |]. intros e [_ [H _]]. exact H.
  - eapply Forall_impl; [exact Hkinds |]. intros e [H _]. exact H.
Qed.

Lemma remote_deploy_fails_on_missing_dependency_witness :
  exists w' emitted duration,
    deployServiceRemote sampleControlPlane (fun _ _ _ => Ok None) (fun _ => true) (Ok true)
      (fun _ _ _ => Ok tt) (fun _ _ _ => Ok tt) None sampleConfig sampleService sampleOptions
      emptyWorld
      = (Throw (Error ("Stack inspection failed for missing-stack: " +:+
                       "Stack 'missing-stack' not found or not accessible")), w') /\
    events w' = events emptyWorld ++ emitted /\
    length (List.filter isStart emitted) = 1 /\
    length (List.filter isCompletion emitted) = 1 /\
    List.filter isLocalDeploy emitted = [] /\
    last emitted =
      Some (RemoteDeployCompleted "orders" (Some "prod") false duration
              (Some ("Stack inspection failed for missing-stack: " +:+
                     "Stack 'missing-stack' not found or not accessible"))).
Proof.
  apply (remote_deploy_fails_on_missing_dependency sampleControlPlane (fun _ _ _ => Ok None)
           (fun _ => true) (Ok true) (fun _ _ _ => Ok tt) (fun _ _ _ => Ok tt) None
           sampleConfig sampleService sampleOptions "vpc-stack" "missing-stack" emptyWorld).
  - reflexivity.
  - reflexivity.
  - intros e c. eexists. split; reflexivity.
  - intros e c. reflexivity.
Defined.

(** ** Parameter paths *)




(** ** The base-name reducer *)

(** C8, as stated, fails: a payload that is one placeholder is not
    empty, and the reducer returns null on it. *)
Lemma base_name_null_on_placeholder :
  "${stage}" <> "" /\ extractBaseStackName "${stage}" = None.
Proof. split; [discriminate | vm_compute; reflexivity]. Qed.

(** C8, amended. [extractBaseStackName] returns null exactly when none
    of the three patterns matches and nothing is left of the payload
    once its placeholders are replaced by dashes and the boundary
    dashes are trimmed; the empty payload is one such case. *)
Theorem base_name_null_iff (s : string) :
  (extractBaseStackName s = None <->
   Forall (fun p => exec p s = None) basePatterns /\ cleanName s = "") /\
  extractBaseStackName "" = None.
Proof. split; [apply ReducerFacts.base_name_null | vm_compute; reflexivity]. Qed.

(** ** Derived environment variables *)

(** C9, as stated, fails: the store key [_] has the name [""], and no
    variable of that name is derived. *)
Lemma store_key_without_name_dropped :
  exists res w' reqs,
    inspectStack (fun _ _ _ => Ok (Some [sampleStack "CREATE_COMPLETE"])) sampleStore
      "vpc-stack" noProfile emptyWorld = (Ok res, w') /\
    requirements res = Some reqs /\
    ssmParameters reqs = [("_", "v")] /\
    specifiedVariable (outputs reqs) (ssmParameters reqs) "" = Some "v" /\
    Obj.get "" (environmentVariables reqs) = None.
Proof.
  eexists _, _, _. split; [vm_compute; reflexivity |]. repeat split; reflexivity.
Qed.

(** C9, amended. For every inspected stack, the requirements record
    the outputs of the stack the control plane describes and the
    parameters the configuration store answers, the last value given
    for a key deciding, and a name is bound in [environmentVariables]
    exactly as follows: to the value of the last configuration-store
    key whose name (non-alphanumeric runs replaced by one separator,
    boundary separators trimmed, upper-cased) is not empty and is that
    name; failing that, to the value of the last output key whose name
    (a separator inserted at every lowercase-then-uppercase boundary,
    upper-cased) is that name. *)
Theorem derived_environment_variables
    (cfn_send : gmap string string -> ClientConfig -> string -> Outcome (option (list Stack)))
    (ssm_send : gmap string string -> ClientConfig -> string ->
                Outcome (option (list SsmParameter)))
    (stackName : string) (profileConfig : AWSProfileConfig) (w w1 : World)
    (client : ClientConfig) (stack : Stack) :
  initializeClients profileConfig w = (Ok client, w1) ->
  stackOf (cfn_send (env w1) client stackName) = Ok (Some stack) ->
  exists res w' reqs,
    inspectStack cfn_send ssm_send stackName profileConfig w = (Ok res, w') /\
    requirements res = Some reqs /\
    (forall key value,
        Obj.get key (outputs reqs) = Some value <->
        key <> "__proto__" /\
        lastBinding OutputKey OutputValue
          (match Outputs stack with Some l => l | None => [] end) key value) /\
    (forall key value,
        Obj.get key (ssmParameters reqs) = Some value <->
        key <> "__proto__" /\
        lastBinding recordedName recordedValue
          (storeAnswers ssm_send (env w1) client (StackName stack)) key value) /\
    forall name,
      Obj.get name (environmentVariables reqs) =
      derivedVariable (outputs reqs) (ssmParameters reqs) name.
Proof.
  intros Hinit Hstack.
  destruct (InspectionFacts.inspectStack_at cfn_send ssm_send stackName profileConfig w w1
              client Hinit) as [res [w' [Hrun Hcase]]].
  rewrite Hstack in Hcase. cbv zeta in Hcase. subst res.
  eexists _, w', _. split; [exact Hrun |].
  split; [reflexivity |]. cbn [outputs ssmParameters environmentVariables].
  split; [| split].
  - intros key value. unfold extractOutputs.
    replace (default [] (Outputs stack))
      with (match Outputs stack with Some l => l | None => [] end)
      by (now destruct (Outputs stack)).
    apply (RecordFacts.recorded_iff Output OutputKey OutputValue).
  - intros key value.
    apply (RecordFacts.recorded_iff (string * SsmParameter) recordedName recordedValue).
  - intros name.
    rewrite (MergeFacts.get_spread _ _ name (MergeFacts.NoDup_outputs _)
               (MergeFacts.NoDup_store _)).
    rewrite MergeFacts.get_store, MergeFacts.get_outputs. unfold derivedVariable.
    rewrite (ObjFacts.find_last_ext _ (fun e => truthy (NameSpec.storeName (fst e)) &&
                                       String.eqb (NameSpec.storeName (fst e)) name));
      [| intros e; now rewrite NameFacts.ssmEnvVarName_spec].
    rewrite (ObjFacts.find_last_ext (fun e => String.eqb (outputEnvVarName (fst e)) name)
               (fun e => String.eqb (NameSpec.outputName (fst e)) name));
      [| intros e; now rewrite NameFacts.outputEnvVarName_spec].
    now destruct (Obj.find_last _ (Obj.entries _)).
Qed.

Lemma derived_environment_variables_witness :
  exists res w' reqs,
    inspectStack (fun _ _ _ => Ok (Some [sampleStack "CREATE_COMPLETE"])) sampleStore
      "vpc-stack" noProfile emptyWorld = (Ok res, w') /\
    requirements res = Some reqs /\
    (forall key value,
        Obj.get key (outputs reqs) = Some value <->
        key <> "__proto__" /\
        lastBinding OutputKey OutputValue
          [{| OutputKey := Some "VpcId"; OutputValue := Some "vpc-123" |}] key value) /\
    (forall key value,
        Obj.get key (ssmParameters reqs) = Some value <->
        key <> "__proto__" /\
        lastBinding recordedName recordedValue
          [("/vpc-stack/", {| Name := Some "/vpc-stack/_"; SsmValue := Some "v" |});
           ("/vpc-stack/", {| Name := Some "/vpc-stack/_"; SsmValue := Some "v" |})]
          key value) /\
    forall name,
      Obj.get name (environmentVariables reqs) =
      derivedVariable (outputs reqs) (ssmParameters reqs) name.
Proof.
  exact (derived_environment_variables
           (fun _ _ _ => Ok (Some [sampleStack "CREATE_COMPLETE"])) sampleStore
           "vpc-stack" noProfile emptyWorld emptyWorld
           {| client_region := "us-east-1"; client_credentials := None |}
           (sampleStack "CREATE_COMPLETE") eq_refl eq_refl).
Defined.

(** * Further properties of the code *)

(** ** Remote deployment *)

(** X1. Whatever happens, [deployServiceRemote] publishes its start
    notification first and its completion notification last, and no
    other start or completion notification in between.  The completion
    reports success exactly when the call returns; when the call
    throws, it carries the message of the error thrown. *)
Theorem remote_deploy_brackets
    (cfn_send : gmap string string -> ClientConfig -> string -> Outcome (option (list Stack)))
    (ssm_send : gmap string string -> ClientConfig -> string ->
                Outcome (option (list SsmParameter)))
    (fs_existsSync : string -> bool) (cli_hasServerlessCLI : Outcome bool)
    (cli_package cli_deploy : string -> string -> option string -> Outcome unit)
    (hotReload_startWatching : option (ServerlessService -> Outcome unit))
    (config : PluginConfig) (service : ServerlessService)
    (options : ServerlessDeploymentOptions) (w : World) :
  exists outcome w' stackName between duration,
    deployServiceRemote cfn_send ssm_send fs_existsSync cli_hasServerlessCLI cli_package
      cli_deploy hotReload_startWatching config service options w = (outcome, w') /\
    events w' = events w ++
      [RemoteDeployStarted (name service) stackName (environment options)
         (defaultProfile config)] ++
      between ++
      [RemoteDeployCompleted (name service) (environment options)
         (match outcome with Ok _ => true | Throw _ => false end) duration
         (match outcome with Ok _ => None | Throw e => Some (errorMessage e) end)] /\
    forallb (fun e => negb (isStart e) && negb (isCompletion e)) between = true.
Proof.
  destruct (DeployFacts.deployRemote_run cfn_send ssm_send fs_existsSync cli_hasServerlessCLI
              cli_package cli_deploy hotReload_startWatching config service options w)
    as [t0 [w1 [t1 [w2 [w' [Hstart [Hend [Hrun [_ Hev]]]]]]]]].
  destruct (OrchestratorFacts.Date_now_run
              {| env := env w;
                 events := events w ++
                   [RemoteDeployStarted (name service)
                      (default (name service)
                         (or_else (Some (join "," (svc_dependencies service)))
                                  (Some (name service))))
                      (environment options) (defaultProfile config)];
                 clock := clock w |}) as [t0' [w1' [Hstart' [Hev1 _]]]].
  rewrite Hstart in Hstart'. injection Hstart' as <- <-. cbn [events] in Hev1.
  destruct (DeployFacts.guarded_appends cfn_send ssm_send fs_existsSync cli_hasServerlessCLI
              cli_package cli_deploy hotReload_startWatching config service options w1)
    as [between [Hev2 Hkinds]].
  destruct (OrchestratorFacts.Date_now_run
              (snd (guardedSteps cfn_send ssm_send fs_existsSync cli_hasServerlessCLI
                      cli_package cli_deploy hotReload_startWatching config service
                      options w1))) as [t1' [w2' [Hend' [Hev3 _]]]].
  rewrite Hend in Hend'. injection Hend' as <- <-.
  eexists _, w', _, between, _. split; [exact Hrun |]. split.
  - rewrite Hev, Hev3, Hev2, Hev1, <- !List.app_assoc. reflexivity.
  - eapply DeployFacts.forallb_weaken; [| exact Hkinds].
    intros e He. now destruct e.
Qed.

(** X2. A remote deployment never changes or removes a variable the
    process environment already sets, [AWS_PROFILE] apart: the values
    it injects for variables that are set are the values they have. *)
Theorem remote_deploy_keeps_environment
    (cfn_send : gmap string string -> ClientConfig -> string -> Outcome (option (list Stack)))
    (ssm_send : gmap string string -> ClientConfig -> string ->
                Outcome (option (list SsmParameter)))
    (fs_existsSync : string -> bool) (cli_hasServerlessCLI : Outcome bool)
    (cli_package cli_deploy : string -> string -> option string -> Outcome unit)
    (hotReload_startWatching : option (ServerlessService -> Outcome unit))
    (config : PluginConfig) (service : ServerlessService)
    (options : ServerlessDeploymentOptions) (w : World) (varName value : string) :
  varName <> "AWS_PROFILE" ->
  env w !! varName = Some value ->
  env (snd (deployServiceRemote cfn_send ssm_send fs_existsSync cli_hasServerlessCLI
              cli_package cli_deploy hotReload_startWatching config service options w))
    !! varName = Some value.
Proof.
  intros Hname Hset.
  destruct (DeployFacts.deployRemote_run cfn_send ssm_send fs_existsSync cli_hasServerlessCLI
              cli_package cli_deploy hotReload_startWatching config service options w)
    as [t0 [w1 [t1 [w2 [w' [Hstart [Hend [Hrun [Henv _]]]]]]]]].
  rewrite Hrun. cbn [snd]. rewrite Henv.
  match type of Hstart with Date_now ?w0 = _ =>
    destruct (OrchestratorFacts.Date_now_run w0) as [t0' [w1' [Hstart' [_ Henv1]]]]
  end.
  rewrite Hstart in Hstart'. injection Hstart' as <- <-. cbn [env] in Henv1.
  match type of Hend with Date_now ?w0 = _ =>
    destruct (OrchestratorFacts.Date_now_run w0) as [t1' [w2' [Hend' [_ Henv2]]]]
  end.
  rewrite Hend in Hend'. injection Hend' as <- <-. rewrite Henv2.
  apply (DeployFacts.guarded_keepsEnv cfn_send ssm_send fs_existsSync cli_hasServerlessCLI
           cli_package cli_deploy hotReload_startWatching config service options w1);
    [exact Hname |].
  now rewrite Henv1.
Qed.

Lemma remote_deploy_keeps_environment_witness :
  env (snd (deployServiceRemote sampleControlPlane (fun _ _ _ => Ok None) (fun _ => true)
              (Ok true) (fun _ _ _ => Ok tt) (fun _ _ _ => Ok tt) None sampleConfig
              sampleService sampleOptions shellWorld))
    !! "VPC_ID" = Some "from-shell".
Proof.
  apply remote_deploy_keeps_environment.
  - discriminate.
  - vm_compute. reflexivity.
Defined.

(** X3. With no declared dependency, [deployServiceRemote] inspects
    nothing: it succeeds or fails exactly as [deployServiceLocal] does,
    with the same error, it publishes only local-deployment
    notifications between its own two, and it leaves the process
    environment as it was. *)
Theorem remote_deploy_without_dependencies
    (cfn_send : gmap string string -> ClientConfig -> string -> Outcome (option (list Stack)))
    (ssm_send : gmap string string -> ClientConfig -> string ->
                Outcome (option (list SsmParameter)))
    (fs_existsSync : string -> bool) (cli_hasServerlessCLI : Outcome bool)
    (cli_package cli_deploy : string -> string -> option string -> Outcome unit)
    (hotReload_startWatching : option (ServerlessService -> Outcome unit))
    (config : PluginConfig) (service : ServerlessService)
    (options : ServerlessDeploymentOptions) (w : World) :
  svc_dependencies service = [] ->
  exists w' between completed,
    deployServiceRemote cfn_send ssm_send fs_existsSync cli_hasServerlessCLI cli_package
      cli_deploy hotReload_startWatching config service options w =
    (fst (deployServiceLocal fs_existsSync cli_hasServerlessCLI cli_package cli_deploy
            hotReload_startWatching service options w), w') /\
    env w' = env w /\
    events w' = events w ++
      [RemoteDeployStarted (name service) (name service) (environment options)
         (defaultProfile config)] ++ between ++ [completed] /\
    isCompletion completed = true /\
    forallb isLocalDeploy between = true.
Proof.
  intros Hdeps.
  destruct (DeployFacts.deployRemote_run cfn_send ssm_send fs_existsSync
              cli_hasServerlessCLI cli_package cli_deploy hotReload_startWatching config
              service options w)
    as [t0 [w1 [t1 [w2 [w' [Hstart [Hend [Hrun [Henv Hev]]]]]]]]].
  match type of Hend with Date_now ?wa = _ =>
    destruct (OrchestratorFacts.Date_now_run wa) as [t1' [w2' [Hend' [Hev2 Henv2]]]]
  end.
  rewrite Hend in Hend'. injection Hend' as <- <-.
  match type of Hstart with Date_now ?wa = _ =>
    destruct (OrchestratorFacts.Date_now_run wa) as [t0' [w1' [Hstart' [Hev1 Henv1]]]]
  end.
  rewrite Hstart in Hstart'. injection Hstart' as <- <-. cbn [events env] in Hev1, Henv1.
  assert (Hguard : guardedSteps cfn_send ssm_send fs_existsSync cli_hasServerlessCLI
                     cli_package cli_deploy hotReload_startWatching config service options w1
                   = deployServiceLocal fs_existsSync cli_hasServerlessCLI cli_package
                       cli_deploy hotReload_startWatching service options w1).
  { unfold guardedSteps. rewrite Hdeps. reflexivity. }
  rewrite Hguard in *.
  destruct (EffectFacts.deployLocal_appends fs_existsSync cli_hasServerlessCLI cli_package
              cli_deploy hotReload_startWatching service options w1) as [local [Hev3 Hloc]].
  exists w', local. eexists. split; [| split; [| split; [| split]]].
  - rewrite Hrun. f_equal. apply DeployFacts.deployLocal_outcome.
  - rewrite Henv, Henv2.
    rewrite (EffectFacts.deployLocal_sameEnv fs_existsSync cli_hasServerlessCLI cli_package
               cli_deploy hotReload_startWatching service options w1).
    exact Henv1.
  - rewrite Hev, Hev2, Hev3, Hev1, Hdeps, <- !List.app_assoc. reflexivity.
  - reflexivity.
  - exact Hloc.
Qed.

Lemma remote_deploy_without_dependencies_witness :
  exists w' between completed,
    deployServiceRemote sampleControlPlane (fun _ _ _ => Ok None) (fun _ => true) (Ok true)
      (fun _ _ _ => Ok tt) (fun _ _ _ => Ok tt) None sampleConfig standaloneService
      sampleOptions emptyWorld =
    (fst (deployServiceLocal (fun _ => true) (Ok true) (fun _ _ _ => Ok tt)
            (fun _ _ _ => Ok tt) None standaloneService sampleOptions emptyWorld), w') /\
    env w' = env emptyWorld /\
    events w' = events emptyWorld ++
      [RemoteDeployStarted "orders" "orders" (Some "prod") None] ++ between ++ [completed] /\
    isCompletion completed = true /\
    forallb isLocalDeploy between = true.
Proof.
  apply (remote_deploy_without_dependencies sampleControlPlane (fun _ _ _ => Ok None)
           (fun _ => true) (Ok true) (fun _ _ _ => Ok tt) (fun _ _ _ => Ok tt) None
           sampleConfig standaloneService sampleOptions emptyWorld).
  reflexivity.
Defined.

(** X4. A dependency that is found in a state other than the two ready
    ones stops a remote deployment: the call throws
    [Stack <name> is not ready for deployment. Status: <status>], and
    the local deployment is not entered. *)
Theorem remote_deploy_blocked_by_unready_stack
    (cfn_send : gmap string string -> ClientConfig -> string -> Outcome (option (list Stack)))
    (ssm_send : gmap string string -> ClientConfig -> string ->
                Outcome (option (list SsmParameter)))
    (fs_existsSync : string -> bool) (cli_hasServerlessCLI : Outcome bool)
    (cli_package cli_deploy : string -> string -> option string -> Outcome unit)
    (hotReload_startWatching : option (ServerlessService -> Outcome unit))
    (config : PluginConfig) (service : ServerlessService)
    (options : ServerlessDeploymentOptions) (first : string) (others : list string)
    (status : string) (w : World) :
  hasStackInspector config = true ->
  svc_dependencies service = first :: others ->
  (forall e c, exists stack,
      stackOf (cfn_send e c first) = Ok (Some stack) /\
      isStackReady stack = false /\ StackStatus stack = Some status) ->
  exists w' emitted,
    deployServiceRemote cfn_send ssm_send fs_existsSync cli_hasServerlessCLI cli_package
      cli_deploy hotReload_startWatching config service options w =
    (Throw (Error ("Stack " +:+ first +:+ " is not ready for deployment. Status: " +:+
                   status)), w') /\
    events w' = events w ++ emitted /\
    forallb (fun e => negb (isLocalDeploy e)) emitted = true.
Proof.
  intros Hinspector Hdeps Hfound.
  destruct (DeployFacts.deployRemote_run cfn_send ssm_send fs_existsSync
              cli_hasServerlessCLI cli_package cli_deploy hotReload_startWatching config
              service options w)
    as [t0 [w1 [t1 [w2 [w' [Hstart [Hend [Hrun [_ Hev]]]]]]]]].
  match type of Hend with Date_now ?wa = _ =>
    destruct (OrchestratorFacts.Date_now_run wa) as [t1' [w2' [Hend' [Hev2 _]]]]
  end.
  rewrite Hend in Hend'. injection Hend' as <- <-.
  match type of Hstart with Date_now ?wa = _ =>
    destruct (OrchestratorFacts.Date_now_run wa) as [t0' [w1' [Hstart' [Hev1 _]]]]
  end.
  rewrite Hstart in Hstart'. injection Hstart' as <- <-. cbn [events] in Hev1.
  destruct (DeployFacts.check_not_ready cfn_send ssm_send config service options first
              (Some status) w1 Hinspector Hfound) as [wc Hcheck].
  pose proof (EffectFacts.check_appends cfn_send ssm_send config service options first w1)
    as [emitted [Hev3 Hkinds]].
  rewrite Hcheck in Hev3. cbn [snd] in Hev3.
  assert (Hguard : guardedSteps cfn_send ssm_send fs_existsSync cli_hasServerlessCLI
                     cli_package cli_deploy hotReload_startWatching config service options w1
                   = (Throw (Error ("Stack " +:+ first +:+
                                    " is not ready for deployment. Status: " +:+ status)),
                      wc)).
  { unfold guardedSteps. rewrite Hdeps. cbn [for_each]. unfold mbind, M_bind.
    rewrite Hcheck. reflexivity. }
  rewrite Hguard in *. cbn [fst snd] in *.
  exists w'. eexists. split; [exact Hrun |]. split.
  - rewrite Hev, Hev2, Hev3, Hev1, <- !List.app_assoc. reflexivity.
  - rewrite !forallb_app. cbn [forallb isLocalDeploy negb andb]. rewrite andb_true_r.
    eapply DeployFacts.forallb_weaken; [| exact Hkinds]. intros e He. now destruct e.
Qed.

Lemma remote_deploy_blocked_by_unready_stack_witness :
  exists w' emitted,
    deployServiceRemote (fun _ _ _ => Ok (Some [sampleStack "ROLLBACK_COMPLETE"]))
      (fun _ _ _ => Ok None) (fun _ => true) (Ok true) (fun _ _ _ => Ok tt)
      (fun _ _ _ => Ok tt) None sampleConfig sampleService sampleOptions emptyWorld =
    (Throw (Error "Stack vpc-stack is not ready for deployment. Status: ROLLBACK_COMPLETE"),
     w') /\
    events w' = events emptyWorld ++ emitted /\
    forallb (fun e => negb (isLocalDeploy e)) emitted = true.
Proof.
  apply (remote_deploy_blocked_by_unready_stack
           (fun _ _ _ => Ok (Some [sampleStack "ROLLBACK_COMPLETE"])) (fun _ _ _ => Ok None)
           (fun _ => true) (Ok true) (fun _ _ _ => Ok tt) (fun _ _ _ => Ok tt) None
           sampleConfig sampleService sampleOptions "vpc-stack" ["missing-stack"]
           "ROLLBACK_COMPLETE" emptyWorld).
  - reflexivity.
  - reflexivity.
  - intros e c. eexists. repeat split; reflexivity.
Defined.

(** X5. When the stack inspector was not created, a remote deployment
    of a service that declares a dependency fails at once: it throws
    [Stack inspection is not enabled ...] and publishes its two
    notifications and nothing else. *)
Theorem remote_deploy_needs_inspector
    (cfn_send : gmap string string -> ClientConfig -> string -> Outcome (option (list Stack)))
    (ssm_send : gmap string string -> ClientConfig -> string ->
                Outcome (option (list SsmParameter)))
    (fs_existsSync : string -> bool) (cli_hasServerlessCLI : Outcome bool)
    (cli_package cli_deploy : string -> string -> option string -> Outcome unit)
    (hotReload_startWatching : option (ServerlessService -> Outcome unit))
    (config : PluginConfig) (service : ServerlessService)
    (options : ServerlessDeploymentOptions) (first : string) (others : list string)
    (w : World) :
  hasStackInspector config = false ->
  svc_dependencies service = first :: others ->
  let message :=
    "Stack inspection is not enabled. Set enableRemoteDeployment: true in plugin config." in
  exists w' started duration,
    deployServiceRemote cfn_send ssm_send fs_existsSync cli_hasServerlessCLI cli_package
      cli_deploy hotReload_startWatching config service options w =
    (Throw (Error message), w') /\
    env w' = env w /\
    isStart started = true /\
    events w' = events w ++
      [started;
       RemoteDeployCompleted (name service) (environment options) false duration
         (Some message)].
Proof.
  intros Hoff Hdeps message.
  destruct (DeployFacts.deployRemote_run cfn_send ssm_send fs_existsSync
              cli_hasServerlessCLI cli_package cli_deploy hotReload_startWatching config
              service options w)
    as [t0 [w1 [t1 [w2 [w' [Hstart [Hend [Hrun [Henv Hev]]]]]]]]].
  assert (Hguard : guardedSteps cfn_send ssm_send fs_existsSync cli_hasServerlessCLI
                     cli_package cli_deploy hotReload_startWatching config service options w1
                   = (Throw (Error message), w1)).
  { unfold guardedSteps. rewrite Hdeps. cbn [for_each]. unfold mbind, M_bind.
    now rewrite (DeployFacts.check_disabled cfn_send ssm_send config service options first
                   w1 Hoff). }
  rewrite Hguard in *. cbn [fst snd] in *.
  match type of Hend with Date_now ?wa = _ =>
    destruct (OrchestratorFacts.Date_now_run wa) as [t1' [w2' [Hend' [Hev2 Henv2]]]]
  end.
  rewrite Hend in Hend'. injection Hend' as <- <-.
  match type of Hstart with Date_now ?wa = _ =>
    destruct (OrchestratorFacts.Date_now_run wa) as [t0' [w1' [Hstart' [Hev1 Henv1]]]]
  end.
  rewrite Hstart in Hstart'. injection Hstart' as <- <-. cbn [events env] in Hev1, Henv1.
  exists w'. eexists _, _. split; [exact Hrun |]. split; [congruence |].
  split; [| rewrite Hev, Hev2, Hev1, <- List.app_assoc; reflexivity]. reflexivity.
Qed.

Lemma remote_deploy_needs_inspector_witness :
  exists w' started duration,
    deployServiceRemote sampleControlPlane (fun _ _ _ => Ok None) (fun _ => true) (Ok true)
      (fun _ _ _ => Ok tt) (fun _ _ _ => Ok tt) None offConfig sampleService sampleOptions
      emptyWorld =
    (Throw (Error
       "Stack inspection is not enabled. Set enableRemoteDeployment: true in plugin config."),
     w') /\
    env w' = env emptyWorld /\
    isStart started = true /\
    events w' = events emptyWorld ++
      [started;
       RemoteDeployCompleted "orders" (Some "prod") false duration
         (Some
            "Stack inspection is not enabled. Set enableRemoteDeployment: true in plugin config.")].
Proof.
  apply (remote_deploy_needs_inspector sampleControlPlane (fun _ _ _ => Ok None)
           (fun _ => true) (Ok true) (fun _ _ _ => Ok tt) (fun _ _ _ => Ok tt) None offConfig
           sampleService sampleOptions "vpc-stack" ["missing-stack"] emptyWorld);
    reflexivity.
Defined.

(** ** Local deployment *)

(** X6. Whatever happens, [deployServiceLocal] publishes the
    before-deploy notification first and an after-deploy notification
    last, with only notifications of its own in between; the last one
    reports success exactly when the call returns and otherwise carries
    the message of the error thrown.  The process environment is left
    as it was. *)
Theorem local_deploy_brackets
    (fs_existsSync : string -> bool) (cli_hasServerlessCLI : Outcome bool)
    (cli_package cli_deploy : string -> string -> option string -> Outcome unit)
    (hotReload_startWatching : option (ServerlessService -> Outcome unit))
    (service : ServerlessService) (options : ServerlessDeploymentOptions) (w : World) :
  exists outcome w' later,
    deployServiceLocal fs_existsSync cli_hasServerlessCLI cli_package cli_deploy
      hotReload_startWatching service options w = (outcome, w') /\
    env w' = env w /\
    events w' = events w ++
      BeforeServiceDeploy (name service) (stage options) (configFile service) :: later /\
    last later =
      Some (AfterServiceDeploy (name service) (stage options)
              (match outcome with Ok _ => true | Throw _ => false end)
              (match outcome with Ok _ => None | Throw e => Some (errorMessage e) end)) /\
    forallb isLocalDeploy later = true.
Proof.
  unfold deployServiceLocal, try_catch, mbind, M_bind, emitEvent, lift, mthrow, M_throw,
    mret, M_ret, errorMessage.
  repeat match goal with
    | |- context [if ?b then _ else _] => destruct b
    | |- context [match ?x with Ok _ => _ | Throw _ => _ end] => destruct x as [[]|?]
    | |- context [match ?x with Some _ => _ | None => _ end] => destruct x
    end;
    eexists _, _, _; (split; [reflexivity |]); (split; [reflexivity |]);
    (split; [cbn [events]; rewrite <- ?List.app_assoc; reflexivity |]);
    split; reflexivity.
Qed.

(** X7. When the service names no configuration file, or the file does
    not exist, [deployServiceLocal] fails before the Serverless CLI is
    consulted, whatever the CLI would answer: it throws
    [Serverless configuration file not found: <file>] ([serverless.yml]
    standing for a missing name) and publishes the before-deploy and
    the failed after-deploy notifications only. *)
Theorem local_deploy_needs_config_file
    (fs_existsSync : string -> bool) (cli_hasServerlessCLI : Outcome bool)
    (cli_package cli_deploy : string -> string -> option string -> Outcome unit)
    (hotReload_startWatching : option (ServerlessService -> Outcome unit))
    (service : ServerlessService) (options : ServerlessDeploymentOptions) (w : World) :
  configFile service = "" \/ fs_existsSync (configFile service) = false ->
  let message :=
    "Serverless configuration file not found: " +:+
    (if truthy (configFile service) then configFile service else "serverless.yml") in
  deployServiceLocal fs_existsSync cli_hasServerlessCLI cli_package cli_deploy
    hotReload_startWatching service options w =
  (Throw (Error message),
   {| env := env w;
      events := events w ++
        [BeforeServiceDeploy (name service) (stage options) (configFile service);
         AfterServiceDeploy (name service) (stage options) false (Some message)];
      clock := clock w |}).
Proof.
  intros Hfile message.
  unfold deployServiceLocal, try_catch, mbind, M_bind, emitEvent, mthrow, M_throw.
  cbn [fst snd env events clock].
  assert (Hcheck : negb (truthy (configFile service)) ||
                   negb (fs_existsSync (configFile service)) = true).
  { destruct Hfile as [-> | ->]; [reflexivity | apply orb_true_r]. }
  rewrite Hcheck. cbn [errorMessage Error]. fold message.
  cbn [env events clock]. now rewrite <- List.app_assoc.
Qed.

Lemma local_deploy_needs_config_file_witness :
  deployServiceLocal (fun _ => false) (Ok true) (fun _ _ _ => Ok tt) (fun _ _ _ => Ok tt)
    None standaloneService sampleOptions emptyWorld =
  (Throw (Error "Serverless configuration file not found: services/orders/serverless.yml"),
   {| env := ∅;
      events :=
        [BeforeServiceDeploy "orders" "prod" "services/orders/serverless.yml";
         AfterServiceDeploy "orders" "prod" false
           (Some "Serverless configuration file not found: services/orders/serverless.yml")];
      clock := [] |}).
Proof.
  apply (local_deploy_needs_config_file (fun _ => false) (Ok true) (fun _ _ _ => Ok tt)
           (fun _ _ _ => Ok tt) None standaloneService sampleOptions emptyWorld).
  right. reflexivity.
Defined.

(** X8. A dry run never runs the deploy command: with [dryRun] set,
    what [deployServiceLocal] returns, throws and publishes is the
    same whatever the deploy command would do. *)
Theorem dry_run_skips_deploy
    (fs_existsSync : string -> bool) (cli_hasServerlessCLI : Outcome bool)
    (cli_package cli_deploy cli_deploy' : string -> string -> option string -> Outcome unit)
    (hotReload_startWatching : option (ServerlessService -> Outcome unit))
    (service : ServerlessService) (options : ServerlessDeploymentOptions) (w : World) :
  dryRun options = true ->
  deployServiceLocal fs_existsSync cli_hasServerlessCLI cli_package cli_deploy
    hotReload_startWatching service options w =
  deployServiceLocal fs_existsSync cli_hasServerlessCLI cli_package cli_deploy'
    hotReload_startWatching service options w.
Proof.
  intros Hdry. unfold deployServiceLocal. rewrite Hdry. reflexivity.
Qed.

Lemma dry_run_skips_deploy_witness :
  deployServiceLocal (fun _ => true) (Ok true) (fun _ _ _ => Ok tt) (fun _ _ _ => Ok tt)
    None standaloneService dryRunOptions emptyWorld =
  deployServiceLocal (fun _ => true) (Ok true) (fun _ _ _ => Ok tt)
    (fun _ _ _ => Throw (Error "deploy failed")) None standaloneService dryRunOptions
    emptyWorld.
Proof. apply dry_run_skips_deploy. reflexivity. Defined.

(** X9. When every step of a local deployment succeeds but the
    hot-reload watcher (started for the stages [local] and [dev])
    fails, the call throws the watcher's error after the successful
    after-deploy notification has been published: a second, failed
    after-deploy notification follows it. *)
Theorem local_deploy_watcher_failure
    (fs_existsSync : string -> bool) (cli_hasServerlessCLI : Outcome bool)
    (cli_package cli_deploy : string -> string -> option string -> Outcome unit)
    (startWatching : ServerlessService -> Outcome unit)
    (service : ServerlessService) (options : ServerlessDeploymentOptions)
    (failure : JsError) (w : World) :
  configFile service <> "" -> fs_existsSync (configFile service) = true ->
  cli_hasServerlessCLI = Ok true ->
  cli_package (path service) (stage options) (opt_region options) = Ok tt ->
  (dryRun options = true \/
   cli_deploy (path service) (stage options) (opt_region options) = Ok tt) ->
  stage options = "local" \/ stage options = "dev" ->
  startWatching service = Throw failure ->
  exists packagePath,
    deployServiceLocal fs_existsSync cli_hasServerlessCLI cli_package cli_deploy
      (Some startWatching) service options w =
    (Throw failure,
     {| env := env w;
        events := events w ++
          [BeforeServiceDeploy (name service) (stage options) (configFile service);
           BeforeServicePackage (name service);
           AfterServicePackage (name service) packagePath;
           AfterServiceDeploy (name service) (stage options) true None;
           AfterServiceDeploy (name service) (stage options) false
             (Some (errorMessage failure))];
        clock := clock w |}).
Proof.
  intros Hname Hexists Hcli Hpackage Hdeploy Hstage Hwatch. eexists.
  unfold deployServiceLocal, try_catch, mbind, M_bind, emitEvent, lift, mthrow, M_throw,
    mret, M_ret, errorMessage.
  assert (Htruthy : truthy (configFile service) = true)
    by (destruct (configFile service); [congruence | reflexivity]).
  rewrite Htruthy, Hexists, Hcli, Hpackage. cbn [negb orb fst snd env events clock].
  assert (Hhot : shouldEnableHotReload options = true).
  { unfold shouldEnableHotReload. destruct Hstage as [-> | ->]; reflexivity. }
  rewrite Hhot, Hwatch.
  destruct (dryRun options) eqn:Hdry; cbn [negb].
  - cbn [env events clock]. now rewrite <- !List.app_assoc.
  - destruct Hdeploy as [? | ->]; [discriminate |].
    cbn [env events clock]. now rewrite <- !List.app_assoc.
Qed.

Lemma local_deploy_watcher_failure_witness :
  exists packagePath,
    deployServiceLocal (fun _ => true) (Ok true) (fun _ _ _ => Ok tt) (fun _ _ _ => Ok tt)
      (Some (fun _ => Throw (Error "watcher failed"))) standaloneService devOptions
      emptyWorld =
    (Throw (Error "watcher failed"),
     {| env := env emptyWorld;
        events := events emptyWorld ++
          [BeforeServiceDeploy "orders" "dev" "services/orders/serverless.yml";
           BeforeServicePackage "orders";
           AfterServicePackage "orders" packagePath;
           AfterServiceDeploy "orders" "dev" true None;
           AfterServiceDeploy "orders" "dev" false (Some "watcher failed")];
        clock := clock emptyWorld |}).
Proof.
  apply (local_deploy_watcher_failure (fun _ => true) (Ok true) (fun _ _ _ => Ok tt)
           (fun _ _ _ => Ok tt) (fun _ => Throw (Error "watcher failed")) standaloneService
           devOptions (Error "watcher failed") emptyWorld).
  - discriminate.
  - reflexivity.
  - reflexivity.
  - reflexivity.
  - right. reflexivity.
  - right. reflexivity.
  - reflexivity.
Defined.

(** ** Validation of the environment *)

(** X10. [validateEnvironmentVariables] leaves the process
    environment as it was and publishes the before-validation
    notification, then exactly one more.  Given requirements that are
    an object, it returns; the second notification is the validated
    one, with the resolved variables and no missing one, when the
    result is valid, and otherwise the failed one, with the missing
    variables, of which there is at least one, and one error text for
    each.  Given [undefined] or [null] for the requirements, it throws
    the [TypeError] of the property read, after the failed notification
    with no missing variable and the message of that error. *)
Theorem validation_notifications
    (serviceName environment : string) (stackRequirements : RequirementsArg) (w : World) :
  exists outcome emitted,
    validateEnvironmentVariables serviceName environment stackRequirements w =
    (outcome,
     {| env := env w;
        events := events w ++
          [BeforeEnvironmentValidation serviceName environment; emitted];
        clock := clock w |}) /\
    match stackRequirements, outcome with
    | ArgObject _, Ok res =>
        emitted =
          (if valid res
           then EnvironmentValidated serviceName environment (resolved res) []
           else EnvironmentValidationFailed serviceName environment (missing res)
                  (List.map (fun v => "Missing required environment variable: " +:+ v)
                            (missing res))) /\
        (valid res = false -> missing res <> [])
    | ArgUndefined, Throw e =>
        e = TypeError "Cannot read properties of undefined (reading 'environmentVariables')" /\
        emitted = EnvironmentValidationFailed serviceName environment []
                    ["Cannot read properties of undefined (reading 'environmentVariables')"]
    | ArgNull, Throw e =>
        e = TypeError "Cannot read properties of null (reading 'environmentVariables')" /\
        emitted = EnvironmentValidationFailed serviceName environment []
                    ["Cannot read properties of null (reading 'environmentVariables')"]
    | _, _ => False
    end.
Proof.
  destruct stackRequirements as [| |environmentVariables].
  - rewrite (ResolverFacts.validate_throws serviceName environment ArgUndefined "undefined" w)
      by (left; split; reflexivity).
    eexists _, _. split; [reflexivity |]. split; reflexivity.
  - rewrite (ResolverFacts.validate_throws serviceName environment ArgNull "null" w)
      by (right; split; reflexivity).
    eexists _, _. split; [reflexivity |]. split; reflexivity.
  - rewrite ResolverFacts.validate_run. cbv zeta. eexists _, _. split.
    + f_equal. f_equal. rewrite <- List.app_assoc. cbn [app]. reflexivity.
    + cbn [valid missing resolved].
      destruct (snd (resolveEntries _ _ _ _ _)); cbn [length Nat.eqb].
      * split; [reflexivity | discriminate].
      * split; [reflexivity |]. intros _. discriminate.
Qed.

(** ** Injection of the resolved variables *)

(** X11. When a dependency passes the loop body of
    [deployServiceRemote], every variable derived from its stack is set
    in the process environment afterwards, unless its name is one the
    system refuses (a name that is empty or holds [=]): to the value it
    already had there when the stack was inspected, else to the value
    of its environment-scoped override, else to the value derived from
    the stack.  Under a name the system refuses the environment is as
    it was. *)
Theorem dependency_variables_injected
    (cfn_send : gmap string string -> ClientConfig -> string -> Outcome (option (list Stack)))
    (ssm_send : gmap string string -> ClientConfig -> string ->
                Outcome (option (list SsmParameter)))
    (config : PluginConfig) (service : ServerlessService)
    (options : ServerlessDeploymentOptions) (stackName : string) (w w' : World) :
  checkDependency cfn_send ssm_send config service options stackName w = (Ok tt, w') ->
  let label :=
    match environment options with
    | Some e => if truthy e then e else "default"
    | None => "default"
    end in
  exists res w1 reqs,
    plugin_inspectStack cfn_send ssm_send config stackName (defaultProfile config)
      (defaultRegion config) w = (Ok res, w1) /\
    requirements res = Some reqs /\
    forall varName stackValue,
      Obj.get varName (environmentVariables reqs) = Some stackValue ->
      env w' !! varName =
        if settable varName
        then match env w1 !! varName with
             | Some ambient => Some ambient
             | None =>
                 match env w1 !! (toUpperCase label +:+ "_" +:+ varName) with
                 | Some scoped => Some scoped
                 | None => Some stackValue
                 end
             end
        else env w1 !! varName.
Proof.
  intros Hcheck label. unfold checkDependency in Hcheck.
  unfold mbind at 1 in Hcheck. unfold M_bind at 1 in Hcheck.
  destruct (plugin_inspectStack cfn_send ssm_send config stackName (defaultProfile config)
              (defaultRegion config) w) as [[res|e] w1] eqn:Einspect; [| discriminate].
  exists res, w1.
  destruct (negb (success res)); [discriminate |].
  destruct (requirements res) as [reqs|] eqn:Ereqs; [| discriminate].
  destruct (negb (readyForDeployment reqs)); [discriminate |].
  exists reqs. split; [reflexivity |]. split; [reflexivity |].
  unfold plugin_inspectStack in Einspect.
  destruct (negb (hasStackInspector config)); [discriminate |].
  assert (Hnd : List.NoDup (List.map fst (environmentVariables reqs)))
    by (eapply InjectFacts.inspected_NoDup; eassumption).
  assert (Hlabel : default "default" (or_else (environment options) (Some "default")) = label).
  { unfold label. destruct (environment options) as [e|]; [| reflexivity].
    cbn [or_else]. now destruct (truthy e). }
  rewrite Hlabel in Hcheck.
  unfold mbind at 1 in Hcheck. unfold M_bind at 1 in Hcheck. unfold declaredVariables in Hcheck.
  rewrite ResolverFacts.validate_run in Hcheck. cbv zeta in Hcheck.
  cbn [valid missing resolved default] in Hcheck. unfold id in Hcheck.
  set (result := resolveEntries (env w1) label
                   (Obj.entries (List.map (fun e => (fst e, Some (snd e)))
                                          (environmentVariables reqs))) [] []) in *.
  destruct (length (snd result) =? 0)%nat; [| discriminate]. cbn [negb] in Hcheck.
  intros varName stackValue Hget.
  pose proof (InjectedFacts.inspected_upper _ _ _ _ _ _ _ _ _ _ Einspect Ereqs Hget) as Hupper.
  destruct (InjectedFacts.upper_plain label varName Hupper) as [Hproto [Hown Hscoped]].
  apply (f_equal snd) in Hcheck. cbn [snd] in Hcheck. rewrite <- Hcheck.
  rewrite InjectedFacts.inject_settable. cbn [env].
  destruct (settable varName); [| reflexivity].
  pose proof (InjectFacts.find_last_entries (fst result) varName
                (EffectFacts.resolveEntries_NoDup _ _ _ [] [] (List.NoDup_nil _))) as Hfind.
  assert (Hres : Obj.get varName (fst result) =
                 resolveValue (env w1) label varName (Some stackValue))
    by exact (InjectFacts.resolved_declared (env w1) label _ varName stackValue Hnd Hget
                Hproto).
  rewrite Hres, (ResolverFacts.value_plain _ _ _ _ Hown Hscoped) in Hfind.
  unfold scopedName in Hfind.
  destruct (Obj.find_last _ (Obj.entries (fst result))) as [e|]; cbn [option_map] in Hfind.
  - rewrite Hfind. reflexivity.
  - destruct (env w1 !! varName); [discriminate |].
    destruct (env w1 !! _); discriminate.
Qed.

Lemma dependency_variables_injected_witness :
  exists res w1 reqs,
    plugin_inspectStack sampleControlPlane (fun _ _ _ => Ok None) sampleConfig "vpc-stack"
      None None shellWorld = (Ok res, w1) /\
    requirements res = Some reqs /\
    forall varName stackValue,
      Obj.get varName (environmentVariables reqs) = Some stackValue ->
      env (snd (checkDependency sampleControlPlane (fun _ _ _ => Ok None) sampleConfig
                  sampleService sampleOptions "vpc-stack" shellWorld)) !! varName =
        if settable varName
        then match env w1 !! varName with
             | Some ambient => Some ambient
             | None =>
                 match env w1 !! (toUpperCase "prod" +:+ "_" +:+ varName) with
                 | Some scoped => Some scoped
                 | None => Some stackValue
                 end
             end
        else env w1 !! varName.
Proof.
  apply (dependency_variables_injected sampleControlPlane (fun _ _ _ => Ok None) sampleConfig
           sampleService sampleOptions "vpc-stack" shellWorld
           (snd (checkDependency sampleControlPlane (fun _ _ _ => Ok None) sampleConfig
                   sampleService sampleOptions "vpc-stack" shellWorld))).
  vm_compute. reflexivity.
Defined.

(** ** The stack inspector *)

(** X12. [inspectStack] never throws.  When the control plane
    describes the stack, the result reports success and carries the
    requirements, with no error and no recommendations.  Otherwise it
    reports failure and carries no requirements, an error message and
    recommendations: the not-found message and three recommendations
    when the stack is not found; the text of what the request threw
    when it fails, with three recommendations, or none when the value
    thrown is falsy. *)
Theorem inspection_result_shape
    (cfn_send : gmap string string -> ClientConfig -> string -> Outcome (option (list Stack)))
    (ssm_send : gmap string string -> ClientConfig -> string ->
                Outcome (option (list SsmParameter)))
    (stackName : string) (profileConfig : AWSProfileConfig) (w : World) :
  exists client w1 res w',
    initializeClients profileConfig w = (Ok client, w1) /\
    inspectStack cfn_send ssm_send stackName profileConfig w = (Ok res, w') /\
    match stackOf (cfn_send (env w1) client stackName) with
    | Ok (Some _) =>
        success res = true /\ (exists reqs, requirements res = Some reqs) /\
        error res = None /\ recommendations res = None
    | Ok None =>
        success res = false /\ requirements res = None /\
        error res = Some ("Stack '" +:+ stackName +:+ "' not found or not accessible") /\
        exists advice, recommendations res = Some advice /\ length advice = 3
    | Throw e =>
        success res = false /\ requirements res = None /\
        error res = Some (errorMessage e) /\
        exists advice,
          recommendations res = Some advice /\
          length advice = if errorTruthy e then 3 else 0
    end.
Proof.
  destruct (InspectorFacts.initializeClients_run profileConfig w) as [client [w1 [Hinit _]]].
  destruct (InspectionFacts.inspectStack_at cfn_send ssm_send stackName profileConfig w w1
              client Hinit) as [res [w' [Hrun Hcase]]].
  exists client, w1, res, w'. split; [exact Hinit |]. split; [exact Hrun |].
  destruct (stackOf _) as [[stack|]|e]; cbv zeta in Hcase; subst res;
    cbn [stackNotFound success requirements error recommendations].
  - repeat split. eexists. reflexivity.
  - repeat split. eexists. split; reflexivity.
  - repeat split. eexists. split; [reflexivity |].
    apply InspectionFacts.recommendations_length.
Qed.

(** X13. The only change [inspectStack] makes to the process
    environment is to set [AWS_PROFILE] to the configured profile, and
    it does so only when the profile is not empty and no access key
    pair is configured; this happens whether the inspection succeeds
    or not. *)
Theorem inspection_sets_profile
    (cfn_send : gmap string string -> ClientConfig -> string -> Outcome (option (list Stack)))
    (ssm_send : gmap string string -> ClientConfig -> string ->
                Outcome (option (list SsmParameter)))
    (stackName : string) (profileConfig : AWSProfileConfig) (w : World) :
  env (snd (inspectStack cfn_send ssm_send stackName profileConfig w)) =
  if is_truthy (accessKeyId profileConfig) && is_truthy (secretAccessKey profileConfig)
  then env w
  else match profile profileConfig with
       | Some p => if truthy p then <["AWS_PROFILE" := p]> (env w) else env w
       | None => env w
       end.
Proof.
  destruct (InspectorFacts.inspectStack_run cfn_send ssm_send stackName profileConfig w)
    as [client [w1 [res [w' [Hinit [Hrun [Henv _]]]]]]].
  rewrite Hrun. cbn [snd]. rewrite Henv.
  match type of Hinit with initializeClients _ ?w0 = _ =>
    pose proof (InspectionFacts.initializeClients_env profileConfig w0) as H
  end.
  rewrite Hinit in H. exact H.
Qed.

(** X14. The region recorded in the requirements is the configured
    region when it is not empty, else the value of [AWS_REGION] when
    it is set and not empty, else [us-east-1]. *)
Theorem inspection_region
    (cfn_send : gmap string string -> ClientConfig -> string -> Outcome (option (list Stack)))
    (ssm_send : gmap string string -> ClientConfig -> string ->
                Outcome (option (list SsmParameter)))
    (stackName : string) (profileConfig : AWSProfileConfig) (w w' : World)
    (res : StackInspectionResult) (reqs : StackRequirements) :
  inspectStack cfn_send ssm_send stackName profileConfig w = (Ok res, w') ->
  requirements res = Some reqs ->
  let ambient :=
    match env w !! "AWS_REGION" with
    | Some r => if truthy r then r else "us-east-1"
    | None => "us-east-1"
    end in
  region reqs =
  match cfg_region profileConfig with
  | Some r => if truthy r then r else ambient
  | None => ambient
  end.
Proof.
  intros Hrun Hreqs ambient.
  destruct (InspectionFacts.inspectStack_found cfn_send ssm_send stackName profileConfig
              w w' res reqs Hrun Hreqs) as [client [w1 [stack [found [Henv [_ [_ ->]]]]]]].
  cbn [region]. rewrite Henv, InspectionFacts.initializeClients_region. unfold ambient.
  destruct (cfg_region profileConfig) as [r|]; [destruct (truthy r) eqn:Er |];
    (destruct (env w !! "AWS_REGION") as [a|]; [destruct (truthy a) eqn:Ea |]);
    cbn [or_else]; rewrite ?Er, ?Ea; cbn [or_else]; rewrite ?Er, ?Ea; reflexivity.
Qed.

Lemma inspection_region_witness :
  exists res w' reqs,
    inspectStack (fun _ _ _ => Ok (Some [sampleStack "CREATE_COMPLETE"]))
      (fun _ _ _ => Ok None) "vpc-stack" noProfile emptyWorld = (Ok res, w') /\
    requirements res = Some reqs /\ region reqs = "us-east-1".
Proof.
  eexists _, _, _. split; [vm_compute; reflexivity |]. split; [reflexivity |].
  eapply (inspection_region (fun _ _ _ => Ok (Some [sampleStack "CREATE_COMPLETE"]))
            (fun _ _ _ => Ok None) "vpc-stack" noProfile emptyWorld).
  - vm_compute. reflexivity.
  - reflexivity.
Defined.

(** X15. A failing parameter store does not fail an inspection: when
    the stack is found and every request to the store throws or
    returns no parameter list, the inspection succeeds, no store
    parameter is recorded and the derived variables are those of the
    outputs. *)
Theorem inspection_tolerates_store_failure
    (cfn_send : gmap string string -> ClientConfig -> string -> Outcome (option (list Stack)))
    (ssm_send : gmap string string -> ClientConfig -> string ->
                Outcome (option (list SsmParameter)))
    (stackName : string) (profileConfig : AWSProfileConfig) (w : World) :
  (forall e c, exists stack, stackOf (cfn_send e c stackName) = Ok (Some stack)) ->
  (forall e c p, ssm_send e c p = Ok None \/ exists err, ssm_send e c p = Throw err) ->
  exists res w' reqs,
    inspectStack cfn_send ssm_send stackName profileConfig w = (Ok res, w') /\
    success res = true /\
    requirements res = Some reqs /\
    ssmParameters reqs = [] /\
    forall varName,
      Obj.get varName (environmentVariables reqs) =
      Obj.get varName (generateEnvVarsFromOutputs (outputs reqs)).
Proof.
  intros Hfound Hsilent.
  destruct (InspectorFacts.inspectStack_run cfn_send ssm_send stackName profileConfig w)
    as [client [w1 [res [w' [_ [Hrun [_ [_ Hcase]]]]]]]].
  destruct (Hfound (env w1) client) as [stack Hstack]. rewrite Hstack in Hcase.
  destruct Hcase as [reqs [Hres _]].
  assert (Hreqs : requirements res = Some reqs) by now rewrite Hres.
  destruct (InspectionFacts.inspectStack_found cfn_send ssm_send stackName profileConfig
              w w' res reqs Hrun Hreqs)
    as [client' [w1' [stack' [found [_ [_ [Hprobe Heq]]]]]]].
  rewrite (InspectionFacts.probePaths_nothing ssm_send client' _ Hsilent) in Hprobe.
  injection Hprobe as <-.
  exists res, w', reqs. split; [exact Hrun |]. split; [now rewrite Hres |].
  split; [exact Hreqs |]. rewrite Heq. cbn [ssmParameters environmentVariables outputs].
  split; [reflexivity |]. intros varName.
  rewrite (MergeFacts.get_spread _ _ varName (MergeFacts.NoDup_outputs _)
             (MergeFacts.NoDup_store _)).
  reflexivity.
Qed.

Lemma inspection_tolerates_store_failure_witness :
  exists res w' reqs,
    inspectStack (fun _ _ _ => Ok (Some [sampleStack "CREATE_COMPLETE"]))
      (fun _ _ _ => Throw (Error "AccessDenied")) "vpc-stack" noProfile emptyWorld
      = (Ok res, w') /\
    success res = true /\
    requirements res = Some reqs /\
    ssmParameters reqs = [] /\
    forall varName,
      Obj.get varName (environmentVariables reqs) =
      Obj.get varName (generateEnvVarsFromOutputs (outputs reqs)).
Proof.
  apply (inspection_tolerates_store_failure
           (fun _ _ _ => Ok (Some [sampleStack "CREATE_COMPLETE"]))
           (fun _ _ _ => Throw (Error "AccessDenied")) "vpc-stack" noProfile emptyWorld).
  - intros e c. eexists. reflexivity.
  - intros e c p. right. eexists. reflexivity.
Defined.

(** ** Outputs, parameters and dependencies of a stack *)

(** X16. [extractOutputs] records a value under a key exactly when
    the key is not [__proto__], an assignment under which creates no
    property, and the value is that of the last output with that key
    among the outputs that have both a key and a value, neither being
    empty; outputs without one of them are skipped.  [extractParameters]
    does the same with the parameters. *)
Theorem outputs_and_parameters_recorded (stack : Stack) (key value : string) :
  let outputs := match Outputs stack with Some l => l | None => [] end in
  let parameters := match Parameters stack with Some l => l | None => [] end in
  (Obj.get key (extractOutputs stack) = Some value <->
   key <> "__proto__" /\
   exists before output after,
     outputs = before ++ output :: after /\
     OutputKey output = Some key /\ OutputValue output = Some value /\
     key <> "" /\ value <> "" /\
     forall later, In later after -> OutputKey later = Some key ->
                   is_truthy (OutputValue later) = false) /\
  (Obj.get key (extractParameters stack) = Some value <->
   key <> "__proto__" /\
   exists before parameter after,
     parameters = before ++ parameter :: after /\
     ParameterKey parameter = Some key /\ ParameterValue parameter = Some value /\
     key <> "" /\ value <> "" /\
     forall later, In later after -> ParameterKey later = Some key ->
                   is_truthy (ParameterValue later) = false).
Proof.
  intros outputs parameters. split.
  - unfold extractOutputs.
    replace (default [] (Outputs stack)) with outputs
      by (unfold outputs; now destruct (Outputs stack)).
    apply (RecordFacts.recorded_iff Output OutputKey OutputValue).
  - unfold extractParameters.
    replace (default [] (Parameters stack)) with parameters
      by (unfold parameters; now destruct (Parameters stack)).
    apply (RecordFacts.recorded_iff StackParameter ParameterKey ParameterValue).
Qed.

(** X17. [extractDependencies] returns a list without repetition.  A
    stack that carries no [Dependencies] tag never depends on itself:
    a stack name read from the ARN in an output value is dropped when
    it is the stack's own name. *)
Theorem dependencies_distinct (stack : Stack) :
  List.NoDup (extractDependencies stack) /\
  ((forall tag, In tag (match Tags stack with Some l => l | None => [] end) ->
                Key tag <> Some "Dependencies") ->
   ~ In (StackName stack) (extractDependencies stack)).
Proof.
  split; [apply RecordFacts.dedupe_NoDup |].
  intros Htags Hin. unfold extractDependencies in Hin.
  apply RecordFacts.dedupe_In, in_app_iff in Hin. destruct Hin as [Hin | Hin].
  - apply in_flat_map in Hin as [tag [Htag Hin]].
    assert (Htag' : In tag (match Tags stack with Some l => l | None => [] end))
      by (now destruct (Tags stack)).
    specialize (Htags tag Htag'). destruct (Key tag) as [k|]; [| destruct Hin].
    destruct (String.eqb k "Dependencies") eqn:E; [| destruct Hin].
    apply String.eqb_eq in E. congruence.
  - apply in_flat_map in Hin as [output [_ Hin]].
    destruct (is_truthy (OutputValue output) && _); [| destruct Hin].
    destruct (exec stackArn _) as [m|]; [| destruct Hin].
    destruct (is_truthy (group 1 m)); cbn [andb] in Hin; [| destruct Hin].
    destruct (String.eqb (default "" (group 1 m)) (StackName stack)) eqn:E;
      cbn [negb] in Hin; [destruct Hin |].
    destruct Hin as [Heq | []]. apply String.eqb_neq in E. congruence.
Qed.

Lemma dependencies_distinct_witness :
  extractDependencies linkedStack = ["network-stack"] /\
  ~ In (StackName linkedStack) (extractDependencies linkedStack).
Proof.
  split; [vm_compute; reflexivity |].
  apply (dependencies_distinct linkedStack). intros tag [].
Defined.

(** ** The names of the derived variables *)

(** X18. The name [generateEnvVarsFromSSM] gives a configuration-store
    key consists of upper-case letters, digits and underscores only,
    does not begin or end with an underscore and has no two
    underscores in a row. *)
Theorem store_name_shape (key : string) :
  allb (fun c => is_upper c || is_digit c || is_char "_" c) (ssmEnvVarName key) = true /\
  startsWith (ssmEnvVarName key) "_" = false /\
  endsWith (ssmEnvVarName key) "_" = false /\
  includes (ssmEnvVarName key) "__" = false.
Proof.
  rewrite NameFacts.ssmEnvVarName_spec. unfold NameSpec.storeName, NameSpec.trimSeparators,
    toUpperCase.
  repeat split.
  - apply (NameShapeFacts.allb_map (fun c => is_alnum c || is_char "_" c)).
    + intros c H. apply orb_true_iff in H as [H | H].
      * now rewrite (NameShapeFacts.upper_char_alnum c H).
      * rewrite NameShapeFacts.upper_char_underscore, H. apply orb_true_r.
    + apply NameShapeFacts.allb_stripTrailing, NameShapeFacts.allb_stripLeading,
        NameShapeFacts.allb_collapseRuns.
  - rewrite NameShapeFacts.map_start.
    apply NameShapeFacts.stripTrailing_start, NameShapeFacts.stripLeading_start.
  - rewrite NameShapeFacts.map_end. apply NameShapeFacts.stripTrailing_end.
  - rewrite NameShapeFacts.includes_double, NameShapeFacts.noDouble_map.
    rewrite NameShapeFacts.noDouble_stripTrailing; [reflexivity |].
    apply NameShapeFacts.noDouble_stripLeading.
    rewrite NameFacts.collapseRuns_map. apply NameFacts.collapse_noDouble.
Qed.

(** X19. The name [generateEnvVarsFromOutputs] gives an output key has
    no lower-case letter; a key without lower-case letters is its own
    name, so that naming a name again changes nothing. *)
Theorem output_name_shape (key : string) :
  allb (fun c => negb (is_lower c)) (outputEnvVarName key) = true /\
  (allb (fun c => negb (is_lower c)) key = true -> outputEnvVarName key = key) /\
  outputEnvVarName (outputEnvVarName key) = outputEnvVarName key.
Proof.
  assert (Hfixed : forall s, allb (fun c => negb (is_lower c)) s = true ->
                             outputEnvVarName s = s).
  { intros s Hs. rewrite NameFacts.outputEnvVarName_spec. unfold NameSpec.outputName.
    rewrite (NameShapeFacts.insertBoundaries_fixed s Hs).
    apply (NameShapeFacts.map_fixed s Hs). }
  assert (Hupper : allb (fun c => negb (is_lower c)) (outputEnvVarName key) = true).
  { rewrite NameFacts.outputEnvVarName_spec. apply NameShapeFacts.map_no_lower. }
  split; [exact Hupper |]. split; [apply Hfixed | apply Hfixed, Hupper].
Qed.

(** ** The dependency scanner *)

(** X20. [isPathSafe] accepts every path inside the base directory: a
    path whose resolved segments begin with the segments of the
    resolved project root (of the working directory when no root is
    given) passes the check. *)
Theorem descendant_is_safe (cwd filePath : string) (projectRoot : option string) :
  path_resolve cwd cwd = cwd ->
  let baseDir :=
    match projectRoot with
    | Some root => if truthy root then path_resolve cwd root else cwd
    | None => cwd
    end in
  isDescendant baseDir (path_resolve cwd filePath) = true ->
  isPathSafe cwd filePath projectRoot = true.
Proof.
  intros Hcwd baseDir Hinside.
  assert (Hbase : exists p, baseDir = path_resolve cwd p).
  { unfold baseDir. destruct projectRoot as [root|]; [destruct (truthy root) |]; eauto. }
  assert (Hsafe : isPathSafe cwd filePath projectRoot
                  = startsWith (path_resolve cwd filePath) baseDir).
  { unfold isPathSafe, baseDir. destruct projectRoot as [root|]; [| reflexivity].
    cbn [is_truthy default]. now destruct (truthy root). }
  rewrite Hsafe. destruct Hbase as [p Hp]. rewrite Hp in *. clear Hsafe Hp baseDir.
  unfold isDescendant in Hinside. rewrite !PathFacts.path_resolve_segments in Hinside.
  apply PathFacts.join_prefix in Hinside as [rest Hrest].
  unfold path_resolve at 1. rewrite Hrest. unfold path_resolve.
  rewrite <- app_assoc. apply PathFacts.startsWith_app.
Qed.

Lemma descendant_is_safe_witness :
  isPathSafe "/srv/app" "services/../services/orders/serverless.yml" (Some "/srv/app") = true.
Proof.
  apply (descendant_is_safe "/srv/app" "services/../services/orders/serverless.yml"
           (Some "/srv/app")).
  - vm_compute. reflexivity.
  - vm_compute. reflexivity.
Defined.

(** X21. A reference [${cf:<stack>.<output>}] is cut at its last dot:
    when the stack part holds no placeholder and the output part no
    dot, [scanCFImports] takes the one for the stack name and the other
    for the output name, and takes nothing when either is empty. *)
Theorem cf_reference_split (stack output : string) :
  lacks "." output = true ->
  includes stack "${" = false ->
  cfImport (stack +:+ "." +:+ output) =
  if truthy stack && truthy output then Some (stack, output) else None.
Proof.
  intros Houtput Hplain. unfold cfImport.
  assert (Hnonempty : truthy (stack +:+ "." +:+ output) = true) by now destruct stack.
  rewrite Hnonempty. cbn [negb]. unfold lastIndexOf.
  change (stack +:+ "." +:+ output) with (stack +:+ String "." output).
  rewrite (ImportFacts.lastIndexOf_aux_app "." stack output Houtput 0). cbn [Nat.add].
  destruct stack as [|c stack]; [reflexivity |].
  assert (Hpos : (0 <? String.length (String c stack))%nat = true) by reflexivity.
  rewrite Hpos, take_app.
  replace (String.length (String c stack) + 1)
    with (String.length (String c stack +:+ ".")) by (rewrite length_app; reflexivity).
  change (String c stack +:+ String "." output)
    with (String c stack +:+ "." +:+ output).
  rewrite <- app_assoc, drop_app, Hplain. cbn [truthy andb negb].
  now destruct (truthy output).
Qed.

Lemma cf_reference_split_witness :
  cfImport "api-gateway-stack.RestApiUrl" = Some ("api-gateway-stack", "RestApiUrl").
Proof.
  apply (cf_reference_split "api-gateway-stack" "RestApiUrl"); reflexivity.
Defined.

(** X22. A reference [${cf:...}] without a dot names no stack:
    [scanCFImports] takes nothing from it. *)
Theorem cf_reference_without_dot (reference : string) :
  lacks "." reference = true -> cfImport reference = None.
Proof.
  intros Hplain. unfold cfImport. destruct (negb (truthy reference)); [reflexivity |].
  unfold lastIndexOf. now rewrite (ImportFacts.lastIndexOf_aux_none "." reference Hplain).
Qed.

Lemma cf_reference_without_dot_witness : cfImport "stack" = None.
Proof. apply (cf_reference_without_dot "stack"). reflexivity. Defined.

(** X23. [scanDependencies] announces what it returns: the list
    returned has no repetition, a stack name is in it exactly when a
    dependency event with that target was published during the scan,
    the scan publishes no other kind of event and it leaves the process
    environment as it was. *)
Theorem scan_result_and_events
    (Doc : Type) (fs_stat : string -> Outcome N) (fs_readFile : string -> Outcome string)
    (yaml_load : string -> Outcome Doc) (yaml_dump : Doc -> Outcome string)
    (cwd configPath : string) (projectRoot : option string) (w : World) :
  exists deps w' emitted,
    scanDependencies Doc fs_stat fs_readFile yaml_load yaml_dump cwd configPath projectRoot w
      = (Ok deps, w') /\
    env w' = env w /\
    events w' = events w ++ emitted /\
    forallb isDependencyDetected emitted = true /\
    List.NoDup deps /\
    forall d, In d deps <-> exists e, In e emitted /\ targetOf e = Some d.
Proof.
  assert (Hnothing : exists deps w' emitted,
             (Ok ([] : list string), w) = (Ok deps, w') /\ env w' = env w /\
             events w' = events w ++ emitted /\
             forallb isDependencyDetected emitted = true /\ List.NoDup deps /\
             forall d, In d deps <-> exists e, In e emitted /\ targetOf e = Some d).
  { exists [], w, []. rewrite List.app_nil_r. repeat split; try constructor.
    - intros [].
    - intros [e [[] _]]. }
  rewrite ScannerFacts.scan_catches.
  destruct (ScanFacts.body_cases Doc fs_stat fs_readFile yaml_load yaml_dump cwd configPath
              projectRoot w)
    as [outcome [w1 [-> [[e [-> ->]] | [targets [imports [-> ->]]]]]]]; [exact Hnothing |].
  eexists _, _, _. split; [reflexivity |]. split; [reflexivity |]. cbn [events].
  split; [reflexivity |]. split; [| split].
  - rewrite forallb_app. apply andb_true_iff. split; apply forallb_forall;
      intros e He; apply in_map_iff in He as [x [<- _]]; reflexivity.
  - apply RecordFacts.fold_set_add_NoDup, RecordFacts.fold_set_add_NoDup. constructor.
  - intros d. rewrite !RecordFacts.fold_set_add_In. split.
    + intros [[Hd | []] | [[Hd | []] | []]].
      * apply in_map_iff in Hd as [i [<- Hi]].
        exists (DependencyDetected "cloudformation" configPath (fst i) (Some (snd i))).
        split; [| reflexivity]. apply in_app_iff. right. apply in_map_iff. eauto.
      * exists (DependencyDetected "ssm" configPath d None).
        split; [| reflexivity]. apply in_app_iff. left. apply in_map_iff. eauto.
    + intros [e [He Ht]]. apply in_app_iff in He as [He | He];
        apply in_map_iff in He as [x [<- Hx]]; cbn [targetOf] in Ht; injection Ht as <-.
      * right. left. now left.
      * left. left. apply in_map_iff. eauto.
Qed.

(** X24. [extractStackFromSSMPath] never returns the empty string, and
    neither does [extractBaseStackName]: what they return is a name or
    null. *)
Theorem extracted_names_not_empty (text : string) :
  extractStackFromSSMPath text <> Some "" /\ extractBaseStackName text <> Some "".
Proof.
  split; intros H.
  - now apply ResultFacts.stack_nonempty in H.
  - now apply ResultFacts.base_nonempty in H.
Qed.

(** X25. On a parameter path that holds no placeholder and no asterisk,
    [extractStackFromSSMPath] returns the first non-empty segment that
    contains [stack] or one of the known service keywords; when there
    is none it returns the first non-empty segment, and null when the
    path has no non-empty segment. *)
Theorem plain_path_stack (ssmPath : string) :
  lacks "$" ssmPath = true -> lacks "*" ssmPath = true ->
  let segments := List.filter truthy (split "/" ssmPath) in
  extractStackFromSSMPath ssmPath =
  match find (fun segment => includes segment "stack" || isKnownStackName segment)
             segments with
  | Some segment => Some segment
  | None => match segments with first :: _ => Some first | [] => None end
  end.
Proof.
  intros Hdollar Hstar segments. unfold extractStackFromSSMPath.
  rewrite (ParserFacts.plain_path_not_interpolated _ Hdollar),
    (ParserFacts.plain_path_untouched _ Hdollar),
    (ResultFacts.pathPartsOf_plain _ Hstar).
  fold segments. rewrite ResultFacts.firstStackLike_plain.
  - destruct (find _ segments); [reflexivity |].
    destruct segments as [|first rest] eqn:E; [reflexivity |].
    assert (Hin : In first segments) by (rewrite E; now left).
    apply filter_In in Hin as [_ ->]. reflexivity.
  - intros part Hpart. apply filter_In in Hpart as [Hpart _].
    now apply (PathFacts.split_lacks "/" "*" ssmPath Hstar).
Qed.

Lemma plain_path_stack_witness :
  extractStackFromSSMPath "/dev/rds-stack/endpoint" = Some "rds-stack".
Proof.
  apply (plain_path_stack "/dev/rds-stack/endpoint"); reflexivity.
Defined.

(** X26. A configuration whose text contains neither [${ssm:] nor
    [${cf:] has no dependency: both scans return the empty list and
    publish nothing. *)
Theorem scan_without_references
    (Doc : Type) (yaml_dump : Doc -> Outcome string) (content : Doc)
    (text filePath : string) (w : World) :
  yaml_dump content = Ok text ->
  includes text "${ssm:" = false ->
  includes text "${cf:" = false ->
  scanSSMReferences Doc yaml_dump content filePath w = (Ok [], w) /\
  scanCFImports Doc yaml_dump content filePath w = (Ok [], w).
Proof.
  intros Hdump Hssm Hcf.
  unfold scanSSMReferences, scanCFImports, mbind, M_bind, lift. rewrite Hdump.
  unfold ssmPattern, cfPattern.
  rewrite (AbsenceFacts.literal_absent "${ssm:" _ text Hssm),
    (AbsenceFacts.literal_absent "${cf:" _ text Hcf).
  split; reflexivity.
Qed.

Lemma scan_without_references_witness :
  scanSSMReferences string Ok "stage: ${opt:stage}" "serverless.yml" emptyWorld
    = (Ok [], emptyWorld) /\
  scanCFImports string Ok "stage: ${opt:stage}" "serverless.yml" emptyWorld
    = (Ok [], emptyWorld).
Proof.
  apply (scan_without_references string Ok "stage: ${opt:stage}" "stage: ${opt:stage}"
           "serverless.yml" emptyWorld); reflexivity.
Defined.

(** X27. [isKnownStackName] ignores the case of letters: a name and
    its upper-case and lower-case forms are known together. *)
Theorem known_name_ignores_case (name : string) :
  isKnownStackName (toUpperCase name) = isKnownStackName name /\
  isKnownStackName (toLowerCase name) = isKnownStackName name.
Proof.
  unfold isKnownStackName.
  now rewrite NameShapeFacts.toLowerCase_toUpperCase, NameShapeFacts.toLowerCase_toLowerCase.
Qed.

(** ** The pattern detector *)

(** X28. When the search for configuration files succeeds, the
    detector's [scan] returns and publishes its two notifications, the
    second with the number and the names of the services returned.
    The configuration files of the services returned are exactly the
    files found that [loadYaml] could load and whose [service] property
    could be read; a file that [isPathSafe] rejects, its resolved path
    not beginning with the text of the resolved project root, or a
    file larger than ten mebibytes is left out without an error.  Every
    service lies in the directory of its file and has no dependency. *)
Theorem detection_finds_loadable_services
    (Doc : Type) (glob : list string -> string -> list string -> Outcome (list string))
    (fs_stat : string -> Outcome N) (fs_readFile : string -> Outcome string)
    (yaml_load : string -> Outcome Doc) (config_service : Doc -> Outcome (option string))
    (path_dirname path_basename : string -> string) (cwd projectRoot : string)
    (files : list string) (published : list DetectionEvent) :
  findServerlessConfigs glob projectRoot = Ok files ->
  exists services,
    detector_scan Doc glob fs_stat fs_readFile yaml_load config_service path_dirname
      path_basename cwd projectRoot published =
    (Ok services,
     published ++
       [BeforePatternDetection projectRoot;
        AfterPatternDetection services (length services) (List.map name services)]) /\
    (forall file,
        In file (List.map configFile services) <->
        In file files /\
        exists config service,
          loadYaml Doc fs_stat fs_readFile yaml_load cwd projectRoot file = Ok config /\
          config_service config = Ok service) /\
    (forall file,
        detector_isPathSafe cwd projectRoot file = false \/
        (exists size, fs_stat file = Ok size /\ (maxFileSize < size)%N) ->
        ~ In file (List.map configFile services)) /\
    (forall s, In s services ->
               path s = path_dirname (configFile s) /\ svc_dependencies s = []).
Proof.
  intros Hfiles. unfold detector_scan. rewrite Hfiles.
  eexists. split; [rewrite <- List.app_assoc; reflexivity |].
  assert (Hparsed : forall s,
             In s (parseServices Doc fs_stat fs_readFile yaml_load config_service
                     path_dirname path_basename cwd projectRoot files) <->
             exists file, In file files /\
               parseService Doc fs_stat fs_readFile yaml_load config_service path_dirname
                 path_basename cwd projectRoot file = Some s).
  { intros s. unfold parseServices. rewrite <- list_elem_of_In, list_elem_of_omap.
    split; intros [file [Hin Hs]]; exists file; (split; [| exact Hs]);
      now apply list_elem_of_In. }
  assert (Hfile : forall file s,
             parseService Doc fs_stat fs_readFile yaml_load config_service path_dirname
               path_basename cwd projectRoot file = Some s ->
             configFile s = file /\ path s = path_dirname file /\ svc_dependencies s = [] /\
             exists config service,
               loadYaml Doc fs_stat fs_readFile yaml_load cwd projectRoot file = Ok config /\
               config_service config = Ok service).
  { intros file s. unfold parseService.
    destruct (loadYaml _ _ _ _ _ _ file) as [config|e]; [| discriminate].
    destruct (config_service config) as [service|e] eqn:Eservice; [| discriminate].
    intros [= <-]. cbn. eauto 7. }
  assert (Hloaded : forall file,
             In file (List.map configFile
                        (parseServices Doc fs_stat fs_readFile yaml_load config_service
                           path_dirname path_basename cwd projectRoot files)) <->
             In file files /\
             exists config service,
               loadYaml Doc fs_stat fs_readFile yaml_load cwd projectRoot file = Ok config /\
               config_service config = Ok service).
  { intros file. rewrite in_map_iff. split.
    - intros [s [<- Hs]]. apply Hparsed in Hs as [file [Hin Hs]].
      destruct (Hfile file s Hs) as [-> [_ [_ Hload]]]. auto.
    - intros [Hin [config [service [Hload Hservice]]]].
      eexists. split; [| apply Hparsed; exists file; split; [exact Hin |]].
      2: { unfold parseService. rewrite Hload, Hservice. reflexivity. }
      reflexivity. }
  split; [exact Hloaded |]. split.
  - intros file Hbad Hin. apply Hloaded in Hin as [_ [config [service [Hload _]]]].
    unfold loadYaml in Hload. destruct Hbad as [Hunsafe | [size [Hstat Hsize]]].
    + rewrite Hunsafe in Hload. discriminate Hload.
    + destruct (negb _); [discriminate Hload |].
      apply N.ltb_lt in Hsize. rewrite Hstat, Hsize in Hload. discriminate Hload.
  - intros s Hs. apply Hparsed in Hs as [file [_ Hs]].
    destruct (Hfile file s Hs) as [-> [Hpath [Hdeps _]]]. auto.
Qed.

Lemma detection_finds_loadable_services_witness :
  exists services,
    detector_scan string sampleGlob (fun _ => Ok 64%N) (fun _ => Ok "service: api") Ok
      (fun _ => Ok (Some "api")) (fun p => p) (fun p => p) "/proj" "/proj" [] =
    (Ok services,
     [] ++ [BeforePatternDetection "/proj";
            AfterPatternDetection services (length services) (List.map name services)]) /\
    (forall file,
        In file (List.map configFile services) <->
        In file ["/proj/api/serverless.yml"; "/elsewhere/serverless.yml"] /\
        exists config service,
          loadYaml string (fun _ => Ok 64%N) (fun _ => Ok "service: api") Ok "/proj" "/proj"
            file = Ok config /\
          (fun _ : string => Ok (Some "api")) config = Ok service) /\
    (forall file,
        detector_isPathSafe "/proj" "/proj" file = false \/
        (exists size, (fun _ : string => Ok 64%N) file = Ok size /\ (maxFileSize < size)%N) ->
        ~ In file (List.map configFile services)) /\
    (forall s, In s services ->
               path s = (fun p : string => p) (configFile s) /\ svc_dependencies s = []).
Proof.
  apply (detection_finds_loadable_services string sampleGlob (fun _ => Ok 64%N)
           (fun _ => Ok "service: api") Ok (fun _ => Ok (Some "api")) (fun p => p)
           (fun p => p) "/proj" "/proj"
           ["/proj/api/serverless.yml"; "/elsewhere/serverless.yml"] []).
  reflexivity.
Defined.

(** ** The registry of watchers *)

(** X29. [startWatching] touches the watcher of its own service only.
    When it returns, the watcher registered for the service is the one
    just created.  When it throws, either no watcher is registered for
    the service any more, or the error is that of closing the
    previously registered watcher, which stays registered. *)
Theorem watcher_registry
    (Watcher : Type) (chokidar_watch : list string -> Outcome Watcher)
    (watcher_close : Watcher -> Outcome unit) (fs_existsSync : string -> bool)
    (path_join : string -> string -> string)
    (service : ServerlessService) (watchers : gmap string Watcher) :
  let run :=
    startWatching Watcher chokidar_watch watcher_close fs_existsSync path_join service
      watchers in
  (forall other, other <> name service -> snd run !! other = watchers !! other) /\
  match fst run with
  | Ok _ =>
      exists watcher,
        chokidar_watch (getWatchPaths fs_existsSync path_join service) = Ok watcher /\
        snd run !! name service = Some watcher
  | Throw e =>
      snd run !! name service = None \/
      exists previous,
        watchers !! name service = Some previous /\ watcher_close previous = Throw e /\
        snd run !! name service = Some previous
  end.
Proof.
  cbv zeta. unfold startWatching, stopWatchingService.
  destruct (watchers !! name service) as [previous|] eqn:Eprevious.
  - destruct (watcher_close previous) as [[]|e] eqn:Eclose.
    + destruct (chokidar_watch _) as [watcher|e] eqn:Ewatch; cbn [fst snd].
      * split.
        -- intros other Hother. rewrite lookup_insert_ne by congruence.
           now rewrite lookup_delete_ne by congruence.
        -- exists watcher. split; [reflexivity | apply lookup_insert_eq].
      * rewrite lookup_delete_eq. cbn [fst snd]. split.
        -- intros other Hother. now rewrite lookup_delete_ne by congruence.
        -- left. apply lookup_delete_eq.
    + rewrite Eprevious, Eclose. cbn [fst snd]. split; [reflexivity |].
      right. exists previous. auto.
  - destruct (chokidar_watch _) as [watcher|e] eqn:Ewatch; cbn [fst snd].
    + split.
      * intros other Hother. now rewrite lookup_insert_ne by congruence.
      * exists watcher. split; [reflexivity | apply lookup_insert_eq].
    + rewrite Eprevious. cbn [fst snd]. auto.
Qed.

(** ** Resolution of the declared variables *)

(** X30. Given requirements that are an object, validation returns, and
    for every declared variable it consults three sources in order:
    what [process.env] reads under the bare name, what it reads under
    [<UPPERCASED environment>_<variable>], and the stack-derived value;
    a read of [process.env] finds the variable of that name and, when
    there is none, the member of that name every object inherits.  A
    variable whose name is not [__proto__] is resolved to the first
    defined source; a variable is reported missing exactly when none of
    the three is defined; only declared variables are reported, and
    [valid] holds exactly when nothing is missing.  Under a name that
    no object inherits, the read is that of the variable. *)
Theorem environment_resolution
    (serviceName environment : string) (declared : Obj.t (option string)) (w : World) :
  List.NoDup (List.map fst declared) ->
  exists res w',
    validateEnvironmentVariables serviceName environment (ArgObject (Some declared)) w
      = (Ok res, w') /\
    (forall varName stackValue,
        In (varName, stackValue) declared ->
        let ambient := env_get (env w) varName in
        let scoped := env_get (env w) (toUpperCase environment +:+ "_" +:+ varName) in
        (varName <> "__proto__" ->
         Obj.get varName (resolved res) =
           match ambient with
           | Some value => Some value
           | None => match scoped with
                     | Some value => Some value
                     | None => stackValue
                     end
           end) /\
        (In varName (missing res) <->
         ambient = None /\ scoped = None /\ stackValue = None)) /\
    (forall varName, In varName (missing res) -> In varName (List.map fst declared)) /\
    (valid res = true <-> missing res = []) /\
    (forall name, Obj.get name objectPrototype = None ->
                  env_get (env w) name = env w !! name).
Proof.
  intros Hnd. rewrite ResolverFacts.validate_run. cbv zeta. eexists _, _.
  split; [reflexivity |]. cbn [resolved missing valid default]. unfold id.
  set (entries := Obj.entries declared).
  assert (Hvalue : forall varName stackValue, In (varName, stackValue) declared ->
            forall stackValue', In (varName, stackValue') entries ->
              resolveValue (env w) environment varName stackValue' =
              resolveValue (env w) environment varName stackValue).
  { intros v sv Hin sv' Hin'.
    now rewrite (ResolverFacts.unique_value declared v sv sv' Hnd Hin Hin'). }
  split; [| split; [| split]].
  - intros varName stackValue Hin. split.
    + intros Hname.
      rewrite (ResolverFacts.resolveEntries_resolved _ _ entries [] [] varName _
                 (Hvalue _ _ Hin) Hname).
      rewrite (ResolverFacts.existsb_key entries varName stackValue)
        by (now apply In_entries).
      rewrite ResolverFacts.value_eq. unfold scopedName.
      destruct (env_get (env w) varName); [reflexivity |].
      destruct (env_get (env w) _); [reflexivity |]. now destruct stackValue.
    + rewrite ResolverFacts.resolveEntries_missing. split.
      * intros [[] | [sv' [Hin' Hnone]]].
        rewrite (Hvalue _ _ Hin _ Hin'), ResolverFacts.value_eq in Hnone.
        unfold scopedName in Hnone.
        destruct (env_get (env w) varName); [discriminate |].
        destruct (env_get (env w) _); [discriminate |]. auto.
      * intros [H1 [H2 ->]]. right. exists None. split; [now apply In_entries |].
        rewrite ResolverFacts.value_eq. unfold scopedName. now rewrite H1, H2.
  - intros varName H. apply ResolverFacts.resolveEntries_missing in H as [[] | [sv [Hin _]]].
    apply (proj1 (In_entries _ _)) in Hin. apply in_map_iff. exists (varName, sv). auto.
  - destruct (snd (resolveEntries _ _ _ _ _)); simpl; split; intros H;
      try reflexivity; discriminate.
  - intros name. apply ResolverFacts.env_get_plain.
Qed.

Lemma environment_resolution_witness :
  exists res w',
    validateEnvironmentVariables "orders" "prod"
      (ArgObject (Some [("DB_HOST", Some "db.example"); ("API_KEY", None);
                        ("valueOf", None)]))
      shellWorld = (Ok res, w') /\
    Obj.get "DB_HOST" (resolved res) = Some "db.example" /\
    In "API_KEY" (missing res) /\
    Obj.get "valueOf" (resolved res) = Some "function valueOf() { [native code] }" /\
    valid res = false.
Proof.
  assert (Hnd : List.NoDup
            (List.map fst [("DB_HOST", Some "db.example"); ("API_KEY", @None string);
                           ("valueOf", @None string)])).
  { repeat constructor; simpl; intuition discriminate. }
  destruct (environment_resolution "orders" "prod"
              [("DB_HOST", Some "db.example"); ("API_KEY", None); ("valueOf", None)]
              shellWorld Hnd)
    as [res [w' [Hrun [Hvars [_ [Hvalid _]]]]]].
  exists res, w'. split; [exact Hrun |].
  destruct (Hvars "DB_HOST" (Some "db.example")) as [Hdb _]; [simpl; auto |].
  destruct (Hvars "API_KEY" None) as [_ Hkey]; [simpl; auto |].
  destruct (Hvars "valueOf" None) as [Hmember _]; [simpl; auto |].
  split; [apply Hdb; discriminate |].
  assert (Hmiss : In "API_KEY" (missing res)) by (apply Hkey; repeat split; reflexivity).
  split; [exact Hmiss |]. split; [apply Hmember; discriminate |].
  destruct (valid res); [| reflexivity].
  rewrite (proj1 Hvalid eq_refl) in Hmiss. destruct Hmiss.
Defined.
